(* ===== verification/_CoqProject ===== *)
-Q . S2P
Prelude.v
Bytes.v
Text.v
Wire.v
WireLemmas.v
WireProps.v
Core.v
CoreSpec.v
CoreLemmas.v
CoreEffects.v
CoreReceive.v
CoreStep.v
CoreRuns.v
CoreProps.v
CoreHandlers.v
CoreTimers.v
CoreTransfer.v
CoreSession.v
CoreRestart.v
CoreClock.v
Ice.v
IceProps.v
Stun.v
StunProps.v
Consent.v
ConsentProps.v
Turn.v
TurnProps.v
Replay.v
ReplayProps.v
Policy.v
PolicyProps.v
Dtls.v
DtlsProps.v
Store.v
StoreSpec.v
StoreProps.v
StoreRace.v
Disk.v
DiskLemmas.v
DiskSteps.v
DiskSamples.v
DiskProps.v
RedisServer.v
Redis.v
RedisLemmas.v
RedisSteps.v
RedisSamples.v
RedisProps.v
TimerQueue.v
ClientRuntime.v
ClientProps.v
ServerRuntime.v
ServerLemmas.v
ServerProps.v
ServerSilence.v
ServerRestart.v
Ffi.v
PacketLog.v
PacketLogProps.v
Jni.v
FfiProps.v
JniProps.v
FfiSession.v
FfiTransfer.v
