(* ===== verification/Prelude.v ===== *)
(** * A verification library for the Todero Protocol V3 native runtime

    The program (a Rust workspace, [src/v3-*]) gives client and server hosts a datagram protocol
    with ordered, exactly-once delivery, DTLS, NAT traversal and persistent sessions, behind a C
    and a Java interface.  Its crates call each other from the bottom up: frames ([v3-wire]) carry
    a state machine ([v3-core]); the client and server runtimes ([v3-client-runtime],
    [v3-server-runtime]) own machines, the timers the machines ask for, and, on the server, a
    session store ([v3-store]); the NAT managers ([v3-nat]) and the handshake providers
    ([v3-crypto]) stand beside them; and [v3-ffi] keeps runtimes behind handles, puts TLS in front
    of them and buffers what they produce until the host reads it.

    ** Files and sources

    - [Prelude] (this file): results of Rust calls, the state monad, machine integers, ordered
      maps, and the rules and tactics for running methods.  [Bytes]: big-endian integers, readers,
      [chunks].  [Text]: UTF-8, lines, trimming.
    - [Wire] ([v3-wire/src/lib.rs]), with [WireLemmas] and [WireProps].
    - [Core] ([v3-core/src/lib.rs]): [CoreMachine] and one definition per method.  [CoreSpec] says
      what a machine promises; [CoreLemmas], [CoreEffects], [CoreReceive], [CoreStep] and
      [CoreRuns] prove it of one handler, one call and any run; [CoreProps], [CoreHandlers],
      [CoreTimers], [CoreTransfer] (what one side carries to the other), [CoreSession] (whole
      conversations), [CoreRestart] (a machine that starts anew) and [CoreClock] hold the
      properties.
    - [Ice], [Stun], [Consent], [Turn] ([v3-nat/src/lib.rs]), each with its [...Props].
    - [Replay], [Policy], [Dtls] ([v3-crypto/src/lib.rs]), each with its [...Props].
    - [Store] ([v3-store/src/lib.rs], the trait, the in-memory store, the record codec), [StoreSpec]
      (the contract [LawfulStore] of every store), [StoreProps] and [StoreRace] (threads on one
      in-memory store); [Disk] (the disk store, its
      files and their faults), [DiskLemmas], [DiskSteps], [DiskSamples] and [DiskProps]; [RedisServer] (what the
      server, its Lua numbers and the [redis] crate promise), [Redis] (the scripts and the calls of
      the Redis store), [RedisLemmas], [RedisSteps], [RedisSamples] and [RedisProps].
    - [TimerQueue] (the queue both runtimes keep), [ClientRuntime] and [ClientProps]
      ([v3-client-runtime/src/lib.rs]), [ServerRuntime], [ServerLemmas], [ServerProps],
      [ServerSilence] and [ServerRestart] ([v3-server-runtime/src/lib.rs]).
    - [Ffi], [PacketLog] and [Jni] ([v3-ffi/src/lib.rs]), [FfiProps], [PacketLogProps], [JniProps],
      and two hosts running against each other through the C interface: [FfiSession] (they
      establish a session) and [FfiTransfer] (they exchange messages).

    Structs are records and enums are inductive types with the source's field and constructor
    names; every function is a definition of the same name, its guards and early returns in the
    order of the code.

    ** Conventions

    - A fallible call returns an [outcome]: [Ok], [Err], or [Panic] (an index out of range, a
      failed [expect], a read past the end).  A method that changes its object is a computation in
      [ST S E A]: it gives an outcome and the new state, and the state keeps what was written
      before an error, as it does behind a [&mut] reference.
    - A machine integer is a [Z] with its arithmetic written out: [add64] and [mul64] wrap,
      [sat_add] and the like saturate, [as_u16] casts.  Unchecked additions wrap, as in the
      release profile.
    - A [BTreeMap] is a [gmap] read in key order ([bt_entries]); a [HashMap] is a [gmap] whose
      iteration order is a parameter, a permutation of its entries.
    - Code outside the repository is a parameter with the laws it documents: HMAC-SHA256 and
      OpenSSL ([Replay], [Dtls]), [serde_json] ([Store], [Disk], [ClientRuntime]), the Redis server
      and its crate ([RedisServer]), base64, the stopwatch of the latency counters, the hash of
      [DefaultHasher], the parser of IP addresses, the environment variables, the existence of a
      file, and the JSON, [Debug] and [Display] texts of the interface.  Every class of laws has an
      instance that satisfies it, which the witnesses use.

    ** What the theorems show

    - Wire: the decoder accepts exactly the layouts of valid frames, and inverts the encoder.
    - Core, one machine: whatever a hostile peer and any host do, no call panics, messages are
      delivered once and in order, requested ranges are consecutive, the life cycle moves forward,
      every frame sent is genuine, timer values stay in bounds.  Two machines: what is received is a
      prefix of what was sent over any network; complete traffic is delivered; a requested range is
      transferred; the handshake establishes both sides, and on a network that works a conversation
      in both directions, of messages of at most 65535 fragments, is then delivered whole; a new
      server hears everything its client was ever given; a negotiation ends in agreement;
      silence ends in [Lost].
    - Crypto: the replay window refines a set of seen numbers; a frame verifies exactly when it is
      fresh and tagged; the handshake of either adapter completes only under a configuration that
      passes the policy; amplification before authentication is bounded until the allowance
      reaches the end of [u64].
    - NAT: the STUN parser accepts exactly the layouts of success responses; the checks of a
      checklist are its pairs by priority, each once; silence loses a path; the TURN ticks follow the deadlines.
    - Store: the in-memory store and the disk store on a healthy disk both refine a map with
      expiry; calls and scans that threads interleave on one in-memory store still do, each step of
      a scan takes out exactly what it reports, a scan never waits and alone is [scan_expired];
      stale swaps conflict; a compaction is crash safe at every call on the disk, after any
      number of bytes.  A torn append and the racing of two writers are the disk store's gaps.
      The Redis store refines the same map while the server's clock does not overtake the
      callers'; when the clocks agree its scan reports a session only in the very millisecond it
      expires, a lost reply hides a swap that was made, and a time to live the server refuses leaves half a write.
    - Runtimes: the clock of every live machine never stops; over any lawful store a datagram
      serves its own session and nothing else, in memory and store alike; a silent session is given
      up and forgotten after a number of polls known in advance; a server that restarts does not take
      up the sessions of its store: it is silent to a client that only sends, lets its timers fire
      and moves, and once the client says hello again its own messages are taken for old ones; discovery loads all candidates or none.
    - Packet log: repetitions are reported with their number and the time since the last one, and
      only packets of more than a minute ago are forgotten.
    - Interface: every handle stays well typed over any calls of any hosts; TLS gates the engine;
      a Java host reads back exactly what its client sent; two hosts that carry each other's
      datagrams establish TLS, both machines and the stored session, and then read exactly the
      messages the other application handed over.

    ** Fuel

    Every loop that is not structural runs on fuel, and theorems show that it suffices:
    [Bytes.chunks_loop] has the length of its list ([Bytes.chunks_loop_concat]: no byte is
    left over); [Wire.decode_tlvs_loop] one more than the bytes left, where each TLV takes
    at least three, and [Stun.attributes_loop] one more than the length of the packet, where
    each attribute takes at least four (running out is a panic of the model, which
    [WireLemmas.decode_total] and [StunProps.binding_success_accepts_layouts] exclude);
    [Core.flush_loop] one more than the size of the buffer, each round removing an entry
    ([CoreReceive.wp_flush_loop]); [Text.char_bytes] the bytes of the text
    ([Text.char_bytes_concat]).

    ** Not modelled

    - Inside the Redis server: commands are a class with their documented laws on the keys a store
      uses, a script runs at one moment, and the numbers of scripts are natural numbers.
    - [v3-orchestrator-api] (data transfer types without code) and [v3-transport-udp] (a placeholder
      without state).
    - Poisoning of locks.  The interleaving of threads inside one call is modelled where a call
      gives up a lock on its way: in the disk store, and in the scan of the in-memory store.  The
      registry of the interface is locked for a whole call.
    - The clocks of several hosts, and a lossy network between them at the level of the interface:
      over a lossy network the machines are shown to be safe ([CoreProps]), and the hosts are
      followed on a network that works.
    - The packet log is modelled as a component; which of its lines each call of the interface
      causes is not part of the calls.
    - Raw pointers: a pointer with a length is the memory it points to.  A JVM that fails in
      other ways than refusing an array.
    - The loss of unsynced pages when the power fails: a fault of the disk stops a call, or a
      write after any number of its bytes.
    - [serde] derives and [Display] texts, where nothing reads them back. *)

From stdpp Require Export base gmap sets list list_numbers strings sorting pretty.
From Stdlib Require Export ZArith Lia.

#[global] Open Scope Z_scope.

(* ------------------------------------------------------------------ *)
(** ** Outcomes of a Rust call *)
(* ------------------------------------------------------------------ *)

(** A call returns [Ok] or [Err] (the two sides of [Result]) or panics: an index or
    slice out of range, a cursor read past the end, a failed [expect]. *)
Inductive outcome (E A : Type) : Type :=
| Ok (a : A)
| Err (e : E)
| Panic.
Arguments Ok {E A} a.
Arguments Err {E A} e.
Arguments Panic {E A}.

#[global] Instance outcome_ret {E} : MRet (outcome E) := λ A a, Ok a.

#[global] Instance outcome_bind {E} : MBind (outcome E) := λ A B f o,
  match o with
  | Ok a => f a
  | Err e => Err e
  | Panic => Panic
  end.

(** [map_err], the conversion the [?] operator and [.map_err(..)] apply. *)
Definition map_err {E F A} (f : E → F) (o : outcome E A) : outcome F A :=
  match o with
  | Ok a => Ok a
  | Err e => Err (f e)
  | Panic => Panic
  end.

(** [Option::ok_or]. *)
Definition ok_or {E A} (o : option A) (e : E) : outcome E A :=
  match o with
  | Some a => Ok a
  | None => Err e
  end.

(** [Option::expect] and indexing: [None] is a panic. *)
Definition expect {E A} (o : option A) : outcome E A :=
  match o with
  | Some a => Ok a
  | None => Panic
  end.

(** [if bad { return Err(e) }]. *)
Definition reject {E} (bad : bool) (e : E) : outcome E () := if bad then Err e else Ok ().

Definition is_ok {E A} (o : outcome E A) : bool :=
  match o with Ok _ => true | _ => false end.

Definition is_err {E A} (o : outcome E A) : bool :=
  match o with Err _ => true | _ => false end.

(* ------------------------------------------------------------------ *)
(** ** State and errors: methods taking [&mut self] *)
(* ------------------------------------------------------------------ *)

(** A method with mutable state [S].  The state written before an error or a panic is
    kept, as it is in Rust. *)
Definition ST (S E A : Type) : Type := S → outcome E A * S.

#[global] Instance ST_ret {S E} : MRet (ST S E) := λ A a s, (Ok a, s).

#[global] Instance ST_bind {S E} : MBind (ST S E) := λ A B f m s,
  match m s with
  | (Ok a, s') => f a s'
  | (Err e, s') => (Err e, s')
  | (Panic, s') => (Panic, s')
  end.

Section StatePrimitives.
Context {S E : Type}.

Definition st_get : ST S E S := λ s, (Ok s, s).

Definition st_modify (f : S → S) : ST S E () := λ s, (Ok (), f s).

Definition st_lift {A} (o : outcome E A) : ST S E A := λ s, (o, s).

Definition st_throw {A} (e : E) : ST S E A := λ s, (Err e, s).

Definition st_panic {A} : ST S E A := λ s, (Panic, s).

(** [if bad { return Err(e) }]. *)
Definition st_reject (bad : bool) (e : E) : ST S E () := if bad then st_throw e else mret ().

(** [if c { body }]. *)
Definition st_when (c : bool) (body : ST S E ()) : ST S E () :=
  if c then body else mret ().

(** [for x in l { body }], with [?] leaving the loop at the first error. *)
Fixpoint st_for {A} (l : list A) (body : A → ST S E ()) : ST S E () :=
  match l with
  | [] => mret ()
  | x :: l' => body x ;; st_for l' body
  end.

End StatePrimitives.

(** Run a method body on a part of the state. *)
Definition st_zoom {S T E A} (get : S → T) (put : T → S → S) (m : ST T E A) : ST S E A :=
  λ s, let '(o, t) := m (get s) in (o, put t s).

(* ------------------------------------------------------------------ *)
(** ** Record update: [r <| field := v |>] *)
(* ------------------------------------------------------------------ *)

(** [eta r] rebuilds the record from its own projections; one instance per record. *)
Class Eta (R : Type) := eta : R → R.

Class Update {R T : Type} (p : R → T) := upd : T → R → R.

Arguments upd {R T} p {_} v r /.

Ltac solve_update :=
  lazymatch goal with
  | |- @Update ?R ?T ?p =>
      unfold Update;
      let v := fresh "v" in
      let r := fresh "r" in
      intros v r;
      let t := eval hnf in (eta r) in
      lazymatch eval pattern (p r) in t with
      | ?g _ => let t' := eval cbv beta in (g v) in exact t'
      end
  end.

#[export] Hint Extern 1 (Update _) => solve_update : typeclass_instances.

Declare Scope rust_scope.
Delimit Scope rust_scope with rust.
#[global] Open Scope rust_scope.

#[warning="-postfix-notation-not-level-1"]
Notation "r <| p := v |>" := (upd p v r)
  (at level 12, left associativity, p constr at level 1,
   format "r  <| p  :=  v |>") : rust_scope.

(* ------------------------------------------------------------------ *)
(** ** Machine integers *)
(* ------------------------------------------------------------------ *)

(** [u8], [u16], [u32], [u64] and [usize] values are integers of [Z].  The shipped library
    is built with [--release] and the workspace declares no profile, so unchecked
    arithmetic wraps. *)
Definition U8_MAX : Z := 0xFF.
Definition U16_MAX : Z := 0xFFFF.
Definition U32_MAX : Z := 0xFFFFFFFF.
Definition U64_MAX : Z := 0xFFFFFFFFFFFFFFFF.

Definition is_u8 (x : Z) : Prop := 0 ≤ x ≤ U8_MAX.
Definition is_u16 (x : Z) : Prop := 0 ≤ x ≤ U16_MAX.
Definition is_u32 (x : Z) : Prop := 0 ≤ x ≤ U32_MAX.
Definition is_u64 (x : Z) : Prop := 0 ≤ x ≤ U64_MAX.

(** [a + b] and [a * b] on [u64] in the release profile. *)
Definition wrap64 (x : Z) : Z := x mod (U64_MAX + 1).
Definition add64 (a b : Z) : Z := wrap64 (a + b).
Definition mul64 (a b : Z) : Z := wrap64 (a * b).

(** [saturating_add], [saturating_mul] with the maximum of the type, [saturating_sub]. *)
Definition sat_add (mx a b : Z) : Z := Z.min mx (a + b).
Definition sat_mul (mx a b : Z) : Z := Z.min mx (a * b).
Definition sat_sub (a b : Z) : Z := Z.max 0 (a - b).

(** The [as] casts. *)
Definition as_u16 (x : Z) : Z := x mod (U16_MAX + 1).
Definition as_u32 (x : Z) : Z := x mod (U32_MAX + 1).

(** [u16::try_from]. *)
Definition try_u16 (x : Z) : option Z :=
  if x <=? U16_MAX then Some x else None.

(** [Vec::len] and slice [len] as a [usize]. *)
Definition zlen {A} (l : list A) : Z := Z.of_nat (length l).

Arguments zlen : simpl never.
Arguments wrap64 : simpl never.
Arguments sat_add : simpl never.
Arguments sat_mul : simpl never.
Arguments sat_sub : simpl never.
Arguments as_u16 : simpl never.
Arguments as_u32 : simpl never.

Ltac unfold_ints :=
  unfold is_u8, is_u16, is_u32, is_u64, add64, mul64, wrap64, sat_add, sat_mul, sat_sub,
    as_u16, as_u32, U8_MAX, U16_MAX, U32_MAX, U64_MAX, zlen in *.

(** Linear arithmetic after the integer helpers are unfolded. *)
Ltac ulia := unfold_ints; lia.

(** Decide the comparisons of the goal that linear arithmetic settles. *)
Ltac zdec :=
  repeat match goal with
  | |- context [?a <? ?b] =>
      first [rewrite (proj2 (Z.ltb_lt a b)) by lia|rewrite (proj2 (Z.ltb_ge a b)) by lia]
  | |- context [?a <=? ?b] =>
      first [rewrite (proj2 (Z.leb_le a b)) by lia|rewrite (proj2 (Z.leb_gt a b)) by lia]
  | |- context [?a =? ?b] =>
      first [rewrite (proj2 (Z.eqb_eq a b)) by lia|rewrite (proj2 (Z.eqb_neq a b)) by lia]
  end.

(** Turn the boolean comparisons of the context into propositions. *)
Ltac zprop :=
  repeat match goal with
  | H : (_ <? _) = true |- _ => apply Z.ltb_lt in H
  | H : (_ <? _) = false |- _ => apply Z.ltb_ge in H
  | H : (_ <=? _) = true |- _ => apply Z.leb_le in H
  | H : (_ <=? _) = false |- _ => apply Z.leb_gt in H
  | H : (_ =? _) = true |- _ => apply Z.eqb_eq in H
  | H : (_ =? _) = false |- _ => apply Z.eqb_neq in H
  | H : (_ && _) = true |- _ => apply andb_true_iff in H as [? ?]
  | H : (_ || _) = false |- _ => apply orb_false_iff in H as [? ?]
  | H : negb _ = true |- _ => apply negb_true_iff in H
  | H : negb _ = false |- _ => apply negb_false_iff in H
  | H : bool_decide _ = true |- _ => apply bool_decide_eq_true in H
  | H : bool_decide _ = false |- _ => apply bool_decide_eq_false in H
  end.

(* ------------------------------------------------------------------ *)
(** ** [BTreeMap]: a finite map read in key order *)
(* ------------------------------------------------------------------ *)

(** The relation [BTreeMap] iteration is sorted by. *)
Definition key_le {A} (p q : Z * A) : Prop := p.1 ≤ q.1.

#[global] Instance key_le_dec {A} (p q : Z * A) : Decision (key_le p q) := Z_le_dec p.1 q.1.

(** [map.iter()]. *)
Definition bt_entries {A} (m : gmap Z A) : list (Z * A) := merge_sort key_le (map_to_list m).

(** [map.keys()]. *)
Definition bt_keys {A} (m : gmap Z A) : list Z := (bt_entries m).*1.

(** [map.keys().next_back()]. *)
Definition bt_last_key {A} (m : gmap Z A) : option Z := last (bt_keys m).

(* ------------------------------------------------------------------ *)
(** ** Weakest preconditions of state methods *)
(* ------------------------------------------------------------------ *)

(** [wp m Q s]: running [m] from [s] ends in an outcome and a state satisfying [Q]. *)
Definition wp {S E A} (m : ST S E A) (Q : outcome E A → S → Prop) (s : S) : Prop :=
  Q (m s).1 (m s).2.

(** The postcondition of the rest of a method: an error or a panic leaves it. *)
Definition then_wp {S E A B} (k : A → ST S E B) (Q : outcome E B → S → Prop)
    (o : outcome E A) (s : S) : Prop :=
  match o with
  | Ok a => wp (k a) Q s
  | Err e => Q (Err e) s
  | Panic => Q Panic s
  end.

Section WeakestPre.
Context {S E : Type}.

Lemma wp_mono {A} (m : ST S E A) (Q Q' : outcome E A → S → Prop) s :
  (∀ o s', Q o s' → Q' o s') → wp m Q s → wp m Q' s.
Proof. unfold wp. auto. Qed.

Lemma wp_ret {A} (a : A) (Q : outcome E A → S → Prop) s : Q (Ok a) s → wp (mret a) Q s.
Proof. done. Qed.

Lemma wp_bind {A B} (m : ST S E A) (k : A → ST S E B) Q s :
  wp m (then_wp k Q) s → wp (m ≫= k) Q s.
Proof. unfold wp, then_wp, mbind, ST_bind. by destruct (m s) as [[a|e|] s']. Qed.

(** Sequence with a method that has no error. *)
Lemma wp_seq {A} (R : S → Prop) (h : ST S E ()) (k : ST S E A) Q s :
  wp h (λ o s', o = Ok () ∧ R s') s → (∀ s', R s' → wp k Q s') → wp (h ;; k) Q s.
Proof. intros Hh Hk. apply wp_bind. eapply wp_mono, Hh. intros o s' [-> Hs']. by apply Hk. Qed.

Lemma wp_get (Q : outcome E S → S → Prop) s : Q (Ok s) s → wp st_get Q s.
Proof. done. Qed.

Lemma wp_modify (f : S → S) (Q : outcome E () → S → Prop) s :
  Q (Ok ()) (f s) → wp (st_modify f) Q s.
Proof. done. Qed.

Lemma wp_lift {A} (o : outcome E A) (Q : outcome E A → S → Prop) s :
  Q o s → wp (st_lift o) Q s.
Proof. done. Qed.

Lemma wp_throw {A} (e : E) (Q : outcome E A → S → Prop) s :
  Q (Err e) s → wp (st_throw e) Q s.
Proof. done. Qed.

Lemma wp_reject (bad : bool) (e : E) (Q : outcome E () → S → Prop) s :
  (bad = true → Q (Err e) s) → (bad = false → Q (Ok ()) s) → wp (st_reject bad e) Q s.
Proof. intros H1 H2. destruct bad; [by apply H1|by apply H2]. Qed.

Lemma st_bind_ok {A B} (m : ST S E A) (k : A → ST S E B) s a s' :
  m s = (Ok a, s') → (m ≫= k) s = k a s'.
Proof. unfold mbind, ST_bind. by intros ->. Qed.

Lemma wp_when (c : bool) (body : ST S E ()) Q s :
  (c = true → wp body Q s) → (c = false → Q (Ok ()) s) → wp (st_when c body) Q s.
Proof. intros H1 H2. destruct c; [by apply H1|by apply wp_ret, H2]. Qed.

(** The loop rule: [I] holds before every round and an exit by error gives [Q]. *)
Lemma wp_for {A} (I : S → Prop) (l : list A) (body : A → ST S E ()) Q s :
  I s →
  (∀ x s, x ∈ l → I s →
     wp (body x) (λ o s', match o with Ok _ => I s' | Err e => Q (Err e) s' | Panic => Q Panic s' end) s) →
  (∀ s, I s → Q (Ok ()) s) →
  wp (st_for l body) Q s.
Proof.
  intros Hs Hbody Hend. revert s Hs. induction l as [|x l IH]; intros s Hs; cbn.
  { by apply Hend. }
  apply wp_bind. eapply wp_mono, Hbody; [|by left|done].
  intros [[]|e|] s'; cbn; [|done..]. intros Hs'. apply IH; [|done].
  intros y s'' Hy. apply Hbody. by right.
Qed.

End WeakestPre.

(** The primitives of a component extend the execution through this hook. *)
Ltac wp_hook := fail.

(** One step of symbolic execution of a method body. *)
Ltac wp_step :=
  lazymatch goal with
  | |- wp (mret _) _ _ => apply wp_ret
  | |- wp (mbind _ _) _ _ => apply wp_bind
  | |- wp st_get _ _ => apply wp_get
  | |- wp (st_modify _) _ _ => apply wp_modify
  | |- wp (st_lift _) _ _ => apply wp_lift
  | |- wp (st_throw _) _ _ => apply wp_throw
  | |- wp (st_reject _ _) _ _ => apply wp_reject; [intros ?Hc|intros ?Hc]
  | |- wp (st_when _ _) _ _ => apply wp_when; [intros ?Hc|intros ?Hc]
  | |- wp (match ?x with _ => _ end) _ _ => let H := fresh "Hm" in destruct x eqn:H
  | |- then_wp _ _ (Ok _) _ => cbn [then_wp]
  | |- then_wp _ _ (Err _) _ => cbn [then_wp]
  | |- then_wp _ _ Panic _ => cbn [then_wp]
  | |- _ => wp_hook
  end.

Ltac wp_steps := repeat (wp_step; cbn beta iota zeta).

(** Execute up to the next branch. *)
Ltac wp_run :=
  repeat (
    lazymatch goal with
    | |- wp (st_reject _ _) _ _ => fail
    | |- wp (st_when _ _) _ _ => fail
    | |- wp (match _ with _ => _ end) _ _ => fail
    | |- _ => wp_step
    end; cbn beta iota zeta).

(* ------------------------------------------------------------------ *)
(** ** Lemmas on [BTreeMap] *)
(* ------------------------------------------------------------------ *)

#[global] Instance key_le_total {A} : Total (@key_le A).
Proof. intros p q. unfold key_le. lia. Qed.

#[global] Instance key_le_trans {A} : Transitive (@key_le A).
Proof. intros p q r. unfold key_le. lia. Qed.

Section BTreeMap.
Context {A : Type}.
Implicit Types m : gmap Z A.

Lemma bt_entries_perm m : bt_entries m ≡ₚ map_to_list m.
Proof. apply merge_sort_Permutation. Qed.

Lemma bt_entries_sorted m : StronglySorted key_le (bt_entries m).
Proof. apply (StronglySorted_merge_sort _). Qed.

Lemma elem_of_bt_entries m k a : (k, a) ∈ bt_entries m ↔ m !! k = Some a.
Proof. by rewrite bt_entries_perm, elem_of_map_to_list. Qed.

Lemma bt_keys_nodup m : NoDup (bt_keys m).
Proof. unfold bt_keys. rewrite bt_entries_perm. apply NoDup_fst_map_to_list. Qed.

Lemma elem_of_bt_keys m k : k ∈ bt_keys m ↔ is_Some (m !! k).
Proof.
  unfold bt_keys. rewrite list_elem_of_fmap. split.
  - intros [[k' a] [-> H%elem_of_bt_entries]]. by exists a.
  - intros [a H%elem_of_bt_entries]. by exists (k, a).
Qed.

Lemma bt_keys_sorted m : StronglySorted Z.le (bt_keys m).
Proof.
  unfold bt_keys. induction (bt_entries_sorted m) as [|p l _ IH Hp]; cbn; constructor; [done|].
  apply Forall_fmap. eapply Forall_impl; [exact Hp|]. by intros q.
Qed.

Lemma sorted_last_max (l : list Z) k :
  StronglySorted Z.le l → last l = Some k → ∀ k', k' ∈ l → k' ≤ k.
Proof.
  intros Hs Hl k' Hk'. apply last_Some in Hl as [l' ->].
  apply elem_of_app in Hk' as [Hk'|Hk'%list_elem_of_singleton]; [|lia].
  eapply StronglySorted_app_1_elem_of; [exact Hs|done|by left].
Qed.

(** [keys().next_back()] is the greatest key, and is [None] on the empty map only. *)
Lemma bt_last_key_max m k :
  bt_last_key m = Some k → is_Some (m !! k) ∧ ∀ k', is_Some (m !! k') → k' ≤ k.
Proof.
  unfold bt_last_key. intros Hl. split.
  - apply elem_of_bt_keys. apply last_Some in Hl as [l' ->]. set_solver.
  - intros k' Hk'. eapply sorted_last_max; [apply bt_keys_sorted|done|by apply elem_of_bt_keys].
Qed.

Lemma bt_last_key_None m : bt_last_key m = None ↔ m = ∅.
Proof.
  unfold bt_last_key. rewrite last_None. split.
  - intros Hl. apply map_empty. intros k. apply eq_None_not_Some.
    intros Hk%elem_of_bt_keys. rewrite Hl in Hk. set_solver.
  - intros ->. done.
Qed.

(** [keys().next_back()] is the greatest key, and is [None] on the empty map only. *)
Lemma bt_last_key_Some m k :
  bt_last_key m = Some k ↔ is_Some (m !! k) ∧ ∀ k', is_Some (m !! k') → k' ≤ k.
Proof.
  split; [apply bt_last_key_max|]. intros [Hk Hmax].
  destruct (bt_last_key m) as [k'|] eqn:Hl.
  - apply bt_last_key_max in Hl as [Hk' Hmax']. f_equal.
    specialize (Hmax _ Hk'). specialize (Hmax' _ Hk). lia.
  - apply bt_last_key_None in Hl as ->. rewrite lookup_empty in Hk. by destruct Hk.
Qed.

(** The order of the entries is strict: keys do not repeat. *)
Definition key_lt (p q : Z * A) : Prop := p.1 < q.1.

Lemma key_lt_nodup l : StronglySorted key_lt l → NoDup l.
Proof.
  induction 1 as [|p l Hl IH Hp]; constructor; [|done].
  intros Hin. rewrite Forall_forall in Hp. specialize (Hp p Hin). unfold key_lt in Hp. lia.
Qed.

Lemma key_lt_unique l k :
  StronglySorted key_lt l → StronglySorted key_lt k → (∀ p, p ∈ l ↔ p ∈ k) → l = k.
Proof.
  intros Hl Hk Hin. apply (StronglySorted_unique_strong key_lt); [|done|done|].
  - unfold key_lt. lia.
  - apply NoDup_Permutation; [by apply key_lt_nodup..|done].
Qed.

Lemma StronglySorted_filter {B} (R : relation B) (P : B → Prop) `{!∀ x, Decision (P x)} l :
  StronglySorted R l → StronglySorted R (filter P l).
Proof.
  induction 1 as [|x l Hl IH Hx]; [constructor|]. rewrite filter_cons.
  destruct (decide (P x)); [|done]. constructor; [done|]. apply Forall_forall.
  intros y [_ Hy]%list_elem_of_filter. rewrite Forall_forall in Hx. by apply Hx.
Qed.

Lemma bt_entries_strict m : StronglySorted key_lt (bt_entries m).
Proof.
  pose proof (bt_entries_sorted m) as Hs. pose proof (bt_keys_nodup m) as Hd.
  unfold bt_keys in Hd. revert Hs Hd. generalize (bt_entries m). intros l Hs.
  induction Hs as [|p l Hl IH Hp]; rewrite ?fmap_cons; [constructor|].
  intros [Hn Hd]%NoDup_cons. constructor; [by apply IH|].
  apply Forall_forall. intros q Hq. rewrite Forall_forall in Hp. specialize (Hp q Hq).
  assert (p.1 ≠ q.1) by (intros Heq; apply Hn; rewrite Heq; by apply list_elem_of_fmap_2).
  unfold key_lt, key_le in *. lia.
Qed.

Lemma seqZ_strict s n : StronglySorted Z.lt (seqZ s n).
Proof.
  unfold seqZ. generalize (Z.to_nat n). intros k. generalize 0%nat.
  induction k as [|k IH]; intros i; cbn; constructor; [done|].
  apply Forall_forall. intros z [j [-> Hj%elem_of_seq]]%list_elem_of_fmap. lia.
Qed.

(** Walking the identifiers of a range or scanning the map gives the same entries. *)
Lemma range_entries m s n :
  omap (λ id, (id,.) <$> m !! id) (seqZ s n) = filter (λ q, s ≤ q.1 ≤ s + n - 1) (bt_entries m).
Proof.
  apply key_lt_unique; [|by apply StronglySorted_filter, bt_entries_strict|].
  - induction (seqZ_strict s n) as [|id l Hl IH Hid]; cbn; [constructor|].
    destruct (m !! id) as [a|]; cbn; [|done]. constructor; [done|].
    apply Forall_forall. intros [k b] [k' [Hk' Hb]]%list_elem_of_omap.
    destruct (m !! k') as [c|]; [|done]. injection Hb as -> ->.
    rewrite Forall_forall in Hid. by apply Hid.
  - intros [k a]. rewrite list_elem_of_omap, list_elem_of_filter, elem_of_bt_entries. cbn. split.
    + intros [k' [Hk%elem_of_seqZ Ha]]. destruct (m !! k') as [c|] eqn:Hc; [|done].
      injection Ha as -> ->. split; [lia|done].
    + intros [Hk Ha]. exists k. rewrite elem_of_seqZ, Ha. split; [lia|done].
Qed.

End BTreeMap.

(* ------------------------------------------------------------------ *)
(** ** Shared lemmas on lists and outcomes *)
(* ------------------------------------------------------------------ *)

Lemma filter_all {A} (P : A → Prop) `{!∀ x, Decision (P x)} (l : list A) :
  (∀ x, x ∈ l → P x) → filter P l = l.
Proof.
  induction l as [|x l IH]; intros Hl; [done|].
  rewrite filter_cons_True by (apply Hl; by left). f_equal. apply IH. intros y Hy. apply Hl. by right.
Qed.

Lemma reject_ok {E A} (bad : bool) (e : E) (k : outcome E A) a :
  (reject bad e ;; k) = Ok a → bad = false ∧ k = Ok a.
Proof. by destruct bad. Qed.

Lemma zlen_nonneg {A} (l : list A) : 0 ≤ zlen l.
Proof. ulia. Qed.

Lemma zlen_app {A} (l k : list A) : zlen (l ++ k) = zlen l + zlen k.
Proof. unfold zlen. rewrite length_app. lia. Qed.

Lemma zlen_cons {A} (x : A) l : zlen (x :: l) = 1 + zlen l.
Proof. unfold zlen. cbn [length]. lia. Qed.

Lemma zlen_singleton {A} (x : A) : zlen [x] = 1.
Proof. done. Qed.

Lemma take_zlen_app {A} (l k : list A) n : n = zlen l → take (Z.to_nat n) (l ++ k) = l.
Proof. intros ->. unfold zlen. rewrite Nat2Z.id. apply take_app_length. Qed.

Lemma drop_zlen_app {A} (l k : list A) n : n = zlen l → drop (Z.to_nat n) (l ++ k) = k.
Proof. intros ->. unfold zlen. rewrite Nat2Z.id. apply drop_app_length. Qed.

Create HintDb todero discriminated.
Create Rewrite HintDb zlen.
#[export] Hint Rewrite @zlen_app @zlen_cons : zlen.
#[export] Hint Resolve zlen_nonneg : todero.

(** Normalise every length in the goal and context. *)
Ltac zlen_norm :=
  autorewrite with zlen in *;
  repeat match goal with
  | |- context [@zlen ?A []] => change (@zlen A []) with 0
  | H : context [@zlen ?A []] |- _ => change (@zlen A []) with 0 in H
  end.
