(* ===== verification/Bytes.v ===== *)
(** * Bytes and big-endian integers

    [u8] data as [Byte.byte], the [to_be_bytes]/[from_be_bytes] conversions of the unsigned
    types, and the cursor the [bytes] crate's [Buf] trait puts over a slice (a reader is a
    state method on the bytes left, reading past the end panics). *)

From S2P Require Import Prelude.
From Stdlib Require Export Init.Byte.
From Stdlib Require Strings.Byte.

#[global] Instance byte_eq_dec : EqDecision byte := Strings.Byte.byte_eq_dec.

#[global] Instance byte_countable : Countable byte :=
  inj_countable Strings.Byte.to_N Strings.Byte.of_N Strings.Byte.of_to_N.

#[global] Instance byte_inhabited : Inhabited byte := populate x00.

(** [b as u64]. *)
Definition byte_to_Z (b : byte) : Z := Z.of_N (Strings.Byte.to_N b).

(** [z as u8]. *)
Definition byte_of_Z (z : Z) : byte := default x00 (Strings.Byte.of_N (Z.to_N (z mod 256))).

(** [to_be_bytes] of an [n]-byte unsigned integer. *)
Fixpoint be_bytes (n : nat) (z : Z) : list byte :=
  match n with
  | O => []
  | S n' => byte_of_Z (z / 256 ^ Z.of_nat n') :: be_bytes n' z
  end.

(** [from_be_bytes]. *)
Definition be_value (l : list byte) : Z := foldl (λ acc b, acc * 256 + byte_to_Z b) 0 l.

Definition u16_be (z : Z) : list byte := be_bytes 2 z.
Definition u32_be (z : Z) : list byte := be_bytes 4 z.
Definition u64_be (z : Z) : list byte := be_bytes 8 z.

(** A reader over the bytes left in a buffer. *)
Abbreviation reader := (ST (list byte)).

Section Readers.
Context {E : Type}.

(** [Buf::remaining]. *)
Definition remaining : reader E Z := buf ← st_get; mret (zlen buf).

(** [Buf::copy_to_slice] into a slice of [n] bytes. *)
Definition copy_to_slice (n : Z) : reader E (list byte) :=
  buf ← st_get;
  if zlen buf <? n then st_panic
  else st_modify (drop (Z.to_nat n)) ;; mret (take (Z.to_nat n) buf).

(** [Buf::get_u8], [get_u16], [get_u64] (big endian). *)
Definition get_u8 : reader E byte :=
  buf ← st_get;
  match buf with
  | [] => st_panic
  | b :: _ => st_modify (drop 1) ;; mret b
  end.

Definition get_u16 : reader E Z := l ← copy_to_slice 2; mret (be_value l).

Definition get_u64 : reader E Z := l ← copy_to_slice 8; mret (be_value l).

End Readers.

(** [&s[i..j]]: out of range is a panic. *)
Definition slice {E} (s : list byte) (i j : Z) : outcome E (list byte) :=
  if (i <=? j) && (j <=? zlen s) then Ok (take (Z.to_nat (j - i)) (drop (Z.to_nat i) s))
  else Panic.

(** [s[i]]. *)
Definition index {E} (s : list byte) (i : Z) : outcome E byte :=
  if 0 <=? i then expect (s !! Z.to_nat i) else Panic.

Arguments byte_of_Z : simpl never.
Arguments byte_to_Z : simpl never.
Arguments be_value : simpl never.
Arguments u16_be : simpl never.
Arguments u32_be : simpl never.
Arguments u64_be : simpl never.

(** [s.chunks(n)]: pieces of [n] bytes, the last one possibly shorter.  A piece consumes at
    least one byte when [n > 0], so the length of [s] is enough fuel. *)
Fixpoint chunks_loop (fuel : nat) (n : nat) (s : list byte) : list (list byte) :=
  match fuel, s with
  | S fuel', _ :: _ => take n s :: chunks_loop fuel' n (drop n s)
  | _, _ => []
  end.

Definition chunks_of (n : Z) (s : list byte) : list (list byte) :=
  chunks_loop (length s) (Z.to_nat n) s.

(** [a.div_ceil(b)]. *)
Definition div_ceil (a b : Z) : Z := (a + b - 1) / b.

(* ------------------------------------------------------------------ *)
(** ** Conversions are inverse to each other *)
(* ------------------------------------------------------------------ *)

Lemma byte_to_Z_range b : 0 ≤ byte_to_Z b < 256.
Proof. unfold byte_to_Z. pose proof (Strings.Byte.to_N_bounded b). lia. Qed.

Lemma byte_of_Z_to_Z b : byte_of_Z (byte_to_Z b) = b.
Proof.
  unfold byte_of_Z. rewrite Z.mod_small by apply byte_to_Z_range.
  unfold byte_to_Z. by rewrite N2Z.id, Byte.of_to_N.
Qed.

Lemma byte_to_Z_of_Z z : byte_to_Z (byte_of_Z z) = z mod 256.
Proof.
  unfold byte_of_Z, byte_to_Z.
  assert (0 ≤ z mod 256 < 256) by (apply Z.mod_pos_bound; lia).
  destruct (Strings.Byte.of_N (Z.to_N (z mod 256))) as [b|] eqn:H1; cbn.
  - apply Byte.to_of_N in H1. rewrite H1. lia.
  - apply Strings.Byte.of_N_None_iff in H1. lia.
Qed.

Lemma byte_to_Z_inj a b : byte_to_Z a = byte_to_Z b → a = b.
Proof. intros H. by rewrite <-(byte_of_Z_to_Z a), H, byte_of_Z_to_Z. Qed.

Lemma length_be_bytes n z : length (be_bytes n z) = n.
Proof. induction n as [|n IH]; cbn; congruence. Qed.

Lemma be_value_app l k : be_value (l ++ k) = be_value l * 256 ^ zlen k + be_value k.
Proof.
  unfold be_value. rewrite foldl_app. generalize (foldl (λ acc b, acc * 256 + byte_to_Z b) 0 l).
  induction k as [|b k IH] using rev_ind; intros z; cbn; [change (zlen []) with 0; lia|].
  rewrite !foldl_app. cbn. rewrite (IH z), zlen_app, zlen_singleton.
  rewrite Z.pow_add_r by (pose proof (zlen_nonneg k); lia). change (256 ^ 1) with 256. lia.
Qed.

Lemma be_value_singleton b : be_value [b] = byte_to_Z b.
Proof. unfold be_value. cbn. lia. Qed.

Lemma be_value_cons b l : be_value (b :: l) = byte_to_Z b * 256 ^ zlen l + be_value l.
Proof. rewrite <-be_value_singleton. apply (be_value_app [b] l). Qed.

Lemma be_value_bytes n z : be_value (be_bytes n z) = z mod 256 ^ Z.of_nat n.
Proof.
  induction n as [|n IH]; [cbn; by rewrite Z.mod_1_r|].
  cbn [be_bytes]. rewrite be_value_cons, byte_to_Z_of_Z, IH.
  unfold zlen. rewrite length_be_bytes, Nat2Z.inj_succ, Z.pow_succ_r by lia.
  assert (0 < 256 ^ Z.of_nat n) by (apply Z.pow_pos_nonneg; lia).
  rewrite (Z.mul_comm 256), Z.rem_mul_r by lia. lia.
Qed.

Lemma be_value_range l : 0 ≤ be_value l < 256 ^ zlen l.
Proof.
  induction l as [|b l IH]; [done|].
  rewrite be_value_cons, zlen_cons, (Z.pow_add_r 256) by (pose proof (zlen_nonneg l); lia).
  change (256 ^ 1) with 256. pose proof (byte_to_Z_range b). nia.
Qed.

(** Only the low [n] bytes matter. *)
Lemma be_bytes_add_high n m z x :
  (n ≤ m)%nat → be_bytes n (z * 256 ^ Z.of_nat m + x) = be_bytes n x.
Proof.
  induction n as [|n IH]; intros Hn; [done|]. cbn [be_bytes]. f_equal; [|apply IH; lia].
  apply byte_to_Z_inj. rewrite !byte_to_Z_of_Z.
  replace (Z.of_nat m) with ((Z.of_nat m - Z.of_nat n - 1) + 1 + Z.of_nat n) by lia.
  rewrite !Z.pow_add_r by lia.
  assert (0 < 256 ^ Z.of_nat n) by (apply Z.pow_pos_nonneg; lia).
  rewrite !Z.mul_assoc, Z.div_add_l by lia. change (256 ^ 1) with 256.
  by rewrite Z.add_comm, Z.mod_add.
Qed.

Lemma be_bytes_value l : be_bytes (length l) (be_value l) = l.
Proof.
  induction l as [|b l IH]; [done|]. cbn [length be_bytes].
  rewrite be_value_cons. unfold zlen. rewrite be_bytes_add_high by done. f_equal; [|done].
  pose proof (be_value_range l) as Hr. unfold zlen in Hr.
  rewrite Z.div_add_l by lia. rewrite Z.div_small by lia.
  by rewrite Z.add_0_r, byte_of_Z_to_Z.
Qed.

Lemma be_value_u16 z : is_u16 z → be_value (u16_be z) = z.
Proof. intros H. unfold u16_be. rewrite be_value_bytes. apply Z.mod_small. ulia. Qed.

Lemma be_value_u32 z : is_u32 z → be_value (u32_be z) = z.
Proof. intros H. unfold u32_be. rewrite be_value_bytes. apply Z.mod_small. ulia. Qed.

Lemma be_value_u64 z : is_u64 z → be_value (u64_be z) = z.
Proof. intros H. unfold u64_be. rewrite be_value_bytes. apply Z.mod_small. ulia. Qed.

Lemma be_value_is_u64 l : zlen l = 8 → is_u64 (be_value l).
Proof. intros H. pose proof (be_value_range l) as Hr. rewrite H in Hr. ulia. Qed.

Lemma be_value_is_u32 l : zlen l = 4 → is_u32 (be_value l).
Proof. intros H. pose proof (be_value_range l) as Hr. rewrite H in Hr. ulia. Qed.

Lemma be_value_is_u16 l : zlen l = 2 → is_u16 (be_value l).
Proof. intros H. pose proof (be_value_range l) as Hr. rewrite H in Hr. ulia. Qed.

Lemma zlen_u16_be z : zlen (u16_be z) = 2. Proof. done. Qed.
Lemma zlen_u32_be z : zlen (u32_be z) = 4. Proof. done. Qed.
Lemma zlen_u64_be z : zlen (u64_be z) = 8. Proof. done. Qed.

#[export] Hint Rewrite @zlen_u16_be @zlen_u32_be @zlen_u64_be : zlen.

Lemma u16_be_value l : zlen l = 2 → u16_be (be_value l) = l.
Proof. intros H. rewrite <-(be_bytes_value l) at 2. unfold u16_be. f_equal. unfold zlen in H. lia. Qed.

Lemma u32_be_value l : zlen l = 4 → u32_be (be_value l) = l.
Proof. intros H. rewrite <-(be_bytes_value l) at 2. unfold u32_be. f_equal. unfold zlen in H. lia. Qed.

Lemma u64_be_value l : zlen l = 8 → u64_be (be_value l) = l.
Proof. intros H. rewrite <-(be_bytes_value l) at 2. unfold u64_be. f_equal. unfold zlen in H. lia. Qed.

(* ------------------------------------------------------------------ *)
(** ** [chunks] *)
(* ------------------------------------------------------------------ *)

Lemma chunks_loop_step fuel n s :
  (0 < n)%nat → s ≠ [] → chunks_loop (S fuel) n s = take n s :: chunks_loop fuel n (drop n s).
Proof. by destruct s. Qed.

Lemma chunks_loop_concat fuel n s :
  (0 < n)%nat → (length s ≤ fuel)%nat → concat (chunks_loop fuel n s) = s.
Proof.
  intros Hn. revert s. induction fuel as [|fuel IH]; intros s Hs.
  { destruct s; [done|cbn in Hs; lia]. }
  destruct (decide (s = [])) as [->|Hne]; [done|]. rewrite chunks_loop_step by done. cbn.
  rewrite IH, take_drop; [done|]. rewrite length_drop. destruct s; [done|]. cbn in *. lia.
Qed.

Lemma chunks_loop_piece fuel n s c :
  (0 < n)%nat → c ∈ chunks_loop fuel n s → (0 < length c ≤ n)%nat.
Proof.
  intros Hn. revert s. induction fuel as [|fuel IH]; intros s Hc; [set_solver|].
  destruct s as [|b s]; [set_solver|]. cbn [chunks_loop] in Hc.
  apply elem_of_cons in Hc as [->|Hc]; [|eauto]. rewrite length_take. cbn. lia.
Qed.

Lemma div_ceil_step a b : 0 < b → 0 < a → div_ceil a b = 1 + div_ceil (a - b) b.
Proof.
  intros Hb Ha. unfold div_ceil. replace (a + b - 1) with (a - b + b - 1 + 1 * b) by lia.
  rewrite Z.div_add by lia. lia.
Qed.

Lemma div_ceil_0 b : 0 < b → div_ceil 0 b = 0.
Proof. intros Hb. apply Z.div_small. lia. Qed.

Lemma chunks_loop_count fuel n s :
  (0 < n)%nat → (length s ≤ fuel)%nat →
  zlen (chunks_loop fuel n s) = div_ceil (zlen s) (Z.of_nat n).
Proof.
  intros Hn. revert s. induction fuel as [|fuel IH]; intros s Hs.
  - destruct s; [|cbn in Hs; lia]. symmetry. apply div_ceil_0. lia.
  - destruct (decide (s = [])) as [->|Hne].
    { symmetry. apply div_ceil_0. lia. }
    assert (0 < zlen s) by (destruct s; [done|]; rewrite zlen_cons; pose proof (zlen_nonneg s); lia).
    rewrite chunks_loop_step, zlen_cons, IH by
      (done || (rewrite length_drop; destruct s; [done|]; cbn in *; lia)).
    rewrite (div_ceil_step (zlen s)) by lia. f_equal. unfold zlen. rewrite length_drop.
    destruct (decide (n ≤ length s)%nat); [f_equal; lia|].
    replace (Z.of_nat (length s - n)) with 0 by lia. rewrite div_ceil_0 by lia.
    symmetry. apply Z.div_small. unfold zlen in *. lia.
Qed.

Section ChunksOf.
Context (n : Z) (s : list byte) (Hn : 0 < n).

Lemma chunks_of_concat : concat (chunks_of n s) = s.
Proof. apply chunks_loop_concat; lia. Qed.

Lemma chunks_of_piece c : c ∈ chunks_of n s → 0 < zlen c ≤ n.
Proof. intros Hc%chunks_loop_piece; [|lia]. ulia. Qed.

Lemma chunks_of_count : zlen (chunks_of n s) = div_ceil (zlen s) n.
Proof. unfold chunks_of. rewrite chunks_loop_count; [|lia..]. by rewrite Z2Nat.id by lia. Qed.

End ChunksOf.

(* ------------------------------------------------------------------ *)
(** ** Slices in range *)
(* ------------------------------------------------------------------ *)

Lemma slice_prefix {E} (l r : list byte) n : n = zlen l → slice (E:=E) (l ++ r) 0 n = Ok l.
Proof.
  intros ->. unfold slice. pose proof (zlen_nonneg l). pose proof (zlen_nonneg r).
  rewrite zlen_app. zdec. cbn [andb].
  change (Z.to_nat 0) with 0%nat. by rewrite Z.sub_0_r, drop_0, take_zlen_app.
Qed.

Lemma slice_suffix {E} (l r : list byte) n :
  n = zlen l → slice (E:=E) (l ++ r) n (zlen (l ++ r)) = Ok r.
Proof.
  intros ->. unfold slice. pose proof (zlen_nonneg l). pose proof (zlen_nonneg r).
  rewrite zlen_app. zdec. cbn [andb]. rewrite drop_zlen_app by done.
  f_equal. apply take_ge. unfold zlen. lia.
Qed.
