(* ===== verification/Text.v ===== *)
(** * Text: UTF-8, white space and lines

    What [BufRead::lines] and [str::trim] of the standard library do with bytes, and the JSON
    values the runtimes read through [serde_json]. *)

From S2P Require Import Prelude Bytes.

(** The accessors of [serde_json::Value] the crates call. *)
Class JsonValue (V : Type) : Type := {
  get : string → V → option V;
  as_array : V → option (list V);
  as_str : V → option string;
  as_u64 : V → option Z;
  as_u64_range v n : as_u64 v = Some n → is_u64 n;
}.

(* ------------------------------------------------------------------ *)
(** ** UTF-8 *)
(* ------------------------------------------------------------------ *)

(** A Rust string or byte string is its bytes. *)
Abbreviation str := (list byte).

(** A literal. *)
Definition lit (s : string) : str := String.list_byte_of_string s.

(** [{}] of an unsigned integer. *)
Definition show_u64 (n : Z) : str := lit (pretty (Z.to_N n)).

Definition is_cont (b : byte) : bool := (0x80 <=? byte_to_Z b) && (byte_to_Z b <=? 0xBF).

(** The six payload bits of a continuation byte. *)
Definition cont_bits (b : byte) : Z := Z.land (byte_to_Z b) 0x3F.

Definition in_span (lo hi x : Z) : bool := (lo <=? x) && (x <=? hi).

(** The code points of a byte string, [None] when it is not UTF-8: overlong forms, surrogates
    and values above U+10FFFF are refused. *)
Fixpoint utf8 (s : list byte) : option (list Z) :=
  match s with
  | [] => Some []
  | a0 :: r =>
      let a := byte_to_Z a0 in
      if a <? 0x80 then cons a <$> utf8 r
      else
        match r with
        | [] => None
        | b :: r1 =>
            if in_span 0xC2 0xDF a then
              if is_cont b then cons (Z.land a 0x1F * 64 + cont_bits b) <$> utf8 r1 else None
            else
              match r1 with
              | [] => None
              | c :: r2 =>
                  if in_span 0xE0 0xEF a then
                    let cp := (Z.land a 0x0F * 64 + cont_bits b) * 64 + cont_bits c in
                    if is_cont b && is_cont c && (0x800 <=? cp) && negb (in_span 0xD800 0xDFFF cp)
                    then cons cp <$> utf8 r2 else None
                  else
                    match r2 with
                    | [] => None
                    | d :: r3 =>
                        let cp := ((Z.land a 0x07 * 64 + cont_bits b) * 64 + cont_bits c) * 64
                                  + cont_bits d in
                        if in_span 0xF0 0xF4 a && is_cont b && is_cont c && is_cont d &&
                           in_span 0x10000 0x10FFFF cp
                        then cons cp <$> utf8 r3 else None
                    end
              end
        end
  end.

(** [char::is_whitespace]. *)
Definition is_whitespace (c : Z) : bool :=
  in_span 0x09 0x0D c || (c =? 0x20) || (c =? 0x85) || (c =? 0xA0) || (c =? 0x1680) ||
  in_span 0x2000 0x200A c || (c =? 0x2028) || (c =? 0x2029) || (c =? 0x202F) || (c =? 0x205F) ||
  (c =? 0x3000).

(** [s.trim().is_empty()]. *)
Definition is_blank (s : str) : bool := forallb is_whitespace (default [] (utf8 s)).

(** The number of bytes of the character that starts with [b], in valid UTF-8. *)
Definition char_width (b : byte) : nat :=
  if byte_to_Z b <? 0x80 then 1 else if byte_to_Z b <? 0xE0 then 2 else if byte_to_Z b <? 0xF0 then 3 else 4.

(** The characters of a string, each as its bytes.  A character has at least one byte, so the
    length of the string is enough fuel. *)
Fixpoint char_bytes (fuel : nat) (s : str) : list str :=
  match fuel, s with
  | S fuel', b :: _ => take (char_width b) s :: char_bytes fuel' (drop (char_width b) s)
  | _, _ => []
  end.

Fixpoint drop_blank (l : list str) : list str :=
  match l with
  | c :: l' => if is_blank c then drop_blank l' else l
  | [] => []
  end.

(** [s.trim()]. *)
Definition trim (s : str) : str :=
  concat (reverse (drop_blank (reverse (drop_blank (char_bytes (length s) s))))).

(* ------------------------------------------------------------------ *)
(** ** Lines *)
(* ------------------------------------------------------------------ *)

(** A carriage return before the newline goes with it. *)
Definition strip_cr (line : list byte) : list byte :=
  match last line with
  | Some x0d => removelast line
  | _ => line
  end.

(** [BufRead::lines]: [cur] is the line read so far; what follows the last newline is a line
    unless it is empty. *)
Fixpoint lines_loop (cur s : list byte) : list (list byte) :=
  match s with
  | [] => match cur with [] => [] | _ => [cur] end
  | b :: s' =>
      if bool_decide (b = x0a) then strip_cr cur :: lines_loop [] s' else lines_loop (cur ++ [b]) s'
  end.

Definition lines_of (s : list byte) : list (list byte) := lines_loop [] s.

(* ------------------------------------------------------------------ *)
(** ** Lines of printable text *)
(* ------------------------------------------------------------------ *)

(** The fuel of [char_bytes] is enough: no byte is left. *)
Lemma char_bytes_concat s : concat (char_bytes (length s) s) = s.
Proof.
  enough (∀ fuel s, (length s ≤ fuel)%nat → concat (char_bytes fuel s) = s) as H by auto.
  intros fuel. induction fuel as [|fuel IH]; intros [|b s'] Hs; cbn in Hs; try done; try lia.
  assert (1 ≤ char_width b)%nat by (unfold char_width; repeat case_match; lia).
  cbn [char_bytes concat]. rewrite IH by (rewrite length_drop; cbn; lia). apply take_drop.
Qed.

Definition printable (b : byte) : Prop := 0x20 ≤ byte_to_Z b < 0x7F.

Lemma printable_utf8 s : Forall printable s → utf8 s = Some (byte_to_Z <$> s).
Proof.
  induction 1 as [|b s Hb _ IH]; [done|]. cbn [utf8]. unfold printable in Hb.
  rewrite (proj2 (Z.ltb_lt _ _)) by lia. by rewrite IH.
Qed.

Lemma newline_value : byte_to_Z x0a = 10.
Proof. done. Qed.

Lemma lines_loop_line cur s rest :
  Forall printable s → lines_loop cur (s ++ x0a :: rest) = strip_cr (cur ++ s) :: lines_loop [] rest.
Proof.
  intros Hs. revert cur. induction Hs as [|b s Hb _ IH]; intros cur; cbn [lines_loop app].
  { by rewrite bool_decide_eq_true_2, app_nil_r. }
  rewrite bool_decide_eq_false_2 by (intros ->; unfold printable in Hb; pose proof newline_value; lia).
  by rewrite IH, <-app_assoc.
Qed.

Lemma strip_cr_printable s : Forall printable s → strip_cr s = s.
Proof.
  intros Hs. unfold strip_cr. destruct (last s) as [b|] eqn:Hl; [|done].
  apply last_Some in Hl as [s' ->]. apply Forall_app in Hs as [_ Hb]. rewrite Forall_singleton in Hb.
  destruct (decide (b = x0d)) as [->|Hne]; [|by destruct b].
  exfalso. unfold printable in Hb. assert (byte_to_Z x0d = 13) by done. lia.
Qed.

(** A printable line and its newline in front of the rest. *)
Lemma lines_of_line s rest : Forall printable s → lines_of (s ++ x0a :: rest) = s :: lines_of rest.
Proof. intros Hs. unfold lines_of. rewrite lines_loop_line by done. by rewrite strip_cr_printable. Qed.

(** Printable text without a newline is one line. *)
Lemma lines_of_end s : Forall printable s → lines_of s = match s with [] => [] | _ => [s] end.
Proof.
  intros Hs. unfold lines_of. enough (∀ cur, lines_loop cur s = match cur ++ s with [] => [] | k => [k] end) as H by (rewrite H; by destruct s).
  induction Hs as [|b s Hb _ IH]; intros cur; cbn [lines_loop]; [by rewrite app_nil_r; destruct cur|].
  rewrite bool_decide_eq_false_2 by (intros ->; unfold printable in Hb; pose proof newline_value; lia).
  by rewrite IH, <-app_assoc.
Qed.

(* ------------------------------------------------------------------ *)
(** ** Unsigned numbers as text *)
(* ------------------------------------------------------------------ *)

Definition is_digit (b : byte) : bool := in_span 0x30 0x39 (byte_to_Z b).

Fixpoint digits_value (acc : Z) (s : str) : option Z :=
  match s with
  | [] => Some acc
  | b :: s' => if is_digit b then digits_value (acc * 10 + (byte_to_Z b - 0x30)) s' else None
  end.

(** [s.parse::<u64>().ok()]: a plus sign may come first. *)
Definition parse_u64 (s : str) : option Z :=
  let s := match s with x2b :: s' => s' | _ => s end in
  match s with
  | [] => None
  | _ => n ← digits_value 0 s; if n <=? U64_MAX then Some n else None
  end.

Lemma lit_inj s s' : lit s = lit s' → s = s'.
Proof.
  unfold lit. intros He. rewrite <- (String.string_of_list_byte_of_string s), <- (String.string_of_list_byte_of_string s').
  by rewrite He.
Qed.

Lemma lit_cons a s : lit (String.String a s) = Ascii.byte_of_ascii a :: lit s.
Proof. done. Qed.

Lemma show_u64_inj n m : 0 ≤ n → 0 ≤ m → show_u64 n = show_u64 m → n = m.
Proof. intros Hn Hm He%lit_inj%(inj pretty). lia. Qed.

(** The last digit of a number. *)
Lemma pretty_N_char_digit d :
  (d < 10)%N → byte_to_Z (Ascii.byte_of_ascii (pretty_N_char d)) = 0x30 + Z.of_N d.
Proof.
  intros Hd. assert (d = 0 ∨ d = 1 ∨ d = 2 ∨ d = 3 ∨ d = 4 ∨ d = 5 ∨ d = 6 ∨ d = 7 ∨ d = 8 ∨ d = 9)%N as Hc by lia.
  by destruct_or! Hc; subst d.
Qed.

Lemma digits_value_go x s : digits_value 0 (lit (pretty_N_go x s)) = digits_value (Z.of_N x) (lit s).
Proof.
  revert s. induction (N.lt_wf_0 x) as [x _ IH]; intros s.
  destruct (decide (0 < x)%N) as [Hx|Hx]; [|by replace x with 0%N by lia].
  rewrite pretty_N_go_step by done. rewrite IH by (by apply N.div_lt). rewrite lit_cons. cbn [digits_value].
  unfold is_digit, in_span. pose proof (N.mod_lt x 10 ltac:(done)) as Hm. rewrite pretty_N_char_digit by done.
  pose proof (N.div_mod x 10 ltac:(done)) as Hx10. revert Hm Hx10. generalize (x `mod` 10)%N (x `div` 10)%N. intros d q Hd Hq.
  zdec. cbn [andb]. f_equal. lia.
Qed.

(** The text of a number reads back as the number. *)
Lemma digits_value_show n : 0 ≤ n → digits_value 0 (show_u64 n) = Some n.
Proof.
  intros Hn. unfold show_u64, pretty, pretty_N. case_decide as H0; [by replace n with 0 by lia|].
  rewrite digits_value_go. cbn. f_equal. lia.
Qed.

Lemma digits_value_digits acc s n : digits_value acc s = Some n → Forall (λ b, is_digit b = true) s.
Proof.
  revert acc. induction s as [|b s IH]; intros acc; cbn; [constructor|].
  destruct (is_digit b) eqn:Hb; [|done]. intros H. constructor; [done|]. by eapply IH.
Qed.

Lemma show_u64_digits n : 0 ≤ n → Forall (λ b, is_digit b = true) (show_u64 n).
Proof. intros Hn. by eapply digits_value_digits, digits_value_show. Qed.

Lemma show_u64_nonempty n : show_u64 n ≠ [].
Proof.
  unfold show_u64, pretty, pretty_N. case_decide; [done|]. intros He.
  enough (∀ x s, s ≠ ""%string ∨ (0 < x)%N → pretty_N_go x s ≠ ""%string) as H'.
  { eapply (H' (Z.to_N n) ""%string); [right; lia|]. by destruct (pretty_N_go _ _). }
  clear. intros x. induction (N.lt_wf_0 x) as [x _ IH]; intros s Hs.
  destruct (decide (0 < x)%N) as [Hx|Hx].
  - rewrite pretty_N_go_step by done. apply IH; [by apply N.div_lt|by left].
  - replace x with 0%N by lia. rewrite pretty_N_go_0. destruct Hs; [done|lia].
Qed.

Lemma parse_u64_show n : is_u64 n → parse_u64 (show_u64 n) = Some n.
Proof.
  intros Hn. pose proof (digits_value_show n) as Hv. pose proof (show_u64_digits n) as Hd.
  pose proof (show_u64_nonempty n). unfold parse_u64. unfold is_u64 in Hn.
  destruct (show_u64 n) as [|b s] eqn:He; [done|]. specialize (Hd ltac:(lia)). apply Forall_cons in Hd as [Hb _].
  assert (match b with x2b => s | _ => b :: s end = b :: s) as -> by (destruct b; done).
  rewrite Hv by lia. cbn. by rewrite (proj2 (Z.leb_le _ _)) by lia.
Qed.

Lemma digit_printable b : is_digit b = true → printable b.
Proof. unfold is_digit, in_span, printable. intros [H1%Z.leb_le H2%Z.leb_le]%andb_true_iff. lia. Qed.

Lemma show_u64_printable n : 0 ≤ n → Forall printable (show_u64 n).
Proof. intros Hn. eapply Forall_impl; [by apply show_u64_digits|]. intros b. apply digit_printable. Qed.
