(* ===== verification/Wire.v ===== *)
(** * The wire format ([v3-wire/src/lib.rs])

    Frames, their validation, the encoder and the decoder.  The decoder is a reader over the
    datagram; reading past the end, or slicing out of range, is a panic of the model. *)

From S2P Require Import Prelude Bytes.

Definition WIRE_VERSION_V3 : byte := x03.
Definition HEADER_LEN : Z := 1 + 1 + 1 + 8 + 2 + 2.
Definition MAX_TLV_COUNT : Z := 64.
Definition MAX_TLV_VALUE_LEN : Z := 2048.
Definition MAX_PAYLOAD_LEN : Z := 64 * 1024.

Inductive MessageType : Type :=
| ClientHello
| ServerHello
| HelloAck
| Msr
| RequestRange
| Data
| Fragment
| Error
| Close.

#[global] Instance MessageType_eq_dec : EqDecision MessageType.
Proof. solve_decision. Defined.

Inductive WireError : Type :=
| Truncated
| UnsupportedVersion (version : byte)
| UnknownMessageType (value : byte)
| PayloadTooLarge (len : Z)
| TooManyTlvs (count : Z)
| TlvTooLarge (len : Z)
| TlvBlockTooLarge (len : Z)
| MalformedTlv
| LengthMismatch (remaining expected : Z).

#[global] Instance WireError_eq_dec : EqDecision WireError.
Proof. solve_decision. Defined.

(** [message_type as u8]: the discriminants of the [repr(u8)] enum. *)
Definition message_type_to_u8 (t : MessageType) : byte :=
  match t with
  | ClientHello => x01
  | ServerHello => x02
  | HelloAck => x03
  | Msr => x10
  | RequestRange => x11
  | Data => x12
  | Fragment => x13
  | Error => x7e
  | Close => x7f
  end.

Definition from_u8 (value : byte) : outcome WireError MessageType :=
  match value with
  | x01 => Ok ClientHello
  | x02 => Ok ServerHello
  | x03 => Ok HelloAck
  | x10 => Ok Msr
  | x11 => Ok RequestRange
  | x12 => Ok Data
  | x13 => Ok Fragment
  | x7e => Ok Error
  | x7f => Ok Close
  | _ => Err (UnknownMessageType value)
  end.

Record Tlv : Type := mkTlv { kind : byte; value : list byte }.

#[global] Instance Tlv_eq_dec : EqDecision Tlv.
Proof. solve_decision. Defined.

Record WireFrame : Type := mkWireFrame {
  version : byte;
  message_type : MessageType;
  flags : byte;
  cid : Z;
  payload : list byte;
  tlvs : list Tlv;
}.

#[global] Instance WireFrame_eq_dec : EqDecision WireFrame.
Proof. solve_decision. Defined.

(** [WireFrame::new]. *)
Definition new (message_type : MessageType) (flags : byte) (cid : Z) (payload : list byte)
    (tlvs : list Tlv) : WireFrame :=
  mkWireFrame WIRE_VERSION_V3 message_type flags cid payload tlvs.

Definition validate_frame (frame : WireFrame) : outcome WireError () :=
  reject (negb (bool_decide (version frame = WIRE_VERSION_V3)))
    (UnsupportedVersion (version frame)) ;;
  reject (MAX_PAYLOAD_LEN <? zlen (payload frame)) (PayloadTooLarge (zlen (payload frame))) ;;
  reject (MAX_TLV_COUNT <? zlen (tlvs frame)) (TooManyTlvs (zlen (tlvs frame))) ;;
  mret ().

(** One TLV on the wire: [put_u8], [put_u16] and the value. *)
Definition put_tlv (t : Tlv) : list byte :=
  [kind t] ++ u16_be (as_u16 (zlen (value t))) ++ value t.

(** The loop of [encode] that fills [tlv_block]. *)
Fixpoint encode_tlv_block (tlv_block : list byte) (l : list Tlv) : outcome WireError (list byte) :=
  match l with
  | [] => mret tlv_block
  | t :: l' =>
      reject (MAX_TLV_VALUE_LEN <? zlen (value t)) (TlvTooLarge (zlen (value t))) ;;
      encode_tlv_block (tlv_block ++ put_tlv t) l'
  end.

(** [WireFrame::encode]. *)
Definition encode (frame : WireFrame) : outcome WireError (list byte) :=
  validate_frame frame ;;
  let payload_len := as_u16 (zlen (payload frame)) in
  tlv_block ← encode_tlv_block [] (tlvs frame);
  let tlv_len := zlen tlv_block in
  reject (U16_MAX <? tlv_len) (TlvBlockTooLarge tlv_len) ;;
  mret ([version frame] ++ [message_type_to_u8 (message_type frame)] ++ [flags frame] ++
        u64_be (cid frame) ++ u16_be payload_len ++ u16_be (as_u16 tlv_len) ++
        payload frame ++ tlv_block).

(** The loop of [decode_tlvs].  Every round consumes at least three bytes, so a round per
    byte of the input, and one more for the test of the empty rest, is enough fuel. *)
Fixpoint decode_tlvs_loop (fuel : nat) (out : list Tlv) : reader WireError (list Tlv) :=
  match fuel with
  | O => st_panic
  | S fuel' =>
      input ← st_get;
      if zlen input =? 0 then mret out
      else
        st_reject (zlen input <? 3) MalformedTlv ;;
        st_reject (MAX_TLV_COUNT <=? zlen out) (TooManyTlvs (zlen out)) ;;
        kind ← get_u8;
        len ← get_u16;
        st_reject (MAX_TLV_VALUE_LEN <? len) (TlvTooLarge len) ;;
        rest ← remaining;
        st_reject (rest <? len) MalformedTlv ;;
        value ← copy_to_slice len;
        decode_tlvs_loop fuel' (out ++ [mkTlv kind value])
  end.

Definition decode_tlvs (input : list byte) : outcome WireError (list Tlv) :=
  (decode_tlvs_loop (S (length input)) [] input).1.

(** [WireFrame::decode] after the check of the length of the header. *)
Definition decode_frame : reader WireError WireFrame :=
  version ← get_u8;
  st_reject (negb (bool_decide (version = WIRE_VERSION_V3))) (UnsupportedVersion version) ;;
  t ← get_u8;
  message_type ← st_lift (from_u8 t);
  flags ← get_u8;
  cid ← get_u64;
  payload_len ← get_u16;
  tlv_len ← get_u16;
  st_reject (MAX_PAYLOAD_LEN <? payload_len) (PayloadTooLarge payload_len) ;;
  rest ← remaining;
  st_reject (negb (rest =? payload_len + tlv_len)) (LengthMismatch rest (payload_len + tlv_len)) ;;
  payload ← copy_to_slice payload_len;
  buf ← st_get;
  tlv_bytes ← st_lift (slice buf 0 tlv_len);
  tlvs ← st_lift (decode_tlvs tlv_bytes);
  mret (mkWireFrame version message_type flags cid payload tlvs).

(** [WireFrame::decode]. *)
Definition decode (input : list byte) : outcome WireError WireFrame :=
  if zlen input <? HEADER_LEN then Err Truncated else (decode_frame input).1.

(** The fuzz entry point: the result is dropped, only a panic could be observed. *)
Definition fuzz_decode (input : list byte) : outcome WireError () :=
  match decode input with
  | Panic => Panic
  | _ => Ok ()
  end.

Arguments put_tlv : simpl never.

(* ------------------------------------------------------------------ *)
(** ** The specification of the format *)
(* ------------------------------------------------------------------ *)

(** The bytes of a TLV list and of a frame, as a layout with no error paths. *)
Definition tlvs_layout (l : list Tlv) : list byte := l ≫= put_tlv.

Definition frame_layout (f : WireFrame) : list byte :=
  version f :: message_type_to_u8 (message_type f) :: flags f ::
  u64_be (cid f) ++ u16_be (as_u16 (zlen (payload f))) ++
  u16_be (as_u16 (zlen (tlvs_layout (tlvs f)))) ++ payload f ++ tlvs_layout (tlvs f).

(** The bounds the format puts on a TLV and on a frame.  [cid] is a [u64] by its type. *)
Definition tlv_ok (t : Tlv) : Prop := zlen (value t) ≤ MAX_TLV_VALUE_LEN.

Record frame_ok (f : WireFrame) : Prop := {
  ok_version : version f = WIRE_VERSION_V3;
  ok_cid : is_u64 (cid f);
  ok_count : zlen (tlvs f) ≤ MAX_TLV_COUNT;
  ok_tlvs : Forall tlv_ok (tlvs f);
  ok_block : zlen (tlvs_layout (tlvs f)) ≤ U16_MAX;
}.

Arguments tlvs_layout : simpl never.
Arguments frame_layout : simpl never.
