(* ===== verification/WireLemmas.v ===== *)
(** * Lemmas on the wire format

    Reading steps, the TLV loop and the header, shared by the properties of [WireProps] and by
    the components that encode and decode frames. *)

From S2P Require Import Prelude Bytes Wire.

(* ------------------------------------------------------------------ *)
(** ** Reading steps *)
(* ------------------------------------------------------------------ *)

Section Reading.
Context {E : Type}.

Lemma get_u8_cons b r : get_u8 (E:=E) (b :: r) = (Ok b, r).
Proof. done. Qed.

Lemma copy_to_slice_app l r n : n = zlen l → copy_to_slice (E:=E) n (l ++ r) = (Ok l, r).
Proof.
  intros Hn. unfold copy_to_slice, st_get, st_modify, mbind, ST_bind, mret, ST_ret.
  rewrite (proj2 (Z.ltb_ge _ _)) by (rewrite zlen_app; pose proof (zlen_nonneg r); lia).
  by rewrite take_zlen_app, drop_zlen_app.
Qed.

Lemma get_u16_app z r : is_u16 z → get_u16 (E:=E) (u16_be z ++ r) = (Ok z, r).
Proof.
  intros Hz. unfold get_u16. rewrite (st_bind_ok _ _ _ (u16_be z) r) by by apply copy_to_slice_app.
  by rewrite be_value_u16.
Qed.

Lemma get_u64_app z r : is_u64 z → get_u64 (E:=E) (u64_be z ++ r) = (Ok z, r).
Proof.
  intros Hz. unfold get_u64. rewrite (st_bind_ok _ _ _ (u64_be z) r) by by apply copy_to_slice_app.
  by rewrite be_value_u64.
Qed.

Lemma remaining_eq s : remaining (E:=E) s = (Ok (zlen s), s).
Proof. done. Qed.

Lemma slice_all s n : n = zlen s → slice (E:=E) s 0 n = Ok s.
Proof.
  intros ->. unfold slice. pose proof (zlen_nonneg s).
  rewrite (proj2 (Z.leb_le _ _)) by done. rewrite Z.leb_refl. cbn.
  f_equal. rewrite Z.sub_0_r. apply take_ge. unfold zlen. lia.
Qed.

End Reading.

(** Every long enough buffer starts with the big-endian form of some integer. *)
Lemma split_u16 s : 2 ≤ zlen s → ∃ z r, is_u16 z ∧ s = u16_be z ++ r.
Proof.
  intros Hs. exists (be_value (take 2 s)), (drop 2 s).
  assert (zlen (take 2 s) = 2) by (unfold zlen in *; rewrite length_take; lia).
  split; [by apply be_value_is_u16|]. by rewrite u16_be_value, take_drop.
Qed.

Lemma split_u64 s : 8 ≤ zlen s → ∃ z r, is_u64 z ∧ s = u64_be z ++ r.
Proof.
  intros Hs. exists (be_value (take 8 s)), (drop 8 s).
  assert (zlen (take 8 s) = 8) by (unfold zlen in *; rewrite length_take; lia).
  split; [by apply be_value_is_u64|]. by rewrite u64_be_value, take_drop.
Qed.

Lemma split_zlen {A} (s : list A) n :
  0 ≤ n ≤ zlen s → ∃ l r, zlen l = n ∧ s = l ++ r.
Proof.
  intros Hn. exists (take (Z.to_nat n) s), (drop (Z.to_nat n) s).
  rewrite take_drop. split; [|done]. unfold zlen in *. rewrite length_take. lia.
Qed.

Lemma is_u16_small n : 0 ≤ n ≤ U16_MAX → as_u16 n = n.
Proof. intros H. unfold as_u16. apply Z.mod_small. ulia. Qed.

(* ------------------------------------------------------------------ *)
(** ** Message types *)
(* ------------------------------------------------------------------ *)

Lemma from_u8_to_u8 t : from_u8 (message_type_to_u8 t) = Ok t.
Proof. by destruct t. Qed.

Lemma from_u8_cases b :
  (∃ t, from_u8 b = Ok t ∧ b = message_type_to_u8 t) ∨ from_u8 b = Err (UnknownMessageType b).
Proof. destruct b; try (by right); left; eexists; by split. Qed.

Lemma from_u8_Ok b t : from_u8 b = Ok t ↔ b = message_type_to_u8 t.
Proof.
  split; [|intros ->; apply from_u8_to_u8].
  destruct (from_u8_cases b) as [(t' & H1 & H2)|H1]; rewrite H1; congruence.
Qed.

(* ------------------------------------------------------------------ *)
(** ** The TLV list *)
(* ------------------------------------------------------------------ *)

Lemma tlvs_layout_cons t l : tlvs_layout (t :: l) = put_tlv t ++ tlvs_layout l.
Proof. done. Qed.

Lemma put_tlv_unfold t :
  tlv_ok t → put_tlv t = kind t :: u16_be (zlen (value t)) ++ value t.
Proof.
  intros Ht. unfold put_tlv. rewrite is_u16_small; [done|].
  pose proof (zlen_nonneg (value t)). unfold tlv_ok, MAX_TLV_VALUE_LEN in *. ulia.
Qed.

Lemma zlen_put_tlv t : zlen (put_tlv t) = 3 + zlen (value t).
Proof. unfold put_tlv. zlen_norm. lia. Qed.

#[export] Hint Rewrite zlen_put_tlv : zlen.

(** A round of the loop on a buffer that starts with a kind and a length. *)
Lemma decode_tlvs_round n out k len r :
  is_u16 len →
  decode_tlvs_loop (S n) out (k :: u16_be len ++ r) =
    if MAX_TLV_COUNT <=? zlen out then (Err (TooManyTlvs (zlen out)), k :: u16_be len ++ r)
    else if MAX_TLV_VALUE_LEN <? len then (Err (TlvTooLarge len), r)
    else if zlen r <? len then (Err MalformedTlv, r)
    else decode_tlvs_loop n (out ++ [mkTlv k (take (Z.to_nat len) r)]) (drop (Z.to_nat len) r).
Proof.
  intros Hlen. cbn [decode_tlvs_loop].
  pose proof (zlen_nonneg r).
  rewrite (st_bind_ok st_get _ _ (k :: u16_be len ++ r) (k :: u16_be len ++ r)) by done.
  rewrite (proj2 (Z.eqb_neq _ _)) by (zlen_norm; lia).
  rewrite (proj2 (Z.ltb_ge _ _)) by (zlen_norm; lia).
  cbn [st_reject]. rewrite (st_bind_ok (mret ()) _ _ () (k :: u16_be len ++ r)) by done.
  destruct (MAX_TLV_COUNT <=? zlen out); [done|].
  cbn [st_reject]. rewrite (st_bind_ok (mret ()) _ _ () (k :: u16_be len ++ r)) by done.
  rewrite (st_bind_ok get_u8 _ _ k (u16_be len ++ r)) by done.
  rewrite (st_bind_ok get_u16 _ _ len r) by by apply get_u16_app.
  destruct (MAX_TLV_VALUE_LEN <? len); [done|].
  cbn [st_reject]. rewrite (st_bind_ok (mret ()) _ _ () r) by done.
  rewrite (st_bind_ok remaining _ _ (zlen r) r) by done.
  destruct (zlen r <? len) eqn:Hr; [done|].
  cbn [st_reject]. rewrite (st_bind_ok (mret ()) _ _ () r) by done.
  apply Z.ltb_ge in Hr. unfold is_u16 in Hlen.
  destruct (split_zlen r len) as (l & r' & Hl & ->); [lia|].
  rewrite (st_bind_ok (copy_to_slice len) _ _ l r') by by apply copy_to_slice_app.
  by rewrite take_zlen_app, drop_zlen_app.
Qed.

Lemma decode_tlvs_round_nil n out : decode_tlvs_loop (S n) out [] = (Ok out, []).
Proof. done. Qed.

Lemma decode_tlvs_round_short n out s :
  0 < zlen s < 3 → decode_tlvs_loop (S n) out s = (Err MalformedTlv, s).
Proof.
  intros Hs. cbn [decode_tlvs_loop].
  rewrite (st_bind_ok st_get _ _ s s) by done.
  rewrite (proj2 (Z.eqb_neq _ _)) by lia. by rewrite (proj2 (Z.ltb_lt _ _)) by lia.
Qed.

(** Every buffer is empty, too short, or starts with a kind and a length. *)
Lemma tlv_buffer_cases (s : list byte) :
  s = [] ∨ 0 < zlen s < 3 ∨ ∃ k len r, is_u16 len ∧ s = k :: u16_be len ++ r.
Proof.
  destruct s as [|k s]; [by left|right].
  destruct (decide (zlen (k :: s) < 3)) as [Hs|Hs].
  - left. rewrite zlen_cons in *. pose proof (zlen_nonneg s). lia.
  - right. rewrite zlen_cons in Hs.
    destruct (split_u16 s) as (z & r & Hz & ->); [lia|]. by exists k, z, r.
Qed.

(** Reading back the layout of a list of valid TLVs. *)
Lemma decode_tlvs_layout n out l :
  Forall tlv_ok l → zlen out + zlen l ≤ MAX_TLV_COUNT → zlen (tlvs_layout l) < Z.of_nat n →
  decode_tlvs_loop n out (tlvs_layout l) = (Ok (out ++ l), []).
Proof.
  revert n out. induction l as [|t l IH]; intros n out Hok Hc Hn.
  - destruct n; [cbn in *; ulia|]. by rewrite app_nil_r, decode_tlvs_round_nil.
  - apply Forall_cons in Hok as [Ht Hl]. rewrite tlvs_layout_cons in *.
    zlen_norm. pose proof (zlen_nonneg l). pose proof (zlen_nonneg (value t)).
    pose proof (zlen_nonneg (tlvs_layout l)).
    destruct n as [|n]; [lia|]. rewrite put_tlv_unfold by done. cbn [app]. rewrite <-app_assoc.
    assert (is_u16 (zlen (value t))).
    { unfold tlv_ok, MAX_TLV_VALUE_LEN in *. ulia. }
    rewrite decode_tlvs_round by done.
    rewrite (proj2 (Z.leb_gt _ _)) by lia.
    rewrite (proj2 (Z.ltb_ge _ _)) by done.
    rewrite (proj2 (Z.ltb_ge _ _)) by (zlen_norm; lia).
    rewrite take_zlen_app, drop_zlen_app by done.
    rewrite IH; [|done|zlen_norm; lia|lia].
    rewrite <-app_assoc. by destruct t.
Qed.

(** What the loop accepts is the layout of what it returns. *)
Lemma decode_tlvs_sound n out s l s' :
  decode_tlvs_loop n out s = (Ok l, s') → zlen out ≤ MAX_TLV_COUNT →
  ∃ l', l = out ++ l' ∧ s = tlvs_layout l' ∧ Forall tlv_ok l' ∧ zlen l ≤ MAX_TLV_COUNT.
Proof.
  revert out s. induction n as [|n IH]; intros out s H Hout; [done|].
  destruct (tlv_buffer_cases s) as [->|[Hs|(k & len & r & Hlen & ->)]].
  - rewrite decode_tlvs_round_nil in H. injection H as <- <-.
    exists []. by rewrite app_nil_r.
  - by rewrite decode_tlvs_round_short in H.
  - rewrite decode_tlvs_round in H by done.
    destruct (MAX_TLV_COUNT <=? zlen out) eqn:Hc; [done|].
    destruct (MAX_TLV_VALUE_LEN <? len) eqn:Hl; [done|].
    destruct (zlen r <? len) eqn:Hr; [done|].
    apply Z.leb_gt in Hc. apply Z.ltb_ge in Hl, Hr. unfold is_u16 in Hlen.
    destruct (split_zlen r len) as (v & r' & Hv & ->); [lia|].
    rewrite take_zlen_app, drop_zlen_app in H by done.
    apply IH in H as (l' & -> & -> & Hok & Hcount); [|zlen_norm; lia].
    assert (tlv_ok (mkTlv k v)) by (unfold tlv_ok; cbn; lia).
    exists (mkTlv k v :: l'). rewrite <-app_assoc. split_and!; [done| |by constructor|].
    + rewrite tlvs_layout_cons, put_tlv_unfold by done. cbn. by rewrite Hv, <-app_assoc.
    + by rewrite <-app_assoc in Hcount.
Qed.

(** The loop never panics: the fuel is enough and no read is out of range. *)
Lemma decode_tlvs_loop_total n out s :
  zlen s < Z.of_nat n → (decode_tlvs_loop n out s).1 ≠ Panic.
Proof.
  revert out s. induction n as [|n IH]; intros out s Hn; [pose proof (zlen_nonneg s); lia|].
  destruct (tlv_buffer_cases s) as [->|[Hs|(k & len & r & Hlen & ->)]].
  - by rewrite decode_tlvs_round_nil.
  - by rewrite decode_tlvs_round_short.
  - rewrite decode_tlvs_round by done. repeat case_match; try done.
    apply IH. zlen_norm. unfold zlen in *. rewrite length_drop. lia.
Qed.

Lemma decode_tlvs_total s : decode_tlvs s ≠ Panic.
Proof. unfold decode_tlvs. apply decode_tlvs_loop_total. unfold zlen. lia. Qed.

Lemma decode_tlvs_iff s l :
  decode_tlvs s = Ok l ↔ s = tlvs_layout l ∧ Forall tlv_ok l ∧ zlen l ≤ MAX_TLV_COUNT.
Proof.
  unfold decode_tlvs. split.
  - destruct (decode_tlvs_loop _ _ _) as [o s'] eqn:H. cbn. intros ->.
    by apply decode_tlvs_sound in H as (l' & -> & -> & ? & ?).
  - intros (-> & Hok & Hc). rewrite decode_tlvs_layout; [done|done|done|].
    unfold zlen. lia.
Qed.

(* ------------------------------------------------------------------ *)
(** ** The frame *)
(* ------------------------------------------------------------------ *)

(** Every buffer of at least [HEADER_LEN] bytes is a header and a rest. *)
Lemma header_cases s :
  HEADER_LEN ≤ zlen s →
  ∃ v t fl c p q r, is_u64 c ∧ is_u16 p ∧ is_u16 q ∧
    s = v :: t :: fl :: u64_be c ++ u16_be p ++ u16_be q ++ r.
Proof.
  unfold HEADER_LEN. intros Hs.
  destruct s as [|v [|t [|fl s]]]; [by cbn in Hs..|].
  rewrite !zlen_cons in Hs.
  destruct (split_u64 s) as (c & s1 & Hc & ->); [lia|]. rewrite zlen_app, zlen_u64_be in Hs.
  destruct (split_u16 s1) as (p & s2 & Hp & ->); [lia|]. rewrite zlen_app, zlen_u16_be in Hs.
  destruct (split_u16 s2) as (q & r & Hq & ->); [lia|].
  by exists v, t, fl, c, p, q, r.
Qed.

(** The checks of [decode], in its order, on a header and a rest. *)
Lemma decode_header v t fl c p q r :
  is_u64 c → is_u16 p → is_u16 q →
  decode (v :: t :: fl :: u64_be c ++ u16_be p ++ u16_be q ++ r) =
    if negb (bool_decide (v = WIRE_VERSION_V3)) then Err (UnsupportedVersion v)
    else mt ← from_u8 t;
      if negb (zlen r =? p + q) then Err (LengthMismatch (zlen r) (p + q))
      else l ← decode_tlvs (drop (Z.to_nat p) r);
        Ok (mkWireFrame v mt fl c (take (Z.to_nat p) r) l).
Proof.
  intros Hc Hp Hq. unfold decode.
  rewrite (proj2 (Z.ltb_ge _ _)) by (unfold HEADER_LEN; zlen_norm; pose proof (zlen_nonneg r); lia).
  unfold decode_frame.
  rewrite (st_bind_ok get_u8 _ _ v _) by apply get_u8_cons.
  case_bool_decide; [|done]. cbn [negb st_reject].
  rewrite (st_bind_ok (mret ()) _ _ () _) by done.
  rewrite (st_bind_ok get_u8 _ _ t _) by apply get_u8_cons.
  destruct (from_u8 t) as [mt|e|]; [|done..].
  rewrite (st_bind_ok (st_lift (Ok mt)) _ _ mt _) by done.
  rewrite (st_bind_ok get_u8 _ _ fl _) by apply get_u8_cons.
  rewrite (st_bind_ok get_u64 _ _ c _) by by apply get_u64_app.
  rewrite (st_bind_ok get_u16 _ _ p _) by by apply get_u16_app.
  rewrite (st_bind_ok get_u16 _ _ q _) by by apply get_u16_app.
  rewrite (proj2 (Z.ltb_ge _ _)) by (unfold MAX_PAYLOAD_LEN; ulia). cbn [st_reject].
  rewrite (st_bind_ok (mret ()) _ _ () r) by done.
  rewrite (st_bind_ok remaining _ _ (zlen r) r) by done.
  cbn [mbind outcome_bind]. destruct (zlen r =? p + q) eqn:Hr; [|done].
  cbn [negb st_reject]. rewrite (st_bind_ok (mret ()) _ _ () r) by done.
  apply Z.eqb_eq in Hr. unfold is_u16 in *.
  destruct (split_zlen r p) as (pl & bl & Hpl & ->); [lia|].
  rewrite (st_bind_ok (copy_to_slice p) _ _ pl bl) by by apply copy_to_slice_app.
  rewrite take_zlen_app, drop_zlen_app by done. rewrite zlen_app in Hr.
  rewrite (st_bind_ok st_get _ _ bl bl) by done.
  rewrite (st_bind_ok (st_lift (slice bl 0 q)) _ _ bl bl)
    by (unfold st_lift; by rewrite slice_all by lia).
  by destruct (decode_tlvs bl).
Qed.

Lemma decode_short s : zlen s < HEADER_LEN → decode s = Err Truncated.
Proof. intros Hs. unfold decode. by rewrite (proj2 (Z.ltb_lt _ _)). Qed.

(** Every input is handled by one of the two lemmas above. *)
Lemma decode_total s : decode s ≠ Panic.
Proof.
  destruct (Z.lt_ge_cases (zlen s) HEADER_LEN) as [Hs|Hs]; [by rewrite decode_short|].
  destruct (header_cases s Hs) as (v & t & fl & c & p & q & r & Hc & Hp & Hq & ->).
  rewrite decode_header by done. case_match; [done|].
  destruct (from_u8_cases t) as [(mt & -> & _)| ->]; [|done]. cbn. case_match; [done|].
  pose proof (decode_tlvs_total (drop (Z.to_nat p) r)). by destruct (decode_tlvs _).
Qed.

Lemma encode_tlv_block_spec acc l :
  encode_tlv_block acc l =
    match list_find (λ t, ¬ tlv_ok t) l with
    | Some (_, t) => Err (TlvTooLarge (zlen (value t)))
    | None => Ok (acc ++ tlvs_layout l)
    end.
Proof.
  revert acc. induction l as [|t l IH]; intros acc; cbn; [by change (tlvs_layout []) with (@nil byte); rewrite app_nil_r|].
  unfold reject, tlv_ok. destruct (MAX_TLV_VALUE_LEN <? zlen (value t)) eqn:Ht.
  - apply Z.ltb_lt in Ht. by rewrite decide_True by lia.
  - apply Z.ltb_ge in Ht. rewrite decide_False by lia. cbn. rewrite IH, tlvs_layout_cons.
    unfold tlv_ok. destruct (list_find _ l) as [[i t']|]; cbn; [done|]. by rewrite app_assoc.
Qed.

Lemma list_find_all_ok (l : list Tlv) :
  Forall tlv_ok l → list_find (λ t, ¬ tlv_ok t) l = None.
Proof. intros H. apply list_find_None. eapply Forall_impl; [exact H|]. by intros t Ht []. Qed.

(** The encoder on a valid frame writes its layout. *)
Lemma encode_ok f :
  frame_ok f → zlen (payload f) ≤ MAX_PAYLOAD_LEN → encode f = Ok (frame_layout f).
Proof.
  intros [Hv Hc Hn Ht Hb] Hp. unfold encode, validate_frame, reject, mbind, outcome_bind, mret, outcome_ret.
  rewrite bool_decide_eq_true_2 by done. cbn [negb].
  rewrite !(proj2 (Z.ltb_ge _ _)) by done.
  rewrite encode_tlv_block_spec, list_find_all_ok by done. cbn [app].
  by rewrite (proj2 (Z.ltb_ge _ _)) by done.
Qed.

Lemma zlen_frame_layout f :
  zlen (frame_layout f) = HEADER_LEN + zlen (payload f) + zlen (tlvs_layout (tlvs f)).
Proof. unfold frame_layout, HEADER_LEN. zlen_norm. lia. Qed.

(** The decoder accepts a byte string exactly when it is the layout of a valid frame. *)
Lemma decode_iff s f :
  decode s = Ok f ↔ frame_ok f ∧ zlen (payload f) ≤ U16_MAX ∧ s = frame_layout f.
Proof.
  split.
  - intros H. destruct (Z.lt_ge_cases (zlen s) HEADER_LEN) as [Hs|Hs]; [by rewrite decode_short in H|].
    destruct (header_cases s Hs) as (v & t & fl & c & p & q & r & Hc & Hp & Hq & ->).
    rewrite decode_header in H by done. case_bool_decide as Hv; [|done].
    destruct (from_u8_cases t) as [(mt & Ht & ->)|Ht]; rewrite Ht in H; [|done].
    cbn in H. destruct (zlen r =? p + q) eqn:Hr; [|done]. cbn in H. apply Z.eqb_eq in Hr.
    unfold is_u16 in *. destruct (split_zlen r p) as (pl & bl & Hpl & ->); [lia|].
    rewrite take_zlen_app, drop_zlen_app in H by done. rewrite zlen_app in Hr.
    destruct (decode_tlvs bl) as [l|e|] eqn:Hl; [|done..]. injection H as <-.
    apply decode_tlvs_iff in Hl as (-> & Hok & Hcount).
    split; [|split]; [constructor; cbn; first [done|lia]|cbn; lia|].
    unfold frame_layout; cbn. rewrite !is_u16_small by (unfold is_u16 in *; lia).
    by replace q with (zlen (tlvs_layout l)) by lia; subst p.
  - intros ([Hv Hc Hn Ht Hb] & Hp & ->). unfold frame_layout.
    pose proof (zlen_nonneg (payload f)). pose proof (zlen_nonneg (tlvs_layout (tlvs f))).
    rewrite !is_u16_small by lia.
    rewrite decode_header by (unfold is_u16; first [done|lia]).
    rewrite bool_decide_eq_true_2 by done. cbn [negb]. rewrite from_u8_to_u8. cbn [mbind outcome_bind].
    rewrite zlen_app, Z.eqb_refl. cbn [negb].
    rewrite take_zlen_app, drop_zlen_app by done.
    rewrite (proj2 (decode_tlvs_iff _ (tlvs f))) by done.
    by destruct f.
Qed.
