(* ===== verification/WireProps.v ===== *)
(** * Properties of the wire format

    The decoder is total and accepts exactly the layouts of valid frames, the encoder is
    characterised on every branch, and the two are inverse below 64 KiB of payload. *)

From S2P Require Import Prelude Bytes Wire WireLemmas.

(** A frame with two TLVs, used by the witnesses. *)
Definition sample_frame : WireFrame :=
  new Msr x03 0x0102030405060708 [x01; x02; x03; x04]
    [mkTlv x01 [x10; x11]; mkTlv x02 [x20]].

(** A frame whose payload has exactly [MAX_PAYLOAD_LEN] bytes. *)
Definition full_frame : WireFrame := new Data x00 7 (replicate (Z.to_nat MAX_PAYLOAD_LEN) x00) [].

Lemma sample_frame_ok : frame_ok sample_frame.
Proof.
  constructor; [reflexivity|cbn; ulia|by vm_compute| |by vm_compute].
  repeat constructor; by vm_compute.
Qed.

(** C6. [WireFrame::decode] accepts a byte string exactly when the string is the layout of a
    valid frame (version 3, at most 64 TLVs of at most 2048 bytes, a TLV block and a payload
    of at most 65535 bytes each), and returns that frame: the parser is sound, complete and
    canonical (no two byte strings decode to one frame). *)
Theorem decode_accepts_exactly_layouts (input : list byte) (f : WireFrame) :
  decode input = Ok f ↔ frame_ok f ∧ zlen (payload f) ≤ U16_MAX ∧ input = frame_layout f.
Proof. apply decode_iff. Qed.

(** C7. Encoding a valid frame with less than 64 KiB of payload succeeds and decoding the
    bytes gives the frame back. *)
Theorem encode_decode_roundtrip (f : WireFrame) :
  frame_ok f → zlen (payload f) ≤ U16_MAX →
  ∃ bs, encode f = Ok bs ∧ decode bs = Ok f ∧
        zlen bs = HEADER_LEN + zlen (payload f) + zlen (tlvs_layout (tlvs f)).
Proof.
  intros Hf Hp. exists (frame_layout f). split_and!.
  - apply encode_ok; [done|]. unfold MAX_PAYLOAD_LEN. ulia.
  - by apply decode_iff.
  - apply zlen_frame_layout.
Qed.

Lemma encode_decode_roundtrip_witness :
  frame_ok sample_frame ∧ zlen (payload sample_frame) ≤ U16_MAX ∧
  ∃ bs, encode sample_frame = Ok bs ∧ decode bs = Ok sample_frame ∧
        zlen bs = HEADER_LEN + zlen (payload sample_frame) + zlen (tlvs_layout (tlvs sample_frame)).
Proof.
  split; [exact sample_frame_ok|]. split; [by vm_compute|].
  apply (encode_decode_roundtrip sample_frame); [exact sample_frame_ok|by vm_compute].
Defined.

(** No input makes the parser panic, loop or run out of range: [fuzz_decode] returns on
    every byte string. *)
Theorem fuzz_decode_returns (input : list byte) : fuzz_decode input = Ok ().
Proof. unfold fuzz_decode. pose proof (decode_total input). by destruct (decode input). Qed.

(** The encoder on every branch, in the order of its checks: wrong version, payload over
    65536 bytes, more than 64 TLVs, the first TLV over 2048 bytes, a TLV block over 65535
    bytes, and otherwise the layout. *)
Theorem encode_branches (f : WireFrame) :
  encode f =
    if decide (version f ≠ WIRE_VERSION_V3) then Err (UnsupportedVersion (version f))
    else if decide (MAX_PAYLOAD_LEN < zlen (payload f)) then Err (PayloadTooLarge (zlen (payload f)))
    else if decide (MAX_TLV_COUNT < zlen (tlvs f)) then Err (TooManyTlvs (zlen (tlvs f)))
    else match list_find (λ t, ¬ tlv_ok t) (tlvs f) with
         | Some (_, t) => Err (TlvTooLarge (zlen (value t)))
         | None =>
             if decide (U16_MAX < zlen (tlvs_layout (tlvs f)))
             then Err (TlvBlockTooLarge (zlen (tlvs_layout (tlvs f))))
             else Ok (frame_layout f)
         end.
Proof.
  unfold encode, validate_frame, reject.
  destruct (decide (version f ≠ WIRE_VERSION_V3)) as [Hv|Hv]; [by rewrite bool_decide_eq_false_2|].
  rewrite bool_decide_eq_true_2 by (destruct (decide (version f = WIRE_VERSION_V3)); naive_solver).
  cbn [negb]. repeat case_decide.
  1,2: by cbn [mbind outcome_bind]; zdec.
  all: cbn [mbind outcome_bind]; zdec; cbn; rewrite encode_tlv_block_spec.
  all: destruct (list_find _ _) as [[i t]|]; cbn; [done|by zdec].
Qed.

(** The 64 KiB boundary: a valid frame whose payload has exactly [MAX_PAYLOAD_LEN] bytes
    passes validation and is encoded, but its length field is truncated to zero, so the
    decoder refuses the very bytes the encoder produced. *)
Theorem encode_full_payload_is_undecodable (f : WireFrame) :
  frame_ok f → zlen (payload f) = MAX_PAYLOAD_LEN →
  ∃ bs, encode f = Ok bs ∧
        decode bs = Err (LengthMismatch (MAX_PAYLOAD_LEN + zlen (tlvs_layout (tlvs f)))
                                        (zlen (tlvs_layout (tlvs f)))).
Proof.
  intros Hf Hp. exists (frame_layout f). split; [apply encode_ok; [done|lia]|].
  destruct Hf as [Hv Hc Hn Ht Hb]. unfold frame_layout. rewrite Hp.
  pose proof (zlen_nonneg (tlvs_layout (tlvs f))).
  change (as_u16 MAX_PAYLOAD_LEN) with 0. rewrite is_u16_small by lia.
  rewrite decode_header by (unfold is_u16, U16_MAX in *; first [done|lia]).
  rewrite bool_decide_eq_true_2, from_u8_to_u8 by done. cbn [negb mbind outcome_bind].
  rewrite zlen_app, Hp, (proj2 (Z.eqb_neq _ _)) by (unfold MAX_PAYLOAD_LEN; lia).
  cbn [negb]. by rewrite Z.add_0_l.
Qed.

Lemma encode_full_payload_is_undecodable_witness :
  zlen (payload full_frame) = MAX_PAYLOAD_LEN ∧
  ∃ bs, encode full_frame = Ok bs ∧
        decode bs = Err (LengthMismatch (MAX_PAYLOAD_LEN + zlen (tlvs_layout (tlvs full_frame)))
                                        (zlen (tlvs_layout (tlvs full_frame)))).
Proof.
  split; [by vm_compute|].
  apply (encode_full_payload_is_undecodable full_frame); [|by vm_compute].
  constructor; [reflexivity|cbn; ulia|by vm_compute|by constructor|by vm_compute].
Defined.
