(* ===== verification/Core.v ===== *)
(** * The protocol state machine ([v3-core/src/lib.rs])

    [CoreMachine], its events, outputs and timers, and one definition per method.  A method
    body runs over the machine and the output it fills; an error keeps the changes already
    made to the machine and drops the output. *)

From S2P Require Import Prelude Bytes.
From S2P Require Wire.

Definition TLV_TIMER_PROPOSAL : byte := x30.
Definition TLV_TIMER_ACK : byte := x31.
Definition TLV_MSR_SIGNAL : byte := x32.
Definition CLIENT_KEEPALIVE_EVERY_SERVER_MSR : Z := 4.
Definition SERVER_MAX_CONSECUTIVE_SERVER_MSR_WITHOUT_CLIENT_MSR : Z := 8.
Definition MAX_DATA_PAYLOAD_PER_FRAME : Z := 1000.
Definition FRAGMENT_HEADER_LEN : Z := 12.

Inductive Role : Type := Client | Server.

#[global] Instance Role_eq_dec : EqDecision Role.
Proof. solve_decision. Defined.

Inductive LifecycleState : Type := PreHandshake | Established | Reactivating | Lost.

#[global] Instance LifecycleState_eq_dec : EqDecision LifecycleState.
Proof. solve_decision. Defined.

Inductive TimerId : Type := ServerMsr | ClientProbe | Disconnect | RenegotiationTimeout.

#[global] Instance TimerId_eq_dec : EqDecision TimerId.
Proof. solve_decision. Defined.

Inductive PathEvent : Type := PathChanged (path_id : Z).

Record OutboundDatagram : Type := mkOutboundDatagram { path_id : Z; bytes : list byte }.

#[global] Instance OutboundDatagram_eq_dec : EqDecision OutboundDatagram.
Proof. solve_decision. Defined.

Inductive Event : Type :=
| HandshakeStarted
| HandshakeEstablished
| ReactivationProbeSent
| Reactivated
| Disconnected
| QueueAdvertised (next_pending_id : Z)
| RequestRangeSent (start end_ : Z)
| MessageDelivered (msg_id : Z)
| MessageReceived (msg_id : Z) (payload : list byte)
| TimerRenegotiationProposed (proposal_id : Z)
| TimerRenegotiationCommitted (proposal_id : Z)
| TimerRenegotiationRejected (proposal_id : Z)
| TimerRenegotiationRolledBack (proposal_id : Z)
| ParseError.

#[global] Instance Event_eq_dec : EqDecision Event.
Proof. solve_decision. Defined.

Inductive TimerAction : Type := Schedule (id : TimerId) (deadline_ms : Z).

Record CoreOutput : Type := mkCoreOutput {
  outbound_datagrams : list OutboundDatagram;
  events : list Event;
  timer_actions : list TimerAction;
}.

#[global] Instance CoreOutput_eta : Eta CoreOutput := λ r,
  mkCoreOutput (outbound_datagrams r) (events r) (timer_actions r).

(** [CoreOutput::default]. *)
Definition CoreOutput_default : CoreOutput := mkCoreOutput [] [] [].

Record CoreConfig : Type := mkCoreConfig {
  msr_interval_ms : Z;
  miss_window_count : Z;
  disconnect_window_ms : Z;
}.

#[global] Instance CoreConfig_eq_dec : EqDecision CoreConfig.
Proof. solve_decision. Defined.

Definition CoreConfig_default : CoreConfig := mkCoreConfig 15000 3 180000.

Record TimerProposal : Type := mkTimerProposal {
  tp_msr_interval_ms : Z;
  tp_miss_window_count : Z;
  tp_disconnect_window_ms : Z;
}.

#[global] Instance TimerProposal_eq_dec : EqDecision TimerProposal.
Proof. solve_decision. Defined.

(** [TimerProposal::to_config]. *)
Definition to_config (p : TimerProposal) : CoreConfig :=
  mkCoreConfig (tp_msr_interval_ms p) (tp_miss_window_count p) (tp_disconnect_window_ms p).

Record PendingRenegotiation : Type := mkPendingRenegotiation {
  pr_proposal_id : Z;
  pr_proposal : TimerProposal;
  pr_expires_at_ms : Z;
}.

Record FragmentAccumulator : Type := mkFragmentAccumulator {
  total : Z;
  chunks : gmap Z (list byte);
}.

#[global] Instance FragmentAccumulator_eta : Eta FragmentAccumulator := λ r,
  mkFragmentAccumulator (total r) (chunks r).

(** [FragmentAccumulator::default]. *)
Definition FragmentAccumulator_default : FragmentAccumulator := mkFragmentAccumulator 0 ∅.

Inductive MsrSource : Type := ControlMsrFrame | PiggybackTlv.

#[global] Instance MsrSource_eq_dec : EqDecision MsrSource.
Proof. solve_decision. Defined.

Record CoreMachine : Type := mkCoreMachine {
  role : Role;
  cid : Z;
  state : LifecycleState;
  cfg : CoreConfig;
  current_path_id : Z;
  next_outbound_id : Z;
  outbound_messages : gmap Z (list byte);
  received_ids : gset Z;
  received_buffer : gmap Z (list byte);
  received_fragments : gmap Z FragmentAccumulator;
  last_ordered_rx : Z;
  last_requested_end : Z;
  last_server_msr_at_ms : option Z;
  disconnect_deadline_ms : option Z;
  client_server_msr_rx_since_last_keepalive : Z;
  server_consecutive_msr_without_client_msr : Z;
  next_proposal_id : Z;
  pending_local_proposal : option PendingRenegotiation;
}.

#[global] Instance CoreMachine_eta : Eta CoreMachine := λ r,
  mkCoreMachine (role r) (cid r) (state r) (cfg r) (current_path_id r) (next_outbound_id r)
    (outbound_messages r) (received_ids r) (received_buffer r) (received_fragments r)
    (last_ordered_rx r) (last_requested_end r) (last_server_msr_at_ms r)
    (disconnect_deadline_ms r) (client_server_msr_rx_since_last_keepalive r)
    (server_consecutive_msr_without_client_msr r) (next_proposal_id r)
    (pending_local_proposal r).

Inductive CoreError : Type :=
| WireE (e : Wire.WireError)
| CidMismatch (expected got : Z)
| MalformedMsr
| MalformedRequestRange
| MalformedData
| InvalidStateForRenegotiation
| InvalidTimerProposal (reason : string)
| MalformedTimerProposal
| MalformedTimerAck.

(** [CoreMachine::new]. *)
Definition new (role : Role) (cid : Z) (cfg : CoreConfig) : CoreMachine :=
  {| role := role;
     cid := cid;
     state := PreHandshake;
     cfg := cfg;
     current_path_id := 0;
     next_outbound_id := 1;
     outbound_messages := ∅;
     received_ids := ∅;
     received_buffer := ∅;
     received_fragments := ∅;
     last_ordered_rx := 0;
     last_requested_end := 0;
     last_server_msr_at_ms := None;
     disconnect_deadline_ms := None;
     client_server_msr_rx_since_last_keepalive := 0;
     server_consecutive_msr_without_client_msr := 0;
     next_proposal_id := 1;
     pending_local_proposal := None |}.

(* ------------------------------------------------------------------ *)
(** ** Codecs of payloads and TLVs *)
(* ------------------------------------------------------------------ *)

Definition encode_frame (message_type : Wire.MessageType) (cid : Z) (payload : list byte)
    : outcome CoreError (list byte) :=
  map_err WireE (Wire.encode (Wire.new message_type x00 cid payload [])).

Definition encode_frame_with_tlvs (message_type : Wire.MessageType) (cid : Z)
    (payload : list byte) (tlvs : list Wire.Tlv) : outcome CoreError (list byte) :=
  map_err WireE (Wire.encode (Wire.new message_type x00 cid payload tlvs)).

Definition encode_msr_payload (acked next_pending : Z) : list byte :=
  u64_be acked ++ u64_be next_pending.

(** The length tests make the slices of the decoders below in range. *)
Definition decode_msr_payload (payload : list byte) : option (Z * Z) :=
  if zlen payload <? 16 then None
  else Some (be_value (take 8 payload), be_value (take 8 (drop 8 payload))).

Definition encode_msr_signal_tlv (acked next_pending : Z) : Wire.Tlv :=
  Wire.mkTlv TLV_MSR_SIGNAL (encode_msr_payload acked next_pending).

Definition find_msr_signal_tlv (tlvs : list Wire.Tlv) : option (Z * Z) :=
  match list_find (λ t, Wire.kind t = TLV_MSR_SIGNAL) tlvs with
  | Some (_, t) => decode_msr_payload (Wire.value t)
  | None => None
  end.

Definition encode_range (start end_ : Z) : list byte := u64_be start ++ u64_be end_.

Definition decode_range (payload : list byte) : option (Z * Z) :=
  if zlen payload <? 16 then None
  else Some (be_value (take 8 payload), be_value (take 8 (drop 8 payload))).

Definition encode_timer_proposal_tlv (proposal_id : Z) (p : TimerProposal) : Wire.Tlv :=
  Wire.mkTlv TLV_TIMER_PROPOSAL
    (u32_be proposal_id ++ u64_be (tp_msr_interval_ms p) ++ u64_be (tp_miss_window_count p) ++
     u64_be (tp_disconnect_window_ms p)).

Definition decode_timer_proposal_tlv (t : Wire.Tlv) : option (Z * TimerProposal) :=
  if negb (bool_decide (Wire.kind t = TLV_TIMER_PROPOSAL)) || negb (zlen (Wire.value t) =? 28)
  then None
  else
    let v := Wire.value t in
    Some (be_value (take 4 v),
          mkTimerProposal (be_value (take 8 (drop 4 v))) (be_value (take 8 (drop 12 v)))
            (be_value (take 8 (drop 20 v)))).

Definition encode_timer_ack_tlv (proposal_id : Z) (accepted : bool) : Wire.Tlv :=
  Wire.mkTlv TLV_TIMER_ACK (u32_be proposal_id ++ [if accepted then x01 else x00]).

Definition decode_timer_ack_tlv (t : Wire.Tlv) : option (Z * bool) :=
  if negb (bool_decide (Wire.kind t = TLV_TIMER_ACK)) || negb (zlen (Wire.value t) =? 5)
  then None
  else
    let v := Wire.value t in
    match drop 4 v with
    | x00 :: _ => Some (be_value (take 4 v), false)
    | x01 :: _ => Some (be_value (take 4 v), true)
    | _ => None
    end.

Definition MIN_MSR_INTERVAL_MS : Z := 1000.
Definition MAX_MSR_INTERVAL_MS : Z := 120000.
Definition MIN_MISS_WINDOW_COUNT : Z := 1.
Definition MAX_MISS_WINDOW_STEP : Z := 2.
Definition MIN_DISCONNECT_WINDOW_MS : Z := 5000.
Definition MAX_DISCONNECT_WINDOW_MS : Z := 900000.

(** [(lo..=hi).contains(&x)]. *)
Definition in_range (lo hi x : Z) : bool := (lo <=? x) && (x <=? hi).

Definition validate_timer_proposal (current : CoreConfig) (p : TimerProposal)
    : outcome CoreError () :=
  reject (negb (in_range MIN_MSR_INTERVAL_MS MAX_MSR_INTERVAL_MS (tp_msr_interval_ms p)))
    (InvalidTimerProposal "msr_interval_ms out of bounds") ;;
  reject (negb (in_range MIN_MISS_WINDOW_COUNT 64 (tp_miss_window_count p)))
    (InvalidTimerProposal "miss_window_count out of bounds") ;;
  reject (sat_add U64_MAX (miss_window_count current) MAX_MISS_WINDOW_STEP <?
          tp_miss_window_count p)
    (InvalidTimerProposal "miss_window_count step too large") ;;
  reject (negb (in_range MIN_DISCONNECT_WINDOW_MS MAX_DISCONNECT_WINDOW_MS
                  (tp_disconnect_window_ms p)))
    (InvalidTimerProposal "disconnect_window_ms out of bounds") ;;
  reject (tp_disconnect_window_ms p <?
          sat_mul U64_MAX (tp_msr_interval_ms p) (tp_miss_window_count p))
    (InvalidTimerProposal "disconnect_window_ms smaller than probe window") ;;
  mret ().

(* ------------------------------------------------------------------ *)
(** ** Method bodies: the machine and the output they fill *)
(* ------------------------------------------------------------------ *)

Abbreviation method := (ST (CoreMachine * CoreOutput) CoreError).

Definition self : method CoreMachine := λ p, (Ok p.1, p).

Definition modify_self (f : CoreMachine → CoreMachine) : method () :=
  st_modify (λ p, (f p.1, p.2)).

(** [out.outbound_datagrams.push(..)], [out.events.push(..)], [out.timer_actions.push(..)]. *)
Definition push_datagram (d : OutboundDatagram) : method () :=
  st_modify (λ p, (p.1, p.2 <| outbound_datagrams := outbound_datagrams p.2 ++ [d] |>)).

Definition push_event (e : Event) : method () :=
  st_modify (λ p, (p.1, p.2 <| events := events p.2 ++ [e] |>)).

Definition push_timer (id : TimerId) (deadline_ms : Z) : method () :=
  st_modify (λ p, (p.1, p.2 <| timer_actions := timer_actions p.2 ++ [Schedule id deadline_ms] |>)).

(** A method that returns its output. *)
Definition run (body : method ()) (m : CoreMachine) : outcome CoreError CoreOutput * CoreMachine :=
  let '(o, (m', out)) := body (m, CoreOutput_default) in
  (match o with Ok _ => Ok out | Err e => Err e | Panic => Panic end, m').

Definition is_role (r : Role) (m : CoreMachine) : bool := bool_decide (role m = r).

Definition in_state (s : LifecycleState) (m : CoreMachine) : bool := bool_decide (state m = s).

Definition set_state (s : LifecycleState) : method () := modify_self (λ m, m <| state := s |>).

Definition max_pending_id (m : CoreMachine) : Z := default 0 (bt_last_key (outbound_messages m)).

Definition touch_disconnect_deadline (now_ms : Z) : method () :=
  modify_self (λ m,
    m <| disconnect_deadline_ms := Some (add64 now_ms (disconnect_window_ms (cfg m))) |>).

Definition schedule_server_timers (now_ms : Z) : method () :=
  touch_disconnect_deadline now_ms ;;
  m ← self;
  push_timer ServerMsr (add64 now_ms (msr_interval_ms (cfg m))) ;;
  push_timer Disconnect (add64 now_ms (disconnect_window_ms (cfg m))).

Definition schedule_client_timers (now_ms : Z) : method () :=
  modify_self (λ m, m <| last_server_msr_at_ms := Some now_ms |>) ;;
  modify_self (λ m, m <| client_server_msr_rx_since_last_keepalive := 0 |>) ;;
  touch_disconnect_deadline now_ms ;;
  m ← self;
  push_timer ClientProbe (add64 now_ms (msr_interval_ms (cfg m))) ;;
  push_timer Disconnect (add64 now_ms (disconnect_window_ms (cfg m))).

Definition on_valid_peer_datagram (now_ms : Z) : method () :=
  m ← self;
  if negb (in_state Established m) then mret ()
  else if is_role Client m then modify_self (λ m, m <| last_server_msr_at_ms := Some now_ms |>)
  else if is_role Server m then
    modify_self (λ m, m <| server_consecutive_msr_without_client_msr := 0 |>)
  else mret ().

(** [encode_frame(..)?] pushed on the output. *)
Definition send_frame (path_id : Z) (frame : outcome CoreError (list byte)) : method () :=
  bytes ← st_lift frame;
  push_datagram (mkOutboundDatagram path_id bytes).

(* ------------------------------------------------------------------ *)
(** ** Inbound payloads *)
(* ------------------------------------------------------------------ *)

(** The loop of [flush_ordered].  Every round takes an entry out of the buffer, so one round
    per entry and the last test are enough fuel. *)
Fixpoint flush_loop (fuel : nat) : method () :=
  match fuel with
  | O => st_panic
  | S fuel' =>
      m ← self;
      let next := add64 (last_ordered_rx m) 1 in
      match received_buffer m !! next with
      | None => mret ()
      | Some ordered_payload =>
          modify_self (λ m, m <| received_buffer := delete next (received_buffer m) |>) ;;
          modify_self (λ m, m <| last_ordered_rx := next |>) ;;
          push_event (MessageDelivered next) ;;
          push_event (MessageReceived next ordered_payload) ;;
          flush_loop fuel'
      end
  end.

Definition flush_ordered : method () :=
  m ← self;
  flush_loop (S (size (received_buffer m))).

Definition handle_data (payload : list byte) : method () :=
  st_reject (zlen payload <? 8) MalformedData ;;
  id_bytes ← st_lift (slice payload 0 8);
  let msg_id := be_value id_bytes in
  m ← self;
  if bool_decide (msg_id ∈ received_ids m) then mret ()
  else
    modify_self (λ m, m <| received_ids := {[msg_id]} ∪ received_ids m |>) ;;
    body ← st_lift (slice payload 8 (zlen payload));
    modify_self (λ m, m <| received_buffer := <[msg_id := body]> (received_buffer m) |>) ;;
    modify_self (λ m, m <| received_fragments := delete msg_id (received_fragments m) |>) ;;
    flush_ordered.

(** [acc.chunks.get(&i)] for [i in 0..total], appended to [merged]; a missing piece is an error. *)
Fixpoint merge_chunks (merged : list byte) (pieces : gmap Z (list byte)) (l : list Z)
    : outcome CoreError (list byte) :=
  match l with
  | [] => Ok merged
  | i :: l' =>
      match pieces !! i with
      | None => Err MalformedData
      | Some chunk => merge_chunks (merged ++ chunk) pieces l'
      end
  end.

(** [self.received_fragments.entry(msg_id)] is updated in place: [acc] is the entry. *)
Definition set_fragments (msg_id : Z) (acc : FragmentAccumulator) : method () :=
  modify_self (λ m, m <| received_fragments := <[msg_id := acc]> (received_fragments m) |>).

Definition handle_fragment (payload : list byte) : method () :=
  st_reject (zlen payload <? FRAGMENT_HEADER_LEN) MalformedData ;;
  id_bytes ← st_lift (slice payload 0 8);
  let msg_id := be_value id_bytes in
  m ← self;
  if bool_decide (msg_id ∈ received_ids m) then mret ()
  else
    b8 ← st_lift (index payload 8);
    b9 ← st_lift (index payload 9);
    let frag_idx := be_value [b8; b9] in
    b10 ← st_lift (index payload 10);
    b11 ← st_lift (index payload 11);
    let frag_total := be_value [b10; b11] in
    st_reject ((frag_total =? 0) || (frag_total <=? frag_idx)) MalformedData ;;
    let acc := default FragmentAccumulator_default (received_fragments m !! msg_id) in
    let acc := if total acc =? 0 then acc <| total := frag_total |> else acc in
    set_fragments msg_id acc ;;
    st_reject (negb (total acc =? frag_total)) MalformedData ;;
    body ← st_lift (slice payload FRAGMENT_HEADER_LEN (zlen payload));
    let acc := match chunks acc !! frag_idx with
               | Some _ => acc
               | None => acc <| chunks := <[frag_idx := body]> (chunks acc) |>
               end in
    set_fragments msg_id acc ;;
    if Z.of_nat (size (chunks acc)) =? total acc then
      merged ← st_lift (merge_chunks [] (chunks acc) (seqZ 0 (total acc)));
      modify_self (λ m, m <| received_fragments := delete msg_id (received_fragments m) |>) ;;
      modify_self (λ m, m <| received_ids := {[msg_id]} ∪ received_ids m |>) ;;
      modify_self (λ m, m <| received_buffer := <[msg_id := merged]> (received_buffer m) |>) ;;
      flush_ordered
    else mret ().

(** One piece of a fragmented message: [idx] is the position [enumerate] gives. *)
Definition send_fragment (src_path_id id total_frags_u16 : Z) (piece : nat * list byte)
    : method () :=
  let '(idx, chunk) := piece in
  idx_u16 ← st_lift (ok_or (try_u16 (Z.of_nat idx)) MalformedData);
  let data := u64_be id ++ u16_be idx_u16 ++ u16_be total_frags_u16 ++ chunk in
  m ← self;
  send_frame src_path_id
    (encode_frame_with_tlvs Wire.Fragment (cid m) data
       [encode_msr_signal_tlv (last_ordered_rx m) (max_pending_id m)]).

(** The body of the loop of [handle_request_range]. *)
Definition send_message (src_path_id id : Z) : method () :=
  m ← self;
  match outbound_messages m !! id with
  | None => mret ()
  | Some msg =>
      if 8 + zlen msg <=? MAX_DATA_PAYLOAD_PER_FRAME then
        send_frame src_path_id
          (encode_frame_with_tlvs Wire.Data (cid m) (u64_be id ++ msg)
             [encode_msr_signal_tlv (last_ordered_rx m) (max_pending_id m)])
      else
        let chunk_size := sat_sub MAX_DATA_PAYLOAD_PER_FRAME FRAGMENT_HEADER_LEN in
        st_reject (chunk_size =? 0) MalformedData ;;
        let total_frags := div_ceil (zlen msg) chunk_size in
        total_frags_u16 ← st_lift (ok_or (try_u16 total_frags) MalformedData);
        st_for (imap pair (chunks_of chunk_size msg))
          (send_fragment src_path_id id total_frags_u16)
  end.

(** [for id in start..=end]: every identifier of the inclusive range, in order. *)
Definition handle_request_range (src_path_id : Z) (payload : list byte) : method () :=
  '(start, end_) ← st_lift (ok_or (decode_range payload) MalformedRequestRange);
  st_for (seqZ start (end_ - start + 1)) (send_message src_path_id).

(* ------------------------------------------------------------------ *)
(** ** MSR frames and piggybacked MSR signals *)
(* ------------------------------------------------------------------ *)

Definition handle_msr_signal (now_ms src_path_id next_pending : Z) (source : MsrSource)
    : method () :=
  m ← self;
  st_when (is_role Client m) (
    modify_self (λ m, m <| last_server_msr_at_ms := Some now_ms |>) ;;
    st_when (bool_decide (source = ControlMsrFrame)) (
      modify_self (λ m, m <| client_server_msr_rx_since_last_keepalive :=
        sat_add U32_MAX (client_server_msr_rx_since_last_keepalive m) 1 |>) ;;
      m ← self;
      st_when (CLIENT_KEEPALIVE_EVERY_SERVER_MSR <=? client_server_msr_rx_since_last_keepalive m) (
        modify_self (λ m, m <| client_server_msr_rx_since_last_keepalive := 0 |>) ;;
        m ← self;
        send_frame src_path_id
          (encode_frame Wire.Msr (cid m)
             (encode_msr_payload (last_ordered_rx m) (max_pending_id m))))) ;;
    m ← self;
    st_when (in_state Reactivating m) (
      set_state Established ;;
      push_event Reactivated)) ;;
  m ← self;
  st_when (is_role Server m) (
    modify_self (λ m, m <| server_consecutive_msr_without_client_msr := 0 |>)) ;;
  m ← self;
  st_when (in_state Established m && (last_requested_end m <? next_pending)) (
    let start := add64 (last_requested_end m) 1 in
    let end_ := next_pending in
    modify_self (λ m, m <| last_requested_end := end_ |>) ;;
    m ← self;
    send_frame src_path_id
      (encode_frame_with_tlvs Wire.RequestRange (cid m) (encode_range start end_)
         [encode_msr_signal_tlv (last_ordered_rx m) (max_pending_id m)]) ;;
    push_event (RequestRangeSent start end_)).

(** One TLV of an MSR frame: a timer proposal, an acknowledgement, or nothing. *)
Definition handle_msr_tlv (src_path_id : Z) (t : Wire.Tlv) : method () :=
  if bool_decide (Wire.kind t = TLV_TIMER_PROPOSAL) then
    '(proposal_id, proposal) ← st_lift (ok_or (decode_timer_proposal_tlv t) MalformedTimerProposal);
    m ← self;
    let accepted := is_ok (validate_timer_proposal (cfg m) proposal) in
    send_frame src_path_id
      (encode_frame_with_tlvs Wire.Msr (cid m)
         (encode_msr_payload (last_ordered_rx m) (max_pending_id m))
         [encode_timer_ack_tlv proposal_id accepted]) ;;
    if accepted : bool then
      modify_self (λ m, m <| cfg := to_config proposal |>) ;;
      push_event (TimerRenegotiationCommitted proposal_id)
    else push_event (TimerRenegotiationRejected proposal_id)
  else if bool_decide (Wire.kind t = TLV_TIMER_ACK) then
    '(proposal_id, accepted) ← st_lift (ok_or (decode_timer_ack_tlv t) MalformedTimerAck);
    m ← self;
    match pending_local_proposal m with
    | None => mret ()
    | Some pending =>
        st_when (pr_proposal_id pending =? proposal_id) (
          (if accepted : bool then
             modify_self (λ m, m <| cfg := to_config (pr_proposal pending) |>) ;;
             push_event (TimerRenegotiationCommitted proposal_id)
           else push_event (TimerRenegotiationRejected proposal_id)) ;;
          modify_self (λ m, m <| pending_local_proposal := None |>))
    end
  else mret ().

Definition handle_msr (now_ms src_path_id : Z) (frame : Wire.WireFrame) : method () :=
  '(_, next_pending) ← st_lift (ok_or (decode_msr_payload (Wire.payload frame)) MalformedMsr);
  st_for (Wire.tlvs frame) (handle_msr_tlv src_path_id) ;;
  handle_msr_signal now_ms src_path_id next_pending ControlMsrFrame.

(* ------------------------------------------------------------------ *)
(** ** The public methods *)
(* ------------------------------------------------------------------ *)

Definition begin_handshake_body (now_ms : Z) : method () :=
  m ← self;
  st_when (is_role Client m) (
    send_frame (current_path_id m) (encode_frame Wire.ClientHello (cid m) []) ;;
    push_event HandshakeStarted).

Definition begin_handshake (now_ms : Z) : CoreMachine → outcome CoreError CoreOutput * CoreMachine :=
  run (begin_handshake_body now_ms).

(** The [match] of [on_datagram] on the message type. *)
Definition dispatch (now_ms src_path_id : Z) (frame : Wire.WireFrame) : method () :=
  m ← self;
  match Wire.message_type frame with
  | Wire.ClientHello =>
      st_when (is_role Server m && in_state PreHandshake m) (
        set_state Established ;;
        push_event HandshakeEstablished ;;
        send_frame src_path_id (encode_frame Wire.ServerHello (cid m) []) ;;
        schedule_server_timers now_ms)
  | Wire.ServerHello =>
      st_when (is_role Client m && (in_state PreHandshake m || in_state Reactivating m)) (
        let was_reactivating := in_state Reactivating m in
        set_state Established ;;
        modify_self (λ m, m <| last_server_msr_at_ms := Some now_ms |>) ;;
        send_frame src_path_id (encode_frame Wire.HelloAck (cid m) []) ;;
        push_event (if was_reactivating then Reactivated else HandshakeEstablished) ;;
        schedule_client_timers now_ms)
  | Wire.HelloAck =>
      st_when (is_role Server m && in_state PreHandshake m) (
        set_state Established ;;
        push_event HandshakeEstablished ;;
        schedule_server_timers now_ms)
  | Wire.Msr => handle_msr now_ms src_path_id frame
  | Wire.RequestRange =>
      st_when (in_state Established m) (handle_request_range src_path_id (Wire.payload frame))
  | Wire.Data => st_when (in_state Established m) (handle_data (Wire.payload frame))
  | Wire.Fragment => st_when (in_state Established m) (handle_fragment (Wire.payload frame))
  | Wire.Close | Wire.Error =>
      set_state Lost ;;
      push_event Disconnected
  end.

(** A decoded frame, up to the end of [on_datagram]. *)
Definition on_frame (now_ms src_path_id : Z) (frame : Wire.WireFrame) : method () :=
  m ← self;
  st_reject (negb (cid m =? 0) && negb (Wire.cid frame =? cid m))
    (CidMismatch (cid m) (Wire.cid frame)) ;;
  modify_self (λ m, m <| current_path_id := src_path_id |>) ;;
  touch_disconnect_deadline now_ms ;;
  on_valid_peer_datagram now_ms ;;
  dispatch now_ms src_path_id frame ;;
  st_when (negb (bool_decide (Wire.message_type frame = Wire.Msr))) (
    match find_msr_signal_tlv (Wire.tlvs frame) with
    | Some (_, next_pending) => handle_msr_signal now_ms src_path_id next_pending PiggybackTlv
    | None => mret ()
    end).

Definition on_datagram_body (now_ms src_path_id : Z) (bytes : list byte) : method () :=
  match Wire.decode bytes with
  | Ok frame => on_frame now_ms src_path_id frame
  | Err _ => push_event ParseError
  | Panic => st_panic
  end.

Definition on_datagram (now_ms src_path_id : Z) (bytes : list byte) : CoreMachine → outcome CoreError CoreOutput * CoreMachine :=
  run (on_datagram_body now_ms src_path_id bytes).

Definition on_timer_body (now_ms : Z) (timer_id : TimerId) : method () :=
  m ← self;
  match timer_id with
  | ServerMsr =>
      st_when (is_role Server m && in_state Established m) (
        modify_self (λ m, m <| server_consecutive_msr_without_client_msr :=
          sat_add U32_MAX (server_consecutive_msr_without_client_msr m) 1 |>) ;;
        m ← self;
        if SERVER_MAX_CONSECUTIVE_SERVER_MSR_WITHOUT_CLIENT_MSR <?
           server_consecutive_msr_without_client_msr m then
          set_state Lost ;;
          push_event Disconnected
        else
          send_frame (current_path_id m)
            (encode_frame Wire.Msr (cid m) (encode_msr_payload (last_ordered_rx m) 0)) ;;
          touch_disconnect_deadline now_ms ;;
          push_timer ServerMsr (add64 now_ms (msr_interval_ms (cfg m))) ;;
          push_timer Disconnect (add64 now_ms (disconnect_window_ms (cfg m))))
  | ClientProbe =>
      st_when (is_role Client m && (in_state Established m || in_state Reactivating m)) (
        let since_last := sat_sub now_ms (default 0 (last_server_msr_at_ms m)) in
        let miss_window :=
          sat_mul U64_MAX (msr_interval_ms (cfg m)) (miss_window_count (cfg m)) in
        st_when (miss_window <? since_last) (
          set_state Reactivating ;;
          send_frame (current_path_id m)
            (encode_frame Wire.Msr (cid m) (encode_msr_payload 0 (max_pending_id m))) ;;
          push_event ReactivationProbeSent) ;;
        push_timer ClientProbe (add64 now_ms (msr_interval_ms (cfg m))))
  | Disconnect =>
      match disconnect_deadline_ms m with
      | None => mret ()
      | Some deadline =>
          if (deadline <=? now_ms) && negb (in_state Lost m) then
            set_state Lost ;;
            push_event Disconnected
          else push_timer Disconnect deadline
      end
  | RenegotiationTimeout =>
      match pending_local_proposal m with
      | None => mret ()
      | Some pending =>
          st_when (pr_expires_at_ms pending <=? now_ms) (
            modify_self (λ m, m <| pending_local_proposal := None |>) ;;
            push_event (TimerRenegotiationRolledBack (pr_proposal_id pending)))
      end
  end.

Definition on_timer (now_ms : Z) (timer_id : TimerId) : CoreMachine → outcome CoreError CoreOutput * CoreMachine :=
  run (on_timer_body now_ms timer_id).

Definition on_api_send_body (payload : list byte) : method () :=
  m ← self;
  let msg_id := next_outbound_id m in
  modify_self (λ m, m <| next_outbound_id := add64 (next_outbound_id m) 1 |>) ;;
  modify_self (λ m, m <| outbound_messages := <[msg_id := payload]> (outbound_messages m) |>) ;;
  m ← self;
  st_when (in_state Established m) (
    if is_role Client m then
      let pending := max_pending_id m in
      send_frame (current_path_id m)
        (encode_frame Wire.Msr (cid m) (encode_msr_payload 0 pending)) ;;
      push_event (QueueAdvertised pending)
    else
      send_frame (current_path_id m)
        (encode_frame Wire.Msr (cid m)
           (encode_msr_payload (last_ordered_rx m) (max_pending_id m)))).

Definition on_api_send (payload : list byte) : CoreMachine → outcome CoreError CoreOutput * CoreMachine :=
  run (on_api_send_body payload).

Definition on_api_close_body : method () :=
  m ← self;
  if in_state Lost m then mret ()
  else
    send_frame (current_path_id m) (encode_frame Wire.Close (cid m) []) ;;
    set_state Lost ;;
    push_event Disconnected.

Definition on_api_close : CoreMachine → outcome CoreError CoreOutput * CoreMachine :=
  run (on_api_close_body).

Definition on_api_propose_timers_body (now_ms : Z) (proposal : TimerProposal) : method () :=
  m ← self;
  st_reject (negb (in_state Established m)) InvalidStateForRenegotiation ;;
  st_lift (validate_timer_proposal (cfg m) proposal) ;;
  let proposal_id := next_proposal_id m in
  modify_self (λ m, m <| next_proposal_id := sat_add U32_MAX (next_proposal_id m) 1 |>) ;;
  let expires_at_ms := sat_add U64_MAX now_ms (sat_mul U64_MAX (msr_interval_ms (cfg m)) 2) in
  modify_self (λ m, m <| pending_local_proposal :=
    Some (mkPendingRenegotiation proposal_id proposal expires_at_ms) |>) ;;
  send_frame (current_path_id m)
    (encode_frame_with_tlvs Wire.Msr (cid m) (encode_msr_payload 0 (max_pending_id m))
       [encode_timer_proposal_tlv proposal_id proposal]) ;;
  push_event (TimerRenegotiationProposed proposal_id) ;;
  push_timer RenegotiationTimeout expires_at_ms.

Definition on_api_propose_timers (now_ms : Z) (proposal : TimerProposal) : CoreMachine → outcome CoreError CoreOutput * CoreMachine :=
  run (on_api_propose_timers_body now_ms proposal).

Definition on_path_event_body (event : PathEvent) : method () :=
  match event with
  | PathChanged path_id => modify_self (λ m, m <| current_path_id := path_id |>)
  end.

Definition on_path_event (event : PathEvent) : CoreMachine → outcome CoreError CoreOutput * CoreMachine :=
  run (on_path_event_body event).
