(* ===== verification/CoreSpec.v ===== *)
(** * What the protocol state machine promises

    The inputs a host feeds a machine and the run over them, the observations of a run
    (deliveries, requested ranges, sent frames), and the vocabulary of the specification:
    the life cycle order, genuine frames, the receive invariant. *)

From S2P Require Import Prelude Bytes Core.
From S2P Require Wire.

(* ------------------------------------------------------------------ *)
(** ** Runs *)
(* ------------------------------------------------------------------ *)

(** One call of a host on a machine. *)
Inductive input : Type :=
| InHandshake (now_ms : Z)
| InDatagram (now_ms src_path_id : Z) (bytes : list byte)
| InTimer (now_ms : Z) (id : TimerId)
| InSend (payload : list byte)
| InClose
| InPropose (now_ms : Z) (proposal : TimerProposal)
| InPath (event : PathEvent).

Definition step (i : input) : CoreMachine → outcome CoreError CoreOutput * CoreMachine :=
  match i with
  | InHandshake now => begin_handshake now
  | InDatagram now path bs => on_datagram now path bs
  | InTimer now id => on_timer now id
  | InSend payload => on_api_send payload
  | InClose => on_api_close
  | InPropose now p => on_api_propose_timers now p
  | InPath e => on_path_event e
  end.

(** A run: the outcome of every call, in order, and the machine after the last one. *)
Fixpoint run_inputs (l : list input) (m : CoreMachine)
    : list (outcome CoreError CoreOutput) * CoreMachine :=
  match l with
  | [] => ([], m)
  | i :: l' =>
      let '(o, m1) := step i m in
      let '(os, m2) := run_inputs l' m1 in
      (o :: os, m2)
  end.

(* ------------------------------------------------------------------ *)
(** ** Observations *)
(* ------------------------------------------------------------------ *)

Definition received_of (e : Event) : list (Z * list byte) :=
  match e with MessageReceived id payload => [(id, payload)] | _ => [] end.

Definition announced_of (e : Event) : list Z :=
  match e with MessageDelivered id => [id] | _ => [] end.

Definition requested_of (e : Event) : list (Z * Z) :=
  match e with RequestRangeSent s e => [(s, e)] | _ => [] end.

(** The messages handed to the application, the identifiers announced as delivered, and the
    ranges requested from the peer, in the order of the events. *)
Definition received (l : list Event) : list (Z * list byte) := l ≫= received_of.
Definition announced (l : list Event) : list Z := l ≫= announced_of.
Definition requested (l : list Event) : list (Z * Z) := l ≫= requested_of.

Arguments received : simpl never.
Arguments announced : simpl never.
Arguments requested : simpl never.

(** The events a call returns: none when it fails. *)
Definition events_of (o : outcome CoreError CoreOutput) : list Event :=
  match o with Ok out => events out | _ => [] end.

Definition datagrams_of (o : outcome CoreError CoreOutput) : list OutboundDatagram :=
  match o with Ok out => outbound_datagrams out | _ => [] end.

(** Consecutive ranges from [a + 1] to [b]. *)
Fixpoint chain (a : Z) (l : list (Z * Z)) (b : Z) : Prop :=
  match l with
  | [] => a = b
  | (s, e) :: l' => (s = a + 1) ∧ (a < e) ∧ chain e l' b
  end.

(* ------------------------------------------------------------------ *)
(** ** The life cycle *)
(* ------------------------------------------------------------------ *)

(** The states a machine can reach: [Lost] is final, a machine that left [PreHandshake]
    never returns to it, and only a client is ever [Reactivating]. *)
Definition lifecycle (r : Role) (s s' : LifecycleState) : Prop :=
  s' = s ∨ s' = Lost ∨ (s ≠ Lost ∧ s' = Established) ∨
  (s ≠ Lost ∧ r = Client ∧ s' = Reactivating).

(* ------------------------------------------------------------------ *)
(** ** Genuine frames *)
(* ------------------------------------------------------------------ *)

(** The bytes of a message one fragment carries. *)
Definition CHUNK_SIZE : Z := MAX_DATA_PAYLOAD_PER_FRAME - FRAGMENT_HEADER_LEN.

(** A frame carries application data of [sent] only: whole messages in [Data] frames, pieces
    at their place in [Fragment] frames. *)
Definition genuine (sent : gmap Z (list byte)) (f : Wire.WireFrame) : Prop :=
  match Wire.message_type f with
  | Wire.Data =>
      ∃ id msg, is_u64 id ∧ sent !! id = Some msg ∧ Wire.payload f = u64_be id ++ msg
  | Wire.Fragment =>
      ∃ id msg idx chunk,
        is_u64 id ∧ sent !! id = Some msg ∧
        chunks_of CHUNK_SIZE msg !! idx = Some chunk ∧
        div_ceil (zlen msg) CHUNK_SIZE ≤ U16_MAX ∧
        Wire.payload f =
          u64_be id ++ u16_be (Z.of_nat idx) ++ u16_be (div_ceil (zlen msg) CHUNK_SIZE) ++ chunk
  | _ => True
  end.

(** A datagram that is a frame of the association, with data of [sent] only. *)
Definition emitted (cid : Z) (sent : gmap Z (list byte)) (d : OutboundDatagram) : Prop :=
  ∃ f, Wire.decode (bytes d) = Ok f ∧ Wire.cid f = cid ∧ genuine sent f.

(* ------------------------------------------------------------------ *)
(** ** The two sides of a machine *)
(* ------------------------------------------------------------------ *)

Definition send_side (m : CoreMachine) : Role * Z * Z * gmap Z (list byte) :=
  (role m, cid m, next_outbound_id m, outbound_messages m).

Definition recv_side (m : CoreMachine)
    : gset Z * gmap Z (list byte) * gmap Z FragmentAccumulator * Z :=
  (received_ids m, received_buffer m, received_fragments m, last_ordered_rx m).

(** A method changed nothing a peer's data or the application can observe. *)
Definition unmoved (m m' : CoreMachine) : Prop :=
  send_side m' = send_side m ∧ recv_side m' = recv_side m ∧ state m' = state m ∧
  last_requested_end m' = last_requested_end m.

(** The effect of a method that leaves the receive side alone. *)
Record quiet (p p' : CoreMachine * CoreOutput) : Prop := mkQuiet {
  quiet_send : send_side p'.1 = send_side p.1;
  quiet_recv : recv_side p'.1 = recv_side p.1;
  quiet_requested_u64 : is_u64 (last_requested_end p.1) → is_u64 (last_requested_end p'.1);
  quiet_events : ∃ l,
    events p'.2 = events p.2 ++ l ∧ received l = [] ∧ announced l = [] ∧
    chain (last_requested_end p.1) (requested l) (last_requested_end p'.1);
  quiet_datagrams : ∃ l,
    outbound_datagrams p'.2 = outbound_datagrams p.2 ++ l ∧
    Forall (emitted (cid p.1) (outbound_messages p.1)) l;
  quiet_lifecycle : lifecycle (role p.1) (state p.1) (state p'.1);
}.

(** The postcondition of a method: no panic, [quiet] on success, [unmoved] on error. *)
Definition quiet_or_err (p : CoreMachine * CoreOutput) (o : outcome CoreError ())
    (p' : CoreMachine * CoreOutput) : Prop :=
  match o with
  | Ok _ => quiet p p'
  | Err _ => unmoved p.1 p'.1
  | Panic => False
  end.

(** The same, of a method that leaves the life cycle and the requests alone as well. *)
Definition calm (p : CoreMachine * CoreOutput) (o : outcome CoreError ())
    (p' : CoreMachine * CoreOutput) : Prop :=
  unmoved p.1 p'.1 ∧
  match o with
  | Ok _ => quiet p p'
  | Err _ => True
  | Panic => False
  end.

(** The same, of a method that has no error. *)
Definition quiet_ok (p : CoreMachine * CoreOutput) (o : outcome CoreError ())
    (p' : CoreMachine * CoreOutput) : Prop :=
  o = Ok () ∧ quiet p p'.

(** The fields whose range the arithmetic of the methods relies on. *)
Definition in_u64 (m : CoreMachine) : Prop := is_u64 (cid m) ∧ is_u64 (last_requested_end m).

(* ------------------------------------------------------------------ *)
(** ** The receive invariant *)
(* ------------------------------------------------------------------ *)

Section ReceiveInvariant.
(** What a whole message and a piece of one may be. *)
Context (ok_msg : Z → list byte → Prop) (ok_piece : Z → Z → Z → list byte → Prop).

(** A partly reassembled message. *)
Record acc_inv (id : Z) (acc : FragmentAccumulator) : Prop := mkAccInv {
  acc_total : 0 < total acc ≤ U16_MAX;
  acc_pieces : ∀ i c, chunks acc !! i = Some c → 0 ≤ i < total acc ∧ ok_piece id (total acc) i c;
  acc_incomplete : Z.of_nat (size (chunks acc)) < total acc;
  acc_origin : ∃ i c, 0 ≤ i < total acc ∧ ok_piece id (total acc) i c;
}.

(** [n] bounds the number of messages seen so far. *)
Record recv_inv (n : Z) (m : CoreMachine) : Prop := mkRecvInv {
  recv_last : 0 ≤ last_ordered_rx m;
  recv_count : last_ordered_rx m + Z.of_nat (size (received_buffer m)) ≤ n;
  recv_ids : ∀ k, k ∈ received_ids m ↔
    1 ≤ k ≤ last_ordered_rx m ∨ is_Some (received_buffer m !! k);
  recv_buffer : ∀ k payload, received_buffer m !! k = Some payload →
    is_u64 k ∧ (k = 0 ∨ last_ordered_rx m < k) ∧ ok_msg k payload;
  recv_gap : received_buffer m !! (last_ordered_rx m + 1) = None;
  recv_fragments : ∀ id acc, received_fragments m !! id = Some acc →
    (id ∉ received_ids m) ∧ acc_inv id acc;
}.

End ReceiveInvariant.

(* ------------------------------------------------------------------ *)
(** ** One call and whole runs *)
(* ------------------------------------------------------------------ *)

Section Progress.
Context (ok_msg : Z → list byte → Prop) (ok_piece : Z → Z → Z → list byte → Prop).

(** [n] bounds the number of calls so far. *)
Record machine_inv (n : Z) (m : CoreMachine) : Prop := mkMachineInv {
  mi_u64 : in_u64 m;
  mi_recv : recv_inv ok_msg ok_piece n m;
  mi_next : 1 ≤ next_outbound_id m ≤ n + 1;
  mi_outbound : ∀ k, is_Some (outbound_messages m !! k) ↔ 1 ≤ k < next_outbound_id m;
}.

(** The data a frame carries is acceptable. *)
Definition data_ok (f : Wire.WireFrame) : Prop :=
  match Wire.message_type f with
  | Wire.Data => ∀ id msg, is_u64 id → Wire.payload f = u64_be id ++ msg → ok_msg id msg
  | Wire.Fragment =>
      ∀ id idx tot body, is_u64 id → is_u16 idx → is_u16 tot →
        Wire.payload f = u64_be id ++ u16_be idx ++ u16_be tot ++ body → ok_piece id tot idx body
  | _ => True
  end.

Definition input_ok (i : input) : Prop :=
  match i with
  | InDatagram _ _ bs => ∀ f, Wire.decode bs = Ok f → data_ok f
  | _ => True
  end.

(** What one call does: the next consecutive messages are handed to the application, once and
    with acceptable payloads; the ranges requested follow each other; every datagram carries
    data of the outbound messages; the life cycle moves forward. *)
Record progress (i : input) (m : CoreMachine) (o : outcome CoreError CoreOutput)
    (m' : CoreMachine) : Prop := mkProgress {
  pg_returns : o ≠ Panic;
  pg_identity : role m' = role m ∧ cid m' = cid m;
  pg_outbound :
    match i with
    | InSend payload =>
        outbound_messages m' = <[next_outbound_id m := payload]> (outbound_messages m) ∧
        next_outbound_id m' = next_outbound_id m + 1
    | _ =>
        outbound_messages m' = outbound_messages m ∧ next_outbound_id m' = next_outbound_id m
    end;
  pg_last : last_ordered_rx m ≤ last_ordered_rx m';
  pg_received : (received (events_of o)).*1 =
    seqZ (last_ordered_rx m + 1) (last_ordered_rx m' - last_ordered_rx m);
  pg_announced : announced (events_of o) = (received (events_of o)).*1;
  pg_payloads : Forall (λ q, ok_msg q.1 q.2) (received (events_of o));
  pg_requested : chain (last_requested_end m) (requested (events_of o)) (last_requested_end m');
  pg_emitted : Forall (emitted (cid m) (outbound_messages m')) (datagrams_of o);
  pg_lifecycle : lifecycle (role m) (state m) (state m');
}.

End Progress.

(** The messages a whole run hands to the application, in order, and so on. *)
Definition run_received (os : list (outcome CoreError CoreOutput)) : list (Z * list byte) :=
  os ≫= λ o, received (events_of o).

Definition run_requested (os : list (outcome CoreError CoreOutput)) : list (Z * Z) :=
  os ≫= λ o, requested (events_of o).

Definition run_datagrams (os : list (outcome CoreError CoreOutput)) : list OutboundDatagram :=
  os ≫= datagrams_of.
