(* ===== verification/CoreLemmas.v ===== *)
(** * Lemmas on the protocol state machine

    Codecs, execution rules of the method primitives, the frames a machine emits, and the
    effect of every handler that leaves the receive side alone. *)

From S2P Require Import Prelude Bytes Core.
From S2P Require Wire WireLemmas.

(* ------------------------------------------------------------------ *)
(** ** Codecs *)
(* ------------------------------------------------------------------ *)

Lemma take_u64_app a s : take 8 (u64_be a ++ s) = u64_be a.
Proof. apply (take_zlen_app _ _ 8). by rewrite zlen_u64_be. Qed.

Lemma drop_u64_app a s : drop 8 (u64_be a ++ s) = s.
Proof. apply (drop_zlen_app _ _ 8). by rewrite zlen_u64_be. Qed.

Lemma take_u64 a : take 8 (u64_be a) = u64_be a.
Proof. rewrite <-(app_nil_r (u64_be a)) at 1. apply take_u64_app. Qed.

Lemma take_u32_app a s : take 4 (u32_be a ++ s) = u32_be a.
Proof. apply (take_zlen_app _ _ 4). by rewrite zlen_u32_be. Qed.

Lemma drop_u32_app a s : drop 4 (u32_be a ++ s) = s.
Proof. apply (drop_zlen_app _ _ 4). by rewrite zlen_u32_be. Qed.

Lemma decode_msr_payload_encode a b :
  is_u64 a → is_u64 b → decode_msr_payload (encode_msr_payload a b) = Some (a, b).
Proof.
  intros Ha Hb. unfold decode_msr_payload, encode_msr_payload. zlen_norm.
  cbn [Z.ltb]. rewrite take_u64_app, drop_u64_app, take_u64.
  by rewrite !be_value_u64.
Qed.

Lemma decode_range_encode a b :
  is_u64 a → is_u64 b → decode_range (encode_range a b) = Some (a, b).
Proof. apply decode_msr_payload_encode. Qed.

Lemma decode_msr_payload_range s a b : decode_msr_payload s = Some (a, b) → is_u64 a ∧ is_u64 b.
Proof.
  unfold decode_msr_payload. destruct (zlen s <? 16) eqn:Hs; [done|]. intros [= <- <-]. zprop.
  split; apply be_value_is_u64; unfold zlen in *; rewrite length_take, ?length_drop; lia.
Qed.

Definition proposal_range (p : TimerProposal) : Prop :=
  is_u64 (tp_msr_interval_ms p) ∧ is_u64 (tp_miss_window_count p) ∧
  is_u64 (tp_disconnect_window_ms p).

Lemma decode_timer_proposal_encode id p :
  is_u32 id → proposal_range p →
  decode_timer_proposal_tlv (encode_timer_proposal_tlv id p) = Some (id, p).
Proof.
  intros Hid (H1 & H2 & H3). unfold decode_timer_proposal_tlv, encode_timer_proposal_tlv.
  cbn [Wire.kind Wire.value]. rewrite bool_decide_eq_true_2 by done. zlen_norm. cbn [negb orb Z.eqb].
  assert (H12 : ∀ s : list byte, drop 12 s = drop 8 (drop 4 s)) by (intros; by rewrite drop_drop).
  assert (H20 : ∀ s : list byte, drop 20 s = drop 8 (drop 8 (drop 4 s)))
    by (intros; by rewrite !drop_drop).
  rewrite H20, H12, take_u32_app, drop_u32_app, !drop_u64_app, !take_u64_app, take_u64.
  rewrite be_value_u32, !be_value_u64 by done. by destruct p.
Qed.

Lemma decode_timer_ack_encode id b :
  is_u32 id → decode_timer_ack_tlv (encode_timer_ack_tlv id b) = Some (id, b).
Proof.
  intros Hid. unfold decode_timer_ack_tlv, encode_timer_ack_tlv. cbn [Wire.kind Wire.value].
  rewrite bool_decide_eq_true_2 by done. zlen_norm. cbn [negb orb Z.eqb Z.add].
  rewrite take_u32_app, drop_u32_app. by destruct b; rewrite be_value_u32.
Qed.

(* ------------------------------------------------------------------ *)
(** ** Encoding frames *)
(* ------------------------------------------------------------------ *)

(** At most one TLV of at most 28 bytes: every frame the machine sends. *)
Definition small_tlvs (l : list Wire.Tlv) : Prop :=
  l = [] ∨ ∃ t, l = [t] ∧ zlen (Wire.value t) ≤ 28.

Lemma small_tlvs_nil : small_tlvs [].
Proof. by left. Qed.

Lemma small_tlvs_signal a b : small_tlvs [encode_msr_signal_tlv a b].
Proof. right. eexists. split; [done|]. done. Qed.

Lemma small_tlvs_proposal a p : small_tlvs [encode_timer_proposal_tlv a p].
Proof. right. eexists. split; [done|]. done. Qed.

Lemma small_tlvs_ack a b : small_tlvs [encode_timer_ack_tlv a b].
Proof. right. eexists. split; [done|]. by destruct b. Qed.

#[export] Hint Resolve small_tlvs_nil small_tlvs_signal small_tlvs_proposal small_tlvs_ack : todero.

Lemma small_frame_ok t cid pl l :
  is_u64 cid → small_tlvs l → Wire.frame_ok (Wire.new t x00 cid pl l).
Proof.
  intros Hc Hl. constructor; cbn; [done|done|..].
  - destruct Hl as [->|(u & -> & Hu)]; [done|]. rewrite zlen_singleton. done.
  - destruct Hl as [->|(u & -> & Hu)]; constructor; [|done]. unfold Wire.tlv_ok, Wire.MAX_TLV_VALUE_LEN. lia.
  - destruct Hl as [->|(u & -> & Hu)]; [done|].
    unfold Wire.tlvs_layout. cbn. rewrite app_nil_r, WireLemmas.zlen_put_tlv. ulia.
Qed.

(** A frame of at most 65535 bytes of payload is encoded, and decodes to itself. *)
Lemma encode_frame_with_tlvs_ok t cid pl l :
  is_u64 cid → zlen pl ≤ U16_MAX → small_tlvs l →
  ∃ bs, encode_frame_with_tlvs t cid pl l = Ok bs ∧
        Wire.decode bs = Ok (Wire.new t x00 cid pl l).
Proof.
  intros Hc Hp Hl. pose proof (small_frame_ok t cid pl l Hc Hl) as Hok.
  exists (Wire.frame_layout (Wire.new t x00 cid pl l)). unfold encode_frame_with_tlvs. split.
  - rewrite WireLemmas.encode_ok; [done|done|]. cbn. unfold Wire.MAX_PAYLOAD_LEN. ulia.
  - by apply WireLemmas.decode_iff.
Qed.

Lemma encode_frame_eq t cid pl : encode_frame t cid pl = encode_frame_with_tlvs t cid pl [].
Proof. done. Qed.

(* ------------------------------------------------------------------ *)
(** ** Execution rules of the primitives *)
(* ------------------------------------------------------------------ *)

Section Rules.
Implicit Types (p : CoreMachine * CoreOutput).

Lemma wp_self (Q : outcome CoreError CoreMachine → _ → Prop) p : Q (Ok p.1) p → wp self Q p.
Proof. done. Qed.

Lemma wp_modify_self f (Q : outcome CoreError () → _ → Prop) p :
  Q (Ok ()) (f p.1, p.2) → wp (modify_self f) Q p.
Proof. done. Qed.

Lemma wp_push_datagram d (Q : outcome CoreError () → _ → Prop) p :
  Q (Ok ()) (p.1, mkCoreOutput (outbound_datagrams p.2 ++ [d]) (events p.2) (timer_actions p.2)) →
  wp (push_datagram d) Q p.
Proof. done. Qed.

Lemma wp_push_event e (Q : outcome CoreError () → _ → Prop) p :
  Q (Ok ()) (p.1, mkCoreOutput (outbound_datagrams p.2) (events p.2 ++ [e]) (timer_actions p.2)) →
  wp (push_event e) Q p.
Proof. done. Qed.

Lemma wp_push_timer i t (Q : outcome CoreError () → _ → Prop) p :
  Q (Ok ()) (p.1, mkCoreOutput (outbound_datagrams p.2) (events p.2)
                    (timer_actions p.2 ++ [Schedule i t])) →
  wp (push_timer i t) Q p.
Proof. done. Qed.

(** Sending a small frame always succeeds; the bytes decode to the frame. *)
Lemma wp_send_frame path t cid pl l (Q : outcome CoreError () → _ → Prop) p :
  is_u64 cid → zlen pl ≤ U16_MAX → small_tlvs l →
  (∀ bs, Wire.decode bs = Ok (Wire.new t x00 cid pl l) →
     Q (Ok ()) (p.1, mkCoreOutput (outbound_datagrams p.2 ++ [mkOutboundDatagram path bs])
                       (events p.2) (timer_actions p.2))) →
  wp (send_frame path (encode_frame_with_tlvs t cid pl l)) Q p.
Proof.
  intros Hc Hp Hl HQ. unfold send_frame.
  destruct (encode_frame_with_tlvs_ok t cid pl l Hc Hp Hl) as (bs & -> & Hd).
  apply wp_bind, wp_lift. cbn [then_wp]. apply wp_push_datagram. by apply HQ.
Qed.

End Rules.

Ltac core_hook :=
  lazymatch goal with
  | |- wp self _ _ => apply wp_self
  | |- wp (modify_self _) _ _ => apply wp_modify_self
  | |- wp (set_state _) _ _ => apply wp_modify_self
  | |- wp (touch_disconnect_deadline _) _ _ => apply wp_modify_self
  | |- wp (push_datagram _) _ _ => apply wp_push_datagram
  | |- wp (push_event _) _ _ => apply wp_push_event
  | |- wp (push_timer _ _) _ _ => apply wp_push_timer
  end.

Ltac wp_hook ::= core_hook.
