(* ===== verification/CoreEffects.v ===== *)
(** * The effect of the protocol handlers

    Every handler that does not deliver data is [quiet]: it keeps the receive side and the
    outbound messages, emits only genuine frames, requests consecutive ranges, and moves the
    life cycle forward. *)

From S2P Require Import Prelude Bytes Core CoreSpec CoreLemmas.
From S2P Require Wire WireLemmas.

(* ------------------------------------------------------------------ *)
(** ** Observations of appended events *)
(* ------------------------------------------------------------------ *)

Lemma received_app l k : received (l ++ k) = received l ++ received k.
Proof. apply bind_app. Qed.

Lemma announced_app l k : announced (l ++ k) = announced l ++ announced k.
Proof. apply bind_app. Qed.

Lemma requested_app l k : requested (l ++ k) = requested l ++ requested k.
Proof. apply bind_app. Qed.

Lemma chain_app a l b k c : chain a l b → chain b k c → chain a (l ++ k) c.
Proof.
  revert a. induction l as [|[s e] l IH]; intros a; cbn; [by intros ->|].
  intros (? & ? & Hl) Hk. eauto.
Qed.

Lemma lifecycle_refl r s : lifecycle r s s.
Proof. by left. Qed.

Lemma lifecycle_trans r s1 s2 s3 : lifecycle r s1 s2 → lifecycle r s2 s3 → lifecycle r s1 s3.
Proof. unfold lifecycle. intros; destruct_or!; destruct_and?; subst; intuition congruence. Qed.

#[export] Hint Resolve lifecycle_refl : todero.

(* ------------------------------------------------------------------ *)
(** ** [quiet] is a preorder *)
(* ------------------------------------------------------------------ *)

Lemma quiet_refl p : quiet p p.
Proof.
  constructor; [done|done|done|exists []|exists []|apply lifecycle_refl].
  - by rewrite app_nil_r.
  - by rewrite app_nil_r.
Qed.

Lemma quiet_trans p q r : quiet p q → quiet q r → quiet p r.
Proof.
  intros [s1 v1 u1 (l1 & e1 & a1 & b1 & c1) (d1 & f1 & g1) y1]
    [s2 v2 u2 (l2 & e2 & a2 & b2 & c2) (d2 & f2 & g2) y2].
  pose proof s1 as s1'. unfold send_side in s1'. injection s1' as Hrole Hcid _ Hout.
  constructor; [congruence|congruence|auto|exists (l1 ++ l2)|exists (d1 ++ d2)|].
  - rewrite e2, e1, app_assoc, received_app, announced_app, requested_app, a1, a2, b1, b2.
    eauto using chain_app.
  - rewrite f2, f1, app_assoc. split; [done|]. apply Forall_app. split; [done|]. by rewrite <-Hcid, <-Hout.
  - rewrite Hrole in y2. eauto using lifecycle_trans.
Qed.

#[global] Instance quiet_preorder : PreOrder quiet.
Proof. split; [exact quiet_refl|exact quiet_trans]. Qed.

Lemma quiet_in_u64 p p' : quiet p p' → in_u64 p.1 → in_u64 p'.1.
Proof. intros [Hs _ Hu _ _ _] [Hc Hr]. unfold send_side in Hs. split; [congruence|auto]. Qed.

Lemma quiet_cid p p' : quiet p p' → cid p'.1 = cid p.1.
Proof. intros [Hs _ _ _ _ _]. unfold send_side in Hs. congruence. Qed.

Lemma quiet_outbound p p' : quiet p p' → outbound_messages p'.1 = outbound_messages p.1.
Proof. intros [Hs _ _ _ _ _]. unfold send_side in Hs. congruence. Qed.

Lemma quiet_role p p' : quiet p p' → role p'.1 = role p.1.
Proof. intros [Hs _ _ _ _ _]. unfold send_side in Hs. congruence. Qed.

(* ------------------------------------------------------------------ *)
(** ** Single steps *)
(* ------------------------------------------------------------------ *)

(** A step on fields that only this machine reads: timers, counters, configuration. *)
Lemma quiet_modify p f :
  send_side (f p.1) = send_side p.1 → recv_side (f p.1) = recv_side p.1 →
  last_requested_end (f p.1) = last_requested_end p.1 →
  lifecycle (role p.1) (state p.1) (state (f p.1)) →
  quiet p (f p.1, p.2).
Proof.
  intros H1 H2 H3 H4. constructor; cbn; [done|done|by rewrite H3|exists []|exists []|done].
  - by rewrite app_nil_r.
  - by rewrite app_nil_r.
Qed.

Lemma quiet_event p e :
  received_of e = [] → announced_of e = [] → requested_of e = [] →
  quiet p (p.1, mkCoreOutput (outbound_datagrams p.2) (events p.2 ++ [e]) (timer_actions p.2)).
Proof.
  intros H1 H2 H3. constructor; cbn; [done|done|done|exists [e]|exists []|apply lifecycle_refl].
  - unfold received, announced, requested. cbn. by rewrite H1, H2, H3.
  - by rewrite app_nil_r.
Qed.

Lemma quiet_timer p i t :
  quiet p (p.1, mkCoreOutput (outbound_datagrams p.2) (events p.2)
                  (timer_actions p.2 ++ [Schedule i t])).
Proof.
  constructor; cbn; [done|done|done|exists []|exists []|apply lifecycle_refl].
  - by rewrite app_nil_r.
  - by rewrite app_nil_r.
Qed.

Lemma quiet_datagram p d :
  emitted (cid p.1) (outbound_messages p.1) d →
  quiet p (p.1, mkCoreOutput (outbound_datagrams p.2 ++ [d]) (events p.2) (timer_actions p.2)).
Proof.
  intros Hd. constructor; cbn; [done|done|done|exists []|exists [d]|apply lifecycle_refl].
  - by rewrite app_nil_r.
  - split; [done|by constructor].
Qed.

Lemma unmoved_refl m : unmoved m m.
Proof. by repeat split. Qed.

Lemma unmoved_trans m1 m2 m3 : unmoved m1 m2 → unmoved m2 m3 → unmoved m1 m3.
Proof. intros (?&?&?&?) (?&?&?&?). split_and!; congruence. Qed.

#[global] Instance unmoved_preorder : PreOrder unmoved.
Proof. split; [exact unmoved_refl|exact unmoved_trans]. Qed.

(** Two methods in sequence, each described from the state it starts in. *)
Section Sequencing.
Implicit Types (h k : ST (CoreMachine * CoreOutput) CoreError ()).

Lemma quiet_seq h k p :
  in_u64 p.1 → wp h (quiet_ok p) p →
  (∀ q, quiet p q → in_u64 q.1 → wp k (quiet_ok q) q) → wp (h ;; k) (quiet_ok p) p.
Proof.
  intros Hp Hh Hk. apply wp_bind. eapply wp_mono, Hh. intros o q [-> Hq]. cbn [then_wp].
  eapply wp_mono, Hk; [|done|by eapply quiet_in_u64].
  intros o q' [-> Hq']. split; [done|]. by etrans.
Qed.

Lemma calm_seq h k p :
  in_u64 p.1 → wp h (calm p) p →
  (∀ q, quiet p q → in_u64 q.1 → wp k (calm q) q) → wp (h ;; k) (calm p) p.
Proof.
  intros Hp Hh Hk. apply wp_bind. eapply wp_mono, Hh. intros o q [Hu Hq].
  destruct o as [[]|e|]; cbn [then_wp]; [|done..].
  eapply wp_mono, Hk; [|done|by eapply quiet_in_u64].
  intros o q' [Hu' Hq']. split; [by etrans|]. destruct o; [by etrans|done..].
Qed.

Lemma calm_quiet_seq h k p :
  in_u64 p.1 → wp h (calm p) p →
  (∀ q, quiet p q → in_u64 q.1 → wp k (quiet_ok q) q) → wp (h ;; k) (quiet_or_err p) p.
Proof.
  intros Hp Hh Hk. apply wp_bind. eapply wp_mono, Hh. intros o q [Hu Hq].
  destruct o as [[]|e|]; cbn [then_wp]; [|done..].
  eapply wp_mono, Hk; [|done|by eapply quiet_in_u64].
  intros o q' [-> Hq']. cbn. by etrans.
Qed.

Lemma calm_for {A} (l : list A) (body : A → ST (CoreMachine * CoreOutput) CoreError ()) p :
  in_u64 p.1 → (∀ x q, x ∈ l → quiet p q → in_u64 q.1 → wp (body x) (calm q) q) →
  wp (st_for l body) (calm p) p.
Proof.
  intros Hp Hb. apply (wp_for (λ q, unmoved p.1 q.1 ∧ quiet p q)).
  - split; reflexivity.
  - intros x q Hx [Hu Hq]. eapply wp_mono, Hb; [|done|done|by eapply quiet_in_u64].
    intros [[]|e|] q' [Hu' Hq']; [split; by etrans|split; [by etrans|done]|done].
  - intros q [Hu Hq]. by split.
Qed.

End Sequencing.

(** Recover the last step from the state it left, and use its lemma. *)
Ltac quiet_back :=
  lazymatch goal with
  | |- quiet ?p ?p => reflexivity
  | H : quiet ?p ?q |- quiet ?p ?q => exact H
  | |- quiet ?p (fst ?q, mkCoreOutput _ (_ ++ [?e]) _) =>
      apply (quiet_trans p q); [|apply quiet_event; reflexivity]
  | |- quiet ?p (fst ?q, mkCoreOutput _ _ (_ ++ [Schedule ?i ?t])) =>
      apply (quiet_trans p q); [|apply quiet_timer]
  | |- quiet ?p (fst ?q, mkCoreOutput (_ ++ [?d]) _ _) =>
      apply (quiet_trans p q);
      [|apply quiet_datagram; eexists; split; [eassumption|split; [reflexivity|cbn; try exact I]]]
  | |- quiet ?p (?x, snd ?q) =>
      let x' := eval pattern (fst q) in x in
      lazymatch x' with
      | ?f _ =>
          apply (quiet_trans p q);
          [|apply (quiet_modify q f); [reflexivity|reflexivity|reflexivity|cbn]]
      end
  end.

(** The side conditions of a send: the identifier of the association and small sizes. *)
Ltac send_side :=
  cbn; first [done|ulia|by eauto with todero|
    repeat match goal with H : quiet _ _ |- _ => rewrite (quiet_cid _ _ H) end; done].

Ltac effect_hook :=
  lazymatch goal with
  | |- wp (send_frame _ (encode_frame_with_tlvs _ _ _ _)) _ _ =>
      apply wp_send_frame; [try by send_side|try by send_side|by eauto with todero|intros ?bs ?Hbs]
  | |- wp (send_frame ?path (encode_frame ?t ?c ?pl)) _ _ =>
      change (encode_frame t c pl) with (encode_frame_with_tlvs t c pl []);
      apply wp_send_frame; [try by send_side|try by send_side|by eauto with todero|intros ?bs ?Hbs]
  | |- then_wp _ _ (ok_or ?x _) _ => let H := fresh "Hd" in destruct x eqn:H; cbn [ok_or]
  | |- _ => core_hook
  end.

Ltac wp_hook ::= effect_hook.

(** Split a postcondition into its parts. *)
Ltac post_split :=
  cbn [quiet_or_err];
  lazymatch goal with
  | |- quiet_ok _ _ _ => split; [reflexivity|]
  | |- unmoved _ _ => by repeat split
  | |- calm _ _ _ => split; [by repeat split|try exact I]
  | |- _ => idtac
  end.

(** Execute the method, then take the steps back one by one. *)
Ltac quiet_auto := wp_steps; post_split; repeat quiet_back; try apply lifecycle_refl.

(* ------------------------------------------------------------------ *)
(** ** The handlers *)
(* ------------------------------------------------------------------ *)

Lemma quiet_schedule_server_timers now p : wp (schedule_server_timers now) (quiet_ok p) p.
Proof. unfold schedule_server_timers. quiet_auto. Qed.

Lemma quiet_schedule_client_timers now p : wp (schedule_client_timers now) (quiet_ok p) p.
Proof. unfold schedule_client_timers. quiet_auto. Qed.

Lemma quiet_on_valid_peer_datagram now p : wp (on_valid_peer_datagram now) (quiet_ok p) p.
Proof. unfold on_valid_peer_datagram. quiet_auto. Qed.

Lemma calm_msr_tlv path t p : in_u64 p.1 → wp (handle_msr_tlv path t) (calm p) p.
Proof. intros [Hc _]. unfold handle_msr_tlv. quiet_auto. Qed.

Lemma quiet_request_range path np p :
  in_u64 p.1 → is_u64 np → last_requested_end p.1 < np →
  wp (let start := add64 (last_requested_end p.1) 1 in
      let end_ := np in
      modify_self (λ m, m <| last_requested_end := end_ |>) ;;
      m ← self;
      send_frame path
        (encode_frame_with_tlvs Wire.RequestRange (cid m) (encode_range start end_)
           [encode_msr_signal_tlv (last_ordered_rx m) (max_pending_id m)]) ;;
      push_event (RequestRangeSent start end_)) (quiet_ok p) p.
Proof.
  intros [Hc Hr] Hn Hlt. cbn zeta. wp_steps. split; [done|].
  constructor; cbn; [done|done|done|eexists; split; [done|]|eexists; split; [done|]|apply lifecycle_refl].
  - split_and!; try done. unfold requested. cbn. unfold add64, wrap64.
    rewrite Z.mod_small by ulia. split_and!; lia.
  - constructor; [|done]. eexists. split; [exact Hbs|]. done.
Qed.

Lemma in_state_true s m : in_state s m = true ↔ state m = s.
Proof. unfold in_state. apply bool_decide_eq_true. Qed.

Lemma is_role_true r m : is_role r m = true ↔ role m = r.
Proof. unfold is_role. apply bool_decide_eq_true. Qed.

Lemma quiet_msr_keepalive path src p :
  in_u64 p.1 →
  wp (st_when (bool_decide (src = ControlMsrFrame)) (
        modify_self (λ m, m <| client_server_msr_rx_since_last_keepalive :=
          sat_add U32_MAX (client_server_msr_rx_since_last_keepalive m) 1 |>) ;;
        m ← self;
        st_when (CLIENT_KEEPALIVE_EVERY_SERVER_MSR <=? client_server_msr_rx_since_last_keepalive m) (
          modify_self (λ m, m <| client_server_msr_rx_since_last_keepalive := 0 |>) ;;
          m ← self;
          send_frame path
            (encode_frame Wire.Msr (cid m)
               (encode_msr_payload (last_ordered_rx m) (max_pending_id m)))))) (quiet_ok p) p.
Proof. intros [Hc _]. quiet_auto. Qed.

Lemma quiet_msr_signal now path np src p :
  in_u64 p.1 → is_u64 np → wp (handle_msr_signal now path np src) (quiet_ok p) p.
Proof.
  intros Hp Hn. unfold handle_msr_signal. do 2 wp_step.
  apply quiet_seq; [done|apply wp_when; [intros Hcl|intros _; quiet_auto]|intros q _ Hq; do 2 wp_step].
  - apply quiet_seq; [done|quiet_auto|intros q1 Hq1 Hu1].
    apply quiet_seq; [done|by apply quiet_msr_keepalive|intros q2 _ Hu2].
    quiet_auto. right. right. left. apply in_state_true in Hc. split; congruence.
  - apply quiet_seq; [done|quiet_auto|intros q1 _ Hu1]. do 2 wp_step.
    apply wp_when; [intros Hc; zprop|intros _; quiet_auto]. by apply quiet_request_range.
Qed.

Lemma quiet_msr now path f p : in_u64 p.1 → wp (handle_msr now path f) (quiet_or_err p) p.
Proof.
  intros Hp. unfold handle_msr. do 3 wp_step; [|wp_steps; apply unmoved_refl].
  wp_step. destruct p0 as [a np]. apply decode_msr_payload_range in Hd as [_ Hn].
  apply calm_quiet_seq; [done| |].
  - apply calm_for; [done|]. intros t q _ _ Hq. by apply calm_msr_tlv.
  - intros q _ Hq. by apply quiet_msr_signal.
Qed.

(* ------------------------------------------------------------------ *)
(** ** Sending the messages of a requested range *)
(* ------------------------------------------------------------------ *)

Lemma elem_of_imap_pair {A} (l : list A) x :
  x ∈ imap pair l → ∃ i a, x = (i, a) ∧ l !! i = Some a.
Proof.
  intros [i Hi]%list_elem_of_lookup. rewrite list_lookup_imap in Hi.
  destruct (l !! i) as [a|] eqn:Hl; [|done]. injection Hi as <-. eauto.
Qed.

Lemma lookup_zlen {A} (l : list A) i a : l !! i = Some a → Z.of_nat i < zlen l.
Proof. intros Hi%lookup_lt_Some. unfold zlen. lia. Qed.

(** One fragment of a message that fits in 65535 pieces. *)
Lemma calm_send_fragment path id msg idx chunk p :
  in_u64 p.1 → is_u64 id → outbound_messages p.1 !! id = Some msg →
  div_ceil (zlen msg) CHUNK_SIZE ≤ U16_MAX → chunks_of CHUNK_SIZE msg !! idx = Some chunk →
  wp (send_fragment path id (div_ceil (zlen msg) CHUNK_SIZE) (idx, chunk)) (calm p) p.
Proof.
  intros [Hc _] Hid Hmsg Htot Hchunk. unfold send_fragment.
  pose proof (lookup_zlen _ _ _ Hchunk) as Hi. rewrite chunks_of_count in Hi by done.
  assert (zlen chunk ≤ 988) by (apply (chunks_of_piece CHUNK_SIZE msg); [done|by eapply list_elem_of_lookup_2]).
  unfold try_u16. rewrite (proj2 (Z.leb_le _ _)) by lia. cbn [ok_or]. wp_steps.
  - zlen_norm. ulia.
  - split; [done|]. quiet_back; [reflexivity|]. exists id, msg, idx, chunk. by split_and!.
Qed.

Lemma calm_send_message path id p :
  in_u64 p.1 → is_u64 id → wp (send_message path id) (calm p) p.
Proof.
  intros Hp Hid. pose proof Hp as [Hc _]. unfold send_message. do 3 wp_step.
  destruct (outbound_messages p.1 !! id) as [msg|] eqn:Hmsg; [|quiet_auto].
  destruct (8 + zlen msg <=? MAX_DATA_PAYLOAD_PER_FRAME) eqn:Hs; zprop;
    unfold MAX_DATA_PAYLOAD_PER_FRAME in Hs.
  - wp_steps; [zlen_norm; ulia|]. split; [done|]. quiet_back; [reflexivity|]. by exists id, msg.
  - do 2 wp_step; [by split|]. wp_steps; [|by split].
    unfold try_u16 in Hd. case_match; [|done]. zprop. injection Hd as <-.
    apply calm_for; [done|]. intros x q Hx Hq Hu.
    apply elem_of_imap_pair in Hx as (i & c & -> & Hi).
    apply calm_send_fragment; [done|done| |done|done]. by rewrite (quiet_outbound _ _ Hq).
Qed.

Lemma calm_request_range path payload p :
  in_u64 p.1 → wp (handle_request_range path payload) (calm p) p.
Proof.
  intros Hp. unfold handle_request_range. do 3 wp_step; [|quiet_auto]. wp_step.
  destruct p0 as [a b]. apply decode_msr_payload_range in Hd as [Ha Hb].
  apply calm_for; [done|]. intros id q Hid%elem_of_seqZ _ Hq.
  apply calm_send_message; [done|]. ulia.
Qed.
