(* ===== verification/CoreReceive.v ===== *)
(** * The receive side: in-order, exactly-once delivery

    The buffer, the set of identifiers already seen and the fragment accumulators keep the
    receive invariant; a data handler delivers the next consecutive messages and nothing
    else.  The section is parameterised by what a whole message and a piece of one may be:
    anything at all for a hostile peer, the sender's data for a genuine one. *)

From S2P Require Import Prelude Bytes Core CoreSpec CoreLemmas CoreEffects.
From S2P Require Wire WireLemmas.

(** The events of a delivery. *)
Definition deliver (q : Z * list byte) : list Event :=
  [MessageDelivered q.1; MessageReceived q.1 q.2].

(** The effect of a data handler: the events of [ds], which are the next consecutive
    messages; everything but the receive side is left alone. *)
Record delivers (ds : list (Z * list byte)) (p p' : CoreMachine * CoreOutput) : Prop := mkDelivers {
  delivers_frame : send_side p'.1 = send_side p.1 ∧ state p'.1 = state p.1 ∧
    last_requested_end p'.1 = last_requested_end p.1;
  delivers_events : events p'.2 = events p.2 ++ (ds ≫= deliver);
  delivers_datagrams : outbound_datagrams p'.2 = outbound_datagrams p.2;
  delivers_ids : ds.*1 = seqZ (last_ordered_rx p.1 + 1) (zlen ds);
  delivers_last : last_ordered_rx p'.1 = last_ordered_rx p.1 + zlen ds;
}.

Lemma delivers_refl p : delivers [] p p.
Proof. constructor; cbn; rewrite ?app_nil_r; try done. change (zlen []) with 0. lia. Qed.

Lemma seqZ_app_len a m n : 0 ≤ m → 0 ≤ n → seqZ a (m + n) = seqZ a m ++ seqZ (a + m) n.
Proof. intros. apply seqZ_app; lia. Qed.

Lemma delivers_trans ds1 ds2 p q r :
  delivers ds1 p q → delivers ds2 q r → delivers (ds1 ++ ds2) p r.
Proof.
  intros [(?&?&?) e1 d1 i1 l1] [(?&?&?) e2 d2 i2 l2]. constructor.
  - split_and!; congruence.
  - by rewrite e2, e1, bind_app, app_assoc.
  - congruence.
  - rewrite fmap_app, i1, i2, l1, zlen_app, seqZ_app_len by apply zlen_nonneg.
    do 2 f_equal. lia.
  - rewrite zlen_app. lia.
Qed.

(** Pieces in range that are as many as the range are all there. *)
Lemma all_pieces (t : Z) (pieces : gmap Z (list byte)) :
  (∀ i c, pieces !! i = Some c → 0 ≤ i < t) → Z.of_nat (size pieces) = t →
  ∀ i, 0 ≤ i < t → is_Some (pieces !! i).
Proof.
  intros Hr Hs i Hi. apply elem_of_dom.
  assert (dom pieces ≡ list_to_set (C := gset Z) (seqZ 0 t)) as ->.
  - apply set_subseteq_size_equiv.
    + intros j [c Hj]%elem_of_dom. apply elem_of_list_to_set, elem_of_seqZ. naive_solver lia.
    + rewrite size_list_to_set by apply NoDup_seqZ. rewrite size_dom, length_seqZ. lia.
  - apply elem_of_list_to_set, elem_of_seqZ. lia.
Qed.

Section Receive.
Context (ok_msg : Z → list byte → Prop) (ok_piece : Z → Z → Z → list byte → Prop).

Abbreviation recv_inv := (recv_inv ok_msg ok_piece).

(** The invariant between the insertion of a message and the end of the flush. *)
Record flushing (n : Z) (m : CoreMachine) : Prop := mkFlushing {
  fl_last : 0 ≤ last_ordered_rx m;
  fl_count : last_ordered_rx m + Z.of_nat (size (received_buffer m)) ≤ n;
  fl_ids : ∀ k, k ∈ received_ids m ↔
    1 ≤ k ≤ last_ordered_rx m ∨ is_Some (received_buffer m !! k);
  fl_buffer : ∀ k payload, received_buffer m !! k = Some payload →
    is_u64 k ∧ (k = 0 ∨ last_ordered_rx m < k) ∧ ok_msg k payload;
  fl_fragments : ∀ id acc, received_fragments m !! id = Some acc →
    (id ∉ received_ids m) ∧ acc_inv ok_piece id acc;
}.

Lemma flushing_inv n m :
  flushing n m → received_buffer m !! (last_ordered_rx m + 1) = None → recv_inv n m.
Proof. intros [? ? ? ? ?] ?. by constructor. Qed.

Lemma inv_flushing n m : recv_inv n m → flushing n m.
Proof. intros [? ? ? ? ? ?]. by constructor. Qed.

Lemma last_succ n m : flushing n m → n < U64_MAX → add64 (last_ordered_rx m) 1 = last_ordered_rx m + 1.
Proof. intros [? ? _ _ _] Hn. unfold add64, wrap64. rewrite Z.mod_small; ulia. Qed.

(** One round: the next message leaves the buffer. *)
Definition flush_one (m : CoreMachine) : CoreMachine :=
  let next := last_ordered_rx m + 1 in
  (m <| received_buffer := delete next (received_buffer m) |>) <| last_ordered_rx := next |>.

Lemma flush_one_inv n m payload :
  flushing n m → received_buffer m !! (last_ordered_rx m + 1) = Some payload →
  flushing n (flush_one m).
Proof.
  intros [H0 Hn Hids Hbuf Hfr] Hnext. constructor; cbn.
  - lia.
  - rewrite map_size_delete, Hnext. assert (size (received_buffer m) ≠ 0%nat).
    { intros Hs%map_size_empty_inv. rewrite Hs in Hnext. done. }
    lia.
  - intros k. rewrite Hids. destruct (decide (k = last_ordered_rx m + 1)) as [->|Hk].
    + rewrite lookup_delete_eq, Hnext. split; [left; lia|]. intros _. right. by eexists.
    + rewrite lookup_delete_ne by done. split; intros [?|?]; auto; left; lia.
  - intros k pl [Hne Hk]%lookup_delete_Some. destruct (Hbuf _ _ Hk) as (? & [?|?] & ?).
    + auto.
    + split_and!; [done|right; lia|done].
  - done.
Qed.

(** The flush delivers the longest consecutive run of buffered messages. *)
Lemma wp_flush_loop n fuel p :
  flushing n p.1 → n < U64_MAX → (size (received_buffer p.1) < fuel)%nat →
  wp (flush_loop fuel) (λ o p', o = Ok () ∧ recv_inv n p'.1 ∧
    ∃ ds, delivers ds p p' ∧ Forall (λ q, ok_msg q.1 q.2) ds) p.
Proof.
  intros Hf Hn. revert p Hf. induction fuel as [|fuel IH]; intros p Hf Hfuel; [lia|].
  cbn [flush_loop]. do 3 wp_step. rewrite (last_succ n) by done. cbn zeta.
  destruct (received_buffer p.1 !! (last_ordered_rx p.1 + 1)) as [pl|] eqn:Hnext; cycle 1.
  { apply wp_ret. split_and!; [done|by apply flushing_inv|]. exists []. split; [apply delivers_refl|done]. }
  wp_steps. eapply wp_mono, IH; cycle 1.
  - by apply (flush_one_inv n p.1 pl).
  - cbn. rewrite map_size_delete, Hnext. assert (size (received_buffer p.1) ≠ 0%nat).
    { intros Hs%map_size_empty_inv. by rewrite Hs in Hnext. }
    lia.
  - intros o p' (-> & Hinv & ds & Hds & Hok). split_and!; [done|done|].
    exists ([(last_ordered_rx p.1 + 1, pl)] ++ ds). split.
    + eapply delivers_trans, Hds. constructor; cbn; try done. by rewrite <-app_assoc.
    + constructor; [|done]. by apply (fl_buffer _ _ Hf).
Qed.

Lemma wp_flush_ordered n p :
  flushing n p.1 → n < U64_MAX →
  wp flush_ordered (λ o p', o = Ok () ∧ recv_inv n p'.1 ∧
    ∃ ds, delivers ds p p' ∧ Forall (λ q, ok_msg q.1 q.2) ds) p.
Proof. intros Hf Hn. unfold flush_ordered. do 3 wp_step. apply wp_flush_loop; [done|done|lia]. Qed.

(** A new whole message enters the buffer. *)
Definition accept (id : Z) (payload : list byte) (m : CoreMachine) : CoreMachine :=
  (((m <| received_ids := {[id]} ∪ received_ids m |>)
     <| received_buffer := <[id := payload]> (received_buffer m) |>)
     <| received_fragments := delete id (received_fragments m) |>).

Lemma accept_inv n id payload m :
  recv_inv n m → id ∉ received_ids m → is_u64 id → ok_msg id payload →
  flushing (n + 1) (accept id payload m).
Proof.
  intros [H0 Hn Hids Hbuf Hgap Hfr] Hnew Hid Hok.
  assert (Hfree : received_buffer m !! id = None).
  { apply eq_None_not_Some. intros Hs. apply Hnew, Hids. by right. }
  constructor; cbn; [done|..].
  - rewrite map_size_insert_None by done. lia.
  - intros k. rewrite elem_of_union, elem_of_singleton, Hids, lookup_insert_is_Some'.
    assert (k = id ↔ id = k) by done. clear -H. tauto.
  - intros k pl Hk. apply lookup_insert_Some in Hk as [[<- <-]|[Hne Hk]]; [|auto].
    split_and!; [done| |done]. destruct (decide (id = 0)) as [|?]; [by left|right].
    assert (¬ (1 ≤ id ≤ last_ordered_rx m)) by (intros ?; apply Hnew, Hids; by left).
    unfold is_u64 in Hid. lia.
  - intros k acc [Hne Hk]%lookup_delete_Some. apply Hfr in Hk as [? ?].
    split; [set_solver|done].
Qed.

Lemma recv_inv_mono n n' m : n ≤ n' → recv_inv n m → recv_inv n' m.
Proof. intros ? [? ? ? ? ? ?]. constructor; (done || lia). Qed.

Lemma recv_inv_side n m m' : recv_side m' = recv_side m → recv_inv n m → recv_inv n m'.
Proof.
  unfold recv_side. intros Heq [? ? ? ? ? ?]. injection Heq as Hi Hb Hf Hl.
  constructor; rewrite ?Hi, ?Hb, ?Hf, ?Hl; done.
Qed.

Lemma flushing_side n m m' : recv_side m' = recv_side m → flushing n m → flushing n m'.
Proof.
  unfold recv_side. intros Heq [? ? ? ? ?]. injection Heq as Hi Hb Hf Hl.
  constructor; rewrite ?Hi, ?Hb, ?Hf, ?Hl; done.
Qed.

(** The postcondition of a data handler. *)
Definition receives (n : Z) (p : CoreMachine * CoreOutput) (o : outcome CoreError ())
    (p' : CoreMachine * CoreOutput) : Prop :=
  recv_inv n p'.1 ∧
  match o with
  | Ok _ => ∃ ds, delivers ds p p' ∧ Forall (λ q, ok_msg q.1 q.2) ds
  | Err _ => send_side p'.1 = send_side p.1 ∧ state p'.1 = state p.1 ∧
      last_requested_end p'.1 = last_requested_end p.1 ∧
      last_ordered_rx p'.1 = last_ordered_rx p.1
  | Panic => False
  end.

Lemma receives_err n p e : recv_inv n p.1 → receives n p (Err e) p.
Proof. split; [done|by split_and!]. Qed.

Lemma receives_nothing n p : recv_inv n p.1 → receives n p (Ok ()) p.
Proof. split; [done|]. exists []. split; [apply delivers_refl|done]. Qed.

(* ------------------------------------------------------------------ *)
(** ** Data frames *)
(* ------------------------------------------------------------------ *)

Lemma wp_handle_data n p payload :
  recv_inv n p.1 → n + 1 < U64_MAX →
  (∀ id msg, is_u64 id → payload = u64_be id ++ msg → ok_msg id msg) →
  wp (handle_data payload) (receives (n + 1) p) p.
Proof.
  intros Hinv Hn Hok. pose proof (recv_inv_mono n (n + 1) p.1 ltac:(lia) Hinv) as Hinv'.
  unfold handle_data. wp_run. wp_step; [by apply receives_err|]. zprop.
  apply WireLemmas.split_u64 in Hc as (id & msg & Hid & ->).
  rewrite slice_prefix by done. wp_run. rewrite be_value_u64 by done.
  wp_step; zprop; [apply wp_ret; by apply receives_nothing|].
  rewrite (slice_suffix (u64_be id) msg) by done. wp_run.
  eapply wp_mono, (wp_flush_ordered (n + 1)); [|exact (accept_inv n id msg p.1 Hinv Hm Hid (Hok _ _ Hid eq_refl))|done].
  intros o p' (-> & Hp' & ds & Hds & Hall). split; [done|]. exists ds. split; [|done].
  by destruct Hds.
Qed.

(* ------------------------------------------------------------------ *)
(** ** Fragment frames *)
(* ------------------------------------------------------------------ *)

Lemma merge_chunks_ok merged (pieces : gmap Z (list byte)) l :
  (∀ i, i ∈ l → is_Some (pieces !! i)) →
  merge_chunks merged pieces l = Ok (merged ++ concat (map (λ i, default [] (pieces !! i)) l)).
Proof.
  revert merged. induction l as [|i l IH]; intros merged Hall; cbn; [by rewrite app_nil_r|].
  destruct (Hall i) as [c ->]; [by left|]. cbn. rewrite IH; [by rewrite app_assoc|].
  intros j Hj. apply Hall. by right.
Qed.

(** The fields of a fragment. *)
Lemma fragment_fields payload :
  12 ≤ zlen payload → ∃ id idx tot body,
    is_u64 id ∧ is_u16 idx ∧ is_u16 tot ∧
    payload = u64_be id ++ u16_be idx ++ u16_be tot ++ body.
Proof.
  intros Hlen.
  destruct (WireLemmas.split_u64 payload) as (id & r1 & Hid & ->); [lia|]. zlen_norm.
  destruct (WireLemmas.split_u16 r1) as (idx & r2 & Hidx & ->); [lia|]. zlen_norm.
  destruct (WireLemmas.split_u16 r2) as (tot & body & Htot & ->); [lia|].
  by exists id, idx, tot, body.
Qed.

Lemma fragment_header_bytes id idx tot body :
  let s := u64_be id ++ u16_be idx ++ u16_be tot ++ body in
  ∃ b8 b9 b10 b11,
    index (E:=CoreError) s 8 = Ok b8 ∧ index (E:=CoreError) s 9 = Ok b9 ∧
    index (E:=CoreError) s 10 = Ok b10 ∧ index (E:=CoreError) s 11 = Ok b11 ∧
    [b8; b9] = u16_be idx ∧ [b10; b11] = u16_be tot.
Proof. cbn zeta. by do 4 eexists. Qed.

Lemma slice_fragment_body {E} id idx tot body :
  let s := u64_be id ++ u16_be idx ++ u16_be tot ++ body in
  slice (E:=E) s 12 (zlen s) = Ok body.
Proof. cbn zeta. rewrite !(app_assoc _ _ body), app_assoc. by apply slice_suffix. Qed.

Lemma set_fragments_inv n m id acc :
  recv_inv n m → id ∉ received_ids m → acc_inv ok_piece id acc →
  recv_inv n (m <| received_fragments := <[id := acc]> (received_fragments m) |>).
Proof.
  intros [? ? ? ? ? Hfr] Hid Hacc. constructor; cbn; try done.
  intros k a [[<- <-]|[_ Hk]]%lookup_insert_Some; [done|by apply Hfr].
Qed.

(** The entry a fragment is added to. *)
Lemma entry_inv n m id tot idx body :
  recv_inv n m → 0 < tot ≤ U16_MAX → 0 ≤ idx < tot → ok_piece id tot idx body →
  let acc := default FragmentAccumulator_default (received_fragments m !! id) in
  acc_inv ok_piece id (if total acc =? 0 then acc <| total := tot |> else acc).
Proof.
  intros Hinv Ht Hi Hp. destruct (received_fragments m !! id) as [acc|] eqn:Hm; cbn.
  - apply (CoreSpec.recv_fragments _ _ _ _ Hinv) in Hm as [_ Hacc].
    rewrite (proj2 (Z.eqb_neq _ _)); [done|]. destruct Hacc as [[??] _ _ _]. lia.
  - constructor; cbn; [done|done| |by exists idx, body]. rewrite map_size_empty. lia.
Qed.

(** A piece is added, unless its place is taken. *)
Definition add_piece (idx : Z) (body : list byte) (acc : FragmentAccumulator)
    : FragmentAccumulator :=
  match chunks acc !! idx with
  | Some _ => acc
  | None => acc <| chunks := <[idx := body]> (chunks acc) |>
  end.

Lemma add_piece_spec id idx body acc :
  acc_inv ok_piece id acc → 0 ≤ idx < total acc → ok_piece id (total acc) idx body →
  total (add_piece idx body acc) = total acc ∧
  (∀ i c, chunks (add_piece idx body acc) !! i = Some c →
     0 ≤ i < total acc ∧ ok_piece id (total acc) i c) ∧
  Z.of_nat (size (chunks (add_piece idx body acc))) ≤ total acc.
Proof.
  intros [Ht Hp Hs _] Hi Hok. unfold add_piece. destruct (chunks acc !! idx) eqn:Hc; cbn.
  - split_and!; [done|done|lia].
  - split_and!; [done| |rewrite map_size_insert_None by done; lia].
    intros i c [[<- <-]|[_ Hic]]%lookup_insert_Some; auto.
Qed.

(** What the complete set of pieces makes. *)
Hypothesis merge_ok : ∀ id t (pieces : gmap Z (list byte)),
  (∀ i, 0 ≤ i < t → ∃ c, pieces !! i = Some c ∧ ok_piece id t i c) → 0 < t ≤ U16_MAX →
  ok_msg id (concat (map (λ i, default [] (pieces !! i)) (seqZ 0 t))).

Lemma wp_handle_fragment n p payload :
  recv_inv n p.1 → n + 1 < U64_MAX →
  (∀ id idx tot body, is_u64 id → is_u16 idx → is_u16 tot →
     payload = u64_be id ++ u16_be idx ++ u16_be tot ++ body → ok_piece id tot idx body) →
  wp (handle_fragment payload) (receives (n + 1) p) p.
Proof.
  intros Hinv Hn Hok. pose proof (recv_inv_mono n (n + 1) p.1 ltac:(lia) Hinv) as Hinv'.
  unfold handle_fragment, FRAGMENT_HEADER_LEN. wp_run. wp_step; [by apply receives_err|]. zprop.
  apply fragment_fields in Hc as (id & idx & tot & body & Hid & Hidx & Htot & ->).
  specialize (Hok id idx tot body Hid Hidx Htot eq_refl).
  rewrite slice_prefix by done. wp_run. rewrite be_value_u64 by done.
  wp_step; zprop; [apply wp_ret; by apply receives_nothing|].
  destruct (fragment_header_bytes id idx tot body) as (b8 & b9 & b10 & b11 & -> & -> & -> & -> & Hb1 & Hb2).
  wp_run. rewrite Hb1, Hb2, be_value_u16, be_value_u16 by done.
  wp_step; [by apply receives_err|]. zprop. wp_run.
  pose proof (entry_inv n p.1 id tot idx body Hinv ltac:(ulia) ltac:(ulia) Hok) as Hacc. cbn zeta in Hacc.
  revert Hacc. generalize (default FragmentAccumulator_default (received_fragments p.1 !! id)).
  intros acc0. generalize (if total acc0 =? 0 then acc0 <| total := tot |> else acc0).
  intros acc Hacc. apply wp_modify_self. wp_run. wp_step.
  { split; [by apply set_fragments_inv|done]. }
  wp_run. rewrite slice_fragment_body. wp_run. fold (add_piece idx body acc). zprop. subst tot.
  destruct (add_piece_spec id idx body acc) as (Ht' & Hp' & Hs'); [done|ulia|done|].
  apply wp_modify_self. wp_run. rewrite Ht'. wp_step; zprop; cycle 1.
  { wp_run. split.
    - apply (set_fragments_inv (n + 1) _ id); [by apply set_fragments_inv|done|].
      constructor; rewrite ?Ht'; [by destruct Hacc|done|lia|by destruct Hacc].
    - exists []. split; [|done]. constructor; cbn; rewrite ?app_nil_r; try done. change (zlen []) with 0. lia. }
  pose proof (all_pieces (total acc) _ (λ i c H, proj1 (Hp' i c H)) Hm0) as Hall.
  rewrite merge_chunks_ok by (intros i Hi%elem_of_seqZ; apply Hall; lia). wp_run.
  eapply wp_mono, (wp_flush_ordered (n + 1)); [| |done].
  - intros o p' (-> & Hpi & ds & Hds & Hds'). split; [done|]. exists ds. split; [|done].
    by destruct Hds.
  - eapply flushing_side, (accept_inv n id); [|exact Hinv|exact Hm|exact Hid|].
    + unfold recv_side. cbn. rewrite !delete_insert_eq. reflexivity.
    + apply merge_ok; [|by destruct Hacc]. intros i Hi. destruct (Hall i Hi) as [c Hc'].
      exists c. split; [done|]. by apply Hp'.
Qed.

End Receive.
