(* ===== verification/CoreStep.v ===== *)
(** * One call of a host

    Every public method, on every branch: no panic, the machine invariant, and the progress
    of [CoreSpec]. *)

From S2P Require Import Prelude Bytes Core CoreSpec CoreLemmas CoreEffects CoreReceive.
From S2P Require Wire WireLemmas.

(** The combined effect of the handlers of one call. *)
Record advances (ds : list (Z * list byte)) (p p' : CoreMachine * CoreOutput) : Prop := mkAdvances {
  adv_send : send_side p'.1 = send_side p.1;
  adv_u64 : is_u64 (last_requested_end p.1) → is_u64 (last_requested_end p'.1);
  adv_events : ∃ l,
    events p'.2 = events p.2 ++ l ∧ received l = ds ∧ announced l = ds.*1 ∧
    chain (last_requested_end p.1) (requested l) (last_requested_end p'.1);
  adv_datagrams : ∃ l,
    outbound_datagrams p'.2 = outbound_datagrams p.2 ++ l ∧
    Forall (emitted (cid p.1) (outbound_messages p.1)) l;
  adv_ids : ds.*1 = seqZ (last_ordered_rx p.1 + 1) (zlen ds);
  adv_last : last_ordered_rx p'.1 = last_ordered_rx p.1 + zlen ds;
  adv_lifecycle : lifecycle (role p.1) (state p.1) (state p'.1);
}.

Lemma quiet_advances p p' : quiet p p' → advances [] p p'.
Proof.
  intros [? Hr ? ? ? ?]. unfold recv_side in Hr. constructor; try done.
  change (zlen []) with 0. rewrite Z.add_0_r. congruence.
Qed.

Lemma deliver_observed ds :
  received (ds ≫= deliver) = ds ∧ announced (ds ≫= deliver) = ds.*1 ∧ requested (ds ≫= deliver) = [].
Proof.
  induction ds as [|[id pl] ds (IH1 & IH2 & IH3)]; [done|].
  rewrite bind_cons, received_app, announced_app, requested_app, IH1, IH2, IH3. done.
Qed.

Lemma delivers_advances ds p p' : delivers ds p p' → advances ds p p'.
Proof.
  intros [(Hs & Hst & Hr) He Hd Hids Hl]. destruct (deliver_observed ds) as (H1 & H2 & H3).
  constructor; [done|by rewrite Hr|exists (ds ≫= deliver)|exists []|done|done|by left].
  - by rewrite H3, Hr.
  - by rewrite app_nil_r.
Qed.

Lemma advances_trans ds1 ds2 p q r :
  advances ds1 p q → advances ds2 q r → advances (ds1 ++ ds2) p r.
Proof.
  intros [s1 u1 (l1 & e1 & a1 & b1 & c1) (d1 & f1 & g1) i1 t1 y1]
    [s2 u2 (l2 & e2 & a2 & b2 & c2) (d2 & f2 & g2) i2 t2 y2].
  pose proof s1 as s1'. unfold send_side in s1'. injection s1' as Hrole Hcid _ Hout.
  constructor; [congruence|auto|exists (l1 ++ l2)|exists (d1 ++ d2)|..].
  - rewrite e2, e1, app_assoc, received_app, announced_app, requested_app, fmap_app, a1, a2, b1, b2.
    eauto using chain_app.
  - rewrite f2, f1, app_assoc. split; [done|]. apply Forall_app. split; [done|]. by rewrite <-Hcid, <-Hout.
  - rewrite fmap_app, i1, i2, t1, zlen_app, seqZ_app_len by apply zlen_nonneg. do 2 f_equal. lia.
  - rewrite zlen_app. lia.
  - rewrite Hrole in y2. eauto using lifecycle_trans.
Qed.

(** An error moved nothing the application or the peer's data can tell. *)
Definition stalled (m m' : CoreMachine) : Prop :=
  send_side m' = send_side m ∧ state m' = state m ∧
  last_requested_end m' = last_requested_end m ∧ last_ordered_rx m' = last_ordered_rx m.

Lemma unmoved_stalled m m' : unmoved m m' → stalled m m'.
Proof. intros (? & Hr & ? & ?). unfold recv_side in Hr. split_and!; congruence. Qed.

(* ------------------------------------------------------------------ *)
(** ** Handlers of the handshake *)
(* ------------------------------------------------------------------ *)

Lemma quiet_tail h p q : quiet p q → wp h (quiet_ok q) q → wp h (quiet_ok p) q.
Proof. intros Hq. apply wp_mono. intros o q' [-> Hq']. split; [done|]. by etrans. Qed.

Lemma established_forward r s s' : s = s' → s' ≠ Lost → lifecycle r s Established.
Proof. intros -> ?. right. right. by left. Qed.

Lemma lost_forward r s : lifecycle r s Lost.
Proof. right. by left. Qed.

#[local] Hint Resolve established_forward lost_forward : todero.

Lemma quiet_client_hello now path f p :
  Wire.message_type f = Wire.ClientHello → in_u64 p.1 → wp (dispatch now path f) (quiet_ok p) p.
Proof.
  intros Hf [Hu _]. unfold dispatch. wp_run. rewrite Hf. wp_step; [|quiet_auto].
  apply andb_true_iff in Hc as [_ Hc%in_state_true]. wp_run. apply quiet_tail; [|apply quiet_schedule_server_timers].
  repeat quiet_back. eapply established_forward; [done|]. congruence.
Qed.

Lemma quiet_server_hello now path f p :
  Wire.message_type f = Wire.ServerHello → in_u64 p.1 → wp (dispatch now path f) (quiet_ok p) p.
Proof.
  intros Hf [Hu _]. unfold dispatch. wp_run. rewrite Hf. wp_step; [|quiet_auto].
  apply andb_true_iff in Hc as [_ Hc].
  assert (state p.1 ≠ Lost) by (apply orb_true_iff in Hc as [?%in_state_true|?%in_state_true]; congruence).
  wp_run. apply quiet_tail; [|apply quiet_schedule_client_timers].
  destruct (in_state Reactivating p.1); repeat quiet_back; try apply lifecycle_refl;
    by eapply established_forward.
Qed.

Lemma quiet_hello_ack now path f p :
  Wire.message_type f = Wire.HelloAck → wp (dispatch now path f) (quiet_ok p) p.
Proof.
  intros Hf. unfold dispatch. wp_run. rewrite Hf. wp_step; [|quiet_auto].
  apply andb_true_iff in Hc as [_ Hc%in_state_true]. wp_run. apply quiet_tail; [|apply quiet_schedule_server_timers].
  repeat quiet_back. eapply established_forward; [done|]. congruence.
Qed.

Lemma quiet_close now path f p :
  Wire.message_type f = Wire.Close ∨ Wire.message_type f = Wire.Error →
  wp (dispatch now path f) (quiet_ok p) p.
Proof. intros [Hf|Hf]; unfold dispatch; wp_run; rewrite Hf; quiet_auto; apply lost_forward. Qed.

(* ------------------------------------------------------------------ *)
(** ** A frame *)
(* ------------------------------------------------------------------ *)

Section Step.
Context (ok_msg : Z → list byte → Prop) (ok_piece : Z → Z → Z → list byte → Prop).

Hypothesis merge_ok : ∀ id t (pieces : gmap Z (list byte)),
  (∀ i, 0 ≤ i < t → ∃ c, pieces !! i = Some c ∧ ok_piece id t i c) → 0 < t ≤ U16_MAX →
  ok_msg id (concat (map (λ i, default [] (pieces !! i)) (seqZ 0 t))).

Abbreviation recv_inv := (recv_inv ok_msg ok_piece).

(** The postcondition of the handlers of a frame. *)
Definition handled (n : Z) (p : CoreMachine * CoreOutput) (o : outcome CoreError ())
    (p' : CoreMachine * CoreOutput) : Prop :=
  recv_inv n p'.1 ∧
  match o with
  | Ok _ => ∃ ds, advances ds p p' ∧ Forall (λ q, ok_msg q.1 q.2) ds
  | Err _ => stalled p.1 p'.1
  | Panic => False
  end.

Lemma quiet_ok_handled n p o p' : recv_inv n p.1 → quiet_ok p o p' → handled n p o p'.
Proof.
  intros Hi [-> Hq]. split; [by eapply recv_inv_side; [apply (quiet_recv _ _ Hq)|]|].
  exists []. split; [by apply quiet_advances|done].
Qed.

Lemma quiet_or_err_handled n p o p' : recv_inv n p.1 → quiet_or_err p o p' → handled n p o p'.
Proof.
  intros Hi Hq. destruct o as [[]|e|]; [by apply quiet_ok_handled| |done].
  split; [|by apply unmoved_stalled]. destruct Hq as (_ & Hr & _). by eapply recv_inv_side.
Qed.

Lemma calm_handled n p o p' : recv_inv n p.1 → calm p o p' → handled n p o p'.
Proof.
  intros Hi [Hu Ho]. apply quiet_or_err_handled; [done|]. by destruct o.
Qed.

Lemma receives_handled n p o p' : receives ok_msg ok_piece n p o p' → handled n p o p'.
Proof.
  intros [Hi Ho]. split; [done|]. destruct o; [|done..].
  destruct Ho as (ds & Hd & Hok). exists ds. split; [by apply delivers_advances|done].
Qed.

Lemma wp_dispatch n now path f p :
  in_u64 p.1 → recv_inv n p.1 → n + 1 < U64_MAX → data_ok ok_msg ok_piece f →
  wp (dispatch now path f) (handled (n + 1) p) p.
Proof.
  intros Hu Hi Hn Hf. assert (Hi' : recv_inv (n + 1) p.1) by (eapply recv_inv_mono, Hi; lia).
  unfold data_ok in Hf. destruct (Wire.message_type f) eqn:Ht;
    try (eapply wp_mono; [intros ??; by apply quiet_ok_handled|];
         eauto using quiet_client_hello, quiet_server_hello, quiet_hello_ack, quiet_close; fail);
    unfold dispatch; wp_run; rewrite Ht.
  - eapply wp_mono, quiet_msr; [|done]. intros ??. by apply quiet_or_err_handled.
  - wp_step; [|by apply quiet_ok_handled].
    eapply wp_mono, calm_request_range; [|done]. intros ??. by apply calm_handled.
  - wp_step; [|by apply quiet_ok_handled].
    eapply wp_mono, wp_handle_data; [intros ??; apply receives_handled|done..].
  - wp_step; [|by apply quiet_ok_handled].
    eapply wp_mono, wp_handle_fragment; [intros ??; apply receives_handled|done..].
Qed.

Lemma advances_in_u64 ds p p' : advances ds p p' → in_u64 p.1 → in_u64 p'.1.
Proof. intros [Hs Hu _ _ _ _ _] [Hc Hr]. unfold send_side in Hs. split; [congruence|auto]. Qed.

Lemma stalled_trans m1 m2 m3 : stalled m1 m2 → stalled m2 m3 → stalled m1 m3.
Proof. intros (?&?&?&?) (?&?&?&?). split_and!; congruence. Qed.

(** Handlers in sequence: nothing is delivered before the middle one, and what follows it has
    no error. *)
Lemma calm_handled_seq n n' h k p :
  n ≤ n' → in_u64 p.1 → recv_inv n p.1 → wp h (calm p) p →
  (∀ q, quiet p q → in_u64 q.1 → recv_inv n q.1 → wp k (handled n' q) q) →
  wp (h ;; k) (handled n' p) p.
Proof.
  intros Hn Hu Hi Hh Hk. apply wp_bind. eapply wp_mono, Hh. intros o q [Hun Hq].
  assert (recv_inv n q.1) by (by eapply recv_inv_side; [apply Hun|]).
  destruct o as [[]|e|]; cbn [then_wp]; [| |done].
  - eapply wp_mono, Hk; [|done|by eapply quiet_in_u64|done].
    intros o q' [Hi' Ho]. split; [done|]. destruct o as [[]|e|]; [| |done].
    + destruct Ho as (ds & Hd & Hok). exists ds. split; [|done].
      apply (advances_trans [] ds p q q'); [by apply quiet_advances|done].
    + eapply stalled_trans; [|done]. by apply unmoved_stalled.
  - split; [by eapply recv_inv_mono|by apply unmoved_stalled].
Qed.

Lemma handled_quiet_seq n h k p :
  in_u64 p.1 → wp h (handled n p) p → (∀ q, in_u64 q.1 → wp k (quiet_ok q) q) →
  wp (h ;; k) (handled n p) p.
Proof.
  intros Hu Hh Hk. apply wp_bind. eapply wp_mono, Hh. intros o q [Hi Ho].
  destruct o as [[]|e|]; cbn [then_wp]; [|done..]. destruct Ho as (ds & Hd & Hok).
  eapply wp_mono, Hk; [|by eapply advances_in_u64]. intros o q' [-> Hq].
  split; [by eapply recv_inv_side; [apply (quiet_recv _ _ Hq)|]|].
  exists ds. split; [|done]. rewrite <-(app_nil_r ds).
  eapply advances_trans; [done|]. by apply quiet_advances.
Qed.

Lemma find_msr_signal_range l a b : find_msr_signal_tlv l = Some (a, b) → is_u64 b.
Proof.
  unfold find_msr_signal_tlv. destruct (list_find _ l) as [[i t]|]; [|done].
  by intros [_ ?]%decode_msr_payload_range.
Qed.

Lemma wp_on_frame n now path f p :
  in_u64 p.1 → recv_inv n p.1 → n + 1 < U64_MAX → data_ok ok_msg ok_piece f →
  wp (on_frame now path f) (handled (n + 1) p) p.
Proof.
  intros Hu Hi Hn Hf. unfold on_frame. do 3 wp_step.
  apply (calm_handled_seq n); [lia|done|done|quiet_auto|intros q0 _ Hu0 Hi0].
  apply (calm_handled_seq n); [lia|done|done|quiet_auto|intros q1 _ Hu1 Hi1].
  apply (calm_handled_seq n); [lia|done|done|quiet_auto|intros q2 _ Hu2 Hi2].
  apply (calm_handled_seq n); [lia|done|done|unfold on_valid_peer_datagram; quiet_auto|].
  intros q3 _ Hu3 Hi3. apply handled_quiet_seq; [done|by apply wp_dispatch|].
  intros q4 Hu4. wp_step; [|quiet_auto].
  destruct (find_msr_signal_tlv (Wire.tlvs f)) as [[a b]|] eqn:Hs; [|quiet_auto].
  apply quiet_msr_signal; [done|]. by eapply find_msr_signal_range.
Qed.

(* ------------------------------------------------------------------ *)
(** ** The public methods *)
(* ------------------------------------------------------------------ *)

(** The progress of a call that is not a send, from the postcondition of its body. *)
Lemma run_progress n i (body : method ()) m o m' :
  machine_inv ok_msg ok_piece n m → (∀ payload, i ≠ InSend payload) →
  wp body (handled (n + 1) (m, CoreOutput_default)) (m, CoreOutput_default) →
  run body m = (o, m') →
  machine_inv ok_msg ok_piece (n + 1) m' ∧ progress ok_msg i m o m'.
Proof.
  intros [Hu Hi Hnx Hob] Hns Hwp Hrun. unfold run, wp in *.
  destruct (body (m, CoreOutput_default)) as [o1 [m1 out]]. injection Hrun as <- <-. cbn in Hwp.
  destruct Hwp as [Hi' Ho].
  assert (Hsame : ∀ m1, send_side m1 = send_side m →
    match i with
    | InSend payload =>
        outbound_messages m1 = <[next_outbound_id m := payload]> (outbound_messages m) ∧
        next_outbound_id m1 = next_outbound_id m + 1
    | _ => outbound_messages m1 = outbound_messages m ∧ next_outbound_id m1 = next_outbound_id m
    end ∧ role m1 = role m ∧ cid m1 = cid m).
  { intros m2 Hs. unfold send_side in Hs. injection Hs as ? ? ? ?.
    destruct i; try done. by destruct (Hns payload). }
  assert (Hmi : ∀ m1, send_side m1 = send_side m → in_u64 m1 → recv_inv (n + 1) m1 →
    machine_inv ok_msg ok_piece (n + 1) m1).
  { intros m2 Hs Hu2 Hi2. unfold send_side in Hs. injection Hs as ? ? Hnx2 Hob2.
    constructor; [done|done|rewrite Hnx2; lia|by rewrite Hnx2, Hob2]. }
  destruct o1 as [[]|e|]; [| |done].
  - destruct Ho as (ds & Ha & Hok). pose proof (advances_in_u64 _ _ _ Ha Hu) as Hu'.
    destruct Ha as [Hs _ (l & He & Hr & Han & Hch) (d & Hd & Hem) Hids Hl Hlc]; cbn in *.
    destruct (Hsame _ Hs) as (Hout & Hid). split; [by apply Hmi|].
    assert (outbound_messages m1 = outbound_messages m) as Hom by (unfold send_side in Hs; congruence).
    constructor; cbn; rewrite ?He, ?Hd, ?Hr; try done.
    + pose proof (zlen_nonneg ds). lia.
    + rewrite Hids, Hl. f_equal. lia.
    + by rewrite Hom.
  - destruct Ho as (Hs & Hst & Hr & Hl). cbn in *. destruct (Hsame _ Hs) as (Hout & Hid).
    split; [apply Hmi; [done| |done]|].
    + destruct Hu. unfold send_side in Hs. split; [congruence|by rewrite Hr].
    + constructor; cbn; rewrite ?Hl, ?Hst, ?Hr, ?Z.sub_diag; try done. by left.
Qed.

Lemma wp_quiet_handled n body p :
  recv_inv n p.1 → wp body (quiet_ok p) p → wp body (handled n p) p.
Proof. intros Hi. apply wp_mono. intros o p'. by apply quiet_ok_handled. Qed.

Lemma quiet_on_timer now id p : in_u64 p.1 → wp (on_timer_body now id) (quiet_ok p) p.
Proof.
  intros [Hc _]. unfold on_timer_body. wp_run. destruct id; quiet_auto; try apply lost_forward.
  apply andb_true_iff in Hc0 as [Hcl Hst]. apply is_role_true in Hcl. right. right. right.
  split_and!; [|done|done].
  apply orb_true_iff in Hst as [?%in_state_true|?%in_state_true]; congruence.
Qed.

Lemma quiet_begin_handshake now p : in_u64 p.1 → wp (begin_handshake_body now) (quiet_ok p) p.
Proof. intros [Hc _]. unfold begin_handshake_body. quiet_auto. Qed.

Lemma quiet_on_api_close p : in_u64 p.1 → wp on_api_close_body (quiet_ok p) p.
Proof. intros [Hc _]. unfold on_api_close_body. quiet_auto. apply lost_forward. Qed.

Lemma quiet_on_path_event e p : wp (on_path_event_body e) (quiet_ok p) p.
Proof. unfold on_path_event_body. quiet_auto. Qed.

Lemma validate_no_panic c p : validate_timer_proposal c p ≠ Panic.
Proof. unfold validate_timer_proposal, reject. by repeat case_match. Qed.

Lemma calm_on_api_propose_timers now t p :
  in_u64 p.1 → wp (on_api_propose_timers_body now t) (calm p) p.
Proof.
  intros [Hc _]. unfold on_api_propose_timers_body. wp_run. wp_step; [by split|]. wp_run.
  pose proof (validate_no_panic (cfg p.1) t).
  destruct (validate_timer_proposal (cfg p.1) t) as [[]|e|]; [|by split|done]. quiet_auto.
Qed.

Lemma wp_on_datagram n now path bs p :
  in_u64 p.1 → recv_inv n p.1 → n + 1 < U64_MAX →
  input_ok ok_msg ok_piece (InDatagram now path bs) →
  wp (on_datagram_body now path bs) (handled (n + 1) p) p.
Proof.
  intros Hu Hi Hn Hok. unfold on_datagram_body. pose proof (WireLemmas.decode_total bs).
  destruct (Wire.decode bs) as [f|e|] eqn:Hd; [| |done].
  - apply wp_on_frame; [done..|]. by apply Hok.
  - apply wp_quiet_handled; [by eapply recv_inv_mono, Hi; lia|]. quiet_auto.
Qed.

(** The body of a send, after the queue has grown. *)
Definition enqueue (payload : list byte) (m : CoreMachine) : CoreMachine :=
  (m <| next_outbound_id := add64 (next_outbound_id m) 1 |>)
    <| outbound_messages := <[next_outbound_id m := payload]> (outbound_messages m) |>.

Lemma quiet_on_api_send payload p :
  is_u64 (cid p.1) →
  wp (on_api_send_body payload) (quiet_ok (enqueue payload p.1, p.2)) p.
Proof.
  intros Hc. unfold on_api_send_body. wp_run.
  change (((p.1 <| next_outbound_id := add64 (next_outbound_id p.1) 1 |>, p.2).1
     <| outbound_messages := <[next_outbound_id p.1:=payload]>
          (outbound_messages (p.1 <| next_outbound_id := add64 (next_outbound_id p.1) 1 |>, p.2).1) |>,
     (p.1 <| next_outbound_id := add64 (next_outbound_id p.1) 1 |>, p.2).2))
    with (enqueue payload p.1, p.2).
  assert (Hc' : is_u64 (cid (enqueue payload p.1, p.2).1)) by done.
  revert Hc'. generalize (enqueue payload p.1, p.2). intros q Hc'. quiet_auto.
Qed.

Lemma send_progress n payload m o m' :
  machine_inv ok_msg ok_piece n m → n + 1 < U64_MAX →
  on_api_send payload m = (o, m') →
  machine_inv ok_msg ok_piece (n + 1) m' ∧ progress ok_msg (InSend payload) m o m'.
Proof.
  intros [Hu Hi Hnx Hob] Hn Hrun. unfold on_api_send, run in Hrun.
  pose proof (quiet_on_api_send payload (m, CoreOutput_default) (proj1 Hu)) as Hwp. unfold wp in Hwp.
  destruct (on_api_send_body payload (m, CoreOutput_default)) as [o1 [m1 out]].
  injection Hrun as <- <-. destruct Hwp as [H1 Hq]. cbn in H1. subst o1.
  destruct Hq as [Hs Hr Hu64 (l & He & Hl & Ha & Hch) (d & Hd & Hem) Hlc]; cbn in *.
  assert (Hadd : add64 (next_outbound_id m) 1 = next_outbound_id m + 1).
  { unfold add64, wrap64. rewrite Z.mod_small; ulia. }
  unfold send_side, recv_side in *. cbn in *. injection Hs as Hrole Hcid Hnext Hout.
  assert (Hr' := Hr). injection Hr' as Hri Hrb Hrf Hrl. rewrite Hadd in Hnext. split.
  - constructor; [split; [by rewrite Hcid; destruct Hu|by apply Hu64; destruct Hu]| | |].
    + eapply (recv_inv_side _ _ _ m); [by unfold recv_side|]. eapply recv_inv_mono, Hi. lia.
    + lia.
    + intros k. rewrite Hout, Hnext, lookup_insert_is_Some', Hob. lia.
  - constructor; cbn; rewrite ?He, ?Hl, ?Ha, ?Hd, ?Hout, ?Hrl, ?Z.sub_diag; done.
Qed.

Lemma step_progress n i m o m' :
  machine_inv ok_msg ok_piece n m → n + 1 < U64_MAX → input_ok ok_msg ok_piece i →
  step i m = (o, m') →
  machine_inv ok_msg ok_piece (n + 1) m' ∧ progress ok_msg i m o m'.
Proof.
  intros Hm Hn Hok Hstep. pose proof Hm as [Hu Hi _ _].
  assert (Hi' : recv_inv (n + 1) m) by (eapply recv_inv_mono, Hi; lia).
  destruct i as [now|now path bs|now id|payload| |now t|e]; cbn [step] in Hstep;
    try (eapply send_progress; eassumption).
  all: eapply (run_progress n); [exact Hm|done| |exact Hstep].
  - by apply wp_quiet_handled, quiet_begin_handshake.
  - by apply wp_on_datagram.
  - by apply wp_quiet_handled, quiet_on_timer.
  - by apply wp_quiet_handled, quiet_on_api_close.
  - eapply wp_mono, calm_on_api_propose_timers; [|done]. intros ??. by apply calm_handled.
  - by apply wp_quiet_handled, quiet_on_path_event.
Qed.

End Step.

Lemma new_inv ok_msg ok_piece r c cfg :
  is_u64 c → machine_inv ok_msg ok_piece 0 (new r c cfg).
Proof.
  intros Hc. constructor; cbn; [by split|..|lia|].
  - constructor; cbn; try done.
    intros k. rewrite lookup_empty. split; [set_solver|]. intros [?|[? ?]]; [lia|done].
  - intros k. rewrite lookup_empty. split; [by intros [??]|lia].
Qed.
