(* ===== verification/CoreRuns.v ===== *)
(** * Whole runs of the protocol state machine

    The progress of one call composed over any sequence of calls, and the instance of the
    receive parameters for data that comes from a given sender. *)

From S2P Require Import Prelude Bytes Core CoreSpec CoreLemmas CoreEffects CoreReceive CoreStep.
From S2P Require Wire WireLemmas.

(** The payloads a run is given to send, in order. *)
Definition sends (l : list input) : list (list byte) :=
  l ≫= λ i, match i with InSend payload => [payload] | _ => [] end.

(** Whole messages of [sent], and pieces of them at their place. *)
Definition sent_msg (sent : gmap Z (list byte)) (id : Z) (msg : list byte) : Prop :=
  sent !! id = Some msg.

Definition sent_piece (sent : gmap Z (list byte)) (id t idx : Z) (body : list byte) : Prop :=
  ∃ msg, sent !! id = Some msg ∧ t = div_ceil (zlen msg) CHUNK_SIZE ∧ 0 ≤ idx ∧
         chunks_of CHUNK_SIZE msg !! Z.to_nat idx = Some body.

(** The network hands the receiver datagrams of [ds], in any order and any number of times,
    and anything else that carries no application data. *)
Definition from_network (ds : list OutboundDatagram) (i : input) : Prop :=
  match i with
  | InDatagram _ _ bs =>
      bs ∈ map bytes ds ∨
      ∀ f, Wire.decode bs = Ok f →
        Wire.message_type f ≠ Wire.Data ∧ Wire.message_type f ≠ Wire.Fragment
  | _ => True
  end.

(** The summary of a run. *)
Record summary (ok_msg : Z → list byte → Prop) (m : CoreMachine)
    (l : list input) (os : list (outcome CoreError CoreOutput)) (m' : CoreMachine) : Prop := mkSummary {
  sm_returns : Forall (λ o, o ≠ Panic) os;
  sm_length : length os = length l;
  sm_identity : role m' = role m ∧ cid m' = cid m;
  sm_outbound : outbound_messages m ⊆ outbound_messages m';
  sm_sends : ∀ k payload, sends l !! k = Some payload →
    outbound_messages m' !! (next_outbound_id m + Z.of_nat k) = Some payload;
  sm_next : next_outbound_id m' = next_outbound_id m + zlen (sends l);
  sm_last : last_ordered_rx m ≤ last_ordered_rx m';
  sm_received : (run_received os).*1 =
    seqZ (last_ordered_rx m + 1) (last_ordered_rx m' - last_ordered_rx m);
  sm_announced : (os ≫= λ o, announced (events_of o)) = (run_received os).*1;
  sm_payloads : Forall (λ q, ok_msg q.1 q.2) (run_received os);
  sm_requested : chain (last_requested_end m) (run_requested os) (last_requested_end m');
  sm_emitted : Forall (emitted (cid m) (outbound_messages m')) (run_datagrams os);
  sm_lifecycle : lifecycle (role m) (state m) (state m');
}.

Lemma genuine_mono sent sent' f : sent ⊆ sent' → genuine sent f → genuine sent' f.
Proof.
  unfold genuine. intros Hs. destruct (Wire.message_type f); try done.
  - intros (id & msg & ? & ? & ?). exists id, msg. split_and!; [done|by eapply lookup_weaken|done].
  - intros (id & msg & idx & c & ? & ? & ? & ? & ?). exists id, msg, idx, c.
    split_and!; try done. by eapply lookup_weaken.
Qed.

Lemma emitted_mono c sent sent' d : sent ⊆ sent' → emitted c sent d → emitted c sent' d.
Proof. intros Hs (f & Hd & Hc & Hg). exists f. split_and!; [done|done|by eapply genuine_mono]. Qed.

Section Runs.
Context (ok_msg : Z → list byte → Prop) (ok_piece : Z → Z → Z → list byte → Prop).

Hypothesis merge_ok : ∀ id t (pieces : gmap Z (list byte)),
  (∀ i, 0 ≤ i < t → ∃ c, pieces !! i = Some c ∧ ok_piece id t i c) → 0 < t ≤ U16_MAX →
  ok_msg id (concat (map (λ i, default [] (pieces !! i)) (seqZ 0 t))).

Abbreviation machine_inv := (machine_inv ok_msg ok_piece).

Lemma progress_outbound n i m o m' :
  machine_inv n m → progress ok_msg i m o m' → outbound_messages m ⊆ outbound_messages m'.
Proof.
  intros [_ _ _ Hob] Hp. pose proof (pg_outbound _ _ _ _ _ Hp) as Ho.
  destruct i; try (by destruct Ho as [-> _]). destruct Ho as [-> _].
  apply insert_subseteq, eq_None_not_Some. rewrite Hob. lia.
Qed.

Lemma progress_sends n i m o m' :
  machine_inv n m → progress ok_msg i m o m' →
  next_outbound_id m' = next_outbound_id m + zlen (sends [i]) ∧
  (∀ k payload, sends [i] !! k = Some payload →
     outbound_messages m' !! (next_outbound_id m + Z.of_nat k) = Some payload).
Proof.
  intros _ Hp. pose proof (pg_outbound _ _ _ _ _ Hp) as Ho.
  destruct i; try (destruct Ho as [_ ->]; split; [by rewrite Z.add_0_r|done]).
  destruct Ho as [-> ->]. split; [done|]. intros [|k] pl; [|done]. intros [= <-].
  by rewrite Z.add_0_r, lookup_insert_eq.
Qed.

(** Any run keeps the invariant, and its calls add up. *)
Lemma run_summary n l m os m' :
  machine_inv n m → n + zlen l < U64_MAX → Forall (input_ok ok_msg ok_piece) l →
  run_inputs l m = (os, m') →
  machine_inv (n + zlen l) m' ∧ summary ok_msg m l os m'.
Proof.
  revert n m os m'. induction l as [|i l IH]; intros n m os m' Hm Hn Hok Hrun.
  - injection Hrun as <- <-. change (zlen []) with 0. rewrite Z.add_0_r. split; [done|].
    constructor; cbn; rewrite ?Z.sub_diag; try done; [by rewrite Z.add_0_r|apply lifecycle_refl].
  - cbn in Hrun. destruct (step i m) as [o m1] eqn:Hstep.
    destruct (run_inputs l m1) as [os1 m2] eqn:Hl. injection Hrun as <- <-.
    apply Forall_cons in Hok as [Hi Hok]. rewrite zlen_cons in *. pose proof (zlen_nonneg l).
    destruct (step_progress ok_msg ok_piece merge_ok n i m o m1) as [Hm1 Hp]; [done|lia|done|done|].
    destruct (IH (n + 1) m1 os1 m2) as [Hm2 Hs]; [done|lia|done|done|].
    split; [by replace (n + (1 + zlen l)) with (n + 1 + zlen l) by lia|].
    pose proof (progress_outbound _ _ _ _ _ Hm Hp) as Hsub.
    destruct (progress_sends _ _ _ _ _ Hm Hp) as [Hnx Hsd].
    destruct Hp as [P1 [P2 P2'] _ P3 P4 P5 P6 P7 P8 P9].
    destruct Hs as [S1 S2 [S3 S3'] S4 S5 S6 S7 S8 S9 S10 S11 S12 S13].
    unfold run_received, run_requested, run_datagrams in *.
    assert (Hsends : sends (i :: l) = sends [i] ++ sends l).
    { unfold sends. cbn. by rewrite app_nil_r. }
    constructor; unfold run_received, run_requested, run_datagrams.
    + by constructor.
    + cbn. by rewrite S2.
    + split; congruence.
    + by etrans.
    + intros k pl. rewrite Hsends. intros [Hk|[Hge Hk]]%lookup_app_Some.
      * eapply lookup_weaken; [by apply Hsd|done].
      * apply S5 in Hk. rewrite <-Hk. f_equal. rewrite Hnx. unfold zlen. lia.
    + rewrite Hsends, zlen_app. lia.
    + lia.
    + rewrite bind_cons, fmap_app, P4, S8.
      replace (last_ordered_rx m1 + 1) with
        (last_ordered_rx m + 1 + (last_ordered_rx m1 - last_ordered_rx m)) by lia.
      rewrite <-seqZ_app_len by lia. f_equal. lia.
    + by rewrite !bind_cons, fmap_app, P5, S9.
    + rewrite bind_cons. by apply Forall_app.
    + rewrite bind_cons. by eapply chain_app.
    + rewrite bind_cons. apply Forall_app. split; [|by rewrite <-P2'].
      eapply Forall_impl; [exact P8|]. intros d. by apply emitted_mono.
    + rewrite P2 in S13. by eapply lifecycle_trans.
Qed.

End Runs.

(* ------------------------------------------------------------------ *)
(** ** Data of a given sender *)
(* ------------------------------------------------------------------ *)

(** No assumption at all on the data. *)
Definition any_msg (_ : Z) (_ : list byte) : Prop := True.
Definition any_piece (_ _ _ : Z) (_ : list byte) : Prop := True.

Lemma any_input_ok i : input_ok any_msg any_piece i.
Proof. destruct i; try done. intros f _. unfold data_ok. by destruct (Wire.message_type f). Qed.

(** What a run has handed over, no later run hands over again. *)
Lemma received_once n m l1 os1 m1 l2 os2 m2 id :
  machine_inv any_msg any_piece n m → n + zlen l1 + zlen l2 < U64_MAX →
  run_inputs l1 m = (os1, m1) → run_inputs l2 m1 = (os2, m2) →
  id ∈ (run_received os1).*1 → id ∉ (run_received os2).*1.
Proof.
  intros Hm Hn H1 H2. pose proof (zlen_nonneg l1). pose proof (zlen_nonneg l2).
  destruct (run_summary any_msg any_piece ltac:(done) n l1 m os1 m1) as [Hm1 S1]; [done|lia|apply Forall_true, any_input_ok|done|].
  destruct (run_summary any_msg any_piece ltac:(done) (n + zlen l1) l2 m1 os2 m2) as [_ S2]; [done|lia|apply Forall_true, any_input_ok|done|].
  rewrite (sm_received _ _ _ _ _ S1), (sm_received _ _ _ _ _ S2), !elem_of_seqZ. lia.
Qed.

Lemma map_seqZ_chunks (pieces : gmap Z (list byte)) (l : list (list byte)) t :
  zlen l = t → (∀ i, 0 ≤ i < t → ∃ c, pieces !! i = Some c ∧ l !! Z.to_nat i = Some c) →
  map (λ i, default [] (pieces !! i)) (seqZ 0 t) = l.
Proof.
  intros Hl Hp. apply list_eq. intros k. rewrite list_lookup_fmap.
  destruct (decide (Z.of_nat k < t)) as [Hk|Hk].
  - rewrite lookup_seqZ_lt by lia. cbn [fmap option_fmap option_map]. rewrite Z.add_0_l.
    destruct (Hp (Z.of_nat k)) as (c & Hc & Hlk); [lia|]. rewrite Hc. cbn.
    by rewrite Nat2Z.id in Hlk.
  - rewrite lookup_seqZ_ge by lia. cbn. symmetry. apply lookup_ge_None. unfold zlen in Hl. lia.
Qed.

Lemma sent_merge_ok sent id t (pieces : gmap Z (list byte)) :
  (∀ i, 0 ≤ i < t → ∃ c, pieces !! i = Some c ∧ sent_piece sent id t i c) → 0 < t ≤ U16_MAX →
  sent_msg sent id (concat (map (λ i, default [] (pieces !! i)) (seqZ 0 t))).
Proof.
  intros Hp Ht. destruct (Hp 0) as (c0 & _ & msg & Hmsg & Hlen & _ & _); [lia|].
  unfold sent_msg. rewrite (map_seqZ_chunks _ (chunks_of CHUNK_SIZE msg)).
  - by rewrite chunks_of_concat.
  - by rewrite chunks_of_count.
  - intros i Hi. destruct (Hp i Hi) as (c & Hc & msg' & Hmsg' & _ & _ & Hi').
    exists c. split; [done|]. congruence.
Qed.

Lemma u64_app_inj a b s t : is_u64 a → is_u64 b → u64_be a ++ s = u64_be b ++ t → a = b ∧ s = t.
Proof.
  intros Ha Hb Heq. apply app_inj_1 in Heq as [Heq ->]; [|done]. split; [|done].
  by rewrite <-(be_value_u64 a), Heq, be_value_u64.
Qed.

Lemma u16_app_inj a b s t : is_u16 a → is_u16 b → u16_be a ++ s = u16_be b ++ t → a = b ∧ s = t.
Proof.
  intros Ha Hb Heq. apply app_inj_1 in Heq as [Heq ->]; [|done]. split; [|done].
  by rewrite <-(be_value_u16 a), Heq, be_value_u16.
Qed.

(** Genuine frames carry the sender's messages and pieces. *)
Lemma genuine_data_ok sent f : genuine sent f → data_ok (sent_msg sent) (sent_piece sent) f.
Proof.
  unfold genuine, data_ok. destruct (Wire.message_type f); try done.
  - intros (id & msg & Hid & Hmsg & ->) id' msg' Hid' Heq.
    apply u64_app_inj in Heq as [-> ->]; done.
  - intros (id & msg & idx & c & Hid & Hmsg & Hc & Htot & ->) id' idx' tot' body Hid' Hidx' Htot' Heq.
    pose proof (lookup_zlen _ _ _ Hc) as Hlt. rewrite chunks_of_count in Hlt by done.
    apply u64_app_inj in Heq as [-> Heq]; [|done..].
    apply u16_app_inj in Heq as [<- Heq]; [|ulia|done].
    apply u16_app_inj in Heq as [<- <-]; [|ulia|done].
    exists msg. split_and!; [done|done|lia|]. by rewrite Nat2Z.id.
Qed.

Lemma from_network_ok c sent ds i :
  Forall (emitted c sent) ds → from_network ds i → input_ok (sent_msg sent) (sent_piece sent) i.
Proof.
  destruct i; try done. cbn. intros Hds [Hin|Hno] f Hf.
  - apply genuine_data_ok. apply list_elem_of_fmap in Hin as (d & -> & Hin).
    rewrite Forall_forall in Hds. destruct (Hds d Hin) as (f' & Hf' & _ & Hg). congruence.
  - destruct (Hno f Hf) as [H1 H2]. unfold data_ok. by destruct (Wire.message_type f).
Qed.

(** Consecutive messages of the outbound queue are a prefix of what was queued. *)
Lemma prefix_of_sends (m : CoreMachine) (queued : list (list byte)) (ds : list (Z * list byte)) n :
  (∀ k, is_Some (outbound_messages m !! k) ↔ 1 ≤ k < next_outbound_id m) →
  (∀ k payload, queued !! k = Some payload → outbound_messages m !! (Z.of_nat k + 1) = Some payload) →
  next_outbound_id m = 1 + zlen queued →
  ds.*1 = seqZ 1 n →
  Forall (λ q, sent_msg (outbound_messages m) q.1 q.2) ds →
  ds.*2 `prefix_of` queued.
Proof.
  intros Hob Hq Hnx Hids Hall.
  assert (Hds : ∀ k id payload, ds !! k = Some (id, payload) → queued !! k = Some payload).
  { intros k id payload Hk.
    assert (Hid : ds.*1 !! k = Some id) by (by rewrite list_lookup_fmap, Hk).
    rewrite Hids in Hid. apply lookup_seqZ in Hid as [-> Hkn].
    apply (Forall_lookup_1 _ _ _ _ Hall) in Hk. unfold sent_msg in Hk. cbn in Hk.
    destruct (queued !! k) as [p|] eqn:Hkq.
    - apply Hq in Hkq. rewrite Z.add_comm in Hkq. congruence.
    - apply lookup_ge_None in Hkq. destruct (proj1 (Hob (1 + Z.of_nat k))); [by eexists|]. ulia. }
  clear -Hds. revert queued Hds. induction ds as [|[id p] ds IH]; intros queued Hds.
  - apply prefix_nil.
  - destruct queued as [|q queued]; [by pose proof (Hds 0%nat id p eq_refl)|].
    pose proof (Hds 0%nat id p eq_refl) as [= ->]. cbn. apply prefix_cons, IH.
    intros k id' p'. apply (Hds (S k)).
Qed.
