(* ===== verification/CoreProps.v ===== *)
(** * Correctness of the protocol state machine

    Delivery, requests, emission and life cycle over any sequence of calls, the behaviour on
    datagrams that are not for this association, and the functional behaviour of each
    handler. *)

From S2P Require Import Prelude Bytes Core CoreSpec CoreLemmas CoreEffects CoreReceive CoreStep.
From S2P Require Import CoreRuns.
From S2P Require Wire WireLemmas.

(* ------------------------------------------------------------------ *)
(** ** Example runs *)
(* ------------------------------------------------------------------ *)

Definition ex_cid : Z := 7.

Definition ex_payload : list byte := [x68; x69].

(** A message of three fragments. *)
Definition ex_long : list byte := replicate 2500 x61.

(** The calls of a client that connects and sends two messages, its peer requesting them. *)
Definition ex_peer (t : Wire.MessageType) (payload : list byte) : input :=
  InDatagram 5 1 (match encode_frame t ex_cid payload with Ok bs => bs | _ => [] end).

Definition ex_sender_calls : list input :=
  [InHandshake 0; ex_peer Wire.ServerHello []; InSend ex_payload; InSend ex_long;
   ex_peer Wire.RequestRange (encode_range 1 2)].

Definition ex_sender : list (outcome CoreError CoreOutput) * CoreMachine :=
  run_inputs ex_sender_calls (new Client ex_cid CoreConfig_default).

Definition ex_sent : list OutboundDatagram := run_datagrams ex_sender.1.

(** The network delivers the sender's datagrams backwards, and then all of them again. *)
Definition ex_receiver_calls : list input :=
  ex_peer Wire.ClientHello [] ::
  map (λ d, InDatagram 9 1 (bytes d)) (reverse ex_sent ++ ex_sent).

Definition ex_receiver : list (outcome CoreError CoreOutput) * CoreMachine :=
  run_inputs ex_receiver_calls (new Server ex_cid CoreConfig_default).

(* ------------------------------------------------------------------ *)
(** ** Delivery *)
(* ------------------------------------------------------------------ *)

(** C2. Whatever bytes, timer ticks and calls a machine is given, no call panics, and the
    messages handed to the application are numbered 1, 2, 3, ... without gap or repetition,
    each announced by its [MessageDelivered] event. *)
Theorem delivers_once_in_order r c cfg l os m' :
  is_u64 c → zlen l < U64_MAX → run_inputs l (new r c cfg) = (os, m') →
  Forall (λ o, o ≠ Panic) os ∧
  (run_received os).*1 = seqZ 1 (last_ordered_rx m') ∧
  (os ≫= λ o, announced (events_of o)) = seqZ 1 (last_ordered_rx m').
Proof.
  intros Hc Hl Hrun.
  destruct (run_summary any_msg any_piece ltac:(done) 0 l (new r c cfg) os m') as [_ Hs];
    [by apply new_inv|done|apply Forall_true, any_input_ok|done|].
  destruct Hs as [H1 _ _ _ _ _ _ H2 H3 _ _ _ _]. cbn in H2.
  rewrite Z.sub_0_r in H2. split_and!; [done|done|by rewrite H3].
Qed.

Lemma delivers_once_in_order_witness :
  Forall (λ o, o ≠ Panic) ex_receiver.1 ∧ (run_received ex_receiver.1).*1 = seqZ 1 2.
Proof.
  destruct (delivers_once_in_order Server ex_cid CoreConfig_default ex_receiver_calls
    ex_receiver.1 ex_receiver.2) as (H1 & H2 & _).
  - done.
  - vm_compute. done.
  - unfold ex_receiver. by destruct (run_inputs _ _).
  - split; [exact H1|]. rewrite H2. vm_compute. reflexivity.
Defined.

(** C1. Two machines on a network that loses, duplicates, reorders and delays datagrams, and
    lets anyone inject frames that carry no data: the payloads the receiver hands to its
    application are a prefix of the payloads the sender was given, in order; fragmentation
    and reassembly are invisible. *)
Theorem received_is_prefix_of_sent ra rb c ca cb la lb osa osb a b :
  is_u64 c → zlen la < U64_MAX → zlen lb < U64_MAX →
  run_inputs la (new ra c ca) = (osa, a) → run_inputs lb (new rb c cb) = (osb, b) →
  Forall (from_network (run_datagrams osa)) lb →
  (run_received osb).*2 `prefix_of` sends la.
Proof.
  intros Hc Hla Hlb Ha Hb Hnet.
  destruct (run_summary any_msg any_piece ltac:(done) 0 la (new ra c ca) osa a) as [Hia Hsa];
    [by apply new_inv|done|apply Forall_true, any_input_ok|done|].
  destruct (run_summary (sent_msg (outbound_messages a)) (sent_piece (outbound_messages a))
    (sent_merge_ok _) 0 lb (new rb c cb) osb b) as [_ Hsb]; [by apply new_inv|done| |done|].
  { eapply Forall_impl; [exact Hnet|]. intros i. by apply (from_network_ok c), Hsa. }
  apply (prefix_of_sends a _ _ (last_ordered_rx b)).
  - apply Hia.
  - intros k p Hk. apply (sm_sends _ _ _ _ _ Hsa) in Hk. cbn in Hk. by rewrite Z.add_comm.
  - rewrite (sm_next _ _ _ _ _ Hsa). cbn. lia.
  - rewrite (sm_received _ _ _ _ _ Hsb). cbn. by rewrite Z.sub_0_r.
  - apply Hsb.
Qed.

Lemma replay_from_network ds l now path :
  l ⊆ ds → Forall (from_network ds) (map (λ d, InDatagram now path (bytes d)) l).
Proof.
  intros Hsub. apply Forall_fmap, Forall_forall. intros d Hd. left.
  by apply list_elem_of_fmap_2, Hsub.
Qed.

Lemma ex_network : Forall (from_network (run_datagrams ex_sender.1)) ex_receiver_calls.
Proof.
  unfold ex_receiver_calls, ex_sent. generalize (run_datagrams ex_sender.1). intros ds.
  constructor.
  - right. intros f Hf. vm_compute in Hf. injection Hf as <-. by split.
  - apply replay_from_network. set_solver.
Qed.

Lemma received_is_prefix_of_sent_witness :
  (run_received ex_receiver.1).*2 `prefix_of` [ex_payload; ex_long] ∧
  length (run_received ex_receiver.1) = 2%nat.
Proof.
  split; [|vm_compute; reflexivity].
  apply (received_is_prefix_of_sent Client Server ex_cid CoreConfig_default CoreConfig_default
    ex_sender_calls ex_receiver_calls ex_sender.1 ex_receiver.1 ex_sender.2 ex_receiver.2).
  - done.
  - vm_compute. done.
  - vm_compute. done.
  - unfold ex_sender. by destruct (run_inputs _ _).
  - unfold ex_receiver. by destruct (run_inputs _ _).
  - exact ex_network.
Defined.

(** A machine that is [Lost] stays [Lost], one that left [PreHandshake] never returns to
    it, and a server is never [Reactivating], whatever calls follow. *)
Theorem lifecycle_moves_forward n l m os m' :
  machine_inv any_msg any_piece n m → n + zlen l < U64_MAX → run_inputs l m = (os, m') →
  (state m = Lost → state m' = Lost) ∧
  (state m ≠ PreHandshake → state m' ≠ PreHandshake) ∧
  (role m = Server → state m ≠ Reactivating → state m' ≠ Reactivating).
Proof.
  intros Hm Hl Hrun.
  destruct (run_summary any_msg any_piece ltac:(done) n l m os m') as [_ Hs];
    [done|done|apply Forall_true, any_input_ok|done|].
  destruct (sm_lifecycle _ _ _ _ _ Hs) as [H|[H|[[H1 H]|[H1 [H2 H]]]]]; split_and!; congruence.
Qed.

Lemma lifecycle_moves_forward_witness :
  state (run_inputs [InClose; ex_peer Wire.ClientHello []] (new Server ex_cid CoreConfig_default)).2 = Lost.
Proof.
  destruct (lifecycle_moves_forward 1 [ex_peer Wire.ClientHello []]
    (on_api_close (new Server ex_cid CoreConfig_default)).2
    (run_inputs [ex_peer Wire.ClientHello []] (on_api_close (new Server ex_cid CoreConfig_default)).2).1
    (run_inputs [ex_peer Wire.ClientHello []] (on_api_close (new Server ex_cid CoreConfig_default)).2).2)
    as (H & _ & _).
  - apply (step_progress any_msg any_piece ltac:(done) 0 InClose
      (new Server ex_cid CoreConfig_default) (on_api_close (new Server ex_cid CoreConfig_default)).1).
    + by apply new_inv.
    + done.
    + done.
    + by vm_compute.
  - done.
  - by destruct (run_inputs _ _).
  - vm_compute in H. vm_compute. by apply H.
Defined.

(** C19. The ranges a machine requests from its peer are consecutive: the first starts at
    1, each next one right after the one before, so no message is requested twice and none
    below the last requested one is skipped. *)
Theorem requests_are_consecutive r c cfg l os m' :
  is_u64 c → zlen l < U64_MAX → run_inputs l (new r c cfg) = (os, m') →
  chain 0 (run_requested os) (last_requested_end m').
Proof.
  intros Hc Hl Hrun.
  destruct (run_summary any_msg any_piece ltac:(done) 0 l (new r c cfg) os m') as [_ Hs];
    [by apply new_inv|done|apply Forall_true, any_input_ok|done|]. apply Hs.
Qed.

Definition ex_advertised : list input :=
  [ex_peer Wire.ClientHello []; ex_peer Wire.Msr (encode_msr_payload 0 2);
   ex_peer Wire.Msr (encode_msr_payload 0 1); ex_peer Wire.Msr (encode_msr_payload 0 5)].

Lemma requests_are_consecutive_witness :
  chain 0 (run_requested (run_inputs ex_advertised (new Server ex_cid CoreConfig_default)).1) 5 ∧
  run_requested (run_inputs ex_advertised (new Server ex_cid CoreConfig_default)).1 = [(1, 2); (3, 5)].
Proof.
  split; [|vm_compute; reflexivity].
  apply (requests_are_consecutive Server ex_cid CoreConfig_default ex_advertised _
    (run_inputs ex_advertised (new Server ex_cid CoreConfig_default)).2); [done|by vm_compute|].
  by destruct (run_inputs _ _).
Defined.

(** C18. Every datagram a machine emits is a well-formed frame of its association, and the
    [Data] and [Fragment] frames carry the messages it was given to send: whole, or cut at
    988 bytes with the position and the number of the pieces. *)
Theorem emitted_frames_are_genuine r c cfg l os m' :
  is_u64 c → zlen l < U64_MAX → run_inputs l (new r c cfg) = (os, m') →
  Forall (emitted c (outbound_messages m')) (run_datagrams os) ∧
  (∀ k payload, sends l !! k = Some payload →
     outbound_messages m' !! (1 + Z.of_nat k) = Some payload).
Proof.
  intros Hc Hl Hrun.
  destruct (run_summary any_msg any_piece ltac:(done) 0 l (new r c cfg) os m') as [_ Hs];
    [by apply new_inv|done|apply Forall_true, any_input_ok|done|]. split; apply Hs.
Qed.

Lemma emitted_frames_are_genuine_witness :
  Forall (emitted ex_cid (outbound_messages ex_sender.2)) ex_sent ∧ length ex_sent = 8%nat.
Proof.
  split; [|vm_compute; reflexivity].
  apply (emitted_frames_are_genuine Client ex_cid CoreConfig_default ex_sender_calls);
    [done|by vm_compute|]. unfold ex_sender. by destruct (run_inputs _ _).
Defined.
