(* ===== verification/CoreHandlers.v ===== *)
(** * The handlers of the state machine, one by one

    Which fields a handler keeps, datagrams that are not for the association, and the state
    table of the protocol. *)

From S2P Require Import Prelude Bytes Core CoreSpec CoreLemmas CoreEffects CoreReceive CoreStep.
From S2P Require Import CoreRuns.
From S2P Require Wire WireLemmas.

(* ------------------------------------------------------------------ *)
(** ** The state table *)
(* ------------------------------------------------------------------ *)

(** The handshake part of the table: what a frame of type [t] does to the state. *)
Definition greeted (r : Role) (s : LifecycleState) (t : Wire.MessageType) : LifecycleState :=
  match t, r, s with
  | Wire.ClientHello, Server, PreHandshake => Established
  | Wire.HelloAck, Server, PreHandshake => Established
  | Wire.ServerHello, Client, PreHandshake => Established
  | Wire.ServerHello, Client, Reactivating => Established
  | Wire.Close, _, _ => Lost
  | Wire.Error, _, _ => Lost
  | _, _, _ => s
  end.

(** An MSR of the peer, in an MSR frame or piggybacked, revives a client. *)
Definition revived (r : Role) (s : LifecycleState) (signal : bool) : LifecycleState :=
  match r, s, signal with
  | Client, Reactivating, true => Established
  | _, _, _ => s
  end.

(** The frame carries an MSR. *)
Definition has_signal (f : Wire.WireFrame) : bool :=
  bool_decide (Wire.message_type f = Wire.Msr) ||
  bool_decide (is_Some (find_msr_signal_tlv (Wire.tlvs f))).

Definition next_state (r : Role) (s : LifecycleState) (f : Wire.WireFrame) : LifecycleState :=
  revived r (greeted r s (Wire.message_type f)) (has_signal f).

(* ------------------------------------------------------------------ *)
(** ** Fields a method keeps *)
(* ------------------------------------------------------------------ *)

(** [h] keeps the value of [f], whatever its outcome. *)
Definition keeps {A} (f : CoreMachine → A) (h : method ()) : Prop :=
  ∀ p, wp h (λ _ p', f p'.1 = f p.1) p.

Section Keeps.
Context {A : Type} (f : CoreMachine → A).

Lemma keeps_seq h k : keeps f h → keeps f k → keeps f (h ;; k).
Proof.
  intros Hh Hk p. apply wp_bind. eapply wp_mono, Hh. intros [[]|e|] q Hq; cbn; [|done..].
  eapply wp_mono, Hk. intros o q' Hq'. by rewrite Hq'.
Qed.

Lemma keeps_self (k : CoreMachine → method ()) : (∀ m, keeps f (k m)) → keeps f (m ← self; k m).
Proof. intros Hk p. apply wp_bind, wp_self. cbn. apply Hk. Qed.

Lemma keeps_lift {B} (o : outcome CoreError B) (k : B → method ()) :
  (∀ b, keeps f (k b)) → keeps f (b ← st_lift o; k b).
Proof. intros Hk p. apply wp_bind, wp_lift. destruct o; cbn; [apply Hk|done..]. Qed.

Lemma keeps_modify g : (∀ m, f (g m) = f m) → keeps f (modify_self g).
Proof. intros Hg p. apply wp_modify_self, Hg. Qed.

Lemma keeps_send path fr : keeps f (send_frame path fr).
Proof. intros p. unfold send_frame. apply wp_bind, wp_lift. destruct fr; exact eq_refl. Qed.

Lemma keeps_event e : keeps f (push_event e).
Proof. intros p. exact eq_refl. Qed.

Lemma keeps_timer i t : keeps f (push_timer i t).
Proof. intros p. exact eq_refl. Qed.

Lemma keeps_ret : keeps f (mret ()).
Proof. intros p. exact eq_refl. Qed.

Lemma keeps_reject b e : keeps f (st_reject b e).
Proof. intros p. destruct b; exact eq_refl. Qed.

Lemma keeps_when b h : keeps f h → keeps f (st_when b h).
Proof. destruct b; [done|intros; apply keeps_ret]. Qed.

Lemma keeps_if (b : bool) h k : keeps f h → keeps f k → keeps f (if b then h else k).
Proof. by destruct b. Qed.

Lemma keeps_for {B} (l : list B) (body : B → method ()) :
  (∀ x, keeps f (body x)) → keeps f (st_for l body).
Proof. intros Hb. induction l; cbn; [apply keeps_ret|by apply keeps_seq]. Qed.

End Keeps.

Create HintDb keeps discriminated.
#[export] Hint Resolve keeps_send keeps_event keeps_timer keeps_ret keeps_reject : keeps.
#[export] Hint Extern 1 (keeps _ (modify_self _)) => apply keeps_modify; done : keeps.
#[export] Hint Extern 1 (keeps _ (set_state _)) => apply keeps_modify; done : keeps.
#[export] Hint Extern 1 (keeps _ (touch_disconnect_deadline _)) => apply keeps_modify; done : keeps.

(** Walk through a method body. *)
Ltac keeps_auto :=
  repeat (lazymatch goal with
  | |- keeps _ (mbind _ self) => apply keeps_self; intros ?
  | |- keeps _ (mbind _ (st_lift _)) => apply keeps_lift; intros ?
  | |- keeps _ (mbind (λ _, _) _) => apply keeps_seq
  | |- keeps _ (st_when _ _) => apply keeps_when
  | |- keeps _ (st_for _ _) => apply keeps_for; intros ?
  | |- keeps _ (match ?x with _ => _ end) => destruct x
  | |- _ => fail
  end; cbn beta iota zeta); eauto with keeps.

Lemma keeps_msr_signal_cfg now path np src : keeps cfg (handle_msr_signal now path np src).
Proof. unfold handle_msr_signal. keeps_auto. Qed.

Lemma keeps_msr_signal_pending now path np src :
  keeps pending_local_proposal (handle_msr_signal now path np src).
Proof. unfold handle_msr_signal. keeps_auto. Qed.

Lemma keeps_msr_tlv_state path t : keeps state (handle_msr_tlv path t).
Proof. unfold handle_msr_tlv. keeps_auto. Qed.

Lemma keeps_request_range_state path pl : keeps state (handle_request_range path pl).
Proof. unfold handle_request_range, send_message, send_fragment. keeps_auto. Qed.

Lemma keeps_data_state pl : keeps state (handle_data pl).
Proof.
  unfold handle_data, flush_ordered. keeps_auto.
  match goal with |- context [flush_loop ?n] => generalize n end.
  intros n. induction n; cbn [flush_loop]; [intros p; exact eq_refl|]. keeps_auto.
Qed.

Lemma keeps_fragment_state pl : keeps state (handle_fragment pl).
Proof.
  unfold handle_fragment, set_fragments, flush_ordered. keeps_auto.
  match goal with |- context [flush_loop ?n] => generalize n end.
  intros n. induction n; cbn [flush_loop]; [intros p; exact eq_refl|]. keeps_auto.
Qed.

(* ------------------------------------------------------------------ *)
(** ** The state after a frame *)
(* ------------------------------------------------------------------ *)

(** A method whose effect on the state is known. *)
Definition moves (s : LifecycleState) (h : method ()) (p : CoreMachine * CoreOutput) : Prop :=
  wp h (λ o q, match o with Ok _ => state q.1 = s | _ => True end) p.

Lemma keeps_moves h s p : keeps state h → state p.1 = s → moves s h p.
Proof. intros Hh <-. unfold moves. eapply wp_mono, Hh. by intros [[]|e|] q. Qed.

Lemma moves_keeps_seq h k s p : moves s h p → keeps state k → moves s (h ;; k) p.
Proof.
  intros Hh Hk. apply wp_bind. eapply wp_mono, Hh. intros [[]|e|] q Hq; cbn; [|done..].
  eapply wp_mono, Hk. intros [[]|e|] q' Hq'; [|done..]. by rewrite Hq'.
Qed.

Lemma keeps_moves_seq h k s p :
  keeps state h → keeps role h →
  (∀ q, state q.1 = state p.1 → role q.1 = role p.1 → moves s k q) → moves s (h ;; k) p.
Proof.
  intros Hs Hr Hk. apply wp_bind. unfold wp. specialize (Hs p). specialize (Hr p).
  unfold wp in *. destruct (h p).1 as [[]|e|]; [|done..]. by apply Hk.
Qed.

Lemma moves_signal now path np src p :
  moves (revived (role p.1) (state p.1) true) (handle_msr_signal now path np src) p.
Proof.
  unfold handle_msr_signal, moves. do 3 wp_step. apply moves_keeps_seq; [|keeps_auto].
  destruct (is_role Client p.1) eqn:Hr; cycle 1.
  { apply keeps_moves; [cbn; keeps_auto|]. unfold is_role in Hr. zprop. by destruct (role p.1). }
  apply is_role_true in Hr. rewrite Hr. cbn [st_when].
  apply keeps_moves_seq; [keeps_auto..|]. intros q1 <- Hr1.
  apply keeps_moves_seq; [keeps_auto..|]. intros q2 <- Hr2. unfold moves. wp_run.
  apply wp_when; intros Hc.
  - apply in_state_true in Hc. rewrite Hc. wp_run. done.
  - unfold in_state in Hc. zprop. by destruct (state q2.1).
Qed.

Lemma moves_set_state s k p : keeps state k → moves s (set_state s ;; k) p.
Proof. intros Hk. apply moves_keeps_seq; [exact eq_refl|done]. Qed.

Lemma keeps_schedule_server now : keeps state (schedule_server_timers now).
Proof. unfold schedule_server_timers. keeps_auto. Qed.

Lemma keeps_schedule_client now : keeps state (schedule_client_timers now).
Proof. unfold schedule_client_timers. keeps_auto. Qed.

Lemma keeps_valid_peer now : keeps state (on_valid_peer_datagram now) ∧ keeps role (on_valid_peer_datagram now).
Proof. unfold on_valid_peer_datagram. split; keeps_auto. Qed.

#[local] Hint Resolve keeps_schedule_server keeps_schedule_client keeps_request_range_state
  keeps_data_state keeps_fragment_state keeps_msr_tlv_state : keeps.

(** The part of the table a message type alone decides. *)
Lemma moves_greeting now path f p :
  Wire.message_type f ≠ Wire.Msr →
  moves (greeted (role p.1) (state p.1) (Wire.message_type f)) (dispatch now path f) p.
Proof.
  intros Hf. unfold dispatch, moves. do 3 wp_step.
  destruct (Wire.message_type f) eqn:Ht; try done; cbn [greeted];
    try (apply moves_set_state; keeps_auto);
    try (apply keeps_moves; [apply keeps_when; eauto with keeps|done]).
  all: unfold is_role, in_state; destruct (role p.1) eqn:Hr, (state p.1) eqn:Hs.
  all: repeat (case_bool_decide; try done); cbn [andb orb st_when negb].
  all: first [apply moves_set_state; keeps_auto|by apply wp_ret].
Qed.

Lemma moves_msr now path f p :
  moves (revived (role p.1) (state p.1) true) (handle_msr now path f) p.
Proof.
  unfold handle_msr, moves. wp_run; [destruct p0 as [a np]|done]. apply keeps_moves_seq.
  - keeps_auto.
  - apply keeps_for. intros t. unfold handle_msr_tlv. keeps_auto.
  - intros q <- <-. apply moves_signal.
Qed.

Lemma moves_dispatch now path f p :
  moves (revived (role p.1) (greeted (role p.1) (state p.1) (Wire.message_type f))
           (bool_decide (Wire.message_type f = Wire.Msr))) (dispatch now path f) p.
Proof.
  destruct (decide (Wire.message_type f = Wire.Msr)) as [Ht|Ht].
  - rewrite bool_decide_eq_true_2 by done. rewrite Ht. cbn [greeted].
    unfold dispatch, moves. wp_run. rewrite Ht. apply moves_msr.
  - rewrite bool_decide_eq_false_2 by done.
    assert (Hid : ∀ s, revived (role p.1) s false = s) by (intros []; by destruct (role p.1)).
    rewrite Hid. by apply moves_greeting.
Qed.

Ltac keeps_dispatch :=
  unfold dispatch, schedule_server_timers, schedule_client_timers, handle_msr, handle_msr_tlv,
    handle_msr_signal, handle_request_range, send_message, send_fragment, handle_data,
    handle_fragment, set_fragments, flush_ordered; keeps_auto;
  match goal with |- context [flush_loop ?n] => generalize n end;
  intros n; (induction n; cbn [flush_loop]; [intros p; exact eq_refl|keeps_auto]).

Lemma keeps_dispatch_role now path f : keeps role (dispatch now path f).
Proof. keeps_dispatch. Qed.

Lemma keeps_dispatch_path now path f : keeps current_path_id (dispatch now path f).
Proof. keeps_dispatch. Qed.

Lemma frame_path now path f p :
  negb (cid p.1 =? 0) && negb (Wire.cid f =? cid p.1) = false →
  wp (on_frame now path f) (λ _ q, current_path_id q.1 = path) p.
Proof.
  intros Hc. unfold on_frame. wp_run. rewrite Hc. apply wp_reject; [done|intros _]. wp_step.
  apply wp_bind, wp_modify_self. cbn [then_wp].
  match goal with |- wp ?h _ ?q =>
    assert (Hk : keeps current_path_id h);
    [|eapply wp_mono, Hk; intros ?? ->; reflexivity] end.
  apply keeps_seq; [keeps_auto|]. apply keeps_seq; [unfold on_valid_peer_datagram; keeps_auto|].
  apply keeps_seq; [apply keeps_dispatch_path|]. apply keeps_when.
  destruct (find_msr_signal_tlv _) as [[a b]|]; [|keeps_auto].
  unfold handle_msr_signal. keeps_auto.
Qed.

Lemma revived_both r s a b : revived r (revived r s a) b = revived r s (a || b).
Proof. by destruct r, s, a, b. Qed.

Lemma moves_frame now path f p :
  moves (next_state (role p.1) (state p.1) f) (on_frame now path f) p.
Proof.
  unfold on_frame, moves. do 3 wp_step.
  apply keeps_moves_seq; [keeps_auto..|]. intros q0 <- <-.
  apply keeps_moves_seq; [keeps_auto..|]. intros q1 <- <-.
  apply keeps_moves_seq; [keeps_auto..|]. intros q2 <- <-.
  apply keeps_moves_seq; [apply keeps_valid_peer..|]. intros q3 <- <-.
  apply wp_bind. pose proof (moves_dispatch now path f q3) as Hd.
  pose proof (keeps_dispatch_role now path f q3) as Hr. unfold moves, wp in Hd, Hr. unfold wp.
  destruct (dispatch now path f q3) as [[[]|e|] q4]; cbn in *; [|done..].
  unfold next_state, has_signal. rewrite <-revived_both, <-Hd, <-Hr.
  destruct (find_msr_signal_tlv (Wire.tlvs f)) as [[a b]|] eqn:Hs.
  - rewrite (bool_decide_eq_true_2 (is_Some _)) by by eexists.
    destruct (decide (Wire.message_type f = Wire.Msr)) as [Ht|Ht].
    + rewrite (bool_decide_eq_true_2 _ Ht) in *. cbn [negb st_when].
      apply wp_ret. by rewrite Hr, Hd, revived_both.
    + rewrite (bool_decide_eq_false_2 _ Ht) in *. cbn [negb st_when]. apply moves_signal.
  - rewrite (bool_decide_eq_false_2 (is_Some _)) by by intros [??].
    assert (Hid : ∀ r s, revived r s false = s) by by intros [] []. rewrite Hid.
    destruct (negb _); by apply wp_ret.
Qed.

(* ------------------------------------------------------------------ *)
(** ** Properties *)
(* ------------------------------------------------------------------ *)

(** The state table: a datagram that is accepted moves the life cycle exactly as its
    frame says.  A server is established by [ClientHello] or [HelloAck], a client by
    [ServerHello]; a reactivating client is revived by [ServerHello] or by any MSR, in an MSR
    frame or piggybacked; [Close] and [Error] lose the association; nothing else moves it. *)
Theorem state_after_datagram now path bs f m out m' :
  Wire.decode bs = Ok f → on_datagram now path bs m = (Ok out, m') →
  state m' = next_state (role m) (state m) f.
Proof.
  intros Hd Hrun. unfold on_datagram, run, on_datagram_body in Hrun. rewrite Hd in Hrun.
  pose proof (moves_frame now path f (m, CoreOutput_default)) as Hm. unfold moves, wp in Hm.
  destruct (on_frame now path f (m, CoreOutput_default)) as [[[]|e|] [m1 o]]; [|done..].
  injection Hrun as _ <-. exact Hm.
Qed.

Definition ex_hello : list byte :=
  match encode_frame Wire.ServerHello 7 [] with Ok bs => bs | _ => [] end.

Lemma state_after_datagram_witness :
  state (on_datagram 5 1 ex_hello (new Client 7 CoreConfig_default)).2 = Established.
Proof.
  apply (state_after_datagram 5 1 ex_hello (Wire.new Wire.ServerHello x00 7 [] [])
    (new Client 7 CoreConfig_default)
    (match (on_datagram 5 1 ex_hello (new Client 7 CoreConfig_default)).1 with
     | Ok out => out | _ => CoreOutput_default end)); vm_compute; reflexivity.
Defined.

(** A datagram that is not a frame, or belongs to another association, leaves the machine
    as it was: the first is reported by a [ParseError] event only, the second by
    [CidMismatch].  An association whose own identifier is 0 accepts every identifier. *)
Theorem foreign_datagrams_are_inert now path bs m :
  match Wire.decode bs with
  | Ok f =>
      if negb (cid m =? 0) && negb (Wire.cid f =? cid m) then
        on_datagram now path bs m = (Err (CidMismatch (cid m) (Wire.cid f)), m)
      else current_path_id (on_datagram now path bs m).2 = path
  | Err _ => on_datagram now path bs m = (Ok (mkCoreOutput [] [ParseError] []), m)
  | Panic => False
  end.
Proof.
  pose proof (WireLemmas.decode_total bs). unfold on_datagram, run, on_datagram_body.
  destruct (Wire.decode bs) as [f|e|]; [|done..].
  destruct (negb (cid m =? 0) && negb (Wire.cid f =? cid m)) eqn:Hc.
  - unfold on_frame. rewrite (st_bind_ok _ _ _ m (m, CoreOutput_default)) by done.
    cbn [mbind ST_bind]. by rewrite Hc.
  - pose proof (frame_path now path f (m, CoreOutput_default) Hc) as Hp. unfold wp in Hp.
    by destruct (on_frame now path f (m, CoreOutput_default)) as [? [? ?]].
Qed.
