(* ===== verification/CoreTimers.v ===== *)
(** * Timers and the negotiation of their values

    Silence of the peer, the probe of a client, the disconnect deadline, and the agreement two
    machines reach on new timer values. *)

From S2P Require Import Prelude Bytes Core CoreSpec CoreLemmas CoreEffects CoreReceive CoreStep.
From S2P Require Import CoreRuns CoreHandlers.
From S2P Require Wire WireLemmas.

Definition server_ticks (ts : list Z) : list input := map (λ t, InTimer t ServerMsr) ts.

(** The configurations a negotiation may commit. *)
Definition negotiable (c : CoreConfig) : Prop :=
  MIN_MSR_INTERVAL_MS ≤ msr_interval_ms c ≤ MAX_MSR_INTERVAL_MS ∧
  MIN_MISS_WINDOW_COUNT ≤ miss_window_count c ≤ 64 ∧
  MIN_DISCONNECT_WINDOW_MS ≤ disconnect_window_ms c ≤ MAX_DISCONNECT_WINDOW_MS ∧
  msr_interval_ms c * miss_window_count c ≤ disconnect_window_ms c.

(** The current values are [c0] or negotiated ones, and what this machine proposed was valid. *)
Definition timers_inv (c0 : CoreConfig) (m : CoreMachine) : Prop :=
  (cfg m = c0 ∨ negotiable (cfg m)) ∧
  ∀ pending, pending_local_proposal m = Some pending → negotiable (to_config (pr_proposal pending)).

(* ------------------------------------------------------------------ *)
(** ** Silence *)
(* ------------------------------------------------------------------ *)

Lemma server_ticks_cons t ts : server_ticks (t :: ts) = InTimer t ServerMsr :: server_ticks ts.
Proof. done. Qed.

(** One tick of the server's MSR timer. *)
Lemma server_tick t m :
  is_u64 (cid m) → role m = Server → state m = Established →
  0 ≤ server_consecutive_msr_without_client_msr m ≤ 8 →
  ∃ out m', on_timer t ServerMsr m = (Ok out, m') ∧ role m' = Server ∧ cid m' = cid m ∧
    if server_consecutive_msr_without_client_msr m <? 8 then
      state m' = Established ∧ length (outbound_datagrams out) = 1%nat ∧
      server_consecutive_msr_without_client_msr m' =
        server_consecutive_msr_without_client_msr m + 1
    else state m' = Lost ∧ out = mkCoreOutput [] [Disconnected] [].
Proof.
  intros Hc Hr Hs Hn.
  assert (Hwp : wp (on_timer_body t ServerMsr) (λ o p', o = Ok () ∧
    role p'.1 = Server ∧ cid p'.1 = cid m ∧
    if server_consecutive_msr_without_client_msr m <? 8 then
      state p'.1 = Established ∧ length (outbound_datagrams p'.2) = 1%nat ∧
      server_consecutive_msr_without_client_msr p'.1 =
        server_consecutive_msr_without_client_msr m + 1
    else state p'.1 = Lost ∧ p'.2 = mkCoreOutput [] [Disconnected] []) (m, CoreOutput_default)).
  { unfold on_timer_body, is_role, in_state. wp_run. cbn [fst]. rewrite Hr, Hs.
    rewrite !bool_decide_eq_true_2 by done. cbn [andb st_when]. wp_run.
    unfold SERVER_MAX_CONSECUTIVE_SERVER_MSR_WITHOUT_CLIENT_MSR. cbn.
    assert (Hsat : sat_add U32_MAX (server_consecutive_msr_without_client_msr m) 1 =
      server_consecutive_msr_without_client_msr m + 1) by (unfold sat_add, U32_MAX; lia).
    rewrite Hsat.
    destruct (server_consecutive_msr_without_client_msr m <? 8) eqn:Hlt; zprop; zdec.
    - wp_steps; cbn. by rewrite ?Hs, ?Hr, ?Hsat.
    - wp_steps; cbn. by rewrite ?Hr. }
  unfold on_timer, run. unfold wp in Hwp.
  destruct (on_timer_body t ServerMsr (m, CoreOutput_default)) as [o [m' out]]. cbn in Hwp.
  destruct Hwp as (-> & Hwp). by exists out, m'.
Qed.

Lemma lost_tick t m : state m = Lost → on_timer t ServerMsr m = (Ok CoreOutput_default, m).
Proof.
  intros Hs. unfold on_timer, run, on_timer_body.
  rewrite (st_bind_ok _ _ _ m (m, CoreOutput_default)) by done.
  unfold in_state. rewrite Hs. by destruct (is_role Server m).
Qed.

Lemma lost_ticks ts m :
  state m = Lost → ∃ os, run_inputs (server_ticks ts) m = (os, m) ∧ run_datagrams os = [].
Proof.
  intros Hs. induction ts as [|t ts IH]; [by exists []|].
  rewrite server_ticks_cons. cbn [run_inputs step]. rewrite lost_tick by done. destruct IH as (os & -> & Hos). eexists. split; [done|]. exact Hos.
Qed.

Lemma ticks_run ts m :
  is_u64 (cid m) → role m = Server → state m = Established →
  0 ≤ server_consecutive_msr_without_client_msr m ≤ 8 →
  let silent := server_consecutive_msr_without_client_msr m in
  ∃ os m', run_inputs (server_ticks ts) m = (os, m') ∧
    zlen (run_datagrams os) = Z.min (zlen ts) (8 - silent) ∧
    state m' = (if silent + zlen ts <=? 8 then Established else Lost).
Proof.
  cbn zeta. revert m. induction ts as [|t ts IH]; intros m Hc Hr Hs Hn.
  - exists [], m. change (zlen []) with 0. split; [done|]. zdec.
    split; [|done]. change (zlen (run_datagrams [])) with 0. lia.
  - destruct (server_tick t m) as (out & m1 & Hstep & Hr1 & Hc1 & Ho); [done..|].
    rewrite server_ticks_cons. cbn [run_inputs step]. rewrite Hstep, zlen_cons. pose proof (zlen_nonneg ts).
    destruct (server_consecutive_msr_without_client_msr m <? 8) eqn:Hlt; zprop.
    + destruct Ho as (Hs1 & Hd & Hn1).
      destruct (IH m1) as (os & m2 & Hrun & Hlen & Hst); [congruence|done|done|lia|].
      rewrite Hrun. eexists _, _. split; [done|].
      unfold run_datagrams in *. rewrite bind_cons, zlen_app, Hlen, Hn1, Hst, Hn1. cbn [datagrams_of].
      unfold zlen at 1. rewrite Hd. split; [lia|]. f_equal.
      destruct (_ <=? 8) eqn:?; zprop; symmetry; zdec; done.
    + destruct Ho as (Hs1 & ->). destruct (lost_ticks ts m1 Hs1) as (os & Hrun & Hlen).
      rewrite Hrun. eexists _, _. split; [done|].
      unfold run_datagrams in *. rewrite bind_cons, Hlen. zdec. split; [|done]. cbn. change (zlen []) with 0. lia.
Qed.

(** A server that hears nothing gives up: over any number of consecutive ticks of its
    MSR timer it sends one MSR per tick until nine ticks in a row went unanswered, is then
    [Lost] and sends nothing more. *)
Theorem server_gives_up_after_silence ts m :
  is_u64 (cid m) → role m = Server → state m = Established →
  0 ≤ server_consecutive_msr_without_client_msr m ≤ 8 →
  let silent := server_consecutive_msr_without_client_msr m in
  ∃ os m', run_inputs (server_ticks ts) m = (os, m') ∧
    zlen (run_datagrams os) = Z.min (zlen ts) (8 - silent) ∧
    state m' = (if silent + zlen ts <=? 8 then Established else Lost).
Proof. apply ticks_run. Qed.

Definition ex_server : CoreMachine :=
  (on_datagram 5 1 (match encode_frame Wire.ClientHello 7 [] with Ok bs => bs | _ => [] end)
     (new Server 7 CoreConfig_default)).2.

Lemma server_gives_up_after_silence_witness :
  ∃ os m', run_inputs (server_ticks (seqZ 100 20)) ex_server = (os, m') ∧
    zlen (run_datagrams os) = 8 ∧ state m' = Lost.
Proof.
  apply (server_gives_up_after_silence (seqZ 100 20) ex_server); vm_compute; done.
Defined.

(* ------------------------------------------------------------------ *)
(** ** Only negotiated values are ever committed *)
(* ------------------------------------------------------------------ *)

(** [h] preserves [P], whatever its outcome. *)
Definition preserves (P : CoreMachine → Prop) (h : method ()) : Prop :=
  ∀ p, P p.1 → wp h (λ _ p', P p'.1) p.

Section Preserves.
Context (P : CoreMachine → Prop).

Lemma preserves_seq h k : preserves P h → preserves P k → preserves P (h ;; k).
Proof.
  intros Hh Hk p Hp. apply wp_bind. eapply wp_mono, Hh; [|done].
  intros [[]|e|] q Hq; cbn; [|done..]. by apply Hk.
Qed.

Lemma preserves_self (k : CoreMachine → method ()) :
  (∀ m, P m → preserves P (k m)) → preserves P (m ← self; k m).
Proof. intros Hk p Hp. apply wp_bind, wp_self. cbn. by apply Hk. Qed.

Lemma preserves_lift {B} (o : outcome CoreError B) (k : B → method ()) :
  (∀ b, o = Ok b → preserves P (k b)) → preserves P (b ← st_lift o; k b).
Proof. intros Hk p Hp. apply wp_bind, wp_lift. destruct o; cbn; [by apply Hk|done..]. Qed.

Lemma preserves_modify g : (∀ m, P m → P (g m)) → preserves P (modify_self g).
Proof. intros Hg p Hp. apply wp_modify_self, Hg, Hp. Qed.

Lemma preserves_ret : preserves P (mret ()).
Proof. intros p Hp. exact Hp. Qed.

Lemma preserves_event e : preserves P (push_event e).
Proof. intros p Hp. exact Hp. Qed.

Lemma preserves_when b h : (b = true → preserves P h) → preserves P (st_when b h).
Proof. intros Hh. destruct b; [by apply Hh|apply preserves_ret]. Qed.

Lemma preserves_for {B} (l : list B) (body : B → method ()) :
  (∀ x, preserves P (body x)) → preserves P (st_for l body).
Proof. intros Hb. induction l; cbn; [apply preserves_ret|by apply preserves_seq]. Qed.

(** A method that keeps everything [P] reads. *)
Lemma preserves_keeps {A} (f : CoreMachine → A) h :
  (∀ m m', f m' = f m → P m → P m') → keeps f h → preserves P h.
Proof. intros HP Hk p Hp. eapply wp_mono, Hk. intros o q Hq. exact (HP _ _ Hq Hp). Qed.

End Preserves.

Lemma validate_ok c p :
  validate_timer_proposal c p = Ok () → negotiable (to_config p) ∧
    tp_miss_window_count p ≤ sat_add U64_MAX (miss_window_count c) MAX_MISS_WINDOW_STEP.
Proof.
  unfold validate_timer_proposal, in_range.
  intros [H1 [H2 [H3 [H4 [H5 _]%reject_ok]%reject_ok]%reject_ok]%reject_ok]%reject_ok. zprop.
  unfold negotiable, to_config. cbn [msr_interval_ms miss_window_count disconnect_window_ms].
  unfold sat_mul, MIN_MSR_INTERVAL_MS, MAX_MSR_INTERVAL_MS, MIN_MISS_WINDOW_COUNT,
    MIN_DISCONNECT_WINDOW_MS, MAX_DISCONNECT_WINDOW_MS in *.
  split_and!; ulia.
Qed.

Definition negotiation (m : CoreMachine) : CoreConfig * option PendingRenegotiation :=
  (cfg m, pending_local_proposal m).

Lemma timers_inv_negotiation c0 m m' :
  negotiation m' = negotiation m → timers_inv c0 m → timers_inv c0 m'.
Proof. unfold negotiation, timers_inv. by intros [= -> ->]. Qed.

Lemma preserves_msr_tlv c0 path t : preserves (timers_inv c0) (handle_msr_tlv path t).
Proof.
  unfold handle_msr_tlv. case_bool_decide; [|case_bool_decide; [|apply preserves_ret]].
  - apply preserves_lift. intros [id p] _. apply preserves_self. intros m _.
    apply preserves_seq; [apply (preserves_keeps _ negotiation), keeps_send; apply timers_inv_negotiation|].
    destruct (validate_timer_proposal (cfg m) p) as [[]|e|] eqn:Hv; cbn [is_ok];
      [|apply preserves_event..]. apply preserves_seq; [|apply preserves_event]. apply preserves_modify. intros m' [_ Hp].
    apply validate_ok in Hv as [Hv _]. split; [by right|done].
  - apply preserves_lift. intros [id acc] _. apply preserves_self. intros m [_ Hm].
    destruct (pending_local_proposal m) as [pending|]; [|apply preserves_ret].
    apply preserves_when. intros _. apply preserves_seq.
    + destruct acc; [|apply preserves_event]. apply preserves_seq; [|apply preserves_event].
      apply preserves_modify. intros m' [_ Hp]. split; [right; by apply Hm|done].
    + apply preserves_modify. intros m' [Hc _]. split; [done|]. by intros ?.
Qed.

Lemma keeps_dispatch_negotiation now path f :
  Wire.message_type f ≠ Wire.Msr → keeps negotiation (dispatch now path f).
Proof.
  intros Hf. unfold dispatch. apply keeps_self. intros m.
  destruct (Wire.message_type f); try done;
  unfold schedule_server_timers, schedule_client_timers,
    handle_request_range, send_message, send_fragment, handle_data,
    handle_fragment, set_fragments, flush_ordered; keeps_auto;
  match goal with |- context [flush_loop ?n] => generalize n end;
  intros n; (induction n; cbn [flush_loop]; [intros p; exact eq_refl|keeps_auto]).
Qed.

Lemma keeps_signal_negotiation now path np src :
  keeps negotiation (handle_msr_signal now path np src).
Proof. unfold handle_msr_signal. keeps_auto. Qed.

Lemma preserves_frame c0 now path f : preserves (timers_inv c0) (on_frame now path f).
Proof.
  unfold on_frame. apply preserves_self. intros m _.
  apply preserves_seq; [by intros p ?; destruct (_ && _)|].
  pose proof (timers_inv_negotiation c0) as Hn.
  apply preserves_seq; [by apply (preserves_keeps _ negotiation); [|keeps_auto]|].
  apply preserves_seq; [by apply (preserves_keeps _ negotiation); [|keeps_auto]|].
  apply preserves_seq;
    [by apply (preserves_keeps _ negotiation); [|unfold on_valid_peer_datagram; keeps_auto]|].
  apply preserves_seq; [|apply preserves_when; intros _].
  - destruct (decide (Wire.message_type f = Wire.Msr)) as [Ht|Ht].
    + unfold dispatch. apply preserves_self. intros m' _. rewrite Ht.
      apply preserves_lift. intros [a np] _. apply preserves_seq.
      * apply preserves_for. intros t. apply preserves_msr_tlv.
      * apply (preserves_keeps _ negotiation); [done|apply keeps_signal_negotiation].
    + apply (preserves_keeps _ negotiation); [done|by apply keeps_dispatch_negotiation].
  - destruct (find_msr_signal_tlv _) as [[a np]|]; [|apply preserves_ret].
    apply (preserves_keeps _ negotiation); [done|apply keeps_signal_negotiation].
Qed.

Lemma preserves_timer c0 now id : preserves (timers_inv c0) (on_timer_body now id).
Proof.
  pose proof (timers_inv_negotiation c0) as Hn.
  unfold on_timer_body. apply preserves_self. intros m _.
  destruct id; [by apply (preserves_keeps _ negotiation); [|keeps_auto]..|].
  destruct (pending_local_proposal m) as [pending|]; [|apply preserves_ret].
  apply preserves_when. intros _. apply preserves_seq; [|apply preserves_event].
  apply preserves_modify. intros m' [Hc _]. split; [done|]. by intros ?.
Qed.

Lemma preserves_propose c0 now t : preserves (timers_inv c0) (on_api_propose_timers_body now t).
Proof.
  pose proof (timers_inv_negotiation c0) as Hn.
  unfold on_api_propose_timers_body. apply preserves_self. intros m _.
  apply preserves_seq; [by intros p ?; destruct (negb _)|].
  apply preserves_lift. intros [] [Hv _]%validate_ok.
  apply preserves_seq; [by apply (preserves_keeps _ negotiation); [|keeps_auto]|].
  apply preserves_seq; [|by apply (preserves_keeps _ negotiation); [|keeps_auto]].
  apply preserves_modify. intros m' [Hc _]. split; [done|]. by intros ? [= <-].
Qed.

Lemma preserves_step c0 i m : timers_inv c0 m → timers_inv c0 (step i m).2.
Proof.
  pose proof (timers_inv_negotiation c0) as Hn. intros Hm.
  assert (Hrun : ∀ body, preserves (timers_inv c0) body → timers_inv c0 (run body m).2).
  { intros body Hb. specialize (Hb (m, CoreOutput_default) Hm). unfold wp in Hb. unfold run.
    by destruct (body (m, CoreOutput_default)) as [? [? ?]]. }
  destruct i as [now|now path bs|now id|payload| |now t|[path]]; apply Hrun.
  - apply (preserves_keeps _ negotiation); [done|]. unfold begin_handshake_body. keeps_auto.
  - unfold on_datagram_body. destruct (Wire.decode bs); [apply preserves_frame|apply preserves_event|intros p Hp; exact Hp].
  - apply preserves_timer.
  - apply (preserves_keeps _ negotiation); [done|]. unfold on_api_send_body. keeps_auto.
  - apply (preserves_keeps _ negotiation); [done|]. unfold on_api_close_body. keeps_auto.
  - apply preserves_propose.
  - apply (preserves_keeps _ negotiation); [done|]. unfold on_path_event_body. keeps_auto.
Qed.

(** C32. Whatever a machine is given, the timer values in force are its initial ones or values
    within the negotiation bounds, with a disconnect window no smaller than the probe window. *)
Theorem committed_timers_are_valid r c c0 l os m' :
  run_inputs l (new r c c0) = (os, m') → cfg m' = c0 ∨ negotiable (cfg m').
Proof.
  assert (Hgen : ∀ l m os m', timers_inv c0 m → run_inputs l m = (os, m') → timers_inv c0 m').
  { clear l os m'. induction l as [|i l IH]; intros m os m' Hm Hl; [by injection Hl as _ <-|].
    cbn in Hl. pose proof (preserves_step c0 i m Hm) as Hm1.
    destruct (step i m) as [o m1]. destruct (run_inputs l m1) as [os1 m2] eqn:Hl2.
    injection Hl as _ <-. by eapply IH. }
  intros Hl. eapply Hgen in Hl; [apply Hl|]. split; [by left|done].
Qed.

Definition ex_proposal : TimerProposal := mkTimerProposal 2000 4 10000.

Definition ex_negotiation : list input :=
  [InDatagram 5 1 ex_hello; InPropose 6 ex_proposal;
   InDatagram 7 1 (match encode_frame_with_tlvs Wire.Msr 7 (encode_msr_payload 0 0)
                           [encode_timer_ack_tlv 1 true] with Ok bs => bs | _ => [] end)].

Lemma committed_timers_are_valid_witness :
  negotiable (cfg (run_inputs ex_negotiation (new Client 7 CoreConfig_default)).2) ∧
  cfg (run_inputs ex_negotiation (new Client 7 CoreConfig_default)).2 = to_config ex_proposal.
Proof.
  split; [|vm_compute; reflexivity].
  destruct (committed_timers_are_valid Client 7 CoreConfig_default ex_negotiation
    (run_inputs ex_negotiation (new Client 7 CoreConfig_default)).1
    (run_inputs ex_negotiation (new Client 7 CoreConfig_default)).2) as [H|H].
  - by destruct (run_inputs _ _).
  - exfalso. vm_compute in H. discriminate H.
  - exact H.
Defined.

(* ------------------------------------------------------------------ *)
(** ** Agreement *)
(* ------------------------------------------------------------------ *)

(** An MSR frame with one TLV: the TLV is handled first, the signal changes neither the
    configuration nor the pending proposal, and only appends to the output. *)
Lemma wp_msr_frame now path f t a np (R : CoreMachine * CoreOutput → Prop) p :
  in_u64 p.1 → Wire.message_type f = Wire.Msr → Wire.tlvs f = [t] → Wire.cid f = cid p.1 →
  decode_msr_payload (Wire.payload f) = Some (a, np) →
  (∀ q, negotiation q.1 = negotiation p.1 → q.2 = p.2 → in_u64 q.1 → cid q.1 = cid p.1 →
     wp (handle_msr_tlv path t) (λ o q', o = Ok () ∧ in_u64 q'.1 ∧ R q') q) →
  wp (on_frame now path f)
    (λ o p', o = Ok () ∧ ∃ q, R q ∧ quiet q p' ∧ negotiation p'.1 = negotiation q.1) p.
Proof.
  intros Hu Ht Htl Hcid Hpl Htlv. unfold on_frame. wp_run. apply wp_reject.
  { rewrite Hcid, Z.eqb_refl, andb_false_r. done. }
  intros _. cbn [then_wp].
  set (S q := negotiation q.1 = negotiation p.1 ∧ q.2 = p.2 ∧ in_u64 q.1 ∧ cid q.1 = cid p.1).
  assert (Hp : S p) by done. revert Hp. generalize p at 1 2. intros q0 Hq0.
  apply (wp_seq S); [by apply wp_modify_self|intros q1 Hq1].
  apply (wp_seq S); [by apply wp_modify_self|intros q2 Hq2].
  apply (wp_seq S); [unfold on_valid_peer_datagram; wp_steps; by split|intros q3 (Hn3 & Ho3 & Hu3 & Hc3)].
  apply wp_bind. unfold dispatch. wp_run. rewrite Ht. unfold handle_msr.
  rewrite Hpl, Htl. cbn [ok_or st_for]. wp_run.
  eapply wp_mono, Htlv; [|done..]. intros o q4 (-> & Hq4 & HR). cbn [then_wp]. wp_run.
  apply decode_msr_payload_range in Hpl as [_ Hnp].
  unfold wp. pose proof (keeps_signal_negotiation now path np ControlMsrFrame q4) as Hk.
  pose proof (quiet_msr_signal now path np ControlMsrFrame q4 Hq4 Hnp) as [Hok Hqt].
  unfold wp in Hk. rewrite Hok. cbn [then_wp]. rewrite bool_decide_eq_true_2 by done.
  apply wp_ret. split; [done|]. exists q4. by split_and!.
Qed.

(** The answer to a proposal. *)
Lemma wp_proposal_tlv path id t p :
  in_u64 p.1 → is_u32 id → proposal_range t → outbound_datagrams p.2 = [] →
  let accepted := is_ok (validate_timer_proposal (cfg p.1) t) in
  wp (handle_msr_tlv path (encode_timer_proposal_tlv id t)) (λ o q, o = Ok () ∧ in_u64 q.1 ∧
    (∃ bs pl, outbound_datagrams q.2 = [mkOutboundDatagram path bs] ∧ zlen pl = 16 ∧
       Wire.decode bs = Ok (Wire.new Wire.Msr x00 (cid p.1) pl [encode_timer_ack_tlv id accepted])) ∧
    cfg q.1 = (if accepted then to_config t else cfg p.1)) p.
Proof.
  intros Hu Hid Ht Hout accepted. pose proof Hu as [Hc _]. unfold handle_msr_tlv.
  rewrite decode_timer_proposal_encode by done. cbn [Wire.kind encode_timer_proposal_tlv].
  rewrite bool_decide_eq_true_2 by done. cbn [ok_or]. wp_run.
  fold accepted in Hbs |- *. clearbody accepted.
  destruct accepted; wp_run; split_and!; try done; cbn; rewrite Hout;
    by eexists _, _; split_and!; [| |exact Hbs].
Qed.

(** The acknowledgement of the pending proposal. *)
Lemma wp_ack_tlv path id acc pending p :
  in_u64 p.1 → is_u32 id → pending_local_proposal p.1 = Some pending → pr_proposal_id pending = id →
  wp (handle_msr_tlv path (encode_timer_ack_tlv id acc)) (λ o q, o = Ok () ∧ in_u64 q.1 ∧
    pending_local_proposal q.1 = None ∧
    cfg q.1 = (if acc then to_config (pr_proposal pending) else cfg p.1)) p.
Proof.
  intros Hu Hid Hp Hpid. unfold handle_msr_tlv.
  rewrite decode_timer_ack_encode by done. cbn [Wire.kind encode_timer_ack_tlv].
  rewrite bool_decide_eq_false_2 by done. rewrite bool_decide_eq_true_2 by done. cbn [ok_or].
  wp_run. rewrite Hp, Hpid, Z.eqb_refl. cbn [st_when]. wp_run.
  destruct acc; wp_run; by split_and!.
Qed.

Lemma negotiable_range t : negotiable (to_config t) → proposal_range t.
Proof.
  unfold negotiable, to_config, proposal_range, MIN_MSR_INTERVAL_MS, MAX_MSR_INTERVAL_MS,
    MIN_MISS_WINDOW_COUNT, MIN_DISCONNECT_WINDOW_MS, MAX_DISCONNECT_WINDOW_MS.
  cbn [msr_interval_ms miss_window_count disconnect_window_ms]. intros. split_and!; ulia.
Qed.

(** A decoded MSR frame with one TLV, through [on_datagram]. *)
Lemma on_msr_datagram now path bs c pl t m (R : CoreMachine * CoreOutput → Prop) :
  in_u64 m → c = cid m → zlen pl = 16 →
  Wire.decode bs = Ok (Wire.new Wire.Msr x00 c pl [t]) →
  (∀ q, negotiation q.1 = negotiation m → q.2 = CoreOutput_default → in_u64 q.1 → cid q.1 = cid m →
     wp (handle_msr_tlv path t) (λ o q', o = Ok () ∧ in_u64 q'.1 ∧ R q') q) →
  ∃ out m' q, on_datagram now path bs m = (Ok out, m') ∧ R q ∧
    (∃ l, outbound_datagrams out = outbound_datagrams q.2 ++ l) ∧ negotiation m' = negotiation q.1.
Proof.
  intros Hu -> Hpl Hd Htlv. unfold on_datagram, run, on_datagram_body. rewrite Hd.
  assert (∃ a np, decode_msr_payload pl = Some (a, np)) as (a & np & Hdp).
  { unfold decode_msr_payload. rewrite Hpl. cbn. by do 2 eexists. }
  pose proof (wp_msr_frame now path (Wire.new Wire.Msr x00 (cid m) pl [t]) t a np R
    (m, CoreOutput_default) Hu eq_refl eq_refl eq_refl Hdp Htlv) as Hwp. unfold wp in Hwp.
  destruct (on_frame now path _ (m, CoreOutput_default)) as [o [m' out]].
  destruct Hwp as (Ho & q & HR & Hq & Hn). cbn in Ho, Hn. subst o.
  destruct (quiet_datagrams _ _ Hq) as (l & Hl & _). exists out, m', q. eauto.
Qed.

Lemma receive_proposal now path bs pl id t m :
  in_u64 m → is_u32 id → proposal_range t → zlen pl = 16 →
  Wire.decode bs = Ok (Wire.new Wire.Msr x00 (cid m) pl [encode_timer_proposal_tlv id t]) →
  let accepted := is_ok (validate_timer_proposal (cfg m) t) in
  ∃ out m' bs2 pl2 rest, on_datagram now path bs m = (Ok out, m') ∧
    outbound_datagrams out = mkOutboundDatagram path bs2 :: rest ∧ zlen pl2 = 16 ∧
    Wire.decode bs2 = Ok (Wire.new Wire.Msr x00 (cid m) pl2 [encode_timer_ack_tlv id accepted]) ∧
    cfg m' = (if accepted then to_config t else cfg m).
Proof.
  intros Hu Hid Ht Hpl Hd accepted.
  destruct (on_msr_datagram now path bs (cid m) pl (encode_timer_proposal_tlv id t) m (λ q,
    (∃ bs pl, outbound_datagrams q.2 = [mkOutboundDatagram path bs] ∧ zlen pl = 16 ∧
       Wire.decode bs = Ok (Wire.new Wire.Msr x00 (cid m) pl [encode_timer_ack_tlv id accepted])) ∧
    cfg q.1 = (if accepted then to_config t else cfg m)))
    as (out & m' & q & Hrun & [(bs2 & pl2 & Ho & Hpl2 & Hd2) Hcfg] & (l & Hl) & Hn); [done..| |].
  - intros q Hn Ho Hq Hc. assert (cfg q.1 = cfg m) as Hcfg by (unfold negotiation in Hn; congruence).
    unfold accepted. rewrite <-Hc, <-Hcfg. apply wp_proposal_tlv; [done..|]. by rewrite Ho.
  - exists out, m', bs2, pl2, l. rewrite Hl, Ho. split_and!; try done.
    unfold negotiation in Hn. congruence.
Qed.

Lemma receive_ack now path bs pl id acc pending m :
  in_u64 m → is_u32 id → zlen pl = 16 →
  pending_local_proposal m = Some pending → pr_proposal_id pending = id →
  Wire.decode bs = Ok (Wire.new Wire.Msr x00 (cid m) pl [encode_timer_ack_tlv id acc]) →
  ∃ out m', on_datagram now path bs m = (Ok out, m') ∧ pending_local_proposal m' = None ∧
    cfg m' = (if acc then to_config (pr_proposal pending) else cfg m).
Proof.
  intros Hu Hid Hpl Hp Hpid Hd.
  destruct (on_msr_datagram now path bs (cid m) pl (encode_timer_ack_tlv id acc) m (λ q,
    pending_local_proposal q.1 = None ∧
    cfg q.1 = (if acc then to_config (pr_proposal pending) else cfg m)))
    as (out & m' & q & Hrun & [Hpq Hcfg] & _ & Hn); [done..| |].
  - intros q Hn Ho Hq Hc. unfold negotiation in Hn. injection Hn as Hcfg Hpend.
    rewrite <-Hcfg. apply wp_ack_tlv; [done..|congruence|done].
  - exists out, m'. unfold negotiation in Hn. injection Hn as Hcfg' Hp'.
    split_and!; congruence.
Qed.

Lemma propose_ok now t m :
  in_u64 m → state m = Established → validate_timer_proposal (cfg m) t = Ok () →
  ∃ out m' bs pl pending, on_api_propose_timers now t m = (Ok out, m') ∧
    outbound_datagrams out = [mkOutboundDatagram (current_path_id m) bs] ∧ zlen pl = 16 ∧
    Wire.decode bs = Ok (Wire.new Wire.Msr x00 (cid m) pl
      [encode_timer_proposal_tlv (next_proposal_id m) t]) ∧
    in_u64 m' ∧ cid m' = cid m ∧ cfg m' = cfg m ∧ pending_local_proposal m' = Some pending ∧
    pr_proposal_id pending = next_proposal_id m ∧ pr_proposal pending = t.
Proof.
  intros Hu Hst Hv. pose proof Hu as [Hc _].
  assert (Hwp : wp (on_api_propose_timers_body now t) (λ o q, o = Ok () ∧ ∃ bs pl pending,
    outbound_datagrams q.2 = [mkOutboundDatagram (current_path_id m) bs] ∧ zlen pl = 16 ∧
    Wire.decode bs = Ok (Wire.new Wire.Msr x00 (cid m) pl
      [encode_timer_proposal_tlv (next_proposal_id m) t]) ∧
    in_u64 q.1 ∧ cid q.1 = cid m ∧ cfg q.1 = cfg m ∧ pending_local_proposal q.1 = Some pending ∧
    pr_proposal_id pending = next_proposal_id m ∧ pr_proposal pending = t) (m, CoreOutput_default)).
  { unfold on_api_propose_timers_body. wp_run. unfold in_state. cbn [fst].
    rewrite Hst, bool_decide_eq_true_2 by done. apply wp_reject; [done|intros _]. wp_run.
    cbn [fst]. rewrite Hv. wp_run. split; [done|]. eexists bs, _, _.
    by split_and!; [|  |exact Hbs| | | | | |]. }
  unfold wp in Hwp. unfold on_api_propose_timers, run.
  destruct (on_api_propose_timers_body now t (m, CoreOutput_default)) as [o [m' out]].
  destruct Hwp as (Ho & bs & pl & pd & H). cbn in Ho, H. subst o. by exists out, m', bs, pl, pd.
Qed.

(** C22. Two machines agree on proposed timer values: the proposal one sends, the answer of the
    other and the handling of that answer end with both using the proposed values when the
    other side found them valid, and both keeping their own values otherwise; either way no
    proposal stays pending. *)
Theorem negotiation_agrees t0 t1 t2 path1 path2 prop a b :
  in_u64 a → in_u64 b → cid a = cid b → is_u32 (next_proposal_id a) →
  state a = Established → validate_timer_proposal (cfg a) prop = Ok () →
  let accepted := is_ok (validate_timer_proposal (cfg b) prop) in
  ∃ outa a1 d1 outb b1 d2 rest outa2 a2,
    on_api_propose_timers t0 prop a = (Ok outa, a1) ∧ outbound_datagrams outa = [d1] ∧
    on_datagram t1 path1 (bytes d1) b = (Ok outb, b1) ∧ outbound_datagrams outb = d2 :: rest ∧
    on_datagram t2 path2 (bytes d2) a1 = (Ok outa2, a2) ∧
    pending_local_proposal a2 = None ∧
    cfg a2 = (if accepted then to_config prop else cfg a) ∧
    cfg b1 = (if accepted then to_config prop else cfg b).
Proof.
  intros Hua Hub Hcid Hid Hst Hv accepted.
  assert (Hrange : proposal_range prop) by (by eapply negotiable_range, validate_ok).
  destruct (propose_ok t0 prop a) as (outa & a1 & bs1 & pl1 & pd & Hpa & Hoa & Hpl1 & Hd1 & Hu1 &
    Hc1 & Hcfg1 & Hpd & Hpid & Hpp); [done..|].
  rewrite Hcid in Hd1.
  destruct (receive_proposal t1 path1 bs1 pl1 (next_proposal_id a) prop b)
    as (outb & b1 & bs2 & pl2 & rest & Hpb & Hob & Hpl2 & Hd2 & Hcfgb); [done..|].
  rewrite <-Hcid, <-Hc1 in Hd2.
  destruct (receive_ack t2 path2 bs2 pl2 (next_proposal_id a) accepted pd a1)
    as (outa2 & a2 & Hpa2 & Hpend & Hcfga); [done..|].
  exists outa, a1, (mkOutboundDatagram (current_path_id a) bs1), outb, b1,
    (mkOutboundDatagram path1 bs2), rest, outa2, a2.
  rewrite Hpp, Hcfg1 in Hcfga. by split_and!.
Qed.

Definition ex_client : CoreMachine :=
  (on_datagram 5 1 ex_hello (new Client 7 CoreConfig_default)).2.

Lemma negotiation_agrees_witness :
  ∃ outa a1 d1 outb b1 d2 rest outa2 a2,
    on_api_propose_timers 6 ex_proposal ex_client = (Ok outa, a1) ∧ outbound_datagrams outa = [d1] ∧
    on_datagram 7 1 (bytes d1) ex_server = (Ok outb, b1) ∧ outbound_datagrams outb = d2 :: rest ∧
    on_datagram 8 1 (bytes d2) a1 = (Ok outa2, a2) ∧
    pending_local_proposal a2 = None ∧
    cfg a2 = to_config ex_proposal ∧ cfg b1 = to_config ex_proposal.
Proof.
  apply (negotiation_agrees 6 7 8 1 1 ex_proposal ex_client ex_server);
    vm_compute; repeat split; discriminate.
Defined.

(** The [Disconnect] timer of a lost machine asks to be woken again at the deadline that has
    already passed, at every firing. *)
Lemma lost_machine_rearms_disconnect now d m :
  state m = Lost → disconnect_deadline_ms m = Some d →
  on_timer now Disconnect m = (Ok (mkCoreOutput [] [] [Schedule Disconnect d]), m).
Proof.
  intros Hs Hd. unfold on_timer, run, on_timer_body.
  rewrite (st_bind_ok _ _ _ m (m, CoreOutput_default)) by done.
  unfold in_state. rewrite Hd, Hs, bool_decide_eq_true_2, andb_false_r by done. done.
Qed.
