(* ===== verification/CoreTransfer.v ===== *)
(** * Transfer of messages, from a request to the delivery

    The answer to a requested range as a scan of the outbound queue, the completeness of
    reassembly and delivery, and the handshake that opens an association. *)

From S2P Require Import Prelude Bytes Core CoreSpec CoreLemmas CoreEffects CoreReceive CoreStep.
From S2P Require Import CoreRuns CoreHandlers CoreTimers.
From S2P Require Wire WireLemmas.

(* ------------------------------------------------------------------ *)
(** ** Specification *)
(* ------------------------------------------------------------------ *)

(** A message that fits in 65535 fragments. *)
Definition sendable (msg : list byte) : Prop := div_ceil (zlen msg) CHUNK_SIZE ≤ U16_MAX.

(** The frames of a message: one [Data] frame up to 992 bytes, [Fragment] frames above. *)
Definition message_frames (m : CoreMachine) (id : Z) (msg : list byte) : list Wire.WireFrame :=
  let signal := [encode_msr_signal_tlv (last_ordered_rx m) (max_pending_id m)] in
  if zlen msg <=? 992 then [Wire.new Wire.Data x00 (cid m) (u64_be id ++ msg) signal]
  else
    imap (λ i chunk,
      Wire.new Wire.Fragment x00 (cid m)
        (u64_be id ++ u16_be (Z.of_nat i) ++ u16_be (div_ceil (zlen msg) CHUNK_SIZE) ++ chunk)
        signal) (chunks_of CHUNK_SIZE msg).

Definition message_datagrams (m : CoreMachine) (path : Z) (id : Z) (msg : list byte)
    : list OutboundDatagram :=
  map (λ f, mkOutboundDatagram path (Wire.frame_layout f)) (message_frames m id msg).

(** The entries of the outbound queue within a range, in order. *)
Definition queued_in (m : CoreMachine) (s e : Z) : list (Z * list byte) :=
  filter (λ q, s ≤ q.1 ≤ e) (bt_entries (outbound_messages m)).

(** The receiver has taken piece [i] of message [id] into account. *)
Definition seen (m : CoreMachine) (id i : Z) : Prop :=
  id ∈ received_ids m ∨
  ∃ acc c, received_fragments m !! id = Some acc ∧ chunks acc !! i = Some c.

(** Nothing seen is forgotten. *)
Definition grows (m m' : CoreMachine) : Prop :=
  received_ids m ⊆ received_ids m' ∧ ∀ id i, seen m id i → seen m' id i.

(** The frames of [sent]: a datagram with the whole message [id], or with its piece [i]. *)
Definition whole (sent : gmap Z (list byte)) (id : Z) (bs : list byte) : Prop :=
  ∃ f msg, Wire.decode bs = Ok f ∧ Wire.message_type f = Wire.Data ∧ sent !! id = Some msg ∧
    Wire.payload f = u64_be id ++ msg.

Definition piece (sent : gmap Z (list byte)) (id : Z) (i : nat) (bs : list byte) : Prop :=
  ∃ f msg c, Wire.decode bs = Ok f ∧ Wire.message_type f = Wire.Fragment ∧ sent !! id = Some msg ∧
    chunks_of CHUNK_SIZE msg !! i = Some c ∧ 
    Wire.payload f =
      u64_be id ++ u16_be (Z.of_nat i) ++ u16_be (div_ceil (zlen msg) CHUNK_SIZE) ++ c.

(** The datagrams carry message [id] completely. *)
Definition carried (sent : gmap Z (list byte)) (bss : list (list byte)) (id : Z) : Prop :=
  (∃ bs, bs ∈ bss ∧ whole sent id bs) ∨
  ∃ msg, sent !! id = Some msg ∧ 0 < zlen msg ∧
    ∀ i, Z.of_nat i < div_ceil (zlen msg) CHUNK_SIZE → ∃ bs, bs ∈ bss ∧ piece sent id i bs.

(** Data traffic of an association. *)
Definition data_traffic (c : Z) (sent : gmap Z (list byte)) (bs : list byte) : Prop :=
  ∃ f, Wire.decode bs = Ok f ∧ Wire.cid f = c ∧ genuine sent f ∧
    (Wire.message_type f = Wire.Data ∨ Wire.message_type f = Wire.Fragment).

Definition arrivals (l : list (Z * Z * list byte)) : list input :=
  map (λ '(now, path, bs), InDatagram now path bs) l.

(* ------------------------------------------------------------------ *)
(** ** Answering a range *)
(* ------------------------------------------------------------------ *)

Lemma encode_small t c pl l :
  is_u64 c → zlen pl ≤ U16_MAX → small_tlvs l →
  encode_frame_with_tlvs t c pl l = Ok (Wire.frame_layout (Wire.new t x00 c pl l)).
Proof.
  intros Hc Hp Hl. pose proof (small_frame_ok t c pl l Hc Hl) as Hok.
  unfold encode_frame_with_tlvs. rewrite WireLemmas.encode_ok; [done|done|].
  cbn. unfold Wire.MAX_PAYLOAD_LEN. ulia.
Qed.

(** The output with datagrams appended. *)
Definition with_datagrams (out : CoreOutput) (l : list OutboundDatagram) : CoreOutput :=
  mkCoreOutput (outbound_datagrams out ++ l) (events out) (timer_actions out).

Lemma with_datagrams_nil out : with_datagrams out [] = out.
Proof. unfold with_datagrams. rewrite app_nil_r. by destruct out. Qed.

Lemma with_datagrams_app out l k :
  with_datagrams (with_datagrams out l) k = with_datagrams out (l ++ k).
Proof. unfold with_datagrams. cbn. by rewrite app_assoc. Qed.

Lemma send_fragments_eq m path id msg out :
  in_u64 m → sendable msg → ∀ l k,
  (∀ i c, l !! i = Some c → zlen c ≤ 988) → Z.of_nat k + zlen l ≤ U16_MAX →
  st_for (imap (λ i c, ((k + i)%nat, c)) l)
    (send_fragment path id (div_ceil (zlen msg) CHUNK_SIZE)) (m, out) =
  (Ok (), (m, with_datagrams out (imap (λ i c,
     mkOutboundDatagram path (Wire.frame_layout (Wire.new Wire.Fragment x00 (cid m)
        (u64_be id ++ u16_be (Z.of_nat (k + i)) ++ u16_be (div_ceil (zlen msg) CHUNK_SIZE) ++ c)
        [encode_msr_signal_tlv (last_ordered_rx m) (max_pending_id m)]))) l))).
Proof.
  intros Hm Hs l. revert out. induction l as [|c l IH]; intros out k Hl Hk.
  { cbn. by rewrite with_datagrams_nil. }
  rewrite zlen_cons in Hk. pose proof (zlen_nonneg l). rewrite !imap_cons. cbn [st_for].
  specialize (Hl 0%nat c eq_refl) as Hc.
  assert (Hone : send_fragment path id (div_ceil (zlen msg) CHUNK_SIZE) ((k + 0)%nat, c) (m, out) =
    (Ok (), (m, with_datagrams out [mkOutboundDatagram path (Wire.frame_layout
      (Wire.new Wire.Fragment x00 (cid m)
        (u64_be id ++ u16_be (Z.of_nat (k + 0)) ++ u16_be (div_ceil (zlen msg) CHUNK_SIZE) ++ c)
        [encode_msr_signal_tlv (last_ordered_rx m) (max_pending_id m)]))]))).
  { unfold send_fragment, try_u16. rewrite (proj2 (Z.leb_le _ _)) by lia. cbn [ok_or].
    rewrite (st_bind_ok _ _ _ (Z.of_nat (k + 0)) (m, out)) by done. cbn zeta.
    rewrite (st_bind_ok _ _ _ m (m, out)) by done. unfold send_frame.
    rewrite encode_small; [done|apply Hm|zlen_norm; ulia|apply small_tlvs_signal]. }
  rewrite (st_bind_ok _ _ _ _ _ Hone).
  assert (Heq : imap ((λ i c, ((k + i)%nat, c)) ∘ S) l = imap (λ i c, ((S k + i)%nat, c)) l).
  { apply imap_ext. intros i x _. cbn. f_equal. lia. }
  rewrite Heq, IH; [|intros i x Hx; apply (Hl (S i)); done|lia].
  rewrite with_datagrams_app. do 3 f_equal. cbn [app]. f_equal. apply imap_ext. intros i x _.
  cbn [compose]. by rewrite Nat.add_succ_r.
Qed.

(** The body of the loop, on a queued message. *)
Lemma send_message_eq m path id msg out :
  in_u64 m → outbound_messages m !! id = Some msg → sendable msg →
  send_message path id (m, out) = (Ok (), (m, with_datagrams out (message_datagrams m path id msg))).
Proof.
  intros Hm Hid Hs. unfold send_message, message_datagrams, message_frames.
  rewrite (st_bind_ok _ _ _ m (m, out)) by done. rewrite Hid. unfold MAX_DATA_PAYLOAD_PER_FRAME.
  destruct (zlen msg <=? 992) eqn:Hlen; zprop; zdec.
  - unfold send_frame. rewrite encode_small; [done|apply Hm|zlen_norm; ulia|apply small_tlvs_signal].
  - change (sat_sub 1000 FRAGMENT_HEADER_LEN) with CHUNK_SIZE. cbn zeta.
    rewrite (st_bind_ok _ _ _ () (m, out)) by done. unfold sendable in Hs.
    unfold try_u16. rewrite (proj2 (Z.leb_le _ _) Hs). cbn [ok_or].
    rewrite (st_bind_ok _ _ _ (div_ceil (zlen msg) CHUNK_SIZE) (m, out)) by done.
    pose proof (send_fragments_eq m path id msg out Hm Hs (chunks_of CHUNK_SIZE msg) 0) as Hl.
    etrans; [apply Hl|].
    + intros i c Hc. apply (chunks_of_piece CHUNK_SIZE msg); [done|]. by eapply list_elem_of_lookup_2.
    + rewrite chunks_of_count by done. lia.
    + unfold with_datagrams. do 4 f_equal. symmetry. exact (fmap_imap _ _ _).
Qed.

Lemma send_message_none m path id out :
  outbound_messages m !! id = None → send_message path id (m, out) = (Ok (), (m, out)).
Proof.
  intros Hid. unfold send_message. rewrite (st_bind_ok _ _ _ m (m, out)) by done. by rewrite Hid.
Qed.

Lemma send_messages_eq m path l out :
  in_u64 m → (∀ id msg, id ∈ l → outbound_messages m !! id = Some msg → sendable msg) →
  st_for l (send_message path) (m, out) =
    (Ok (), (m, with_datagrams out
      (omap (λ id, (id,.) <$> outbound_messages m !! id) l ≫= λ q, message_datagrams m path q.1 q.2))).
Proof.
  intros Hm. revert out. induction l as [|id l IH]; intros out Hl.
  { cbn. by rewrite with_datagrams_nil. }
  cbn [st_for omap list_omap]. destruct (outbound_messages m !! id) as [msg|] eqn:Hid; cbn.
  - rewrite (st_bind_ok _ _ _ () (m, with_datagrams out (message_datagrams m path id msg)))
      by (apply send_message_eq; [done|done|by eapply Hl; [left|]]).
    rewrite IH by (intros ????; eapply Hl; [by right|done]). by rewrite with_datagrams_app.
  - rewrite (st_bind_ok _ _ _ () (m, out)) by by apply send_message_none.
    apply IH. intros ????. eapply Hl; [by right|done].
Qed.

(** The loop over a requested range, however the peer chose its ends, answers with the
    queued messages of the range in the order of their identifiers, each whole or in all its
    fragments, and with nothing else. *)
Theorem request_range_scans_queue m path payload out :
  in_u64 m → (∀ id msg, outbound_messages m !! id = Some msg → sendable msg) →
  handle_request_range path payload (m, out) =
    match decode_range payload with
    | None => (Err MalformedRequestRange, (m, out))
    | Some (s, e) =>
        (Ok (), (m, with_datagrams out
           (queued_in m s e ≫= λ q, message_datagrams m path q.1 q.2)))
    end.
Proof.
  intros Hm Hs. unfold handle_request_range. destruct (decode_range payload) as [[s e]|] eqn:Hd; [|done].
  rewrite (st_bind_ok _ _ _ (s, e) (m, out)) by done.
  rewrite send_messages_eq by eauto. rewrite range_entries. do 4 f_equal. unfold queued_in.
  apply list_filter_iff. intros q. lia.
Qed.

(* ------------------------------------------------------------------ *)
(** ** Nothing seen is forgotten *)
(* ------------------------------------------------------------------ *)

#[global] Instance grows_preorder : PreOrder grows.
Proof.
  split; [by split|]. intros m1 m2 m3 [H1 H2] [H3 H4]. split; [by etrans|]. auto.
Qed.

Lemma grows_side m m' : recv_side m' = recv_side m → grows m m'.
Proof. unfold recv_side, grows, seen. intros [= -> _ -> _]. done. Qed.

Lemma quiet_grows p p' : quiet p p' → grows p.1 p'.1.
Proof. intros Hq. apply grows_side, Hq. Qed.

Definition reassembly (m : CoreMachine) : gset Z * gmap Z FragmentAccumulator :=
  (received_ids m, received_fragments m).

Lemma reassembly_grows m m' : reassembly m' = reassembly m → grows m m'.
Proof. unfold reassembly, grows, seen. intros [= -> ->]. done. Qed.

Lemma keeps_flush : keeps reassembly flush_ordered.
Proof.
  unfold flush_ordered. apply keeps_self. intros m. generalize (S (size (received_buffer m))).
  intros n. induction n; cbn [flush_loop]; [intros p; exact eq_refl|keeps_auto].
Qed.

(** The flush has no error: with its fuel it can only run to the end. *)
Lemma flush_no_error p : wp flush_ordered (λ o p', is_err o = false ∧ reassembly p'.1 = reassembly p.1) p.
Proof.
  unfold wp. split; [|apply keeps_flush].
  enough (∀ n p, wp (flush_loop n) (λ o _, is_err o = false) p) as H by exact (H _ p).
  clear p. intros n.
  induction n as [|n IH]; intros p; cbn [flush_loop]; [done|]. wp_run. wp_step; [|by apply wp_ret].
  wp_run. apply IH.
Qed.

(** An accumulator that keeps its pieces. *)
Lemma set_fragments_grows id acc m :
  (∀ acc0 i c, received_fragments m !! id = Some acc0 → chunks acc0 !! i = Some c →
     is_Some (chunks acc !! i)) →
  grows m (m <| received_fragments := <[id := acc]> (received_fragments m) |>).
Proof.
  intros Hacc. split; [done|]. intros id' i [?|(acc0 & c & H1 & H2)]; [by left|right].
  cbn. destruct (decide (id' = id)) as [->|Hne].
  - destruct (Hacc _ _ _ H1 H2) as [c' Hc']. exists acc, c'. by rewrite lookup_insert_eq.
  - exists acc0, c. by rewrite lookup_insert_ne.
Qed.

(** A message whose identifier is recorded needs its pieces no longer. *)
Lemma accept_grows id payload m : grows m (accept id payload m).
Proof.
  split; [cbn; set_solver|]. intros id' i [?|(acc & c & H1 & H2)]; [left; cbn; set_solver|].
  destruct (decide (id' = id)) as [->|Hne]; [left; cbn; set_solver|].
  right. exists acc, c. cbn. by rewrite lookup_delete_ne.
Qed.

Lemma accept_received id payload m : id ∈ received_ids (accept id payload m).
Proof. cbn. set_solver. Qed.

Lemma wp_data_seen id msg p :
  is_u64 id →
  wp (handle_data (u64_be id ++ msg))
    (λ o p', is_err o = false ∧ grows p.1 p'.1 ∧ id ∈ received_ids p'.1) p.
Proof.
  intros Hid. unfold handle_data. wp_run.
  apply wp_reject; [intros Hb; zprop; zlen_norm; pose proof (zlen_nonneg msg); lia|intros _].
  rewrite slice_prefix by done. wp_run. rewrite be_value_u64 by done.
  wp_step; zprop; [apply wp_ret; by split_and!; [|reflexivity|]|]. rewrite (slice_suffix (u64_be id) msg) by done. wp_run.
  eapply wp_mono, flush_no_error. intros o p' [Ho Hr]. split; [done|].
  assert (reassembly p'.1 = reassembly (accept id msg p.1)) as Hr' by done.
  split; [etrans; [apply (accept_grows id msg)|by apply reassembly_grows]|].
  unfold reassembly in Hr'. injection Hr' as -> _. apply (accept_received id msg).
Qed.

Lemma add_piece_mono idx body acc i :
  is_Some (chunks acc !! i) → is_Some (chunks (add_piece idx body acc) !! i).
Proof.
  unfold add_piece. destruct (chunks acc !! idx) eqn:Hc; [done|]. cbn.
  intros Hi. rewrite lookup_insert_is_Some'. by right.
Qed.

Lemma add_piece_has idx body acc : is_Some (chunks (add_piece idx body acc) !! idx).
Proof.
  unfold add_piece. destruct (chunks acc !! idx) eqn:Hc; [by eexists|]. cbn.
  rewrite lookup_insert_eq. by eexists.
Qed.

Section Genuine.
Context (sent : gmap Z (list byte)).

Abbreviation recv_inv := (recv_inv (sent_msg sent) (sent_piece sent)).

(** Acceptable pieces of one message agree on their number. *)
Lemma sent_piece_total id t t' i i' c c' :
  sent_piece sent id t i c → sent_piece sent id t' i' c' → t = t'.
Proof. intros (msg & Hm & -> & _) (msg' & Hm' & -> & _). congruence. Qed.

Lemma wp_fragment_seen n id idx tot body p :
  recv_inv n p.1 → is_u64 id → is_u16 idx → is_u16 tot → idx < tot →
  sent_piece sent id tot idx body →
  wp (handle_fragment (u64_be id ++ u16_be idx ++ u16_be tot ++ body))
    (λ o p', is_err o = false ∧ grows p.1 p'.1 ∧ seen p'.1 id idx) p.
Proof.
  intros Hinv Hid Hidx Htot Hlt Hok. unfold handle_fragment, FRAGMENT_HEADER_LEN. wp_run.
  apply wp_reject; [intros Hb; zprop; zlen_norm; pose proof (zlen_nonneg body); lia|intros _].
  rewrite slice_prefix by done. wp_run. rewrite be_value_u64 by done.
  wp_step; zprop; [apply wp_ret; by split_and!; [|reflexivity|left]|].
  destruct (fragment_header_bytes id idx tot body) as (b8 & b9 & b10 & b11 & -> & -> & -> & -> & Hb1 & Hb2).
  wp_run. rewrite Hb1, Hb2, be_value_u16, be_value_u16 by done.
  apply wp_reject; [intros Hb; exfalso; apply orb_true_iff in Hb as [?|?]; zprop; ulia|intros _].
  wp_run.
  pose proof (entry_inv (sent_msg sent) (sent_piece sent) n p.1 id tot idx body Hinv ltac:(ulia)
    ltac:(ulia) Hok) as Hacc. cbn zeta in Hacc.
  set (acc0 := default FragmentAccumulator_default (received_fragments p.1 !! id)) in *.
  set (acc := if total acc0 =? 0 then acc0 <| total := tot |> else acc0) in *.
  assert (Hch : chunks acc = chunks acc0) by (unfold acc; by destruct (total acc0 =? 0)).
  assert (Htt : total acc = tot).
  { destruct Hacc as [_ _ _ (i & c & _ & Hc)]. by eapply sent_piece_total. }
  apply wp_modify_self. wp_run. rewrite Htt, Z.eqb_refl. apply wp_reject; [done|intros _].
  wp_run. rewrite slice_fragment_body. wp_run. fold (add_piece idx body acc).
  destruct (add_piece_spec (sent_piece sent) id idx body acc) as (Ht' & Hp' & Hs');
    [done|ulia|by rewrite Htt|].
  apply wp_modify_self. wp_run. rewrite Ht', Htt.
  match goal with |- wp _ _ ?q =>
    assert (Hq : grows p.1 q.1 ∧ received_fragments q.1 !! id = Some (add_piece idx body acc));
    [|revert Hq; generalize q] end.
  { split; [|cbn; apply lookup_insert_eq]. cbn [fst].
    etrans; [apply (set_fragments_grows id acc)|apply (set_fragments_grows id (add_piece idx body acc))].
    - intros a i c Ha Hc. rewrite Hch. unfold acc0. rewrite Ha. by eexists.
    - cbn. intros a i c. rewrite lookup_insert_eq. intros [= <-] Hc. by apply add_piece_mono; eexists. }
  intros q [Hg Hf]. wp_step; zprop; cycle 1.
  { apply wp_ret. split_and!; [done|done|]. right. destruct (add_piece_has idx body acc) as [c Hc]. eauto. }
  rewrite Htt in Hp'. pose proof (all_pieces tot _ (λ i c H, proj1 (Hp' i c H)) Hm0) as Hall.
  rewrite merge_chunks_ok by (intros i Hi%elem_of_seqZ; apply Hall; lia). wp_run.
  eapply wp_mono, flush_no_error. intros o p' [Ho Hr]. split; [done|].
  match type of Hr with _ = reassembly (?x, _).1 =>
    assert (Hr' : reassembly p'.1 = reassembly (accept id [] q.1)) by done end.
  split.
  - etrans; [exact Hg|]. etrans; [apply (accept_grows id [])|by apply reassembly_grows].
  - left. unfold reassembly in Hr'. injection Hr' as -> _. apply (accept_received id []).
Qed.

(** The receiver has taken the data of the frame into account. *)
Definition marked (f : Wire.WireFrame) (m : CoreMachine) : Prop :=
  match Wire.message_type f with
  | Wire.Data => ∀ id msg, is_u64 id → Wire.payload f = u64_be id ++ msg → id ∈ received_ids m
  | Wire.Fragment =>
      ∀ id idx tot body, is_u64 id → is_u16 idx → is_u16 tot →
        Wire.payload f = u64_be id ++ u16_be idx ++ u16_be tot ++ body → seen m id idx
  | _ => True
  end.

Lemma marked_grows f m m' : grows m m' → marked f m → marked f m'.
Proof.
  intros [H1 H2]. unfold marked. destruct (Wire.message_type f); try done.
  - intros Hm id msg Hid Hp. by eapply H1, Hm.
  - intros Hm id idx tot body ? ? ? Hp. by eapply H2, Hm.
Qed.

Lemma genuine_piece_range f id idx tot body :
  genuine sent f → Wire.message_type f = Wire.Fragment →
  is_u64 id → is_u16 idx → is_u16 tot →
  Wire.payload f = u64_be id ++ u16_be idx ++ u16_be tot ++ body → idx < tot.
Proof.
  unfold genuine. intros Hg Ht Hid Hidx Htot Hpl. rewrite Ht in Hg.
  destruct Hg as (id' & msg & i & c & Hid' & _ & Hc & Hle & Hpl').
  pose proof (lookup_zlen _ _ _ Hc) as Hlt. rewrite chunks_of_count in Hlt by done.
  rewrite Hpl' in Hpl. apply u64_app_inj in Hpl as [_ Hpl]; [|done..].
  apply u16_app_inj in Hpl as [<- Hpl]; [|ulia|done].
  apply u16_app_inj in Hpl as [<- _]; [done|ulia|done].
Qed.

Lemma wp_data_dispatch n now path f p :
  recv_inv n p.1 → state p.1 = Established → genuine sent f →
  (Wire.message_type f = Wire.Data ∨ Wire.message_type f = Wire.Fragment) →
  wp (dispatch now path f) (λ o p', is_err o = false ∧ grows p.1 p'.1 ∧ marked f p'.1) p.
Proof.
  intros Hinv Hst Hg Hty. pose proof (genuine_data_ok _ _ Hg) as Hok. unfold data_ok in Hok.
  unfold dispatch, marked. wp_run.
  destruct Hty as [Ht|Ht]; rewrite Ht in *; unfold in_state;
    rewrite Hst, bool_decide_eq_true_2 by done; cbn [st_when].
  - unfold genuine in Hg. rewrite Ht in Hg. destruct Hg as (id & msg & Hid & _ & Hpl).
    rewrite Hpl. eapply wp_mono, wp_data_seen; [|done]. intros o p' (Ho & Hgr & Hin).
    split_and!; [done|done|]. intros id' msg' Hid' Heq. by apply u64_app_inj in Heq as [-> _].
  - pose proof (genuine_piece_range f) as Hrange.
    unfold genuine in Hg. pose proof Hg as Hg'. rewrite Ht in Hg.
    destruct Hg as (id & msg & i & c & Hid & Hmsg & Hc & Hle & Hpl).
    pose proof (lookup_zlen _ _ _ Hc) as Hlt. rewrite chunks_of_count in Hlt by done.
    rewrite Hpl. eapply wp_mono, (wp_fragment_seen n); [|done|done|ulia|ulia|done|].
    + intros o p' (Ho & Hgr & Hin). split_and!; [done|done|].
      intros id' idx' tot' body' Hid' Hidx' Htot' Heq. apply u64_app_inj in Heq as [<- Heq]; [|done..].
      by apply u16_app_inj in Heq as [<- _]; [|ulia|].
    + exists msg. split_and!; [done|done|lia|]. by rewrite Nat2Z.id.
Qed.

Lemma wp_data_frame n now path f p :
  in_u64 p.1 → recv_inv n p.1 → n + 1 < U64_MAX → state p.1 = Established →
  Wire.cid f = cid p.1 → genuine sent f →
  (Wire.message_type f = Wire.Data ∨ Wire.message_type f = Wire.Fragment) →
  wp (on_frame now path f) (λ o p', is_err o = false ∧ grows p.1 p'.1 ∧ marked f p'.1) p.
Proof.
  intros Hu Hinv Hn Hst Hcid Hg Hty. unfold on_frame. wp_run. apply wp_reject.
  { rewrite Hcid, Z.eqb_refl, andb_false_r. done. }
  intros _. cbn [then_wp].
  set (S (q : CoreMachine * CoreOutput) := recv_side q.1 = recv_side p.1 ∧ state q.1 = Established ∧ in_u64 q.1).
  assert (Hp : S p) by done. revert Hp. generalize p at 1 3. intros q0 Hq0.
  apply (wp_seq S); [by apply wp_modify_self|intros q1 Hq1].
  apply (wp_seq S); [by apply wp_modify_self|intros q2 Hq2].
  apply (wp_seq S); [unfold on_valid_peer_datagram; wp_steps; by split|intros q3 (Hr3 & Hs3 & Hu3)].
  assert (Hi3 : recv_inv n q3.1) by by eapply recv_inv_side.
  apply wp_bind. unfold wp.
  pose proof (wp_data_dispatch n now path f q3 Hi3 Hs3 Hg Hty) as (Ho & Hgr & Hmk).
  pose proof (wp_dispatch (sent_msg sent) (sent_piece sent) (sent_merge_ok sent) n now path f q3
    Hu3 Hi3 Hn (genuine_data_ok _ _ Hg)) as [Hi4 Hok].
  destruct (dispatch now path f q3) as [[[]|e|] q4]; cbn [fst snd] in *; [|done..].
  destruct Hok as (ds & Ha & _). pose proof (advances_in_u64 _ _ _ Ha Hu3) as Hu4.
  assert (Hgp : grows p.1 q4.1) by (etrans; [by apply grows_side|done]). cbn [then_wp].
  assert (Hend : ∀ o q, quiet_ok q4 o q → is_err o = false ∧ grows p.1 q.1 ∧ marked f q.1).
  { intros o q [-> Hq]. pose proof (quiet_grows _ _ Hq). split_and!; [done|by etrans|].
    by eapply marked_grows. }
  apply wp_when; intros _; [|apply Hend; split; [done|reflexivity]].
  destruct (find_msr_signal_tlv (Wire.tlvs f)) as [[a b]|] eqn:Hs;
    [|apply wp_ret, Hend; split; [done|reflexivity]].
  eapply wp_mono, quiet_msr_signal; [exact Hend|done|by eapply find_msr_signal_range].
Qed.

End Genuine.

(* ------------------------------------------------------------------ *)
(** ** Complete traffic is delivered *)
(* ------------------------------------------------------------------ *)

Lemma data_step sent n now path bs m :
  machine_inv (sent_msg sent) (sent_piece sent) n m → n + 1 < U64_MAX → state m = Established →
  data_traffic (cid m) sent bs →
  ∃ o m', on_datagram now path bs m = (o, m') ∧ grows m m' ∧ state m' = Established ∧
    cid m' = cid m ∧ ∀ f, Wire.decode bs = Ok f → marked f m'.
Proof.
  intros Hm Hn Hst (f & Hd & Hc & Hg & Hty). pose proof Hm as [Hu Hi _ _].
  pose proof (wp_data_frame sent n now path f (m, CoreOutput_default) Hu Hi Hn Hst Hc Hg Hty)
    as (Ho & Hgr & Hmk).
  destruct (on_datagram now path bs m) as [o m'] eqn:Hrun.
  destruct (step_progress _ _ (sent_merge_ok sent) n (InDatagram now path bs) m o m') as [_ Hp];
    [done|done| |done|].
  { intros f' Hf'. assert (f' = f) as -> by congruence. by apply genuine_data_ok. }
  exists o, m'. split; [done|].
  pose proof Hrun as Hrun'. unfold on_datagram, run, on_datagram_body in Hrun'. rewrite Hd in Hrun'.
  destruct (on_frame now path f (m, CoreOutput_default)) as [o1 [m1 out]] eqn:Hfr.
  injection Hrun' as Ho' ->. cbn [fst snd] in *. split_and!; [done| | |].
  - destruct o1 as [[]|e|]; [|done|by destruct Hp; subst o]. subst o.
    rewrite (state_after_datagram now path bs f m _ _ Hd Hrun). unfold next_state. rewrite Hst.
    destruct Hty as [-> | ->]; cbn; by destruct (role m).
  - apply Hp.
  - intros f' Hf'. by assert (f' = f) as -> by congruence.
Qed.

Lemma traffic_run sent l : ∀ n m,
  machine_inv (sent_msg sent) (sent_piece sent) n m → n + zlen l < U64_MAX →
  state m = Established → Forall (λ x, data_traffic (cid m) sent x.2) l →
  let m' := (run_inputs (arrivals l) m).2 in
  grows m m' ∧ ∀ bs f, bs ∈ l.*2 → Wire.decode bs = Ok f → marked f m'.
Proof.
  induction l as [|[[now path] bs] l IH]; intros n m Hm Hn Hst Hl; cbn zeta.
  { split; [reflexivity|]. set_solver. }
  apply Forall_cons in Hl as [Hbs Hl]. cbn [snd] in Hbs. rewrite zlen_cons in Hn.
  pose proof (zlen_nonneg l). cbn [arrivals map run_inputs step].
  destruct (data_step sent n now path bs m) as (o & m1 & Hrun & Hg & Hs1 & Hc1 & Hmk); [done|lia|done..|].
  destruct (step_progress _ _ (sent_merge_ok sent) n (InDatagram now path bs) m o m1) as [Hm1 _];
    [done|lia| |done|].
  { destruct Hbs as (f & Hd & _ & Hgen & _). intros f' Hf'.
    assert (f' = f) as -> by congruence. by apply genuine_data_ok. }
  destruct (IH (n + 1) m1) as [Hg2 Hmk2]; [done|lia|done|by rewrite Hc1|].
  rewrite Hrun. unfold arrivals in *. destruct (run_inputs _ m1) as [os m2]. cbn [snd] in *.
  split; [by etrans|]. intros bs' f [->|Hin]%elem_of_cons Hd; [|by eapply Hmk2].
  eapply marked_grows; [done|]. by apply Hmk.
Qed.

(** A carried message has been received. *)
Lemma carried_received sent n m bss id :
  machine_inv (sent_msg sent) (sent_piece sent) n m → is_u64 id →
  (∀ id msg, sent !! id = Some msg → sendable msg) →
  (∀ bs f, bs ∈ bss → Wire.decode bs = Ok f → marked f m) → carried sent bss id →
  id ∈ received_ids m.
Proof.
  intros [_ Hi _ _] Hid Hsend Hmk [(bs & Hin & f & msg & Hd & Ht & _ & Hpl)|(msg & Hmsg & Hpos & Hall)].
  - specialize (Hmk bs f Hin Hd). unfold marked in Hmk. rewrite Ht in Hmk. by eapply Hmk.
  - remember (div_ceil (zlen msg) CHUNK_SIZE) as t eqn:Hdef.
    assert (Ht : t ≤ U16_MAX) by (rewrite Hdef; by eapply Hsend).
    assert (Ht0 : 0 < t).
    { rewrite Hdef, div_ceil_step by done. unfold div_ceil. change CHUNK_SIZE with 988.
      assert (0 ≤ (zlen msg - 988 + 988 - 1) / 988) by (apply Z.div_pos; lia). lia. }
    assert (Hseen : ∀ i, 0 ≤ i < t → seen m id i).
    { intros i Hi'. destruct (Hall (Z.to_nat i)) as (bs & Hin & f & msg' & c & Hd & Hty & Hm' & Hc & Hpl); [lia|].
      assert (msg' = msg) as -> by congruence. specialize (Hmk bs f Hin Hd). unfold marked in Hmk.
      rewrite Hty in Hmk. rewrite <-Hdef in Hpl.
      rewrite <-(Z2Nat.id i) by lia.
      apply (Hmk id (Z.of_nat (Z.to_nat i)) t c); [done|ulia|ulia|exact Hpl]. }
    destruct (decide (id ∈ received_ids m)) as [|Hni]; [done|exfalso].
    assert (Hpc : ∀ i, 0 ≤ i < t → ∃ acc c, received_fragments m !! id = Some acc ∧ chunks acc !! i = Some c).
    { intros i Hi'. by destruct (Hseen i Hi') as [?|?]. }
    destruct (Hpc 0) as (acc & c0 & Hacc & _); [lia|].
    destruct (recv_fragments _ _ _ _ Hi id acc Hacc) as [_ [_ Hpieces Hinc _]].
    assert (Htot : total acc = t).
    { destruct (Hpc 0) as (acc' & c & Ha & Hc0); [lia|]. assert (acc' = acc) as -> by congruence.
      destruct (Hpieces 0 c Hc0) as [_ (msg' & Hm' & -> & _)]. congruence. }
    assert (Hsub : (list_to_set (seqZ 0 t) : gset Z) ⊆ dom (chunks acc)).
    { intros i Hi'%elem_of_list_to_set%elem_of_seqZ.
      destruct (Hpc i) as (acc' & c & Ha & Hci); [lia|]. apply elem_of_dom.
      assert (acc' = acc) as -> by congruence. by eexists. }
    apply subseteq_size in Hsub. rewrite size_list_to_set, length_seqZ, size_dom in Hsub by apply NoDup_seqZ.
    lia.
Qed.

Lemma traffic_delivered sent k m l n :
  machine_inv (sent_msg sent) (sent_piece sent) k m → k + zlen l < U64_MAX → n ≤ U64_MAX →
  state m = Established → (∀ id msg, sent !! id = Some msg → sendable msg) →
  Forall (λ x, data_traffic (cid m) sent x.2) l →
  (∀ id, last_ordered_rx m < id ≤ n → carried sent l.*2 id) →
  let os := (run_inputs (arrivals l) m).1 in
  let m' := (run_inputs (arrivals l) m).2 in
  n ≤ last_ordered_rx m' ∧
  (run_received os).*1 = seqZ (last_ordered_rx m + 1) (last_ordered_rx m' - last_ordered_rx m) ∧
  Forall (λ q, sent !! q.1 = Some q.2) (run_received os).
Proof.
  intros Hm Hk Hn Hst Hsend Hl Hcar os m'.
  destruct (traffic_run sent l k m Hm Hk Hst Hl) as [Hg Hmk].
  destruct (run_summary _ _ (sent_merge_ok sent) k (arrivals l) m os m') as [Hm' Hsm];
    [done|by unfold zlen, arrivals in *; rewrite length_map| |by unfold os, m'; destruct (run_inputs _ _)|].
  { apply Forall_fmap. eapply Forall_impl; [exact Hl|]. intros [[now path] bs] (f & Hd & _ & Hgen & _).
    cbn in Hd |- *. intros f' Hf'. assert (f' = f) as -> by congruence. by apply genuine_data_ok. }
  split_and!; [|apply Hsm|apply Hsm].
  destruct (decide (n ≤ last_ordered_rx m')) as [|Hlt]; [done|exfalso].
  pose proof (sm_last _ _ _ _ _ Hsm) as Hlast.
  assert (Hin : last_ordered_rx m' + 1 ∈ received_ids m').
  { eapply (carried_received sent _ m' l.*2); [exact Hm'| |done|done|apply Hcar; lia].
    destruct Hm as [_ [? _ _ _ _ _] _ _]. ulia. }
  destruct Hm' as [_ [_ _ Hids _ Hgap _] _ _].
  apply Hids in Hin as [?|Hb]; [lia|]. rewrite Hgap in Hb. by destruct Hb.
Qed.

(** C3. Nothing is lost in reassembly or reordering: when data traffic carries the messages up
    to [n] completely, in any order, with repetitions and with other messages in between, an
    established receiver has handed all of them to its application, in order and with the
    payloads that were sent. *)
Theorem complete_traffic_is_delivered sent k m l n :
  machine_inv (sent_msg sent) (sent_piece sent) k m → k + zlen l < U64_MAX → n ≤ U64_MAX →
  state m = Established → (∀ id msg, sent !! id = Some msg → sendable msg) →
  Forall (λ x, data_traffic (cid m) sent x.2) l →
  (∀ id, last_ordered_rx m < id ≤ n → carried sent l.*2 id) →
  let os := (run_inputs (arrivals l) m).1 in
  let m' := (run_inputs (arrivals l) m).2 in
  n ≤ last_ordered_rx m' ∧
  (run_received os).*1 = seqZ (last_ordered_rx m + 1) (last_ordered_rx m' - last_ordered_rx m) ∧
  Forall (λ q, sent !! q.1 = Some q.2) (run_received os).
Proof. apply traffic_delivered. Qed.

(** The frames of a message decode to themselves, belong to the association and carry it. *)
Lemma message_frames_spec m id msg f :
  in_u64 m → is_u64 id → outbound_messages m !! id = Some msg → sendable msg →
  f ∈ message_frames m id msg →
  Wire.decode (Wire.frame_layout f) = Ok f ∧ Wire.cid f = cid m ∧
  genuine (outbound_messages m) f ∧
  (Wire.message_type f = Wire.Data ∨ Wire.message_type f = Wire.Fragment).
Proof.
  intros [Hc _] Hid Hmsg Hs Hf. unfold message_frames in Hf.
  destruct (zlen msg <=? 992) eqn:Hlen; zprop.
  - apply list_elem_of_singleton in Hf as ->. split_and!; [|done|by exists id, msg|by left].
    apply WireLemmas.decode_iff. split_and!; [apply small_frame_ok; [done|apply small_tlvs_signal]| |done].
    cbn. zlen_norm. ulia.
  - apply list_elem_of_lookup in Hf as [i Hf]. rewrite list_lookup_imap in Hf.
    destruct (chunks_of CHUNK_SIZE msg !! i) as [c|] eqn:Hc'; [|done]. injection Hf as <-.
    assert (zlen c ≤ 988) by (apply (chunks_of_piece CHUNK_SIZE msg); [done|by eapply list_elem_of_lookup_2]).
    split_and!; [|done|by exists id, msg, i, c|by right].
    apply WireLemmas.decode_iff. split_and!; [apply small_frame_ok; [done|apply small_tlvs_signal]| |done].
    cbn. zlen_norm. ulia.
Qed.

(** The answer to a range carries every queued message of the range. *)
Lemma answer_carries m path s e id :
  in_u64 m → (∀ id msg, outbound_messages m !! id = Some msg → is_u64 id ∧ sendable msg) →
  s ≤ id ≤ e → is_Some (outbound_messages m !! id) →
  carried (outbound_messages m)
    (map bytes (queued_in m s e ≫= λ q, message_datagrams m path q.1 q.2)) id.
Proof.
  intros Hm Hs Hid [msg Hmsg]. destruct (Hs id msg Hmsg) as [Hu Hsend].
  assert (Hin : ∀ f, f ∈ message_frames m id msg → Wire.frame_layout f ∈
    map bytes (queued_in m s e ≫= λ q, message_datagrams m path q.1 q.2)).
  { intros f Hf. apply list_elem_of_fmap. exists (mkOutboundDatagram path (Wire.frame_layout f)).
    split; [done|]. apply list_elem_of_bind. exists (id, msg). cbn. split.
    - apply list_elem_of_fmap. by exists f.
    - apply list_elem_of_filter. cbn. by rewrite elem_of_bt_entries. }
  pose proof (λ f, message_frames_spec m id msg f Hm Hu Hmsg Hsend) as Hspec.
  unfold message_frames in *. destruct (zlen msg <=? 992) eqn:Hlen; zprop.
  - left. set (f := Wire.new _ _ _ _ _) in *. assert (Hf : f ∈ [f]) by by left.
    exists (Wire.frame_layout f). split; [by apply Hin|]. exists f, msg.
    by destruct (Hspec f Hf) as (? & _).
  - right. exists msg. split_and!; [done|lia|]. intros i Hi.
    rewrite <-chunks_of_count in Hi by done.
    destruct (lookup_lt_is_Some_2 (chunks_of CHUNK_SIZE msg) i) as [c Hc]; [ulia|].
    match type of Hspec with ∀ f, f ∈ imap ?g _ → _ =>
      assert (Hf : g i c ∈ imap g (chunks_of CHUNK_SIZE msg));
      [eapply list_elem_of_lookup_2 with (i := i); by rewrite list_lookup_imap, Hc|];
      exists (Wire.frame_layout (g i c)); split; [by apply Hin|]; exists (g i c), msg, c;
      destruct (Hspec _ Hf) as (? & _)
    end. by split_and!.
Qed.

Lemma answer_is_data m path s e :
  in_u64 m → (∀ id msg, outbound_messages m !! id = Some msg → is_u64 id ∧ sendable msg) →
  Forall (data_traffic (cid m) (outbound_messages m))
    (map bytes (queued_in m s e ≫= λ q, message_datagrams m path q.1 q.2)).
Proof.
  intros Hm Hs. apply Forall_forall. intros bs [d [-> Hd]]%list_elem_of_fmap.
  apply list_elem_of_bind in Hd as [[id msg] [Hd Hq]]. cbn in Hd.
  apply list_elem_of_filter in Hq as [_ Hq%elem_of_bt_entries].
  apply list_elem_of_fmap in Hd as [f [-> Hf]]. destruct (Hs id msg Hq) as [Hu Hsend].
  exists f. by apply (message_frames_spec m id msg).
Qed.

#[global] Instance sendable_dec msg : Decision (sendable msg).
Proof. unfold sendable. apply _. Defined.

Lemma carried_incl sent bss bss' id :
  (∀ bs, bs ∈ bss' ↔ bs ∈ bss) → carried sent bss id → carried sent bss' id.
Proof.
  intros Hl [(bs & Hin & Hw)|(msg & Hmsg & Hpos & Hall)].
  - left. exists bs. by rewrite Hl.
  - right. exists msg. split_and!; [done|done|]. intros i Hi. destruct (Hall i Hi) as (bs & Hin & Hp).
    exists bs. by rewrite Hl.
Qed.

(** A requested range is transferred: the answer of a machine to a request for the messages
    its peer lacks up to [n], delivered in any order and with repetitions, makes the peer hand
    exactly these messages to its application. *)
Theorem requested_range_is_transferred j k a b path n l o a' out :
  machine_inv any_msg any_piece j a → j < U64_MAX →
  machine_inv (sent_msg (outbound_messages a)) (sent_piece (outbound_messages a)) k b →
  k + zlen l < U64_MAX → state b = Established → cid a = cid b →
  map_Forall (λ _ msg, sendable msg) (outbound_messages a) →
  last_ordered_rx b < n < next_outbound_id a →
  handle_request_range path (encode_range (last_ordered_rx b + 1) n) (a, CoreOutput_default) =
    (o, (a', out)) →
  (∀ bs, bs ∈ l.*2 ↔ bs ∈ map bytes (outbound_datagrams out)) →
  o = Ok () ∧ a' = a ∧
  let os := (run_inputs (arrivals l) b).1 in
  let b' := (run_inputs (arrivals l) b).2 in
  n ≤ last_ordered_rx b' ∧
  (run_received os).*1 = seqZ (last_ordered_rx b + 1) (last_ordered_rx b' - last_ordered_rx b) ∧
  Forall (λ q, outbound_messages a !! q.1 = Some q.2) (run_received os).
Proof.
  intros Ha Hj Hb Hk Hst Hcid Hsend Hn Hans Hl. pose proof Ha as [Hua _ Hnx Hob].
  assert (Hq : ∀ id msg, outbound_messages a !! id = Some msg → is_u64 id ∧ sendable msg).
  { intros id msg Hid. split; [|by eapply Hsend]. destruct (proj1 (Hob id)); [by eexists|]. ulia. }
  assert (Hlast : 0 ≤ last_ordered_rx b) by apply Hb.
  rewrite request_range_scans_queue in Hans; [|done|intros ???; by eapply Hq].
  rewrite decode_range_encode in Hans by ulia.
  injection Hans as <- <- <-. cbn [outbound_datagrams with_datagrams app CoreOutput_default] in Hl.
  split; [done|]. split; [done|].
  eapply (traffic_delivered (outbound_messages a) k b l n);
    [done|done|ulia|done|intros ???; by eapply Hq| |].
  - rewrite <-Hcid. pose proof (answer_is_data a path (last_ordered_rx b + 1) n Hua Hq) as Hd.
    rewrite Forall_forall in Hd. apply Forall_forall. intros x Hx. apply Hd, Hl.
    by apply list_elem_of_fmap_2.
  - intros id Hid. eapply carried_incl; [exact Hl|].
    apply answer_carries; [done|done|lia|apply Hob; lia].
Qed.

Definition ex_client_hello : list byte :=
  match encode_frame Wire.ClientHello 7 [] with Ok bs => bs | _ => [] end.

Lemma ex_server_step :
  step (InDatagram 5 1 ex_client_hello) (new Server 7 CoreConfig_default) =
    ((on_datagram 5 1 ex_client_hello (new Server 7 CoreConfig_default)).1, ex_server).
Proof.
  change ex_server with (on_datagram 5 1 ex_client_hello (new Server 7 CoreConfig_default)).2.
  cbn [step]. by destruct (on_datagram _ _ _ _).
Qed.

Lemma ex_server_inv sent : machine_inv (sent_msg sent) (sent_piece sent) 1 ex_server.
Proof.
  destruct (step_progress _ _ (sent_merge_ok sent) 0 (InDatagram 5 1 ex_client_hello)
    (new Server 7 CoreConfig_default) _ ex_server (new_inv _ _ Server 7 CoreConfig_default ltac:(done)) ltac:(done)
    ltac:(intros f Hf; vm_compute in Hf; injection Hf as <-; exact I) ex_server_step) as [Hm _].
  exact Hm.
Qed.

(** A client that was given a short and a long message. *)
Definition ex_queue_calls : list input :=
  [InDatagram 5 1 ex_hello; InSend [x68; x69]; InSend (replicate 2500 x61)].

Definition ex_queue : CoreMachine := (run_inputs ex_queue_calls (new Client 7 CoreConfig_default)).2.

Lemma ex_queue_inv : machine_inv any_msg any_piece 3 ex_queue.
Proof.
  destruct (run_summary any_msg any_piece ltac:(done) 0 ex_queue_calls
    (new Client 7 CoreConfig_default) (run_inputs ex_queue_calls (new Client 7 CoreConfig_default)).1
    ex_queue) as [Hm _]; [by apply new_inv|done|apply Forall_true, any_input_ok| |exact Hm].
  unfold ex_queue. by destruct (run_inputs _ _).
Qed.

Abbreviation ex_result :=
  (handle_request_range 1 (encode_range (last_ordered_rx ex_server + 1) 2)
     (ex_queue, CoreOutput_default)).

Lemma triple_eta {A B C} (p : A * (B * C)) : p = (p.1, (p.2.1, p.2.2)).
Proof. by destruct p as [? [? ?]]. Qed.

(** Datagrams that arrive backwards, and once more in order. *)
Definition replay (ds : list OutboundDatagram) : list (Z * Z * list byte) :=
  map (λ d, (9, 1, bytes d)) (reverse ds ++ ds).

Lemma elem_of_replay ds bs : bs ∈ (replay ds).*2 ↔ bs ∈ map bytes ds.
Proof.
  unfold replay. rewrite <-list_fmap_compose.
  cbn. change (map bytes ds) with (bytes <$> ds). rewrite !list_elem_of_fmap.
  split; intros (d & -> & Hd); exists d; (split; [done|]).
  - rewrite elem_of_app, elem_of_reverse in Hd. by destruct Hd.
  - rewrite elem_of_app. by right.
Qed.

Lemma requested_range_is_transferred_witness :
  let answer := outbound_datagrams ex_result.2.2 in
  2 ≤ last_ordered_rx (run_inputs (arrivals (replay answer)) ex_server).2 ∧ length answer = 4%nat.
Proof.
  split; [|vm_compute; reflexivity].
  apply (requested_range_is_transferred 3 1 ex_queue ex_server 1 2
    (replay (outbound_datagrams ex_result.2.2)) ex_result.1 ex_result.2.1 ex_result.2.2).
  - exact ex_queue_inv.
  - done.
  - apply ex_server_inv.
  - by vm_compute.
  - by vm_compute.
  - by vm_compute.
  - apply (bool_decide_eq_true_1 (map_Forall _ _)). by vm_compute.
  - by vm_compute.
  - apply triple_eta.
  - exact (elem_of_replay _).
Defined.

Lemma ex_queue_entries id msg :
  outbound_messages ex_queue !! id = Some msg → is_u64 id ∧ sendable msg.
Proof.
  intros Hid. split.
  - destruct ex_queue_inv as [_ _ Hnx Hob]. destruct (proj1 (Hob id)); [by eexists|]. ulia.
  - revert id msg Hid. apply (bool_decide_eq_true_1 (map_Forall _ _)). by vm_compute.
Qed.

(** What [ex_queue] answers to a request for the messages 1 and 2. *)
Definition ex_datagrams : list OutboundDatagram :=
  queued_in ex_queue 1 2 ≫= λ q, message_datagrams ex_queue 1 q.1 q.2.

Lemma complete_traffic_is_delivered_witness :
  2 ≤ last_ordered_rx (run_inputs (arrivals (replay ex_datagrams)) ex_server).2.
Proof.
  apply (complete_traffic_is_delivered (outbound_messages ex_queue) 1 ex_server
    (replay ex_datagrams) 2).
  - apply ex_server_inv.
  - by vm_compute.
  - done.
  - by vm_compute.
  - intros id msg Hid. by apply (ex_queue_entries id).
  - replace (cid ex_server) with (cid ex_queue) by (vm_compute; reflexivity).
    pose proof (answer_is_data ex_queue 1 1 2 (mi_u64 _ _ _ _ ex_queue_inv) ex_queue_entries) as Hd.
    rewrite Forall_forall in Hd. apply Forall_forall. intros x Hx.
    apply Hd, (elem_of_replay ex_datagrams). by apply list_elem_of_fmap_2.
  - replace (last_ordered_rx ex_server) with 0 by (vm_compute; reflexivity). intros id Hid.
    apply (carried_incl _ (map bytes ex_datagrams)); [intros bs; apply (elem_of_replay ex_datagrams)|].
    apply answer_carries; [apply ex_queue_inv|exact ex_queue_entries|lia|].
    apply ex_queue_inv. replace (next_outbound_id ex_queue) with 3 by (vm_compute; reflexivity). lia.
Defined.

Lemma request_range_scans_queue_witness :
  handle_request_range 1 (encode_range 1 2) (ex_queue, CoreOutput_default) =
    (Ok (), (ex_queue, with_datagrams CoreOutput_default ex_datagrams)).
Proof.
  rewrite (request_range_scans_queue ex_queue 1 (encode_range 1 2) CoreOutput_default);
    [|apply ex_queue_inv|intros ???; by eapply ex_queue_entries].
  by rewrite decode_range_encode by (split; done).
Defined.

(* ------------------------------------------------------------------ *)
(** ** The handshake *)
(* ------------------------------------------------------------------ *)

(** A method of the public interface, from the execution of its body. *)
Lemma run_ok (body : method ()) m (Q : CoreOutput → CoreMachine → Prop) :
  wp body (λ o p, o = Ok () ∧ Q p.2 p.1) (m, CoreOutput_default) →
  ∃ out m', run body m = (Ok out, m') ∧ Q out m'.
Proof.
  unfold wp, run. destruct (body (m, CoreOutput_default)) as [o [m' out]].
  intros [Ho HQ]. cbn in Ho. subst o. by exists out, m'.
Qed.

(** A frame without TLVs that is not an MSR: only the dispatch matters. *)
Lemma on_plain_datagram now path bs t c pl m (Q : CoreOutput → CoreMachine → Prop) :
  c = cid m → t ≠ Wire.Msr → Wire.decode bs = Ok (Wire.new t x00 c pl []) →
  (∀ p, p.2 = CoreOutput_default → role p.1 = role m → state p.1 = state m → cid p.1 = cid m →
     cfg p.1 = cfg m →
     wp (dispatch now path (Wire.new t x00 c pl [])) (λ o p, o = Ok () ∧ Q p.2 p.1) p) →
  ∃ out m', on_datagram now path bs m = (Ok out, m') ∧ Q out m'.
Proof.
  intros -> Ht Hd HQ. apply run_ok. unfold on_datagram_body. rewrite Hd. unfold on_frame. wp_run.
  apply wp_reject; [cbn; rewrite Z.eqb_refl, andb_false_r; done|intros _]. cbn [then_wp].
  set (R (p : CoreMachine * CoreOutput) := p.2 = CoreOutput_default ∧ role p.1 = role m ∧
    state p.1 = state m ∧ cid p.1 = cid m ∧ cfg p.1 = cfg m).
  apply (wp_seq R); [by apply wp_modify_self|intros q1 Hq1].
  apply (wp_seq R); [by apply wp_modify_self|intros q2 Hq2].
  apply (wp_seq R); [unfold on_valid_peer_datagram; wp_steps; by split|intros q3 (?&?&?&?&?)].
  apply (wp_seq (λ p, Q p.2 p.1)); [by apply HQ|intros q4 Hq4].
  cbn [Wire.message_type Wire.new]. rewrite bool_decide_eq_false_2 by done.
  cbn. by apply wp_ret.
Qed.

Lemma hello_starts t c cfg0 :
  is_u64 c → ∃ out m', begin_handshake t (new Client c cfg0) = (Ok out, m') ∧
    (∃ bs, outbound_datagrams out = [mkOutboundDatagram 0 bs] ∧ events out = [HandshakeStarted] ∧
       Wire.decode bs = Ok (Wire.new Wire.ClientHello x00 c [] [])) ∧ m' = new Client c cfg0.
Proof.
  intros Hc. apply run_ok. unfold begin_handshake_body. wp_run. cbn [is_role new fst role].
  apply wp_when; [intros _|by intros ?]. wp_run. split; [done|]. split; [|done]. by exists bs.
Qed.

Lemma hello_accepted t path bs m :
  is_u64 (cid m) → role m = Server → state m = PreHandshake →
  Wire.decode bs = Ok (Wire.new Wire.ClientHello x00 (cid m) [] []) →
  ∃ out m', on_datagram t path bs m = (Ok out, m') ∧
    (∃ bs, outbound_datagrams out = [mkOutboundDatagram path bs] ∧ events out = [HandshakeEstablished] ∧
       timer_actions out = [Schedule ServerMsr (add64 t (msr_interval_ms (cfg m)));
                            Schedule Disconnect (add64 t (disconnect_window_ms (cfg m)))] ∧
       Wire.decode bs = Ok (Wire.new Wire.ServerHello x00 (cid m) [] [])) ∧
    role m' = Server ∧ state m' = Established ∧ cid m' = cid m.
Proof.
  intros Hc Hr Hs Hd.
  eapply (on_plain_datagram t path bs Wire.ClientHello (cid m) [] m (λ out m', _)); [done|done|exact Hd|].
  intros p Ho Hrp Hsp Hcp Hcfg. unfold dispatch. wp_run. unfold is_role, in_state.
  rewrite Hrp, Hsp, Hr, Hs, !bool_decide_eq_true_2 by done. cbn [andb st_when Wire.new Wire.message_type].
  rewrite Hcp. unfold schedule_server_timers. wp_run. split; [done|].
  rewrite Ho, <-Hcfg. cbn. split; [|by rewrite Hrp]. by exists bs0.
Qed.

Lemma hello_answered t path bs m :
  is_u64 (cid m) → role m = Client → state m = PreHandshake →
  Wire.decode bs = Ok (Wire.new Wire.ServerHello x00 (cid m) [] []) →
  ∃ out m', on_datagram t path bs m = (Ok out, m') ∧
    (∃ bs, outbound_datagrams out = [mkOutboundDatagram path bs] ∧ events out = [HandshakeEstablished] ∧
       timer_actions out = [Schedule ClientProbe (add64 t (msr_interval_ms (cfg m)));
                            Schedule Disconnect (add64 t (disconnect_window_ms (cfg m)))] ∧
       Wire.decode bs = Ok (Wire.new Wire.HelloAck x00 (cid m) [] [])) ∧
    role m' = Client ∧ state m' = Established ∧ cid m' = cid m.
Proof.
  intros Hc Hr Hs Hd.
  eapply (on_plain_datagram t path bs Wire.ServerHello (cid m) [] m (λ out m', _)); [done|done|exact Hd|].
  intros p Ho Hrp Hsp Hcp Hcfg. unfold dispatch. wp_run. unfold is_role, in_state.
  cbn [Wire.new Wire.message_type]. rewrite Hrp, Hsp, Hr, Hs, !bool_decide_eq_true_2 by done.
  rewrite bool_decide_eq_false_2 by done. cbn [andb orb st_when].
  rewrite Hcp. unfold schedule_client_timers. wp_run. split; [done|].
  rewrite Ho, <-Hcfg. cbn. split; [|by rewrite Hrp]. by exists bs0.
Qed.

Lemma hello_acknowledged t path bs m :
  role m = Server → state m = Established →
  Wire.decode bs = Ok (Wire.new Wire.HelloAck x00 (cid m) [] []) →
  ∃ out m', on_datagram t path bs m = (Ok out, m') ∧
    out = CoreOutput_default ∧ role m' = Server ∧ state m' = Established ∧ cid m' = cid m.
Proof.
  intros Hr Hs Hd.
  apply (on_plain_datagram t path bs Wire.HelloAck (cid m) [] m (λ out m',
    out = CoreOutput_default ∧ role m' = Server ∧ state m' = Established ∧ cid m' = cid m));
    [done|done|exact Hd|].
  intros p Ho Hrp Hsp Hcp Hcfg. unfold dispatch. wp_run. unfold is_role, in_state.
  cbn [Wire.new Wire.message_type]. rewrite Hrp, Hsp, Hr, Hs, bool_decide_eq_true_2 by done.
  rewrite bool_decide_eq_false_2 by done. cbn [andb st_when]. apply wp_ret. split_and!; congruence.
Qed.

(** C21. The handshake: three datagrams, whatever the times, paths and timer values, establish
    both machines with the identifier of the client, and each side arms its own timers. *)
Theorem handshake_establishes t0 t1 t2 t3 p1 p2 p3 c ca cb :
  is_u64 c →
  ∃ o1 a1 d1 o2 b1 d2 o3 a2 d3 b2,
    begin_handshake t0 (new Client c ca) = (Ok o1, a1) ∧ outbound_datagrams o1 = [d1] ∧
    on_datagram t1 p1 (bytes d1) (new Server c cb) = (Ok o2, b1) ∧
    outbound_datagrams o2 = [d2] ∧ events o2 = [HandshakeEstablished] ∧
    timer_actions o2 = [Schedule ServerMsr (add64 t1 (msr_interval_ms cb));
                        Schedule Disconnect (add64 t1 (disconnect_window_ms cb))] ∧
    on_datagram t2 p2 (bytes d2) a1 = (Ok o3, a2) ∧
    outbound_datagrams o3 = [d3] ∧ events o3 = [HandshakeEstablished] ∧
    timer_actions o3 = [Schedule ClientProbe (add64 t2 (msr_interval_ms ca));
                        Schedule Disconnect (add64 t2 (disconnect_window_ms ca))] ∧
    on_datagram t3 p3 (bytes d3) b1 = (Ok CoreOutput_default, b2) ∧
    state a2 = Established ∧ state b1 = Established ∧ state b2 = Established ∧
    cid a2 = c ∧ cid b2 = c.
Proof.
  intros Hc.
  destruct (hello_starts t0 c ca Hc) as (o1 & a1 & E1 & (bs1 & D1 & _ & F1) & ->).
  destruct (hello_accepted t1 p1 bs1 (new Server c cb)) as
    (o2 & b1 & E2 & (bs2 & D2 & V2 & T2 & F2) & R2 & S2 & C2); [done..|].
  destruct (hello_answered t2 p2 bs2 (new Client c ca)) as
    (o3 & a2 & E3 & (bs3 & D3 & V3 & T3 & F3) & R3 & S3 & C3); [done..|].
  destruct (hello_acknowledged t3 p3 bs3 b1) as (o4 & b2 & E4 & -> & R4 & S4 & C4); [done|done| |].
  { by rewrite C2. }
  exists o1, (new Client c ca), (mkOutboundDatagram 0 bs1), o2, b1, (mkOutboundDatagram p1 bs2),
    o3, a2, (mkOutboundDatagram p2 bs3), b2.
  cbn in *. split_and!; try done; congruence.
Qed.

Lemma handshake_establishes_witness :
  ∃ o1 a1 d1 o2 b1 d2 o3 a2 d3 b2,
    begin_handshake 0 (new Client 7 CoreConfig_default) = (Ok o1, a1) ∧ outbound_datagrams o1 = [d1] ∧
    on_datagram 1 1 (bytes d1) (new Server 7 CoreConfig_default) = (Ok o2, b1) ∧
    outbound_datagrams o2 = [d2] ∧ events o2 = [HandshakeEstablished] ∧
    timer_actions o2 = [Schedule ServerMsr 15001; Schedule Disconnect 180001] ∧
    on_datagram 2 2 (bytes d2) a1 = (Ok o3, a2) ∧
    outbound_datagrams o3 = [d3] ∧ events o3 = [HandshakeEstablished] ∧
    timer_actions o3 = [Schedule ClientProbe 15002; Schedule Disconnect 180002] ∧
    on_datagram 3 1 (bytes d3) b1 = (Ok CoreOutput_default, b2) ∧
    state a2 = Established ∧ state b1 = Established ∧ state b2 = Established ∧
    cid a2 = 7 ∧ cid b2 = 7.
Proof.
  exact (handshake_establishes 0 1 2 3 1 2 1 7 CoreConfig_default CoreConfig_default ltac:(done)).
Defined.
