(* ===== verification/CoreSession.v ===== *)
(** * A conversation of two machines

    A message given to one machine is advertised, requested, answered and delivered: the
    exchange that carries it on a network that works, and conversations of any length in both
    directions, from the new machines on. *)

From S2P Require Import Prelude Bytes Core CoreSpec CoreLemmas CoreEffects CoreReceive CoreStep CoreRuns CoreHandlers CoreTransfer.
From S2P Require Wire WireLemmas.

(* ------------------------------------------------------------------ *)
(** ** Specification *)
(* ------------------------------------------------------------------ *)

(** Datagrams that arrive one after the other. *)
Definition carry (now path : Z) (ds : list OutboundDatagram) (m : CoreMachine)
    : list (outcome CoreError CoreOutput) * CoreMachine :=
  run_inputs (map (λ d, InDatagram now path (bytes d)) ds) m.

(** The application gives [a] a message, and the network carries what that leads to: the
    advertisement to [b], the request back, and the data; the outcomes of the calls of [a] and
    of [b], and the machines. *)
Definition exchange (ts : Z * Z * Z) (pa pb : Z) (msg : list byte) (a b : CoreMachine)
    : list (outcome CoreError CoreOutput) * list (outcome CoreError CoreOutput) * CoreMachine * CoreMachine :=
  let '(t1, t2, t3) := ts in
  let '(o, a) := on_api_send msg a in
  let '(os1, b) := carry t1 pb (datagrams_of o) b in
  let '(os2, a) := carry t2 pa (run_datagrams os1) a in
  let '(os3, b) := carry t3 pb (run_datagrams os2) b in
  (o :: os2, os1 ++ os3, a, b).

(** [b] has been given, and has asked for, everything [a] was given to send. *)
Record up_to_date (n : Z) (a b : CoreMachine) : Prop := {
  up_inv : machine_inv (sent_msg (outbound_messages a)) (sent_piece (outbound_messages a)) n b;
  up_sendable : ∀ id msg, outbound_messages a !! id = Some msg → sendable msg;
  up_received : last_ordered_rx b = next_outbound_id a - 1;
  up_requested : last_requested_end b = next_outbound_id a - 1;
}.

(** Two machines of one association that have nothing left to tell each other. *)
Record synced (n : Z) (a b : CoreMachine) : Prop := {
  sy_roles : role a ≠ role b;
  sy_cid : cid a = cid b;
  sy_established : state a = Established ∧ state b = Established;
  sy_forth : up_to_date n a b;
  sy_back : up_to_date n b a;
}.

(* ------------------------------------------------------------------ *)
(** ** Invariants *)
(* ------------------------------------------------------------------ *)

Lemma recv_inv_weaken (ok_msg ok_msg' : Z → list byte → Prop) (ok_piece ok_piece' : Z → Z → Z → list byte → Prop) n m :
  (∀ id msg, ok_msg id msg → ok_msg' id msg) →
  (∀ id t i c, ok_piece id t i c → ok_piece' id t i c) →
  recv_inv ok_msg ok_piece n m → recv_inv ok_msg' ok_piece' n m.
Proof.
  intros Hm Hp [H1 H2 H3 H4 H5 H6]. split; try done.
  - intros k pl Hk. destruct (H4 k pl Hk) as (? & ? & ?). auto.
  - intros id acc Ha. destruct (H6 id acc Ha) as [? [A1 A2 A3 (i & c & A4 & A5)]]. split; [done|].
    split; [done| |done|exists i, c; auto]. intros j d Hj. destruct (A2 j d Hj). auto.
Qed.

(** What [b] may have received from [a] only grows with what [a] was given. *)
Lemma sent_inv_mono sent sent' n m :
  sent ⊆ sent' → machine_inv (sent_msg sent) (sent_piece sent) n m → machine_inv (sent_msg sent') (sent_piece sent') n m.
Proof.
  intros Hs [H1 H2 H3 H4]. split; [done| |done|done]. eapply recv_inv_weaken, H2.
  - intros id msg. unfold sent_msg. intros H. by eapply lookup_weaken.
  - unfold sent_piece. intros id t i c. naive_solver eauto using lookup_weaken.
Qed.

Lemma machine_inv_mono ok_msg ok_piece n n' m :
  n ≤ n' → machine_inv ok_msg ok_piece n m → machine_inv ok_msg ok_piece n' m.
Proof. intros Hn [H1 H2 H3 H4]. split; [done|by eapply recv_inv_mono|lia|done]. Qed.

Lemma max_pending ok_msg ok_piece n m :
  machine_inv ok_msg ok_piece n m → max_pending_id m = next_outbound_id m - 1.
Proof.
  intros [_ _ Hn Hob]. unfold max_pending_id.
  destruct (bt_last_key (outbound_messages m)) as [k|] eqn:Hk; cbn.
  - apply bt_last_key_max in Hk as [Hk Hmax]. apply Hob in Hk.
    destruct (decide (k = next_outbound_id m - 1)) as [|Hne]; [done|].
    specialize (Hmax (next_outbound_id m - 1)). rewrite Hob in Hmax. lia.
  - apply bt_last_key_None in Hk. destruct (decide (next_outbound_id m = 1)) as [|Hne]; [lia|].
    specialize (Hob 1). rewrite Hk, lookup_empty in Hob. destruct Hob as [_ Hob].
    destruct Hob as [? H]; [lia|done].
Qed.

(** A machine that was told the same and told the application the same. *)
Lemma unmoved_inv ok_msg ok_piece n m m' :
  unmoved m m' → machine_inv ok_msg ok_piece n m → machine_inv ok_msg ok_piece n m'.
Proof.
  intros (Hs & Hr & _ & Hl) [[Hc Hu] H2 H3 H4]. unfold send_side in Hs. injection Hs as E1 E2 E3 E4.
  split; [split; [by rewrite E2|by rewrite Hl]|by eapply recv_inv_side|by rewrite E3|by rewrite E3, E4].
Qed.

Lemma unmoved_up_to_date n a a' b b' :
  unmoved a a' → unmoved b b' → up_to_date n a b → up_to_date n a' b'.
Proof.
  intros Ha Hb [H1 H2 H3 H4]. destruct (Ha) as (Hs & _). destruct (Hb) as (_ & Hr & _ & Hl).
  unfold send_side in Hs. unfold recv_side in Hr. injection Hs as E1 E2 E3 E4. injection Hr as F1 F2 F3 F4.
  split; [rewrite E4; by eapply unmoved_inv|by rewrite E4|by rewrite F4, E3|by rewrite Hl, E3].
Qed.

(* ------------------------------------------------------------------ *)
(** ** One frame *)
(* ------------------------------------------------------------------ *)

(** Nothing happened that a peer, the application or this file could observe. *)
Definition idle (p p' : CoreMachine * CoreOutput) : Prop :=
  unmoved p.1 p'.1 ∧ outbound_datagrams p'.2 = outbound_datagrams p.2 ∧ events p'.2 = events p.2.

Lemma idle_refl p : idle p p.
Proof. split; [apply unmoved_refl|done]. Qed.

Lemma idle_trans p q r : idle p q → idle q r → idle p r.
Proof. intros (H1 & H2 & H3) (G1 & G2 & G3). split; [by eapply unmoved_trans|]. split; congruence. Qed.

Lemma idle_modify f p : (∀ m, unmoved m (f m)) → wp (modify_self f) (λ o q, o = Ok () ∧ idle p q) p.
Proof. intros Hf. apply wp_modify_self. split; [done|]. by split. Qed.

(** A signal that announces nothing new, to a machine that is established. *)
Lemma signal_ignored now path np p :
  state p.1 = Established → np ≤ last_requested_end p.1 →
  wp (handle_msr_signal now path np PiggybackTlv) (λ o q, o = Ok () ∧ idle p q) p.
Proof.
  intros Hs Hn. unfold handle_msr_signal, in_state.
  rewrite bool_decide_eq_false_2 by done. cbn [st_when].
  wp_steps; zprop; try congruence; try (split; [done|]; by split). all: cbn in *; rewrite ?Hs in *; try done.
  all: zprop; lia.
Qed.

(** What follows the dispatch of a frame. *)
Definition piggyback (now path : Z) (f : Wire.WireFrame) : method () :=
  st_when (negb (bool_decide (Wire.message_type f = Wire.Msr))) (
    match find_msr_signal_tlv (Wire.tlvs f) with
    | Some (_, next_pending) => handle_msr_signal now path next_pending PiggybackTlv
    | None => mret ()
    end).

(** A frame of the association goes to its handler. *)
Lemma frame_runs now path f p Q :
  Wire.cid f = cid p.1 →
  (∀ q, idle p q → wp (dispatch now path f ;; piggyback now path f) Q q) → wp (on_frame now path f) Q p.
Proof.
  intros Hc HQ. unfold on_frame. wp_run. apply wp_reject; [rewrite Hc, Z.eqb_refl, andb_false_r; done|intros _].
  cbn [then_wp].
  assert (Hseq : ∀ (f : CoreMachine → CoreMachine) k q, (∀ m, unmoved m (f m)) → idle p q →
    (∀ q', idle p q' → wp k Q q') → wp (modify_self f ;; k) Q q).
  { intros g k q Hg Hq Hk. apply (wp_seq (idle p)); [|done]. eapply wp_mono, idle_modify; [|done].
    intros o q' [-> Hq']. split; [done|]. by eapply idle_trans. }
  apply Hseq; [done|apply idle_refl|intros q1 H1]. apply Hseq; [done|done|intros q2 H2].
  apply (wp_seq (idle p)); [|exact HQ]. unfold on_valid_peer_datagram.
  wp_steps; (split; [done|]); eapply idle_trans; eauto; by split.
Qed.

(** A datagram, from the execution of its frame. *)
Lemma datagram_runs now path bs f m (Q : CoreOutput → CoreMachine → Prop) :
  Wire.decode bs = Ok f →
  wp (on_frame now path f) (λ o p, o = Ok () ∧ Q p.2 p.1) (m, CoreOutput_default) →
  ∃ out m', on_datagram now path bs m = (Ok out, m') ∧ Q out m'.
Proof. intros Hd HQ. apply run_ok. unfold on_datagram_body. by rewrite Hd. Qed.

Lemma find_signal a b : is_u64 a → is_u64 b → find_msr_signal_tlv [encode_msr_signal_tlv a b] = Some (a, b).
Proof. intros Ha Hb. unfold find_msr_signal_tlv. cbn. apply decode_msr_payload_encode; done. Qed.

(** The advertisement of a queue that is longer than what was requested: it is requested. *)
Definition advertisement (c x n : Z) : Wire.WireFrame := Wire.new Wire.Msr x00 c (encode_msr_payload x n) [].

Definition request (c s e : Z) (m : CoreMachine) : Wire.WireFrame :=
  Wire.new Wire.RequestRange x00 c (encode_range s e) [encode_msr_signal_tlv (last_ordered_rx m) (max_pending_id m)].

(** The reply to an advertisement: before the request, a client may tell that it is there. *)
Definition replies (m : CoreMachine) (s e : Z) (ds : list OutboundDatagram) : Prop :=
  ∃ alive d, ds = alive ++ [d] ∧
    (alive = [] ∨ role m = Client ∧ ∃ d', alive = [d'] ∧
       Wire.decode (bytes d') = Ok (advertisement (cid m) (last_ordered_rx m) (max_pending_id m))) ∧
    Wire.decode (bytes d) = Ok (request (cid m) s e m).

(** A method that at most tells the peer that its client is there. *)
Definition told (p q : CoreMachine * CoreOutput) : Prop :=
  unmoved p.1 q.1 ∧ events q.2 = events p.2 ∧
  ∃ alive, outbound_datagrams q.2 = outbound_datagrams p.2 ++ alive ∧
    (alive = [] ∨ role p.1 = Client ∧ ∃ d, alive = [d] ∧
       Wire.decode (bytes d) = Ok (advertisement (cid p.1) (last_ordered_rx p.1) (max_pending_id p.1))).

Lemma idle_told p q : idle p q → told p q.
Proof. intros (H1 & H2 & H3). split; [done|]. split; [done|]. exists []. rewrite app_nil_r. split; [done|by left]. Qed.

(** The first half of a signal in an MSR frame. *)
Lemma keepalive_told path p :
  is_u64 (cid p.1) → role p.1 = Client →
  wp (modify_self (λ m, m <| client_server_msr_rx_since_last_keepalive :=
        sat_add U32_MAX (client_server_msr_rx_since_last_keepalive m) 1 |>) ;;
      m ← self;
      st_when (CLIENT_KEEPALIVE_EVERY_SERVER_MSR <=? client_server_msr_rx_since_last_keepalive m) (
        modify_self (λ m, m <| client_server_msr_rx_since_last_keepalive := 0 |>) ;;
        m ← self;
        send_frame path (encode_frame Wire.Msr (cid m) (encode_msr_payload (last_ordered_rx m) (max_pending_id m)))))
    (λ o q, o = Ok () ∧ told p q) p.
Proof.
  intros Hc Hr. wp_run. apply wp_when; intros Hk; [|split; [done|apply idle_told; by split]].
  wp_run.
  split; [done|]. split; [by split|]. split; [done|]. eexists. split; [done|]. right. split; [done|].
  eexists. split; [done|]. exact Hbs.
Qed.

(** What is left of a signal after a client has taken notice of it. *)
Lemma signal_heard now path np p (Q : outcome CoreError () → CoreMachine * CoreOutput → Prop) :
  is_u64 (cid p.1) → state p.1 = Established →
  (∀ q, told p q → wp (
     m ← self;
     st_when (in_state Established m && (last_requested_end m <? np)) (
       let start := add64 (last_requested_end m) 1 in
       let end_ := np in
       modify_self (λ m, m <| last_requested_end := end_ |>) ;;
       m ← self;
       send_frame path
         (encode_frame_with_tlvs Wire.RequestRange (cid m) (encode_range start end_)
            [encode_msr_signal_tlv (last_ordered_rx m) (max_pending_id m)]) ;;
       push_event (RequestRangeSent start end_))) Q q) →
  wp (handle_msr_signal now path np ControlMsrFrame) Q p.
Proof.
  intros Hc Hs HQ. unfold handle_msr_signal. apply wp_bind, wp_self. cbn [then_wp].
  apply (wp_seq (told p)).
  - apply wp_when; intros Hr; [|split; [done|apply idle_told, idle_refl]]. apply is_role_true in Hr.
    apply (wp_seq (idle p)); [by apply idle_modify|intros q1 Hq1].
    rewrite bool_decide_eq_true_2 by done. cbn [st_when].
    assert (E : role q1.1 = role p.1 ∧ cid q1.1 = cid p.1 ∧ state q1.1 = state p.1 ∧ last_ordered_rx q1.1 = last_ordered_rx p.1 ∧
      max_pending_id q1.1 = max_pending_id p.1).
    { destruct Hq1 as ((S1 & R1 & St1 & _) & _). injection S1 as E1 E2 E3 E4. injection R1 as F1 F2 F3 F4.
      unfold max_pending_id. rewrite E4. by split_and!. }
    destruct E as (E1 & E2 & E3 & E4 & E5).
    apply (wp_seq (told p)).
    { eapply wp_mono, keepalive_told; [|congruence|congruence]. intros o q [-> (U & Ev & al & Hd & Hal)]. split; [done|].
      destruct Hq1 as (U1 & D1 & Ev1). split; [by eapply unmoved_trans|]. split; [congruence|].
      exists al. split; [congruence|]. by rewrite E1, E2, E4, E5 in Hal. }
    intros q2 Hq2. wp_run. apply wp_when; [|done]. intros Hre. exfalso. apply in_state_true in Hre.
    destruct Hq2 as ((_ & _ & St & _) & _). congruence.
  - intros q1 Hq1. apply wp_bind, wp_self. cbn [then_wp].
    apply (wp_seq (told p)); [|exact HQ]. apply wp_when; intros _; [|done].
    apply wp_modify_self. split; [done|]. destruct Hq1 as (U1 & Ev1 & al & Hd & Hal).
    split; [eapply unmoved_trans; [exact U1|by split_and!]|]. split; [done|]. by exists al.
Qed.

(** An advertisement reaches the last part of its signal. *)
Lemma advertisement_heard now path bs x n m (Q : CoreOutput → CoreMachine → Prop) :
  is_u64 (cid m) → is_u64 x → is_u64 n → state m = Established →
  Wire.decode bs = Ok (advertisement (cid m) x n) →
  (∀ q, told (m, CoreOutput_default) q → wp (
     m ← self;
     st_when (in_state Established m && (last_requested_end m <? n)) (
       let start := add64 (last_requested_end m) 1 in
       let end_ := n in
       modify_self (λ m, m <| last_requested_end := end_ |>) ;;
       m ← self;
       send_frame path
         (encode_frame_with_tlvs Wire.RequestRange (cid m) (encode_range start end_)
            [encode_msr_signal_tlv (last_ordered_rx m) (max_pending_id m)]) ;;
       push_event (RequestRangeSent start end_))) (λ o p, o = Ok () ∧ Q p.2 p.1) q) →
  ∃ out m', on_datagram now path bs m = (Ok out, m') ∧ Q out m'.
Proof.
  intros Hc Hx Hn Hs Hd HQ. eapply datagram_runs; [exact Hd|]. apply frame_runs; [done|]. intros q Hq.
  assert (E : cid q.1 = cid m ∧ state q.1 = Established).
  { destruct Hq as ((S1 & _ & St & _) & _). injection S1 as E1 E2 E3 E4. by rewrite E2, St. }
  apply (wp_seq (λ p, Q p.2 p.1)); [|intros q' Hq'; cbn; by split].
  unfold dispatch. apply wp_bind, wp_self. cbn [then_wp Wire.message_type Wire.new advertisement].
  unfold handle_msr, advertisement. cbn [Wire.payload Wire.tlvs Wire.new]. rewrite decode_msr_payload_encode by done.
  apply wp_bind, wp_lift. cbn [then_wp ok_or]. apply (wp_seq (idle q)); [apply wp_ret; split; [done|apply idle_refl]|].
  intros q1 Hq1. pose proof (idle_trans _ _ _ Hq Hq1) as Hq2.
  assert (E' : role q1.1 = role m ∧ cid q1.1 = cid m ∧ state q1.1 = Established ∧ last_ordered_rx q1.1 = last_ordered_rx m ∧
    max_pending_id q1.1 = max_pending_id m).
  { destruct Hq2 as ((S1 & R1 & St & _) & _). injection S1 as E1 E2 E3 E4. injection R1 as F1 F2 F3 F4.
    unfold max_pending_id. by rewrite E1, E2, St, E4, F4. }
  destruct E' as (E1 & E2 & E3 & E4 & E5).
  apply signal_heard; [by rewrite E2|done|]. intros q3 (U & Ev & al & Ds & Hal). apply HQ.
  destruct Hq2 as (U2 & D2 & Ev2). split; [by eapply unmoved_trans|]. split; [congruence|].
  exists al. split; [congruence|]. by rewrite E1, E2, E4, E5 in Hal.
Qed.

(** An advertisement of more than was requested is answered by a request for the rest. *)
Lemma advertisement_requested now path bs x n m :
  in_u64 m → is_u64 x → is_u64 n → state m = Established → last_requested_end m < n →
  Wire.decode bs = Ok (advertisement (cid m) x n) →
  ∃ out m', on_datagram now path bs m = (Ok out, m') ∧
    replies m (last_requested_end m + 1) n (outbound_datagrams out) ∧ received (events out) = [] ∧
    send_side m' = send_side m ∧ recv_side m' = recv_side m ∧ state m' = Established ∧ last_requested_end m' = n.
Proof.
  intros [Hc Hr] Hx Hn Hs Hlt Hd. eapply (advertisement_heard now path bs x n m); [done..|]. intros q (U & Ev & al & Ds & Hal).
  cbn [fst snd] in *. destruct U as (S1 & R1 & St & L1). pose proof S1 as S1'. pose proof R1 as R1'.
  injection S1' as E1 E2 E3 E4. injection R1' as F1 F2 F3 F4.
  apply wp_bind, wp_self. cbn [then_wp]. unfold in_state. rewrite St, L1, Hs, bool_decide_eq_true_2 by done. zdec.
  cbn [andb st_when]. cbn zeta. assert (Hcq : is_u64 (cid q.1)) by by rewrite E2.
  wp_run. split; [done|].
  split; [|split; [|split_and!; [exact S1|exact R1|cbn; congruence|done]]].
  - exists al, (mkOutboundDatagram path bs0). cbn. rewrite Ds. split; [done|]. split; [done|].
    cbn in Hbs. unfold request. rewrite <-E2, <-F4. unfold max_pending_id in *. cbn in Hbs. rewrite E4 in Hbs.
    rewrite Hbs. do 2 f_equal. unfold encode_range, add64, wrap64. by rewrite Z.mod_small by ulia.
  - cbn. rewrite Ev. done.
Qed.

(** One of no more is left at that, by a server. *)
Lemma advertisement_ignored now path bs x n m :
  in_u64 m → is_u64 x → is_u64 n → role m = Server → state m = Established → n ≤ last_requested_end m →
  Wire.decode bs = Ok (advertisement (cid m) x n) →
  ∃ out m', on_datagram now path bs m = (Ok out, m') ∧ outbound_datagrams out = [] ∧ events out = [] ∧ unmoved m m'.
Proof.
  intros [Hc Hr] Hx Hn Hro Hs Hle Hd. eapply (advertisement_heard now path bs x n m); [done..|]. intros q (U & Ev & al & Ds & Hal).
  cbn [fst snd] in *. destruct (U) as (S1 & R1 & St & L1).
  apply wp_bind, wp_self. cbn [then_wp]. rewrite L1. zdec. rewrite andb_false_r. cbn [st_when]. apply wp_ret.
  split; [done|]. rewrite Ds. split; [|by split]. destruct Hal as [->|[Hro' _]]; [done|]. cbn in Hro'. congruence.
Qed.

Lemma idle_fields p q : idle p q →
  role q.1 = role p.1 ∧ cid q.1 = cid p.1 ∧ outbound_messages q.1 = outbound_messages p.1 ∧
  state q.1 = state p.1 ∧ last_ordered_rx q.1 = last_ordered_rx p.1 ∧ last_requested_end q.1 = last_requested_end p.1.
Proof.
  intros ((S & R & St & L) & _). injection S as E1 E2 E3 E4. injection R as F1 F2 F3 F4. by split_and!.
Qed.

Lemma unmoved_queue m m' path s e :
  unmoved m m' → (queued_in m' s e ≫= λ q, message_datagrams m' path q.1 q.2) =
                 (queued_in m s e ≫= λ q, message_datagrams m path q.1 q.2).
Proof.
  intros (S & R & _). injection S as E1 E2 E3 E4. injection R as F1 F2 F3 F4.
  unfold queued_in, message_datagrams, message_frames, max_pending_id. by rewrite E2, E4, F4.
Qed.

(** A request is answered by the queued messages of its range, and by nothing else. *)
Lemma request_answered now path bs s e r m :
  in_u64 m → is_u64 s → is_u64 e → is_u64 (last_ordered_rx r) → is_u64 (max_pending_id r) → state m = Established →
  (∀ id msg, outbound_messages m !! id = Some msg → sendable msg) → max_pending_id r ≤ last_requested_end m →
  Wire.decode bs = Ok (request (cid m) s e r) →
  ∃ out m', on_datagram now path bs m = (Ok out, m') ∧
    outbound_datagrams out = (queued_in m s e ≫= λ q, message_datagrams m path q.1 q.2) ∧
    events out = [] ∧ unmoved m m'.
Proof.
  intros [Hc Hr] Hs He Hl Hp Hst Hsend Hle Hd. eapply datagram_runs; [exact Hd|]. apply frame_runs; [done|].
  intros q Hq. destruct (idle_fields _ _ Hq) as (E1 & E2 & E3 & E4 & E5 & E6). cbn [fst snd] in *.
  destruct q as [mq out]. cbn [fst snd] in *.
  apply (wp_seq (λ p, p = (mq, with_datagrams out (queued_in mq s e ≫= λ q, message_datagrams mq path q.1 q.2)))).
  - unfold dispatch, in_state. apply wp_bind, wp_self. cbn [then_wp Wire.message_type Wire.new request].
    cbn [fst]. rewrite E4, Hst, bool_decide_eq_true_2 by done. cbn [st_when]. unfold wp.
    rewrite request_range_scans_queue; [|split; [by rewrite E2|by rewrite E6]|intros id msg; rewrite E3; apply Hsend].
    cbn [Wire.payload Wire.new request]. by rewrite decode_range_encode.
  - intros p ->. unfold piggyback, request. cbn [Wire.message_type Wire.tlvs Wire.new].
    rewrite bool_decide_eq_false_2 by done. cbn [negb st_when]. rewrite find_signal by done.
    eapply wp_mono, signal_ignored; [|cbn; congruence|cbn; congruence]. intros o p' [-> (U & D & Ev)]. split; [done|].
    cbn [fst snd] in *. destruct Hq as (U1 & D1 & Ev1). cbn [fst snd] in *. rewrite D, Ev. cbn. rewrite D1, Ev1.
    split; [by apply unmoved_queue|]. split; [done|]. by eapply unmoved_trans.
Qed.

(** Data of the peer that announces nothing new is taken without an answer. *)
Lemma data_taken sent n now path bs f x np m :
  machine_inv (sent_msg sent) (sent_piece sent) n m → n + 1 < U64_MAX → state m = Established →
  Wire.decode bs = Ok f → Wire.cid f = cid m → genuine sent f →
  (Wire.message_type f = Wire.Data ∨ Wire.message_type f = Wire.Fragment) →
  find_msr_signal_tlv (Wire.tlvs f) = Some (x, np) → np ≤ last_requested_end m →
  ∃ out m', on_datagram now path bs m = (Ok out, m') ∧ outbound_datagrams out = [] ∧
    send_side m' = send_side m ∧ state m' = Established ∧ last_requested_end m' = last_requested_end m.
Proof.
  intros [[Hc Hr] Hi _ _] Hn Hst Hd Hcid Hg Hty Hsig Hle. eapply datagram_runs; [exact Hd|]. apply frame_runs; [done|].
  intros q Hq. destruct (idle_fields _ _ Hq) as (E1 & E2 & E3 & E4 & E5 & E6). destruct (Hq) as ((S1 & R1 & _ & _) & D1 & _).
  cbn [fst snd] in *. assert (Hiq : recv_inv (sent_msg sent) (sent_piece sent) n q.1) by by eapply recv_inv_side.
  change (outbound_datagrams q.2 = []) in D1.
  apply (wp_seq (λ p, send_side p.1 = send_side m ∧ state p.1 = Established ∧
    last_requested_end p.1 = last_requested_end m ∧ outbound_datagrams p.2 = [])).
  - pose proof (wp_data_dispatch sent n now path f q Hiq ltac:(congruence) Hg Hty) as (Ho & _).
    unfold dispatch in *. revert Ho. unfold wp. rewrite (st_bind_ok self _ q q.1 q) by done.
    assert (Hin : in_state Established q.1 = true) by (apply in_state_true; congruence). rewrite Hin.
    pose proof (genuine_data_ok _ _ Hg) as Hok. unfold data_ok in Hok.
    assert (Hrec : ∀ o q', receives (sent_msg sent) (sent_piece sent) (n + 1) q o q' → is_err o = false →
      o = Ok () ∧ send_side q'.1 = send_side m ∧ state q'.1 = Established ∧
      last_requested_end q'.1 = last_requested_end m ∧ outbound_datagrams q'.2 = []).
    { intros [[]|e|] q' [_ H] He; [|done..]. destruct H as (ds & [(G1 & G2 & G3) _ G5 _ _] & _). split; [done|].
      split_and!; congruence. }
    destruct Hty as [Ht|Ht]; rewrite Ht in *; cbn [st_when]; apply Hrec.
    + by apply wp_handle_data.
    + apply wp_handle_fragment; [apply sent_merge_ok|done|done|done].
  - intros p (G1 & G2 & G3 & G4). unfold piggyback. rewrite bool_decide_eq_false_2 by (by destruct Hty as [-> | ->]).
    cbn [negb st_when]. rewrite Hsig. eapply wp_mono, signal_ignored; [|done|lia].
    intros o p' [-> ((S & R & St & L) & D & _)]. split; [done|]. split_and!; congruence.
Qed.

(* ------------------------------------------------------------------ *)
(** ** Runs of datagrams *)
(* ------------------------------------------------------------------ *)

Lemma carry_cons now path d ds m :
  carry now path (d :: ds) m =
    (let '(o, m1) := on_datagram now path (bytes d) m in
     let '(os, m2) := carry now path ds m1 in (o :: os, m2)).
Proof. done. Qed.

(** Datagrams of association [c] that are all taken without an error by a machine that stays
    established: its outputs, and the machine after them. *)
Inductive smooth (c now path : Z) : list OutboundDatagram → CoreMachine → list CoreOutput → CoreMachine → Prop :=
| smooth_nil m : smooth c now path [] m [] m
| smooth_cons d ds f out outs m m1 m2 :
    Wire.decode (bytes d) = Ok f → Wire.cid f = c → on_datagram now path (bytes d) m = (Ok out, m1) →
    state m1 = Established → smooth c now path ds m1 outs m2 → smooth c now path (d :: ds) m (out :: outs) m2.

Lemma smooth_one c now path d f out m m1 :
  Wire.decode (bytes d) = Ok f → Wire.cid f = c → on_datagram now path (bytes d) m = (Ok out, m1) →
  state m1 = Established → smooth c now path [d] m [out] m1.
Proof. intros. econstructor; eauto. constructor. Qed.

Lemma smooth_app c now path ds ds' m m1 m2 outs outs' :
  smooth c now path ds m outs m1 → smooth c now path ds' m1 outs' m2 → smooth c now path (ds ++ ds') m (outs ++ outs') m2.
Proof. induction 1; [done|]. intros H'. cbn. econstructor; eauto. Qed.

Lemma smooth_carry c now path ds m outs m' : smooth c now path ds m outs m' → carry now path ds m = (map Ok outs, m').
Proof. induction 1 as [|d ds f out outs m m1 m2 _ _ Hrun _ _ IH]; [done|]. by rewrite carry_cons, Hrun, IH. Qed.

(** What comes out of a list of successful calls. *)
Definition all_datagrams (outs : list CoreOutput) : list OutboundDatagram := outs ≫= outbound_datagrams.
Definition all_events (outs : list CoreOutput) : list Event := outs ≫= events.

Lemma run_datagrams_oks outs : run_datagrams (map Ok outs) = all_datagrams outs.
Proof. unfold run_datagrams, all_datagrams. induction outs as [|o outs IH]; [done|]. cbn. by rewrite <-IH. Qed.

Lemma run_received_oks outs : run_received (map Ok outs) = received (all_events outs).
Proof.
  unfold run_received, all_events. induction outs as [|o outs IH]; [done|]. cbn.
  by rewrite received_app, <-IH.
Qed.

Lemma all_datagrams_app os os' : all_datagrams (os ++ os') = all_datagrams os ++ all_datagrams os'.
Proof. apply bind_app. Qed.

Lemma all_events_app os os' : all_events (os ++ os') = all_events os ++ all_events os'.
Proof. apply bind_app. Qed.

Lemma all_datagrams_one out : all_datagrams [out] = outbound_datagrams out.
Proof. apply app_nil_r. Qed.

Lemma all_events_one out : all_events [out] = events out.
Proof. apply app_nil_r. Qed.

Lemma run_received_app os os' : run_received (os ++ os') = run_received os ++ run_received os'.
Proof. apply bind_app. Qed.

Lemma run_requested_app os os' : run_requested (os ++ os') = run_requested os ++ run_requested os'.
Proof. apply bind_app. Qed.

Lemma run_datagrams_one out : run_datagrams [Ok out] = outbound_datagrams out.
Proof. apply app_nil_r. Qed.

(** Data of [sent] that announces no more than [np]. *)
Definition data_upto (c : Z) (sent : gmap Z (list byte)) (np : Z) (bs : list byte) : Prop :=
  ∃ f x np', Wire.decode bs = Ok f ∧ Wire.cid f = c ∧ genuine sent f ∧
    (Wire.message_type f = Wire.Data ∨ Wire.message_type f = Wire.Fragment) ∧
    find_msr_signal_tlv (Wire.tlvs f) = Some (x, np') ∧ np' ≤ np.

Lemma data_upto_traffic c sent np bs : data_upto c sent np bs → data_traffic c sent bs.
Proof. intros (f & x & np' & H1 & H2 & H3 & H4 & _). by exists f. Qed.

Lemma data_upto_input_ok c sent np now path bs :
  data_upto c sent np bs → input_ok (sent_msg sent) (sent_piece sent) (InDatagram now path bs).
Proof.
  intros (f & _ & _ & Hd & _ & Hg & _) f' Hf'. assert (f' = f) as -> by congruence. by apply genuine_data_ok.
Qed.

Lemma data_smooth sent now path ds : ∀ n m,
  machine_inv (sent_msg sent) (sent_piece sent) n m → n + zlen ds < U64_MAX → state m = Established →
  Forall (λ d, data_upto (cid m) sent (last_requested_end m) (bytes d)) ds →
  ∃ outs m', smooth (cid m) now path ds m outs m' ∧ all_datagrams outs = [] ∧
    send_side m' = send_side m ∧ state m' = Established ∧ last_requested_end m' = last_requested_end m.
Proof.
  induction ds as [|d ds IH]; intros n m Hm Hn Hst Hds.
  { exists [], m. split_and!; try done. constructor. }
  rewrite zlen_cons in Hn. pose proof (zlen_nonneg ds). apply Forall_cons in Hds as [Hd Hds].
  destruct (Hd) as (f & x & np & Hdec & Hc & Hg & Hty & Hsig & Hle).
  destruct (data_taken sent n now path (bytes d) f x np m) as (out & m1 & Hrun & Hout & Hs1 & Hst1 & Hl1); [done|lia|done..|].
  destruct (step_progress _ _ (sent_merge_ok sent) n (InDatagram now path (bytes d)) m (Ok out) m1) as [Hm1 _];
    [done|lia|by eapply data_upto_input_ok|done|].
  assert (Hcid : cid m1 = cid m) by (unfold send_side in Hs1; congruence).
  destruct (IH (n + 1) m1) as (outs & m' & Hcar & Hquiet & Hs' & Hst' & Hl'); [done|lia|done|by rewrite Hcid, Hl1|].
  exists (out :: outs), m'. rewrite Hcid in Hcar. split; [by econstructor|].
  split_and!; [|congruence|done|congruence]. unfold all_datagrams in *. rewrite bind_cons. by rewrite Hout, Hquiet.
Qed.

(* ------------------------------------------------------------------ *)
(** ** The steps of an exchange *)
(* ------------------------------------------------------------------ *)

(** A message given to an established machine is advertised. *)
Lemma send_advertises msg m ok_msg ok_piece n :
  machine_inv ok_msg ok_piece n m → n + 1 < U64_MAX → state m = Established → is_u64 (last_ordered_rx m) →
  ∃ out m' d x, on_api_send msg m = (Ok out, m') ∧ outbound_datagrams out = [d] ∧ received (events out) = [] ∧
    is_u64 x ∧ Wire.decode (bytes d) = Ok (advertisement (cid m) x (next_outbound_id m)) ∧
    machine_inv ok_msg ok_piece (n + 1) m' ∧
    role m' = role m ∧ cid m' = cid m ∧ next_outbound_id m' = next_outbound_id m + 1 ∧
    outbound_messages m' = <[next_outbound_id m := msg]> (outbound_messages m) ∧
    recv_side m' = recv_side m ∧ state m' = Established ∧ last_requested_end m' = last_requested_end m.
Proof.
  intros Hm Hn Hst Hl.
  destruct (on_api_send msg m) as [o m'] eqn:Hrun.
  destruct (send_progress ok_msg ok_piece n msg m o m' Hm Hn Hrun) as [Hm' Hp].
  pose proof (pg_outbound _ _ _ _ _ Hp) as [Hq Hnx]. pose proof (pg_identity _ _ _ _ _ Hp) as [Hr Hc].
  assert (Hc64 : is_u64 (cid m)) by apply Hm.
  destruct (run_ok (on_api_send_body msg) m (λ out m', ∃ d x, outbound_datagrams out = [d] ∧ received (events out) = [] ∧
    is_u64 x ∧ Wire.decode (bytes d) = Ok (advertisement (cid m) x (max_pending_id m')) ∧
    recv_side m' = recv_side m ∧ state m' = Established ∧ last_requested_end m' = last_requested_end m)) as
    (out & m1 & Hrun' & d & x & Ho & He & Hx & Hd & Hrs & Hs & Hlr).
  { unfold on_api_send_body. wp_run. unfold in_state. cbn. rewrite Hst, bool_decide_eq_true_2 by done. cbn [st_when].
    destruct (is_role Client _); wp_run; (split; [done|]); eexists _, _; (split; [done|]); (split; [done|]);
      (split; [|split; [exact Hbs|by split_and!]]); done. }
  unfold on_api_send in Hrun. rewrite Hrun in Hrun'. injection Hrun' as -> ->.
  rewrite (max_pending _ _ _ _ Hm'), Hnx, Z.add_simpl_r in Hd.
  exists out, m1, d, x. by split_and!.
Qed.

(** The number of datagrams of a message. *)
Definition frame_count (msg : list byte) : Z := if zlen msg <=? 992 then 1 else div_ceil (zlen msg) CHUNK_SIZE.

Lemma message_datagrams_count m path id msg : zlen (message_datagrams m path id msg) = frame_count msg.
Proof.
  unfold message_datagrams, frame_count, message_frames, zlen. rewrite length_map.
  destruct (Z.of_nat (length msg) <=? 992); [done|]. rewrite length_imap.
  pose proof (chunks_of_count CHUNK_SIZE msg) as H. unfold zlen in H. by rewrite H.
Qed.

Lemma frame_count_pos msg : 1 ≤ frame_count msg.
Proof.
  unfold frame_count. destruct (zlen msg <=? 992) eqn:Hl; zprop; [done|]. unfold div_ceil. change CHUNK_SIZE with 988.
  apply Z.div_le_lower_bound; lia.
Qed.

(** The frames of a message announce the end of the queue. *)
Lemma message_frames_upto m id msg d path :
  in_u64 m → is_u64 id → is_u64 (last_ordered_rx m) → is_u64 (max_pending_id m) →
  outbound_messages m !! id = Some msg → sendable msg → d ∈ message_datagrams m path id msg →
  data_upto (cid m) (outbound_messages m) (max_pending_id m) (bytes d).
Proof.
  intros Hm Hid Hl Hp Hmsg Hs Hd. unfold message_datagrams in Hd. apply list_elem_of_fmap in Hd as (f & -> & Hf).
  destruct (message_frames_spec m id msg f Hm Hid Hmsg Hs Hf) as (H1 & H2 & H3 & H4).
  exists f, (last_ordered_rx m), (max_pending_id m). split_and!; try done.
  assert (Wire.tlvs f = [encode_msr_signal_tlv (last_ordered_rx m) (max_pending_id m)]) as ->; [|by apply find_signal].
  unfold message_frames in Hf. destruct (zlen msg <=? 992).
  - apply list_elem_of_singleton in Hf as ->. done.
  - apply list_elem_of_lookup in Hf as [i Hf]. rewrite list_lookup_imap in Hf.
    destruct (_ !! i) as [c|]; [|done]. by injection Hf as <-.
Qed.

Lemma seqZ_one s : seqZ s 1 = [s].
Proof. rewrite seqZ_cons by lia. by rewrite seqZ_nil. Qed.

Lemma queued_one m id msg : outbound_messages m !! id = Some msg → queued_in m id id = [(id, msg)].
Proof.
  intros Hid. unfold queued_in. pose proof (range_entries (outbound_messages m) id 1) as H.
  rewrite seqZ_one in H. cbn in H. rewrite Hid in H. cbn in H. rewrite H. apply list_filter_iff. intros q. lia.
Qed.

(** The answer to the request of a range, and the number of its frames. *)
Definition answer (m : CoreMachine) (path s e : Z) : list OutboundDatagram :=
  queued_in m s e ≫= λ q, message_datagrams m path q.1 q.2.

Definition backlog (m : CoreMachine) (s e : Z) : Z := foldr (λ q n, frame_count q.2 + n) 0 (queued_in m s e).

Lemma answer_count m path s e : zlen (answer m path s e) = backlog m s e.
Proof.
  unfold answer, backlog. induction (queued_in m s e) as [|[id msg] l IH]; [done|].
  rewrite bind_cons, zlen_app, IH. cbn. by rewrite message_datagrams_count.
Qed.

Lemma backlog_one m id msg : outbound_messages m !! id = Some msg → backlog m id id = frame_count msg.
Proof. intros Hid. unfold backlog. rewrite (queued_one _ _ _ Hid). cbn. lia. Qed.

(** A list of entries of a map is given by its keys. *)
Lemma entries_by_keys (m : gmap Z (list byte)) (l : list (Z * list byte)) :
  Forall (λ q, m !! q.1 = Some q.2) l → l = omap (λ id, (id,.) <$> m !! id) l.*1.
Proof. induction 1 as [|[id msg] l Hq _ IH]; [done|]. cbn in *. rewrite Hq. cbn. by rewrite <-IH. Qed.

(** The rest of a queue is delivered, and ends in silence. *)
Lemma queue_arrives now path n m b k id pth :
  machine_inv (sent_msg (outbound_messages m)) (sent_piece (outbound_messages m)) n b → n + backlog m (k + 1) id < U64_MAX →
  in_u64 m → is_u64 (last_ordered_rx m) → is_u64 id → max_pending_id m = id →
  (∀ id msg, outbound_messages m !! id = Some msg → sendable msg) →
  (∀ k, is_Some (outbound_messages m !! k) ↔ 1 ≤ k < id + 1) → cid m = cid b → state b = Established →
  last_ordered_rx b = k → k ≤ id → last_requested_end b = id →
  ∃ outs b', smooth (cid b) now path (answer m pth (k + 1) id) b outs b' ∧
    all_datagrams outs = [] ∧ received (all_events outs) = queued_in m (k + 1) id ∧
    machine_inv (sent_msg (outbound_messages m)) (sent_piece (outbound_messages m)) (n + backlog m (k + 1) id) b' ∧
    send_side b' = send_side b ∧ state b' = Established ∧ last_ordered_rx b' = id ∧ last_requested_end b' = id.
Proof.
  intros Hb Hn Hm Hl Hid Hp Hsend Hq Hcid Hst Hlast Hk Hreq.
  set (ds := answer m pth (k + 1) id). assert (Hk0 : 0 ≤ k) by (rewrite <-Hlast; apply Hb).
  assert (Hupto : Forall (λ d, data_upto (cid b) (outbound_messages m) (last_requested_end b) (bytes d)) ds).
  { apply Forall_forall. intros d [[i msg] [Hd Hq']]%list_elem_of_bind. rewrite Hreq, <-Hcid, <-Hp.
    apply list_elem_of_filter in Hq' as [Hi Hq'%elem_of_bt_entries]. cbn in *.
    assert (Hui : is_u64 i) by ulia. by eapply (message_frames_upto m i msg); eauto; rewrite Hp. }
  pose proof (answer_count m pth (k + 1) id) as Hcount. fold ds in Hcount.
  destruct (data_smooth _ now path ds n b Hb) as (outs & b' & Hsm & Hquiet & Hside & Hst' & Hreq'); [lia|done|done|].
  exists outs, b'. split; [done|]. split; [done|]. apply smooth_carry in Hsm as Hcar. rewrite <-run_received_oks.
  set (os := map Ok outs : list (outcome CoreError CoreOutput)) in *.
  set (l := map (λ d, (now, path, bytes d)) ds).
  assert (Hl1 : carry now path ds b = run_inputs (arrivals l) b) by (unfold carry, arrivals, l; by rewrite map_map).
  assert (Hl2 : l.*2 = map bytes ds) by (unfold l; by rewrite <-list_fmap_compose).
  assert (Hlen : zlen l = zlen ds) by (unfold l, zlen; by rewrite length_map).
  destruct (run_summary _ _ (sent_merge_ok _) n (arrivals l) b os b' Hb) as [Hb' _];
    [unfold arrivals, zlen in *; rewrite length_map; lia| |by rewrite <-Hl1|].
  { unfold arrivals, l. rewrite map_map. apply Forall_map. eapply Forall_impl; [exact Hupto|].
    intros d. apply data_upto_input_ok. }
  destruct (traffic_delivered (outbound_messages m) n b l id Hb) as (Hge & Hids & Hpay); [lia|ulia|done|done| | |].
  { apply Forall_forall. intros [[? ?] bs] Hin. unfold l in Hin. apply list_elem_of_fmap in Hin as (d & [= -> -> ->] & Hd).
    rewrite Forall_forall in Hupto. eapply data_upto_traffic, Hupto, Hd. }
  { intros i Hi. rewrite Hl2. eapply answer_carries; [done| |lia|apply Hq; lia].
    intros k' pl Hk'. split; [|by eapply Hsend]. assert (1 ≤ k' < id + 1) by (apply Hq; by eexists). ulia. }
  rewrite <-Hl1, Hcar in Hge, Hids, Hpay. cbn [fst snd] in *. rewrite Hlast in Hids.
  assert (Heq : last_ordered_rx b' = id).
  { destruct (decide (last_ordered_rx b' = id)) as [|Hne]; [done|exfalso].
    assert (Hin : id + 1 ∈ (run_received os).*1) by (rewrite Hids; apply elem_of_seqZ; lia).
    apply list_elem_of_fmap in Hin as ([i pl] & Hi & Hin). rewrite Forall_forall in Hpay. specialize (Hpay _ Hin). cbn in *.
    subst i. assert (1 ≤ id + 1 < id + 1) by (apply Hq; by eexists). lia. }
  split_and!; [|unfold arrivals, zlen in *; rewrite length_map, Hlen, Hcount in Hb'; exact Hb'|done|done|done|congruence].
  rewrite (entries_by_keys _ _ Hpay), Hids, Heq, range_entries. unfold queued_in.
  apply list_filter_iff. intros q. lia.
Qed.

(* ------------------------------------------------------------------ *)
(** ** The exchange *)
(* ------------------------------------------------------------------ *)

(** What a client adds to its request is left at that by the server. *)
Lemma replies_smooth now path s e b ds m :
  in_u64 m → is_u64 s → is_u64 e → is_u64 (last_ordered_rx b) → is_u64 (max_pending_id b) →
  state m = Established → cid m = cid b → role m ≠ role b →
  (∀ id msg, outbound_messages m !! id = Some msg → sendable msg) → max_pending_id b ≤ last_requested_end m →
  replies b s e ds →
  ∃ outs m', smooth (cid m) now path ds m outs m' ∧ all_events outs = [] ∧
    all_datagrams outs = (queued_in m s e ≫= λ q, message_datagrams m path q.1 q.2) ∧ unmoved m m'.
Proof.
  intros Hm Hs He Hl Hp Hst Hcid Hrole Hsend Hle (alive & d & -> & Hal & Hd).
  assert (Halive : ∃ outs m', smooth (cid m) now path alive m outs m' ∧ all_events outs = [] ∧ all_datagrams outs = [] ∧
    unmoved m m').
  { destruct Hal as [->|(Hrb & d' & -> & Hd')]; [exists [], m; split_and!; try done; constructor|].
    assert (Hrm : role m = Server) by (destruct (role m); congruence). rewrite <-Hcid in Hd'.
    destruct (advertisement_ignored now path (bytes d') _ _ m Hm Hl Hp Hrm Hst Hle Hd') as (out & m' & Hrun & Ho & Hev & Hu).
    exists [out], m'. split; [eapply smooth_one; [exact Hd'|done|done|by destruct Hu as (_ & _ & -> & _)]|].
    by rewrite all_events_one, all_datagrams_one, Hev, Ho. }
  destruct Halive as (outs & m1 & Hsm & Hev & Hdat & Hu).
  pose proof Hu as (S & R & St & L). injection S as E1 E2 E3 E4.
  destruct (request_answered now path (bytes d) s e b m1) as (out & m2 & Hrun & Ho & Hev2 & Hu2); try done.
  - destruct Hm as [Hm1 Hm2]. split; [by rewrite E2|by rewrite L].
  - congruence.
  - by rewrite E4.
  - by rewrite L.
  - by rewrite E2, Hcid.
  - exists (outs ++ [out]), m2. split.
    { eapply smooth_app; [exact Hsm|]. eapply smooth_one; [exact Hd|by symmetry|done|]. destruct Hu2 as (_ & _ & -> & _). congruence. }
    rewrite all_events_app, all_events_one, all_datagrams_app, all_datagrams_one, Hev, Hdat, Hev2, Ho.
    split; [done|]. split; [by apply unmoved_queue|by eapply unmoved_trans].
Qed.

(** [b] has had, and asked for, the messages of [a] up to [k]. *)
Record lags (k n : Z) (a b : CoreMachine) : Prop := {
  lag_inv : machine_inv (sent_msg (outbound_messages a)) (sent_piece (outbound_messages a)) n b;
  lag_sendable : ∀ id msg, outbound_messages a !! id = Some msg → sendable msg;
  lag_received : last_ordered_rx b = k;
  lag_requested : last_requested_end b = k;
  lag_behind : k < next_outbound_id a;
}.

Lemma queued_ext m m' s e : outbound_messages m = outbound_messages m' → queued_in m s e = queued_in m' s e.
Proof. unfold queued_in. by intros ->. Qed.

(** The legs of an exchange: the send, the advertisement taken by [b], the request by [a], and
    the data by [b], which catches up with all it lacks. *)
Lemma catch_up_legs ok_msg ok_piece t1 t2 t3 pa pb msg k n a b :
  role a ≠ role b → cid a = cid b → state a = Established → state b = Established →
  machine_inv ok_msg ok_piece n a → max_pending_id b ≤ last_requested_end a → lags k n a b →
  n + 2 + backlog (enqueue msg a) (k + 1) (next_outbound_id a) < U64_MAX → sendable msg →
  ∃ out a1 o1 b1 os2 a2 os3 b2,
    on_api_send msg a = (Ok out, a1) ∧ received (events out) = [] ∧ state a1 = Established ∧
    smooth (cid a) t1 pb (outbound_datagrams out) b [o1] b1 ∧ received (events o1) = [] ∧
    smooth (cid a) t2 pa (outbound_datagrams o1) a1 os2 a2 ∧ all_events os2 = [] ∧
    smooth (cid a) t3 pb (all_datagrams os2) b1 os3 b2 ∧ all_datagrams os3 = [] ∧
    received (all_events os3) = queued_in (enqueue msg a) (k + 1) (next_outbound_id a) ∧
    unmoved a1 a2 ∧ machine_inv ok_msg ok_piece (n + 1) a1 ∧ next_outbound_id a2 = next_outbound_id a + 1 ∧
    role a2 = role a ∧ cid a2 = cid a ∧ outbound_messages a2 = outbound_messages (enqueue msg a) ∧
    last_ordered_rx a2 = last_ordered_rx a ∧ last_requested_end a2 = last_requested_end a ∧ state a2 = Established ∧
    send_side b2 = send_side b ∧ state b2 = Established ∧
    up_to_date (n + backlog (enqueue msg a) (k + 1) (next_outbound_id a)) a2 b2.
Proof.
  intros Hroles Hcid Hsta Hstb Ha Hpa [Hb Hsend Hlb Hrb Hlt] Hn Hmsg. set (id := next_outbound_id a) in *.
  assert (Hnxa : 1 ≤ id ≤ n + 1) by apply Ha. assert (Hnxb : 1 ≤ next_outbound_id b ≤ n + 1) by apply Hb.
  pose proof (answer_count (enqueue msg a) 0 (k + 1) id) as Hback. pose proof (zlen_nonneg (answer (enqueue msg a) 0 (k + 1) id)).
  assert (Hla64 : is_u64 (last_ordered_rx a)) by (destruct (mi_recv _ _ _ _ Ha); ulia).
  assert (Hlb64 : is_u64 (last_ordered_rx b)) by (destruct (mi_recv _ _ _ _ Hb); ulia).
  pose proof (max_pending _ _ _ _ Hb) as Hpb.
  destruct (send_advertises msg a _ _ n Ha ltac:(lia) Hsta Hla64) as
    (out & a1 & d & x & R1 & D1 & V1 & Hx & Hd1 & Ha1 & Er & Ec & En & Eq & Erecv & Est & Elr).
  fold id in Hd1, En, Eq. pose proof Erecv as Erecv'. injection Erecv' as F1 F2 F3 F4.
  assert (Hqe : queued_in a1 (k + 1) id = queued_in (enqueue msg a) (k + 1) id) by (apply queued_ext; by rewrite Eq).
  assert (Hbe : backlog a1 (k + 1) id = backlog (enqueue msg a) (k + 1) id) by (unfold backlog; by rewrite Hqe).
  destruct (advertisement_requested t1 pb (bytes d) x id b) as (o1 & b1 & R2 & Hrep & V2 & Sb & Rb & Stb & Lb);
    [apply Hb|done|ulia|done|lia|by rewrite <-Hcid|].
  pose proof Sb as Sb'. injection Sb' as G1 G2 G3 G4. pose proof Rb as Rb'. injection Rb' as J1 J2 J3 J4.
  rewrite Hrb in Hrep.
  assert (Hqa : ∀ i, is_Some (outbound_messages a1 !! i) ↔ 1 ≤ i < id + 1) by (intros i; rewrite <-En; apply Ha1).
  assert (Hsend1 : ∀ i pl, outbound_messages a1 !! i = Some pl → sendable pl).
  { intros i pl. rewrite Eq. intros [[<- <-]|[_ Hk]]%lookup_insert_Some; [done|by eapply Hsend]. }
  destruct (replies_smooth t2 pa (k + 1) id b (outbound_datagrams o1) a1) as (os2 & a2 & R3 & V3 & D3 & Ua);
    [apply Ha1|ulia|ulia|done|ulia|done|congruence|congruence|done|by rewrite Elr|done|].
  fold (answer a1 pa (k + 1) id) in D3. pose proof (max_pending _ _ _ _ Ha1) as Hpa1.
  assert (Hb1 : machine_inv (sent_msg (outbound_messages a1)) (sent_piece (outbound_messages a1)) n b1).
  { assert (Hsub : outbound_messages a ⊆ outbound_messages a1).
    { rewrite Eq. apply insert_subseteq, eq_None_not_Some. rewrite (mi_outbound _ _ _ _ Ha). unfold id. lia. }
    apply (sent_inv_mono _ _ _ _ Hsub) in Hb. destruct Hb as [[Q1 Q2] Q3 Q4 Q5].
    split; [split; [by rewrite G2|rewrite Lb; ulia]|by eapply recv_inv_side|by rewrite G3|by rewrite G3, G4]. }
  destruct (queue_arrives t3 pb n a1 b1 k id pa Hb1) as (os3 & b2 & R4 & D4 & V4 & Hb2 & Sb2 & Stb2 & Lo2 & Lr2);
    [lia|apply Ha1|congruence|ulia|lia|done|done|congruence|done|congruence|lia|done|].
  pose proof Ua as (Sa & Ra & Sta & La). injection Sa as L1 L2 L3 L4. injection Ra as M1 M2 M3 M4.
  exists out, a1, o1, b1, os2, a2, os3, b2. rewrite D1, D3, V4, Hqe.
  assert (Hup : up_to_date (n + backlog (enqueue msg a) (k + 1) id) a2 b2).
  { split; [rewrite L4, <-Hbe; exact Hb2|by rewrite L4|lia|lia]. }
  split; [done|]. split; [done|]. split; [done|].
  split; [eapply smooth_one; [exact Hd1|done|done|done]|]. split; [done|].
  split; [by rewrite <-Ec|]. split; [done|]. split; [by rewrite Hcid, <-G2|].
  split_and!; try done; try congruence. by rewrite L4, Eq.
Qed.

(** The same when [b] lacks the new message only. *)
Lemma exchange_legs t1 t2 t3 pa pb msg n a b :
  synced n a b → n + 2 + frame_count msg < U64_MAX → sendable msg →
  ∃ out a1 o1 b1 os2 a2 os3 b2,
    on_api_send msg a = (Ok out, a1) ∧ received (events out) = [] ∧ state a1 = Established ∧
    smooth (cid a) t1 pb (outbound_datagrams out) b [o1] b1 ∧ received (events o1) = [] ∧
    smooth (cid a) t2 pa (outbound_datagrams o1) a1 os2 a2 ∧ all_events os2 = [] ∧
    smooth (cid a) t3 pb (all_datagrams os2) b1 os3 b2 ∧ all_datagrams os3 = [] ∧
    received (all_events os3) = [(next_outbound_id a, msg)] ∧
    next_outbound_id a2 = next_outbound_id a + 1 ∧ next_outbound_id b2 = next_outbound_id b ∧
    role a2 = role a ∧ cid a2 = cid a ∧ synced (n + 1 + frame_count msg) a2 b2.
Proof.
  intros [Hroles Hcid [Hsta Hstb] [Hb Hsend Hlb Hrb] [Ha Hsendb Hla Hra]] Hn Hmsg. set (id := next_outbound_id a) in *.
  assert (Hm : outbound_messages (enqueue msg a) !! id = Some msg) by apply lookup_insert_eq.
  pose proof (frame_count_pos msg) as Hfc. pose proof (backlog_one _ _ _ Hm) as Hback.
  destruct (catch_up_legs _ _ t1 t2 t3 pa pb msg (id - 1) n a b Hroles Hcid Hsta Hstb Ha) as
    (out & a1 & o1 & b1 & os2 & a2 & os3 & b2 & R1 & V1 & S1 & R2 & V2 & R3 & V3 & R4 & D4 & V4 &
     Ua & Ia & Na & Ro & Ci & Om & La & Lr & Sa & Sb & Stb & [U1 U2 U3 U4]).
  { rewrite (max_pending _ _ _ _ Hb), Hra. lia. }
  { split; try done. lia. }
  { fold id. replace (id - 1 + 1) with id by lia. lia. }
  { done. }
  fold id in V4, Na, U1. replace (id - 1 + 1) with id in * by lia. rewrite Hback in U1. rewrite (queued_one _ _ _ Hm) in V4.
  pose proof Sb as Sb'. injection Sb' as K1 K2 K3 K4.
  exists out, a1, o1, b1, os2, a2, os3, b2. do 12 (split; [done|]). split; [done|]. split; [done|].
  split; [congruence|congruence|done| |].
  - split; [eapply machine_inv_mono, U1; lia|done|lia|lia].
  - split; [|by rewrite K4|lia|lia]. eapply machine_inv_mono, (unmoved_inv _ _ _ _ _ Ua); [|by rewrite K4]. lia.
Qed.

Lemma all_ok outs : Forall (λ o : outcome CoreError CoreOutput, is_ok o = true) (map Ok outs).
Proof. by apply Forall_map, Forall_true. Qed.

Lemma exchange_delivers ts pa pb msg n a b :
  synced n a b → n + 2 + frame_count msg < U64_MAX → sendable msg →
  ∃ os_a os_b a' b', exchange ts pa pb msg a b = (os_a, os_b, a', b') ∧
    Forall (λ o, is_ok o = true) (os_a ++ os_b) ∧
    run_received os_a = [] ∧ run_received os_b = [(next_outbound_id a, msg)] ∧
    next_outbound_id a' = next_outbound_id a + 1 ∧ next_outbound_id b' = next_outbound_id b ∧
    role a' = role a ∧ cid a' = cid a ∧ synced (n + 1 + frame_count msg) a' b'.
Proof.
  intros Hs Hn Hmsg. destruct ts as [[t1 t2] t3].
  destruct (exchange_legs t1 t2 t3 pa pb msg n a b Hs Hn Hmsg) as
    (out & a1 & o1 & b1 & os2 & a2 & os3 & b2 & R1 & V1 & _ & R2 & V2 & R3 & V3 & R4 & D4 & V4 & H).
  exists (map Ok (out :: os2)), (map Ok (o1 :: os3)), a2, b2. unfold exchange. rewrite R1. cbn [datagrams_of].
  rewrite (smooth_carry _ _ _ _ _ _ _ R2), run_datagrams_oks, all_datagrams_one.
  rewrite (smooth_carry _ _ _ _ _ _ _ R3), run_datagrams_oks, (smooth_carry _ _ _ _ _ _ _ R4).
  split; [done|]. split; [apply Forall_app; split; apply all_ok|].
  rewrite !run_received_oks. unfold all_events in *. rewrite !bind_cons, !received_app, V1, V2, V3, V4. by split.
Qed.

(* ------------------------------------------------------------------ *)
(** ** Conversations *)
(* ------------------------------------------------------------------ *)

(** Who speaks, the times at which the datagrams arrive, and what is said. *)
Record turn : Type := mkTurn { speaker : Role; times : Z * Z * Z; said : list byte }.

(** The handshake of two machines over a network that works, and that of two new ones. *)
Definition greet (t0 : Z) (ts : Z * Z * Z) (pa pb : Z) (a b : CoreMachine) : CoreMachine * CoreMachine :=
  let '(t1, t2, t3) := ts in
  let '(o, a) := begin_handshake t0 a in
  let '(os1, b) := carry t1 pb (datagrams_of o) b in
  let '(os2, a) := carry t2 pa (run_datagrams os1) a in
  let '(os3, b) := carry t3 pb (run_datagrams os2) b in
  (a, b).

Definition connect (t0 : Z) (ts : Z * Z * Z) (pa pb c : Z) (ca cb : CoreConfig) : CoreMachine * CoreMachine :=
  greet t0 ts pa pb (new Client c ca) (new Server c cb).

(** One turn after the other: the outcomes of the calls of the client and of the server. *)
Fixpoint converse (pa pb : Z) (l : list turn) (a b : CoreMachine)
    : list (outcome CoreError CoreOutput) * list (outcome CoreError CoreOutput) :=
  match l with
  | [] => ([], [])
  | u :: l =>
      let '(os_a, os_b, a, b) :=
        match speaker u with
        | Client => exchange (times u) pa pb (said u) a b
        | Server => let '(os_b, os_a, b, a) := exchange (times u) pb pa (said u) b a in (os_a, os_b, a, b)
        end in
      let '(os_a', os_b') := converse pa pb l a b in
      (os_a ++ os_a', os_b ++ os_b')
  end.

(** What one side says, numbered. *)
Definition spoken (r : Role) (l : list turn) : list (list byte) :=
  map said (filter (λ u, speaker u = r) l).

Definition numbered (k : Z) (l : list (list byte)) : list (Z * list byte) := zip (seqZ k (zlen l)) l.

(** The calls a conversation can take, for the bound on message numbers. *)
Definition cost (l : list turn) : Z := foldr (λ u n, 1 + frame_count (said u) + n) 0 l.

Lemma numbered_cons k msg l : numbered k (msg :: l) = (k, msg) :: numbered (k + 1) l.
Proof.
  unfold numbered. rewrite zlen_cons, seqZ_cons by (pose proof (zlen_nonneg l); lia).
  cbn. by replace (Z.pred (1 + zlen l)) with (zlen l) by lia.
Qed.

Lemma cost_nonneg l : 0 ≤ cost l.
Proof. induction l as [|u l IH]; cbn; [done|]. pose proof (frame_count_pos (said u)). fold (cost l). lia. Qed.

Lemma synced_flip n a b : synced n a b → synced n b a.
Proof. intros [H1 H2 [H3 H4] H5 H6]. by split. Qed.

Lemma conversation pa pb l : ∀ n a b,
  synced n a b → n + cost l + 1 < U64_MAX → Forall (λ u, sendable (said u)) l →
  role a = Client →
  let '(os_a, os_b) := converse pa pb l a b in
  Forall (λ o, is_ok o = true) (os_a ++ os_b) ∧
  run_received os_b = numbered (next_outbound_id a) (spoken Client l) ∧
  run_received os_a = numbered (next_outbound_id b) (spoken Server l).
Proof.
  induction l as [|u l IH]; intros n a b Hs Hn Hl Hr; [done|].
  apply Forall_cons in Hl as [Hu Hl]. cbn [converse cost foldr] in *. fold (cost l) in Hn.
  pose proof (cost_nonneg l) as Hcost. unfold spoken. rewrite !filter_cons.
  destruct (speaker u) eqn:Hsp; cbn [decide].
  - destruct (exchange_delivers (times u) pa pb (said u) n a b Hs ltac:(lia) Hu) as
      (oa & ob & a' & b' & -> & Hok & Va & Vb & Na & Nb & Ra & _ & Hs').
    specialize (IH _ a' b' Hs' ltac:(lia) Hl ltac:(congruence)). destruct (converse pa pb l a' b') as [oa' ob'].
    destruct IH as (Hok' & Vb' & Va').
    split; [apply Forall_app in Hok as [? ?]; apply Forall_app in Hok' as [? ?]; by rewrite !Forall_app|]. rewrite !run_received_app, Va, Vb, Va', Vb', Na, Nb.
    by rewrite decide_True, decide_False, map_cons, numbered_cons by done.
  - destruct (exchange_delivers (times u) pb pa (said u) n b a (synced_flip _ _ _ Hs) ltac:(lia) Hu) as
      (ob & oa & b' & a' & -> & Hok & Vb & Va & Nb & Na & Rb & _ & Hs').
    apply synced_flip in Hs'. destruct Hs as [Hroles _ _ _ _].
    assert (Ra : role a' = Client).
    { destruct Hs' as [Hroles' _ _ _ _]. destruct (role a'), (role b'), (role a), (role b); congruence. }
    specialize (IH _ a' b' Hs' ltac:(lia) Hl Ra). destruct (converse pa pb l a' b') as [oa' ob'].
    destruct IH as (Hok' & Vb' & Va').
    split; [apply Forall_app in Hok as [? ?]; apply Forall_app in Hok' as [? ?]; by rewrite !Forall_app|]. rewrite !run_received_app, Va, Vb, Va', Vb', Na, Nb.
    by rewrite decide_False, decide_True, map_cons, numbered_cons by done.
Qed.

(* ------------------------------------------------------------------ *)
(** ** From the handshake on *)
(* ------------------------------------------------------------------ *)

(** A new machine that only greeted has nothing to tell and nothing to ask. *)
Lemma greeted_fresh r c conf l os m0 m :
  is_u64 c → unmoved (new r c conf) m0 → run_inputs l m0 = (os, m) → zlen l < U64_MAX → sends l = [] →
  Forall (input_ok (sent_msg ∅) (sent_piece ∅)) l → run_received os = [] → run_requested os = [] →
  machine_inv (sent_msg ∅) (sent_piece ∅) (zlen l) m ∧ outbound_messages m = ∅ ∧ next_outbound_id m = 1 ∧
  last_ordered_rx m = 0 ∧ last_requested_end m = 0 ∧ role m = r ∧ cid m = c.
Proof.
  intros Hc Hu Hrun Hn Hsends Hok Hrec Hreq.
  pose proof (unmoved_inv _ _ _ _ _ Hu (new_inv (sent_msg ∅) (sent_piece ∅) r c conf Hc)) as Hm0.
  destruct (run_summary _ _ (sent_merge_ok ∅) 0 l m0 os m Hm0) as [Hm Hs]; [lia|done|done|].
  destruct Hu as (S & R & _ & L). injection S as E1 E2 E3 E4. injection R as F1 F2 F3 F4. cbn in L.
  destruct Hs as [_ _ [Hr Hcid] _ _ Hnx Hlast Hids _ _ Hch _ _]. rewrite Hsends in Hnx. rewrite Hreq, L in Hch. rewrite Hrec in Hids.
  rewrite E3 in Hnx. rewrite F4 in Hids, Hlast. cbn in Hch, Hids. change (zlen []) with 0 in *.
  assert (Hl0 : last_ordered_rx m = 0).
  { destruct (decide (last_ordered_rx m = 0)) as [|Hne]; [done|]. rewrite seqZ_cons in Hids by lia. done. }
  split; [done|]. split; [|split_and!; try done; congruence]. apply map_eq. intros k. rewrite lookup_empty.
  apply eq_None_not_Some. rewrite (mi_outbound _ _ _ _ Hm). lia.
Qed.

Lemma greeted_level ra rb a b na nb c :
  na ≤ 2 → nb ≤ 2 → ra ≠ rb →
  machine_inv (sent_msg ∅) (sent_piece ∅) na a ∧ outbound_messages a = ∅ ∧ next_outbound_id a = 1 ∧
    last_ordered_rx a = 0 ∧ last_requested_end a = 0 ∧ role a = ra ∧ cid a = c →
  machine_inv (sent_msg ∅) (sent_piece ∅) nb b ∧ outbound_messages b = ∅ ∧ next_outbound_id b = 1 ∧
    last_ordered_rx b = 0 ∧ last_requested_end b = 0 ∧ role b = rb ∧ cid b = c →
  state a = Established → state b = Established → synced 2 a b.
Proof.
  intros Hna Hnb Hne (A1 & A2 & A3 & A4 & A5 & A6 & A7) (B1 & B2 & B3 & B4 & B5 & B6 & B7) Hsa Hsb.
  split; [congruence|congruence|done| |]; (split; [rewrite ?A2, ?B2; by eapply machine_inv_mono; [|eassumption]|
    intros id msg; rewrite ?A2, ?B2, lookup_empty; done|lia|lia]).
Qed.

Lemma plain_frame_ok bs t c sent now path :
  Wire.decode bs = Ok (Wire.new t x00 c [] []) → t ≠ Wire.Data → t ≠ Wire.Fragment →
  input_ok (sent_msg sent) (sent_piece sent) (InDatagram now path bs).
Proof.
  intros Hd H1 H2 f Hf. assert (f = Wire.new t x00 c [] []) as -> by congruence.
  unfold data_ok. cbn. by destruct t.
Qed.

(** The frames of the handshake. *)
Definition plain (t : Wire.MessageType) (c : Z) : Wire.WireFrame := Wire.new t x00 c [] [].

(** Two machines that have greeted each other have nothing left to tell each other. *)
Lemma greeted_synced c ca cb a0 b0 a b b1 t1 t2 t3 pa pb bs1 bs2 bs3 o1 o2 o3 :
  is_u64 c → unmoved (new Client c ca) a0 → unmoved (new Server c cb) b0 →
  Wire.decode bs1 = Ok (plain Wire.ClientHello c) → on_datagram t1 pb bs1 b0 = (Ok o1, b1) → events o1 = [HandshakeEstablished] →
  Wire.decode bs2 = Ok (plain Wire.ServerHello c) → on_datagram t2 pa bs2 a0 = (Ok o2, a) → events o2 = [HandshakeEstablished] →
  Wire.decode bs3 = Ok (plain Wire.HelloAck c) → on_datagram t3 pb bs3 b1 = (Ok o3, b) → events o3 = [] →
  state a = Established → state b = Established →
  synced 2 a b ∧ role a = Client ∧ next_outbound_id a = 1 ∧ next_outbound_id b = 1.
Proof.
  intros Hc Hua Hub D1 E1 V1 D2 E2 V2 D3 E3 V3 Sa Sb.
  assert (Ha : run_inputs [InDatagram t2 pa bs2] a0 = ([Ok o2], a)) by (cbn [run_inputs step]; by rewrite E2).
  assert (Hb : run_inputs [InDatagram t1 pb bs1; InDatagram t3 pb bs3] b0 = ([Ok o1; Ok o3], b))
    by (cbn [run_inputs step]; by rewrite E1, E3).
  apply (greeted_fresh Client c ca) in Ha; [|done|done|done|done| | |]; [|repeat constructor; by eapply plain_frame_ok|
    unfold run_received; cbn [mbind list_bind events_of]; by rewrite V2|unfold run_requested; cbn [mbind list_bind events_of]; by rewrite V2].
  apply (greeted_fresh Server c cb) in Hb; [|done|done|done|done| | |]; [|repeat constructor; by eapply plain_frame_ok|
    unfold run_received; cbn [mbind list_bind events_of]; by rewrite V1, V3|unfold run_requested; cbn [mbind list_bind events_of]; by rewrite V1, V3].
  split; [apply (greeted_level Client Server a b 1 2 c); [lia|lia|done|exact Ha|exact Hb|exact Sa|exact Sb]|].
  destruct Ha as (_ & _ & ? & _ & _ & ? & _). by destruct Hb as (_ & _ & ? & _).
Qed.

Lemma carry_of_run now path d m o m' : on_datagram now path (bytes d) m = (o, m') → carry now path [d] m = ([o], m').
Proof. intros H. by rewrite carry_cons, H. Qed.

Lemma connected t0 ts pa pb c ca cb :
  is_u64 c → let '(a, b) := connect t0 ts pa pb c ca cb in
  synced 2 a b ∧ role a = Client ∧ next_outbound_id a = 1 ∧ next_outbound_id b = 1.
Proof.
  intros Hc. destruct ts as [[t1 t2] t3].
  destruct (hello_starts t0 c ca Hc) as (o1 & a1 & E1 & (bs1 & D1 & _ & F1) & ->).
  destruct (hello_accepted t1 pb bs1 (new Server c cb)) as (o2 & b1 & E2 & (bs2 & D2 & V2 & _ & F2) & R2 & S2 & C2); [done..|].
  destruct (hello_answered t2 pa bs2 (new Client c ca)) as (o3 & a2 & E3 & (bs3 & D3 & V3 & _ & F3) & R3 & S3 & C3); [done..|].
  destruct (hello_acknowledged t3 pb bs3 b1) as (o4 & b2 & E4 & -> & R4 & S4 & C4); [done|done|by rewrite C2|].
  unfold connect, greet. rewrite E1. cbn [datagrams_of]. rewrite D1.
  rewrite (carry_of_run t1 pb (mkOutboundDatagram 0 bs1) _ _ _ E2), run_datagrams_one, D2.
  rewrite (carry_of_run t2 pa (mkOutboundDatagram pb bs2) _ _ _ E3), run_datagrams_one, D3.
  rewrite (carry_of_run t3 pb (mkOutboundDatagram pa bs3) _ _ _ E4).
  by apply (greeted_synced c ca cb (new Client c ca) (new Server c cb) a2 b2 b1 t1 t2 t3 pa pb bs1 bs2 bs3 o2 o3 CoreOutput_default);
    try apply unmoved_refl.
Qed.

(** C4. On a network that works nothing that is said is lost, whoever says it: after the handshake,
    whatever the times, paths and timer values, every message either side is given is advertised,
    requested, cut into datagrams and handed to the application of the other side, once, in order
    and with its bytes, before the next one is said; and no call fails.  A message may take up to
    65535 fragments (about 64.7 MB, [sendable]; the request for a longer one fails with
    MalformedData), and the whole conversation fewer calls than [u64] message numbers. *)
Theorem conversation_delivers t0 ts pa pb c ca cb l :
  is_u64 c → cost l + 3 < U64_MAX → Forall (λ u, sendable (said u)) l →
  let '(a, b) := connect t0 ts pa pb c ca cb in
  let '(os_a, os_b) := converse pa pb l a b in
  Forall (λ o, is_ok o = true) (os_a ++ os_b) ∧
  run_received os_b = numbered 1 (spoken Client l) ∧
  run_received os_a = numbered 1 (spoken Server l).
Proof.
  intros Hc Hcost Hl. pose proof (connected t0 ts pa pb c ca cb Hc) as Hconn.
  destruct (connect t0 ts pa pb c ca cb) as [a b]. destruct Hconn as (Hs & Hr & Hna & Hnb).
  pose proof (conversation pa pb l 2 a b Hs ltac:(lia) Hl Hr) as H.
  destruct (converse pa pb l a b) as [os_a os_b]. by rewrite Hna, Hnb in H.
Qed.

(* ------------------------------------------------------------------ *)
(** ** Witness *)
(* ------------------------------------------------------------------ *)

(** The client says something short and something long, and the server answers in between. *)
Definition ex_turns : list turn :=
  [mkTurn Client (1, 2, 3) [x68; x69]; mkTurn Server (4, 5, 6) [x79; x6f]; mkTurn Client (7, 8, 9) (replicate 1200 x21)].

Lemma conversation_delivers_witness :
  let '(a, b) := connect 0 (0, 0, 0) 1 2 7 CoreConfig_default CoreConfig_default in
  let '(os_a, os_b) := converse 1 2 ex_turns a b in
  run_received os_b = [(1, [x68; x69]); (2, replicate 1200 x21)] ∧ run_received os_a = [(1, [x79; x6f])].
Proof.
  pose proof (conversation_delivers 0 (0, 0, 0) 1 2 7 CoreConfig_default CoreConfig_default ex_turns
    ltac:(done) ltac:(done) ltac:(repeat constructor; by vm_compute)) as H.
  destruct (connect _ _ _ _ _ _ _) as [a b]. destruct (converse _ _ _ a b) as [os_a os_b]. by destruct H as (_ & ? & ?).
Defined.
