(* ===== verification/CoreRestart.v ===== *)
(** * A client and a machine that starts anew

    A server that restarts, or a client whose application spoke before its handshake: one side
    holds messages the other has never heard of.  After a hello and the next message, everything
    the client was ever given reaches the new machine.  For a server that restarts this repeats
    what its predecessor had handed over, and its own messages, numbered from 1 again, are taken
    for old ones. *)

From S2P Require Import Prelude Bytes Core CoreSpec CoreLemmas CoreEffects CoreReceive CoreStep CoreRuns CoreProps CoreHandlers CoreTransfer CoreSession.
From S2P Require Wire WireLemmas.

(* ------------------------------------------------------------------ *)
(** ** The hello of a client that has lived *)
(* ------------------------------------------------------------------ *)

Lemma hello_said t m :
  is_u64 (cid m) → role m = Client →
  ∃ out d, begin_handshake t m = (Ok out, m) ∧ outbound_datagrams out = [d] ∧
    Wire.decode (bytes d) = Ok (plain Wire.ClientHello (cid m)).
Proof.
  intros Hc Hr.
  assert (Hw : ∃ out m', begin_handshake t m = (Ok out, m') ∧
    (m' = m ∧ ∃ d, outbound_datagrams out = [d] ∧ Wire.decode (bytes d) = Ok (plain Wire.ClientHello (cid m)))).
  { apply run_ok. unfold begin_handshake_body, is_role. wp_run. cbn [fst]. rewrite Hr, bool_decide_eq_true_2 by done. cbn [st_when].
    rewrite encode_frame_eq. apply wp_bind, wp_send_frame; [done|done|apply small_tlvs_nil|].
    intros bs Hbs. cbn [then_wp]. wp_run. split; [done|]. split; [done|]. eexists. by split. }
  destruct Hw as (out & m' & H & -> & d & Hd & Hbs). by exists out, d.
Qed.

(** Data, life and requests of a machine are left alone; its state may change. *)
Definition same_data (m m' : CoreMachine) : Prop :=
  send_side m' = send_side m ∧ recv_side m' = recv_side m ∧ last_requested_end m' = last_requested_end m.

Lemma same_data_inv ok_msg ok_piece n m m' :
  same_data m m' → machine_inv ok_msg ok_piece n m → machine_inv ok_msg ok_piece n m'.
Proof.
  intros (Hs & Hr & Hl) [[Hc Hu] H2 H3 H4]. unfold send_side in Hs. injection Hs as E1 E2 E3 E4.
  split; [split; [by rewrite E2|by rewrite Hl]|by eapply recv_inv_side|by rewrite E3|by rewrite E3, E4].
Qed.

(** What a client does with the answer to its hello. *)
Lemma greeted_again t path e (q : CoreMachine * CoreOutput) :
  is_u64 (cid q.1) →
  wp (set_state Established ;;
      modify_self (λ m, m <| last_server_msr_at_ms := Some t |>) ;;
      send_frame path (encode_frame Wire.HelloAck (cid q.1) []) ;;
      push_event e ;;
      schedule_client_timers t)
    (λ o q', o = Ok () ∧ same_data q.1 q'.1 ∧ state q'.1 = Established ∧ events q'.2 = events q.2 ++ [e] ∧
       ∃ d, outbound_datagrams q'.2 = outbound_datagrams q.2 ++ [d] ∧ Wire.decode (bytes d) = Ok (plain Wire.HelloAck (cid q.1))) q.
Proof.
  intros Hc. rewrite encode_frame_eq. apply wp_bind, wp_modify_self, wp_bind, wp_modify_self, wp_bind.
  apply wp_send_frame; [done|done|apply small_tlvs_nil|]. intros bs Hbs.
  cbn [fst snd then_wp] in *. set (m := q.1 <| state := Established |> <| last_server_msr_at_ms := Some t |>).
  assert (Hm : same_data q.1 m ∧ state m = Established) by done. change (cid m) with (cid q.1) in Hbs.
  clearbody m. destruct Hm as [Hd Hst].
  unfold schedule_client_timers. wp_run.
  split; [done|]. split; [exact Hd|]. split; [exact Hst|]. split; [done|]. by exists (mkOutboundDatagram path bs).
Qed.

(** The answer to a hello establishes a client that is not lost, whatever state it is in. *)
Lemma hello_taken t path bs m :
  is_u64 (cid m) → role m = Client → state m ≠ Lost → Wire.decode bs = Ok (plain Wire.ServerHello (cid m)) →
  ∃ out m', on_datagram t path bs m = (Ok out, m') ∧
    (outbound_datagrams out = [] ∨
     ∃ d, outbound_datagrams out = [d] ∧ Wire.decode (bytes d) = Ok (plain Wire.HelloAck (cid m))) ∧
    received (events out) = [] ∧ same_data m m' ∧ state m' = Established.
Proof.
  intros Hc Hr Hs Hbs. apply (datagram_runs t path bs _ m (λ out m', _ ∧ _) Hbs). apply frame_runs; [done|].
  intros q Hq. destruct (idle_fields _ _ Hq) as (E1 & E2 & E3 & E4 & E5 & E6).
  destruct Hq as ((S & R & St & L) & Hd & He). cbn [fst snd] in *.
  unfold dispatch, piggyback. cbn [plain Wire.new Wire.message_type Wire.tlvs].
  apply wp_bind, wp_bind, wp_self. cbn [then_wp]. unfold is_role, in_state.
  rewrite E1, Hr, E4, (bool_decide_eq_true_2 (Client = Client)) by done. cbn [andb]. cbn zeta. rewrite <-E2 in Hc |- *.
  apply wp_when; [intros _|intros Hf].
  - eapply wp_mono, greeted_again; [|done]. intros o q' (-> & (S' & R' & L') & Hst & Hev & d & Hd' & Hdec). cbn [then_wp].
    apply wp_ret. rewrite Hd', Hev, Hd, He. split; [done|]. split; [right; by exists d|].
    split; [by destruct (bool_decide _)|]. split; [split_and!; congruence|done].
  - cbn [then_wp]. apply wp_ret. rewrite Hd, He. split; [done|]. split; [by left|]. split; [done|].
    split; [by split_and!|]. rewrite E4. destruct (state m); done.
Qed.

(** A hello to a new server: the client keeps its data, and the server has none. *)
Lemma greet_anew t0 ts pa pb c conf a :
  is_u64 c → role a = Client → cid a = c → state a ≠ Lost →
  let '(a1, b1) := greet t0 ts pa pb a (new Server c conf) in
  same_data a a1 ∧ state a1 = Established ∧ state b1 = Established ∧
  machine_inv (sent_msg ∅) (sent_piece ∅) 2 b1 ∧ next_outbound_id b1 = 1 ∧ last_ordered_rx b1 = 0 ∧
  last_requested_end b1 = 0 ∧ role b1 = Server ∧ cid b1 = c.
Proof.
  intros Hc Hr <- Hs. destruct ts as [[t1 t2] t3].
  destruct (hello_said t0 a Hc Hr) as (o1 & d1 & E1 & D1 & F1).
  destruct (hello_accepted t1 pb (bytes d1) (new Server (cid a) conf)) as (o2 & b1 & E2 & (bs2 & D2 & V2 & _ & F2) & R2 & S2 & C2); [done..|].
  destruct (hello_taken t2 pa bs2 a Hc Hr Hs F2) as (o3 & a1 & E3 & D3 & V3 & Hd & S3).
  unfold greet. rewrite E1. cbn [datagrams_of]. rewrite D1, (carry_of_run t1 pb d1 _ _ _ E2), run_datagrams_one, D2.
  rewrite (carry_of_run t2 pa (mkOutboundDatagram pb bs2) _ _ _ E3), run_datagrams_one.
  destruct D3 as [->|(d3 & -> & F3)].
  - split; [done|]. split; [done|]. split; [done|].
    destruct (greeted_fresh Server (cid a) conf [InDatagram t1 pb (bytes d1)] [Ok o2] (new Server (cid a) conf) b1) as (M & _ & ?);
      [done|apply unmoved_refl|cbn [run_inputs step]; by rewrite E2|done|done|repeat constructor; by eapply plain_frame_ok| | |].
    1-2: unfold run_received, run_requested; cbn [mbind list_bind events_of]; by rewrite V2.
    split; [by eapply machine_inv_mono; [|exact M]|done].
  - destruct (hello_acknowledged t3 pb (bytes d3) b1) as (o4 & b2 & E4 & -> & R4 & S4 & C4); [done|done|by rewrite C2|].
    rewrite (carry_of_run t3 pb d3 _ _ _ E4). split; [done|]. split; [done|]. split; [done|].
    destruct (greeted_fresh Server (cid a) conf [InDatagram t1 pb (bytes d1); InDatagram t3 pb (bytes d3)] [Ok o2; Ok CoreOutput_default]
      (new Server (cid a) conf) b2) as (M & _ & ?);
      [done|apply unmoved_refl|cbn [run_inputs step]; by rewrite E2, E4|done|done|repeat constructor; by eapply plain_frame_ok| | |].
    1-2: unfold run_received, run_requested; cbn [mbind list_bind events_of]; by rewrite V2.
    split; [by eapply machine_inv_mono; [|exact M]|done].
Qed.

(* ------------------------------------------------------------------ *)
(** ** Everything is told again *)
(* ------------------------------------------------------------------ *)

(** Everything a client was ever given, the message it is given now included. *)
Definition history (msg : list byte) (a : CoreMachine) : list (Z * list byte) :=
  bt_entries (outbound_messages (enqueue msg a)).

Definition history_cost (msg : list byte) (a : CoreMachine) : Z := foldr (λ q n, frame_count q.2 + n) 0 (history msg a).

Lemma history_queued ok_msg ok_piece n msg a :
  machine_inv ok_msg ok_piece n a → queued_in (enqueue msg a) 1 (next_outbound_id a) = history msg a.
Proof.
  intros Ha. unfold queued_in, history. apply filter_all. intros [id pl] Hin%elem_of_bt_entries.
  cbn in *. apply lookup_insert_Some in Hin as [[<- _]|[_ Hin]]; [destruct (mi_next _ _ _ _ Ha); lia|].
  assert (1 ≤ id < next_outbound_id a) by (apply (mi_outbound _ _ _ _ Ha); by eexists). lia.
Qed.

Lemma enqueue_same_data msg a a1 : same_data a a1 → outbound_messages (enqueue msg a1) = outbound_messages (enqueue msg a).
Proof. intros (S & _). injection S as E1 E2 E3 E4. unfold enqueue, upd. cbn. by rewrite E3, E4. Qed.

Lemma history_cost_nonneg msg a : 0 ≤ history_cost msg a.
Proof.
  unfold history_cost. induction (history msg a) as [|[id pl] l IH]; [done|]. cbn. pose proof (frame_count_pos pl). lia.
Qed.

(** A client and a server that is done asking for what the client has. *)
Record caught_up (n : Z) (a b : CoreMachine) : Prop := {
  cu_roles : role a = Client ∧ role b = Server;
  cu_cid : cid a = cid b;
  cu_established : state a = Established ∧ state b = Established;
  cu_client : machine_inv any_msg any_piece n a;
  cu_server : machine_inv any_msg any_piece n b;
  cu_requested : last_requested_end b = next_outbound_id a - 1;
}.

Lemma any_inv sent n m : machine_inv (sent_msg sent) (sent_piece sent) n m → machine_inv any_msg any_piece n m.
Proof. intros [H1 H2 H3 H4]. split; [done| |done|done]. by eapply recv_inv_weaken, H2. Qed.

Lemma told_everything t0 ts ts' pa pb c conf msg n a :
  is_u64 c → role a = Client → cid a = c → state a ≠ Lost → machine_inv any_msg any_piece n a →
  map_Forall (λ _, sendable) (outbound_messages a) → sendable msg → n + 4 + history_cost msg a < U64_MAX →
  let '(a1, b1) := greet t0 ts pa pb a (new Server c conf) in
  let '(os_a, os_b, a2, b2) := exchange ts' pa pb msg a1 b1 in
  Forall (λ o, is_ok o = true) (os_a ++ os_b) ∧
  run_received os_b = history msg a ∧ last_ordered_rx b2 = next_outbound_id a ∧
  caught_up (n + 3 + history_cost msg a) a2 b2 ∧ next_outbound_id b2 = 1 ∧ last_requested_end a2 = last_requested_end a.
Proof.
  intros Hc Hr Hcid Hs Ha Hsend Hmsg Hn. pose proof (greet_anew t0 ts pa pb c conf a Hc Hr Hcid Hs) as Hg.
  destruct (greet t0 ts pa pb a (new Server c conf)) as [a1 b1].
  destruct Hg as (Hd & Sa & Sb & Hb & Nb & Lb & Rb & Rob & Cb).
  pose proof (same_data_inv _ _ _ _ _ Hd Ha) as Ha1. pose proof (enqueue_same_data msg a a1 Hd) as He.
  destruct Hd as (S & R & L). injection S as E1 E2 E3 E4.
  destruct ts' as [[t1 t2] t3].
  assert (Hq : queued_in (enqueue msg a1) 1 (next_outbound_id a1) = history msg a).
  { rewrite E3, <-(history_queued _ _ _ msg a Ha). by apply queued_ext. }
  destruct (catch_up_legs any_msg any_piece t1 t2 t3 pa pb msg 0 (n + 2) a1 b1) as
    (out & a1' & o1 & b1' & os2 & a2 & os3 & b2 & R1 & V1 & S1 & R2 & V2 & R3 & V3 & R4 & D4 & V4 & Hrest).
  { congruence. } { congruence. } { done. } { done. }
  { eapply machine_inv_mono, Ha1. lia. }
  { rewrite (max_pending _ _ _ _ Hb), Nb, L. destruct (mi_u64 _ _ _ _ Ha). ulia. }
  { split; [|by rewrite E4|done|done|destruct (mi_next _ _ _ _ Ha1); lia].
    eapply machine_inv_mono, sent_inv_mono, Hb; [destruct (mi_next _ _ _ _ Ha); lia|apply map_empty_subseteq]. }
  { unfold backlog. change (0 + 1) with 1. rewrite Hq. fold (history_cost msg a). lia. }
  { done. }
  change (0 + 1) with 1 in V4. rewrite Hq in V4.
  assert (Hup : last_ordered_rx b2 = next_outbound_id a2 - 1 ∧ next_outbound_id a2 = next_outbound_id a1 + 1)
    by (split; [eapply (up_received _ a2 b2); apply Hrest|apply Hrest]).
  unfold exchange. rewrite R1. cbn [datagrams_of].
  rewrite (smooth_carry _ _ _ _ _ _ _ R2), run_datagrams_oks, all_datagrams_one.
  rewrite (smooth_carry _ _ _ _ _ _ _ R3), run_datagrams_oks, (smooth_carry _ _ _ _ _ _ _ R4).
  change (Ok out :: map Ok os2) with (map (@Ok CoreError _) (out :: os2)). rewrite <-map_app.
  split; [apply Forall_app; split; apply all_ok|].
  split; [rewrite run_received_oks; unfold all_events in *; by rewrite bind_app, bind_singleton, received_app, V2, V4|].
  split; [lia|]. destruct Hrest as (Ua & Ia & Na & Ra2 & Ca2 & _ & _ & La2 & Sa2 & Sb2 & Stb2 & [U1 U2 U3 U4]).
  injection Sb2 as K1 K2 K3 K4. unfold backlog in U1. change (0 + 1) with 1 in U1. rewrite Hq in U1. fold (history_cost msg a) in U1.
  split; [|split; congruence]. split; [split; congruence|congruence|done| | |done].
  - eapply machine_inv_mono, unmoved_inv; [|exact Ua|exact Ia]. assert (0 ≤ history_cost msg a) by apply history_cost_nonneg. lia.
  - apply any_inv in U1. eapply machine_inv_mono, U1. lia.
Qed.

(** C20. A server that has nothing is told everything: whatever a client has been through (any run
    that has not lost the session), provided each message it was given takes at most 65535
    fragments (about 64.7 MB; the request for a range with a longer one fails), once it says hello
    to a new machine and is given its next message, over a network that works, all that it was
    ever given reaches the application of that machine, once, in order and with its bytes.  So
    nothing that was said before the handshake is lost; and a server that restarts is told again
    what its predecessor had already handed over. *)
Theorem new_server_hears_everything t0 ts ts' pa pb c conf msg n a :
  is_u64 c → role a = Client → cid a = c → state a ≠ Lost → machine_inv any_msg any_piece n a →
  map_Forall (λ _, sendable) (outbound_messages a) → sendable msg → n + 4 + history_cost msg a < U64_MAX →
  let '(a1, b1) := greet t0 ts pa pb a (new Server c conf) in
  let '(os_a, os_b, a2, b2) := exchange ts' pa pb msg a1 b1 in
  Forall (λ o, is_ok o = true) (os_a ++ os_b) ∧
  run_received os_b = history msg a ∧ last_ordered_rx b2 = next_outbound_id a.
Proof.
  intros. pose proof (told_everything t0 ts ts' pa pb c conf msg n a) as H'. destruct (greet _ _ _ _ _ _) as [a1 b1].
  destruct (exchange _ _ _ _ _ _) as [[[os_a os_b] a2] b2]. by destruct H' as (? & ? & ? & _).
Qed.

(* ------------------------------------------------------------------ *)
(** ** What the new machine says *)
(* ------------------------------------------------------------------ *)

(** An advertisement of no more than was requested: at most the client tells that it is there. *)
Lemma advertisement_known now path bs x n m :
  in_u64 m → is_u64 x → is_u64 n → state m = Established → n ≤ last_requested_end m →
  Wire.decode bs = Ok (advertisement (cid m) x n) →
  ∃ out m', on_datagram now path bs m = (Ok out, m') ∧ told (m, CoreOutput_default) (m', out).
Proof.
  intros [Hc Hr] Hx Hn Hs Hle Hd. eapply (advertisement_heard now path bs x n m); [done..|]. intros q Hq.
  pose proof Hq as ((_ & _ & _ & L1) & _). cbn [fst snd] in L1.
  apply wp_bind, wp_self. cbn [then_wp]. rewrite L1. zdec. rewrite andb_false_r. cbn [st_when]. apply wp_ret.
  split; [done|]. by destruct q.
Qed.

(** A message of the server under a number the client has requested before: it is not requested. *)
Lemma not_heard_once ts pa pb msg n a b :
  caught_up n a b → next_outbound_id b ≤ last_requested_end a → n + 2 < U64_MAX →
  ∃ os_a os_b a' b', exchange ts pb pa msg b a = (os_b, os_a, b', a') ∧
    Forall (λ o, is_ok o = true) (os_a ++ os_b) ∧ run_received os_a = [] ∧ run_requested os_a = [] ∧
    caught_up (n + 1) a' b' ∧ next_outbound_id b' = next_outbound_id b + 1 ∧ last_requested_end a' = last_requested_end a.
Proof.
  intros [[Hra Hrb] Hcid [Hsa Hsb] Ha Hb Hreq] Hle Hn. destruct ts as [[t1 t2] t3].
  pose proof (mi_next _ _ _ _ Ha) as Hna. pose proof (mi_next _ _ _ _ Hb) as Hnb.
  assert (Hla : is_u64 (last_ordered_rx a)) by (destruct (mi_recv _ _ _ _ Ha); ulia).
  assert (Hlb : is_u64 (last_ordered_rx b)) by (destruct (mi_recv _ _ _ _ Hb); ulia).
  pose proof (max_pending _ _ _ _ Ha) as Hpa.
  destruct (send_advertises msg b _ _ n Hb ltac:(lia) Hsb Hlb) as
    (out & b1 & d & x & R1 & D1 & V1 & Hx & Hd1 & Hb1 & Er & Ec & En & _ & _ & Est & Elr).
  destruct (advertisement_known t1 pa (bytes d) x (next_outbound_id b) a) as (o1 & a1 & R2 & Ua & Ev1 & al & Dal & Hal);
    [apply Ha|done|ulia|done|done|by rewrite Hcid|].
  cbn [fst snd CoreOutput_default outbound_datagrams events app] in *. subst al.
  assert (Hleg : ∃ os2 b2, smooth (cid b1) t2 pb (outbound_datagrams o1) b1 os2 b2 ∧ all_datagrams os2 = [] ∧ unmoved b1 b2).
  { destruct Hal as [->|(_ & d' & -> & Hd')]; [exists [], b1; split_and!; try done; constructor|].
    rewrite Hcid, <-Ec in Hd'.
    destruct (advertisement_ignored t2 pb (bytes d') (last_ordered_rx a) (max_pending_id a) b1 (mi_u64 _ _ _ _ Hb1) Hla ltac:(ulia) ltac:(congruence) Est ltac:(lia) Hd')
      as (o2 & b2 & R3 & D2 & V2 & U2).
    exists [o2], b2. split; [eapply smooth_one; [exact Hd'|done|done|by destruct U2 as (_ & _ & -> & _)]|].
    by rewrite all_datagrams_one, D2. }
  destruct Hleg as (os2 & b2 & Hsm & D2 & Ub).
  exists [Ok o1], (Ok out :: map Ok os2), a1, b2. unfold exchange. rewrite R1. cbn [datagrams_of]. rewrite D1.
  rewrite (carry_of_run t1 pa d _ _ _ R2), run_datagrams_one, (smooth_carry _ _ _ _ _ _ _ Hsm), run_datagrams_oks, D2.
  split; [done|]. split; [repeat constructor; apply all_ok|].
  split; [change (received (events o1) ++ [] = []); by rewrite Ev1|].
  split; [change (requested (events o1) ++ [] = []); by rewrite Ev1|].
  pose proof Ua as (Sa & Ra & Sta & La). injection Sa as A1 A2 A3 A4.
  pose proof Ub as (Sb & Rb & Stb & Lb). injection Sb as B1 B2 B3 B4.
  split; [|split; congruence].
  split; [split; congruence|congruence|split; congruence| | |congruence].
  - eapply machine_inv_mono, unmoved_inv, Ha; [lia|done].
  - by eapply unmoved_inv, Hb1.
Qed.

Lemma not_heard pa pb l : ∀ n a b,
  caught_up n a b → Forall (λ u, speaker u = Server) l → next_outbound_id b - 1 + zlen l ≤ last_requested_end a →
  n + 2 + zlen l < U64_MAX →
  let '(os_a, os_b) := converse pa pb l a b in
  Forall (λ o, is_ok o = true) (os_a ++ os_b) ∧ run_received os_a = [] ∧ run_requested os_a = [].
Proof.
  induction l as [|u l IH]; intros n a b Hcu Hl Hle Hn; [done|].
  apply Forall_cons in Hl as [Hu Hl]. rewrite zlen_cons in Hle, Hn. pose proof (zlen_nonneg l). cbn [converse]. rewrite Hu.
  destruct (not_heard_once (times u) pa pb (said u) n a b Hcu ltac:(lia) ltac:(lia)) as (oa & ob & a' & b' & -> & Hok & Va & Qa & Hcu' & Nb & La).
  specialize (IH (n + 1) a' b' Hcu' Hl ltac:(lia) ltac:(lia)). destruct (converse pa pb l a' b') as [oa' ob'].
  destruct IH as (Hok' & Va' & Qa'). apply Forall_app in Hok as [? ?], Hok' as [? ?].
  by rewrite !Forall_app, run_received_app, run_requested_app, Va, Va', Qa, Qa'.
Qed.

(** C27. A server that restarts is not heard: it numbers its messages from 1 again.  A client that had
    requested [k] messages of its predecessor (and whose own messages take at most 65535 fragments
    each) says hello to the new machine and then one message; after that, of the first [k]
    messages the new server's application says, each carried over a network that works, the
    client requests none and its application gets none, though every call succeeds. *)
Theorem restarted_server_is_not_heard t0 ts ts' pa pb c conf msg n a (l : list turn) :
  is_u64 c → role a = Client → cid a = c → state a ≠ Lost → machine_inv any_msg any_piece n a →
  map_Forall (λ _, sendable) (outbound_messages a) → sendable msg →
  Forall (λ u, speaker u = Server) l → zlen l ≤ last_requested_end a →
  n + 5 + history_cost msg a + zlen l < U64_MAX →
  let '(a1, b1) := greet t0 ts pa pb a (new Server c conf) in
  let '(_, _, a2, b2) := exchange ts' pa pb msg a1 b1 in
  let '(os_a, os_b) := converse pa pb l a2 b2 in
  Forall (λ o, is_ok o = true) (os_a ++ os_b) ∧ run_received os_a = [] ∧ run_requested os_a = [].
Proof.
  intros Hc Hr Hcid Hs Ha Hsend Hmsg Hl Hle Hn. pose proof (zlen_nonneg l).
  pose proof (told_everything t0 ts ts' pa pb c conf msg n a Hc Hr Hcid Hs Ha Hsend Hmsg ltac:(lia)) as H'.
  destruct (greet _ _ _ _ _ _) as [a1 b1]. destruct (exchange _ _ _ _ _ _) as [[[os_a os_b] a2] b2].
  destruct H' as (_ & _ & _ & Hcu & Nb & La). apply (not_heard _ _ _ _ _ _ Hcu Hl); lia.
Qed.

(* ------------------------------------------------------------------ *)
(** ** Witnesses *)
(* ------------------------------------------------------------------ *)

Lemma ex_queue_sendable : map_Forall (λ _, sendable) (outbound_messages ex_queue).
Proof. by apply (bool_decide_unpack _); vm_compute. Qed.

(** A client that had said two messages to the old server says a third one. *)
Lemma new_server_hears_everything_witness :
  let '(a1, b1) := greet 10 (11, 12, 13) 1 2 ex_queue (new Server 7 CoreConfig_default) in
  let '(os_a, os_b, a2, b2) := exchange (14, 15, 16) 1 2 [x21] a1 b1 in
  run_received os_b = [(1, [x68; x69]); (2, replicate 2500 x61); (3, [x21])].
Proof.
  pose proof (new_server_hears_everything 10 (11, 12, 13) (14, 15, 16) 1 2 7 CoreConfig_default [x21] 3 ex_queue
    ltac:(done) ltac:(by vm_compute) ltac:(by vm_compute) ltac:(by vm_compute) ex_queue_inv ex_queue_sendable ltac:(by vm_compute)
    ltac:(by vm_compute)) as H.
  destruct (greet _ _ _ _ _ _) as [a1 b1]. destruct (exchange _ _ _ _ _ _) as [[[os_a os_b] a2] b2].
  destruct H as (_ & -> & _). by vm_compute.
Defined.

(** A client that had requested two messages of the old server. *)
Definition ex_asked_calls : list input :=
  [InDatagram 5 1 ex_hello;
   InDatagram 6 1 (Wire.frame_layout (advertisement 7 0 2)); InSend [x68; x69]].

Definition ex_asked : CoreMachine := (run_inputs ex_asked_calls (new Client 7 CoreConfig_default)).2.

Lemma ex_asked_inv : machine_inv any_msg any_piece 3 ex_asked.
Proof.
  destruct (run_summary any_msg any_piece ltac:(done) 0 ex_asked_calls
    (new Client 7 CoreConfig_default) (run_inputs ex_asked_calls (new Client 7 CoreConfig_default)).1 ex_asked) as [Hm _];
    [by apply new_inv|done| |by unfold ex_asked; destruct (run_inputs _ _)|exact Hm].
  repeat constructor; intros f Hf; vm_compute in Hf; injection Hf as <-; exact I.
Qed.

(** What the new server says first and second is lost. *)
Lemma restarted_server_is_not_heard_witness :
  let '(a1, b1) := greet 10 (11, 12, 13) 1 2 ex_asked (new Server 7 CoreConfig_default) in
  let '(_, _, a2, b2) := exchange (14, 15, 16) 1 2 [x21] a1 b1 in
  let '(os_a, os_b) := converse 1 2 [mkTurn Server (17, 18, 19) [x61]; mkTurn Server (20, 21, 22) [x62]] a2 b2 in
  last_requested_end ex_asked = 2 ∧ run_received os_a = [] ∧ run_requested os_a = [].
Proof.
  pose proof (restarted_server_is_not_heard 10 (11, 12, 13) (14, 15, 16) 1 2 7 CoreConfig_default [x21] 3 ex_asked
    [mkTurn Server (17, 18, 19) [x61]; mkTurn Server (20, 21, 22) [x62]]
    ltac:(done) ltac:(by vm_compute) ltac:(by vm_compute) ltac:(by vm_compute) ex_asked_inv
    ltac:(by apply (bool_decide_unpack _); vm_compute) ltac:(by vm_compute) ltac:(by repeat constructor) ltac:(by vm_compute)
    ltac:(by vm_compute)) as H.
  destruct (greet _ _ _ _ _ _) as [a1 b1]. destruct (exchange _ _ _ _ _ _) as [[[? ?] a2] b2].
  destruct (converse _ _ _ a2 b2) as [os_a os_b]. destruct H as [_ H]. split; [by vm_compute|exact H].
Defined.
