(* ===== verification/CoreClock.v ===== *)
(** * The clock of a machine

    A live machine asks its host for a timer that keeps it going: [ServerMsr] for a server,
    [ClientProbe] for a client.  Every call that makes a machine live, and every firing of that
    timer that leaves it live, schedules the timer (again); no other call makes a machine live. *)

From S2P Require Import Prelude Bytes Core CoreSpec CoreLemmas CoreEffects.
From S2P Require Wire WireLemmas CoreTransfer.

(** The states in which a machine depends on its clock. *)
Definition live (m : CoreMachine) : Prop :=
  match role m with
  | Server => state m = Established
  | Client => state m = Established ∨ state m = Reactivating
  end.

#[global] Instance live_dec m : Decision (live m).
Proof. unfold live. destruct (role m); apply _. Defined.

Definition clock_id (r : Role) : TimerId := match r with Server => ServerMsr | Client => ClientProbe end.

(** The call fires the clock. *)
Definition fires_clock (i : input) (r : Role) : Prop := ∃ now, i = InTimer now (clock_id r).

Definition schedules (out : CoreOutput) (id : TimerId) : Prop := ∃ d, Schedule id d ∈ timer_actions out.

(** From [p] to [q] a machine did not come to life and its output only grew. *)
Record grows (p q : CoreMachine * CoreOutput) : Prop := {
  grows_role : role q.1 = role p.1;
  grows_cid : cid q.1 = cid p.1;
  grows_live : live q.1 → live p.1;
  grows_timers x : x ∈ timer_actions p.2 → x ∈ timer_actions q.2;
}.

#[global] Instance grows_preorder : PreOrder grows.
Proof.
  split; [by constructor|]. intros p q r [H1 H2 H3 H4] [H5 H6 H7 H8].
  constructor; [congruence|congruence|auto|auto].
Qed.

Lemma grows_schedules p q id : grows p q → schedules p.2 id → schedules q.2 id.
Proof. intros Hg [d Hd]. exists d. by apply (grows_timers _ _ Hg). Qed.

(* ------------------------------------------------------------------ *)
(** ** Methods that only grow *)
(* ------------------------------------------------------------------ *)

Definition grow_at (p : CoreMachine * CoreOutput) (h : method ()) : Prop := wp h (λ _ q, grows p q) p.

Definition grow (h : method ()) : Prop := ∀ p, grow_at p h.

Lemma grow_at_seq h k p : grow_at p h → (∀ q, grows p q → grow_at q k) → grow_at p (h ;; k).
Proof.
  intros Hh Hk. apply wp_bind. eapply wp_mono, Hh. intros [[]|e|] q Hq; cbn; [|done..].
  eapply wp_mono, Hk; [|done]. intros o r Hr. by etrans.
Qed.

Lemma grow_seq h k : grow h → grow k → grow (h ;; k).
Proof. intros Hh Hk p. apply grow_at_seq; [apply Hh|intros q _; apply Hk]. Qed.

Lemma grow_self (k : CoreMachine → method ()) : (∀ m, grow (k m)) → grow (m ← self; k m).
Proof. intros Hk p. apply wp_bind, wp_self. cbn. apply Hk. Qed.

Lemma grow_lift {B} (o : outcome CoreError B) (k : B → method ()) :
  (∀ b, grow (k b)) → grow (b ← st_lift o; k b).
Proof. intros Hk p. apply wp_bind, wp_lift. destruct o; cbn; [apply Hk|done..]. Qed.

Lemma grow_modify g :
  (∀ m, role (g m) = role m ∧ cid (g m) = cid m ∧ state (g m) = state m) → grow (modify_self g).
Proof.
  intros Hg p. apply wp_modify_self. destruct (Hg p.1) as (Hr & Hc & Hs).
  constructor; [done|done| |done]. unfold live. cbn [fst snd]. by rewrite Hr, Hs.
Qed.

Lemma grow_lost : grow (set_state Lost).
Proof.
  intros p. apply wp_modify_self. constructor; [done|done| |done]. unfold live. cbn.
  destruct (role p.1); [by intros []|done].
Qed.

Lemma grow_output p out :
  (∀ x, x ∈ timer_actions p.2 → x ∈ timer_actions out) → grows p (p.1, out).
Proof. by constructor. Qed.

Lemma grow_event e : grow (push_event e).
Proof. intros p. by apply wp_push_event, grow_output. Qed.

Lemma grow_timer i t : grow (push_timer i t).
Proof. intros p. apply wp_push_timer, grow_output. cbn. set_solver. Qed.

Lemma grow_send path fr : grow (send_frame path fr).
Proof.
  intros p. unfold send_frame. apply wp_bind, wp_lift. destruct fr; cbn; [|done..].
  by apply wp_push_datagram, grow_output.
Qed.

Lemma grow_ret : grow (mret ()).
Proof. by intros p. Qed.

Lemma grow_reject b e : grow (st_reject b e).
Proof. intros p. by destruct b. Qed.

Lemma grow_when b h : grow h → grow (st_when b h).
Proof. destruct b; [done|intros; apply grow_ret]. Qed.

Lemma grow_for {B} (l : list B) (body : B → method ()) : (∀ x, grow (body x)) → grow (st_for l body).
Proof. intros Hb. induction l; cbn; [apply grow_ret|by apply grow_seq]. Qed.

Create HintDb grow discriminated.
#[export] Hint Resolve grow_send grow_event grow_timer grow_ret grow_reject grow_lost : grow.
#[export] Hint Extern 1 (grow (modify_self _)) => apply grow_modify; done : grow.
#[export] Hint Extern 1 (grow (touch_disconnect_deadline _)) => apply grow_modify; done : grow.

Ltac grow_auto :=
  repeat (lazymatch goal with
  | |- grow (mbind _ self) => apply grow_self; intros ?
  | |- grow (mbind _ (st_lift _)) => apply grow_lift; intros ?
  | |- grow (mbind (λ _, _) _) => apply grow_seq
  | |- grow (st_when _ _) => apply grow_when
  | |- grow (st_for _ _) => apply grow_for; intros ?
  | |- grow (match ?x with _ => _ end) => destruct x
  | |- _ => fail
  end; cbn beta iota zeta); eauto with grow.

Lemma grow_flush n : grow (flush_loop n).
Proof. induction n; cbn [flush_loop]; [by intros p|]. grow_auto. Qed.

#[export] Hint Resolve grow_flush : grow.

Lemma grow_data pl : grow (handle_data pl).
Proof. unfold handle_data, flush_ordered. grow_auto. Qed.

Lemma grow_fragment pl : grow (handle_fragment pl).
Proof. unfold handle_fragment, set_fragments, flush_ordered. grow_auto. Qed.

Lemma grow_request_range path pl : grow (handle_request_range path pl).
Proof. unfold handle_request_range, send_message, send_fragment. grow_auto. Qed.

Lemma grow_msr_tlv path t : grow (handle_msr_tlv path t).
Proof. unfold handle_msr_tlv. grow_auto. Qed.

(** Only a reactivating client, which is live, is set back to [Established]. *)
Lemma grow_revive p :
  role p.1 = Client →
  grow_at p (m ← self; st_when (in_state Reactivating m) (set_state Established ;; push_event Reactivated)).
Proof.
  intros Hr. apply wp_bind, wp_self. cbn [then_wp]. apply wp_when; intros Hc; [|reflexivity].
  unfold in_state in Hc. apply bool_decide_eq_true in Hc.
  apply grow_at_seq; [|intros q _; apply grow_event].
  apply wp_modify_self. constructor; [done|done| |done]. intros _. unfold live. rewrite Hr. by right.
Qed.

Lemma grow_msr_signal now path np src : grow (handle_msr_signal now path np src).
Proof.
  intros p. unfold handle_msr_signal. apply wp_bind, wp_self. cbn [then_wp].
  apply grow_at_seq; [|intros q _; assert (H : ∀ h, grow h → grow_at q h) by auto; apply H; grow_auto].
  destruct (is_role Client p.1) eqn:Hr; cbn [st_when]; [|apply grow_ret].
  unfold is_role in Hr. apply bool_decide_eq_true in Hr.
  apply grow_at_seq; [by apply grow_modify|]. intros q1 Hq1.
  apply grow_at_seq; [|intros q2 Hq2; apply grow_revive; rewrite (grows_role _ _ Hq2), (grows_role _ _ Hq1); exact Hr].
  assert (H : ∀ h, grow h → grow_at q1 h) by auto. apply H. grow_auto.
Qed.

Lemma grow_msr now path f : grow (handle_msr now path f).
Proof.
  unfold handle_msr. apply grow_lift. intros [a np]. apply grow_seq; [|apply grow_msr_signal].
  apply grow_for. intros t. apply grow_msr_tlv.
Qed.

(* ------------------------------------------------------------------ *)
(** ** Methods that may bring a machine to life *)
(* ------------------------------------------------------------------ *)

(** [h] makes a machine live only when it succeeds and schedules the clock. *)
Definition wakes (p : CoreMachine * CoreOutput) (h : method ()) : Prop :=
  wp h (λ o q, role q.1 = role p.1 ∧ cid q.1 = cid p.1 ∧
    (live q.1 → live p.1 ∨ (o = Ok () ∧ schedules q.2 (clock_id (role p.1))))) p.

Lemma grow_wakes h p : grow_at p h → wakes p h.
Proof. intros Hh. eapply wp_mono, Hh. intros o q [Hr Hc Hl _]. auto. Qed.

Lemma grow_wakes_seq h k p : grow h → (∀ q, grows p q → wakes q k) → wakes p (h ;; k).
Proof.
  intros Hh Hk. apply wp_bind. eapply wp_mono, Hh. intros [[]|e|] q Hq; cbn [then_wp].
  2, 3: destruct Hq; auto.
  eapply wp_mono, Hk; [|done]. intros o r (Hr & Hc & Hl). destruct Hq as [Hr' Hc' Hl' _].
  rewrite Hr, Hc, Hr', Hc' in *. split_and!; [done..|]. intros Hlive. destruct (Hl Hlive); auto.
Qed.

(** A last part that cannot fail. *)
Lemma wakes_grow_seq h k p :
  wakes p h → (∀ q, cid q.1 = cid p.1 → wp k (λ o r, o = Ok () ∧ grows q r) q) → wakes p (h ;; k).
Proof.
  intros Hh Hk. apply wp_bind. eapply wp_mono, Hh. intros [[]|e|] q (Hr & Hc & Hl); cbn [then_wp]; [|done..].
  eapply wp_mono, Hk; [|done]. intros o r [-> Hg]. destruct Hg as [Hr' Hc' Hl' Ht] eqn:Hgr. clear Hgr.
  split_and!; [congruence..|]. intros Hlive. destruct (Hl (Hl' Hlive)) as [|[_ [d Hd]]]; [by left|right].
  split; [done|]. exists d. auto.
Qed.

Lemma signal_ok now path np src p :
  is_u64 (cid p.1) → wp (handle_msr_signal now path np src) (λ o _, o = Ok ()) p.
Proof. intros Hc. unfold handle_msr_signal. wp_steps; done. Qed.

Lemma scheduled_before_last id d x l ds es : schedules (mkCoreOutput ds es ((l ++ [Schedule id d]) ++ [x])) id.
Proof. exists d. cbn. apply elem_of_app. left. apply elem_of_app. right. by apply list_elem_of_singleton. Qed.

Lemma wakes_greeting now path f p :
  is_u64 (cid p.1) →
  Wire.message_type f = Wire.ClientHello ∨ Wire.message_type f = Wire.ServerHello ∨
    Wire.message_type f = Wire.HelloAck →
  wakes p (dispatch now path f).
Proof.
  intros Hc Hf. unfold dispatch. apply wp_bind, wp_self. cbn [then_wp].
  destruct Hf as [->|[->| ->]]; apply wp_when; intros Hg; try (split_and!; by auto);
    unfold is_role, in_state in Hg; zprop; repeat match goal with H : bool_decide _ = true |- _ => apply bool_decide_eq_true in H end;
    unfold schedule_server_timers, schedule_client_timers; wp_steps; cbn;
    (split; [done|]; split; [done|]; intros _; right; split; [done|]);
    rewrite H; apply scheduled_before_last.
Qed.

Lemma wakes_dispatch now path f p : is_u64 (cid p.1) → wakes p (dispatch now path f).
Proof.
  intros Hc. destruct (Wire.message_type f) eqn:Ht; try (apply wakes_greeting; naive_solver);
    apply grow_wakes; unfold dispatch; apply wp_bind, wp_self; cbn [then_wp]; rewrite Ht.
  1: apply grow_msr.
  all: assert (H : ∀ h, grow h → grow_at p h) by auto; apply H.
  - apply grow_when, grow_request_range.
  - apply grow_when, grow_data.
  - apply grow_when, grow_fragment.
  - grow_auto.
  - grow_auto.
Qed.

Lemma wakes_frame now path f p : is_u64 (cid p.1) → wakes p (on_frame now path f).
Proof.
  intros Hc. unfold on_frame. apply wp_bind, wp_self. cbn [then_wp].
  apply grow_wakes_seq; [apply grow_reject|intros q0 Hq0].
  apply grow_wakes_seq; [apply grow_modify; done|intros q1 Hq1].
  apply grow_wakes_seq; [apply grow_modify; done|intros q2 Hq2].
  apply grow_wakes_seq; [unfold on_valid_peer_datagram; grow_auto|intros q3 Hq3].
  assert (Hc3 : is_u64 (cid q3.1))
    by (by rewrite (grows_cid _ _ Hq3), (grows_cid _ _ Hq2), (grows_cid _ _ Hq1), (grows_cid _ _ Hq0)).
  apply wakes_grow_seq; [by apply wakes_dispatch|]. intros q4 Hq4.
  apply wp_when; [intros _|intros _; by split].
  destruct (find_msr_signal_tlv _) as [[a np]|]; [|by apply wp_ret].
  pose proof (signal_ok now path np PiggybackTlv q4 ltac:(by rewrite Hq4)) as H1.
  pose proof (grow_msr_signal now path np PiggybackTlv q4) as H2. unfold grow_at, wp in *. done.
Qed.

Lemma wakes_other i p :
  is_u64 (cid p.1) → (∀ now id, i ≠ InTimer now id) →
  wakes p (match i with
           | InHandshake now => begin_handshake_body now
           | InDatagram now path bs => on_datagram_body now path bs
           | InTimer now id => on_timer_body now id
           | InSend payload => on_api_send_body payload
           | InClose => on_api_close_body
           | InPropose now t => on_api_propose_timers_body now t
           | InPath e => on_path_event_body e
           end).
Proof.
  intros Hc Hi. destruct i as [now|now path bs|now id|payload| |now t|[path]].
  2: { unfold on_datagram_body. destruct (Wire.decode bs) as [f|e|]; [by apply wakes_frame|..];
       apply grow_wakes; [apply grow_event|done]. }
  2: by destruct (Hi now id).
  all: apply grow_wakes; assert (H : ∀ h, grow h → grow_at p h) by auto; apply H.
  - unfold begin_handshake_body. grow_auto.
  - unfold on_api_send_body. grow_auto.
  - unfold on_api_close_body. grow_auto.
  - unfold on_api_propose_timers_body. grow_auto.
  - apply grow_modify. done.
Qed.

(** A timer other than the clock only grows; the clock of a machine that stays live is
    scheduled again. *)
Lemma other_timer_grows now id p : id ≠ clock_id (role p.1) → grow_at p (on_timer_body now id).
Proof.
  intros Hid. unfold on_timer_body. apply wp_bind, wp_self. cbn [then_wp].
  assert (H : ∀ h, grow h → grow_at p h) by auto.
  destruct id.
  - apply wp_when; [|intros _; apply grow_ret]. unfold is_role. intros [Hr _]%andb_true_iff.
    apply bool_decide_eq_true in Hr. by rewrite Hr in Hid.
  - apply wp_when; [|intros _; apply grow_ret]. unfold is_role. intros [Hr _]%andb_true_iff.
    apply bool_decide_eq_true in Hr. by rewrite Hr in Hid.
  - apply H. grow_auto.
  - apply H. grow_auto.
Qed.

Lemma clock_fires now p :
  is_u64 (cid p.1) →
  wp (on_timer_body now (clock_id (role p.1))) (λ o q, role q.1 = role p.1 ∧ cid q.1 = cid p.1 ∧
    (live q.1 → o = Ok () ∧ live p.1 ∧ schedules q.2 (clock_id (role p.1)))) p.
Proof.
  intros Hc. unfold on_timer_body, is_role, in_state. apply wp_bind, wp_self. cbn [then_wp].
  destruct (role p.1) eqn:Hr; cbn [clock_id]; wp_steps; cbn; unfold live; cbn; rewrite ?Hr;
    split_and!; try done; intros Hlive; split_and!; try done.
  all: try (by eexists; cbn; apply elem_of_app; right; apply list_elem_of_singleton).
  all: try apply scheduled_before_last.
  all: repeat case_bool_decide; naive_solver.
Qed.

(** One call of the host. *)
Lemma step_clock i m :
  is_u64 (cid m) →
  let '(o, m') := step i m in
  role m' = role m ∧ cid m' = cid m ∧
  (live m' → (live m ∧ ¬ fires_clock i (role m)) ∨ ∃ out, o = Ok out ∧ schedules out (clock_id (role m))).
Proof.
  intros Hc. set (p := (m, CoreOutput_default)).
  assert (Hrun : ∀ h, wp h (λ o q, role q.1 = role m ∧ cid q.1 = cid m ∧
      (live q.1 → (live m ∧ ¬ fires_clock i (role m)) ∨ (o = Ok () ∧ schedules q.2 (clock_id (role m))))) p →
    let '(o, m') := run h m in
    role m' = role m ∧ cid m' = cid m ∧
    (live m' → (live m ∧ ¬ fires_clock i (role m)) ∨ ∃ out, o = Ok out ∧ schedules out (clock_id (role m)))).
  { intros h Hh. unfold run, wp in *. fold p. destruct (h p) as [o [m' out]]. cbn in Hh.
    destruct Hh as (Hr & Hcid & Hl). split_and!; [done..|]. intros Hlive.
    destruct (Hl Hlive) as [|[-> Hs]]; [by left|right; by exists out]. }
  assert (Hcase : (∃ now id, i = InTimer now id) ∨ ∀ now id, i ≠ InTimer now id)
    by (destruct i; eauto).
  destruct Hcase as [(now & id & ->)|Hi].
  - apply Hrun. destruct (decide (id = clock_id (role m))) as [->|Hid].
    + eapply wp_mono, (clock_fires now p Hc). intros o q (Hr & Hcid & Hl). split_and!; [done..|].
      intros Hlive. destruct (Hl Hlive) as (-> & _ & Hs). right. done.
    + eapply wp_mono, (other_timer_grows now id p Hid). intros o q [Hr Hcid Hl _]. split_and!; [done..|].
      intros Hlive. left. split; [auto|]. intros [t [= _ ?]]. done.
  - pose proof (wakes_other i p Hc) as Hw.
    assert (Hf : ¬ fires_clock i (role m)) by (intros [t ->]; by eapply Hi).
    assert (Hw' := Hw Hi). clear Hw.
    assert (Hpost : ∀ h, wakes p h → let '(o, m') := run h m in
      role m' = role m ∧ cid m' = cid m ∧
      (live m' → (live m ∧ ¬ fires_clock i (role m)) ∨ ∃ out, o = Ok out ∧ schedules out (clock_id (role m)))).
    { intros h Hh. apply Hrun. eapply wp_mono, Hh. intros o q (Hr & Hcid & Hl). split_and!; [done..|].
      intros Hlive. destruct (Hl Hlive) as [|]; [by left|by right]. }
    destruct i; cbn [step]; apply Hpost; done.
Qed.

(* ------------------------------------------------------------------ *)
(** ** The silence a server counts *)
(* ------------------------------------------------------------------ *)

(** The number of ticks since the client was heard of. *)
Definition silence (m : CoreMachine) : Z := server_consecutive_msr_without_client_msr m.

(** A tick counts the silence and schedules the next one, or gives the client up; the other
    timers leave the silence alone. *)
Definition ticked (t : Z) (id : TimerId) (m m' : CoreMachine) (out : CoreOutput) : Prop :=
  state m' = state m ∧ cfg m' = cfg m ∧
  if decide (id = ServerMsr ∧ state m = Established) then
    silence m' = sat_add U32_MAX (silence m) 1 ∧ silence m' ≤ 8 ∧
    Schedule ServerMsr (add64 t (msr_interval_ms (cfg m))) ∈ timer_actions out
  else silence m' = silence m.

Lemma server_timer t id m :
  is_u64 (cid m) → role m = Server →
  ∃ out m', on_timer t id m = (Ok out, m') ∧ role m' = Server ∧ cid m' = cid m ∧
    (state m' = Lost ∨ ticked t id m m' out).
Proof.
  intros Hc Hr. unfold on_timer.
  apply (CoreTransfer.run_ok _ _ (λ out m', role m' = Server ∧ cid m' = cid m ∧
    (state m' = Lost ∨ ticked t id m m' out))).
  unfold on_timer_body, is_role, in_state, ticked, silence. wp_run. cbn [fst snd].
  rewrite Hr. rewrite (bool_decide_eq_true_2 (Server = _)), (bool_decide_eq_false_2 (Server = _)) by done. cbn [andb].
  destruct id; wp_steps; cbn; rewrite ?Hr; split_and!; try done.
  all: zprop; repeat case_decide; try naive_solver.
  right. split_and!; [done..|exact Hm|by left].
Qed.
