(* ===== verification/Ice.v ===== *)
(** * ICE checklists ([v3-nat/src/lib.rs], first part)

    Candidates, candidate pairs and the checklist that orders, checks and nominates them. *)

From S2P Require Import Prelude Bytes.

(** [std::net::IpAddr]: four octets, or sixteen. *)
Inductive IpAddr : Type :=
| V4 (a b c d : byte)
| V6 (octets : list byte).

#[global] Instance IpAddr_eq_dec : EqDecision IpAddr.
Proof. solve_decision. Defined.

Inductive CandidateType : Type := Host | Srflx | Relay.

#[global] Instance CandidateType_eq_dec : EqDecision CandidateType.
Proof. solve_decision. Defined.

Record IceCandidate : Type := mkIceCandidate {
  foundation : string;
  component : Z;
  transport : string;
  ic_priority : Z;
  address : IpAddr;
  port : Z;
  typ : CandidateType;
  related_address : option IpAddr;
  related_port : option Z;
}.

#[global] Instance IceCandidate_eq_dec : EqDecision IceCandidate.
Proof. solve_decision. Defined.

Inductive CandidatePairState : Type := Frozen | InProgress | Succeeded | Failed.

#[global] Instance CandidatePairState_eq_dec : EqDecision CandidatePairState.
Proof. solve_decision. Defined.

Record CandidatePair : Type := mkCandidatePair {
  local_index : Z;
  remote_index : Z;
  priority : Z;
  nominated : bool;
  pstate : CandidatePairState;
}.

#[global] Instance CandidatePair_eta : Eta CandidatePair := λ r,
  mkCandidatePair (local_index r) (remote_index r) (priority r) (nominated r) (pstate r).

#[global] Instance CandidatePair_eq_dec : EqDecision CandidatePair.
Proof. solve_decision. Defined.

Record IceChecklist : Type := mkIceChecklist {
  local : list IceCandidate;
  remote : list IceCandidate;
  pairs : list CandidatePair;
}.

#[global] Instance IceChecklist_eta : Eta IceChecklist := λ r,
  mkIceChecklist (local r) (remote r) (pairs r).

(** [(1u64 << 32) * l + 2 * g + u64::from(local > remote)], unchecked. *)
Definition pair_priority (local_priority remote_priority : Z) : Z :=
  let g := Z.max local_priority remote_priority in
  let l := Z.min local_priority remote_priority in
  add64 (add64 (mul64 (2 ^ 32) l) (mul64 2 g))
    (if remote_priority <? local_priority then 1 else 0).

(** [pairs.sort_by(|a, b| b.priority.cmp(&a.priority))]: the sort of [slice] is stable, so its
    result is the one of an insertion that keeps earlier elements first among equals. *)
Fixpoint insert_desc (p : CandidatePair) (l : list CandidatePair) : list CandidatePair :=
  match l with
  | [] => [p]
  | q :: l' => if priority q <=? priority p then p :: l else q :: insert_desc p l'
  end.

Definition sort_desc (l : list CandidatePair) : list CandidatePair := foldr insert_desc [] l.

(** The pair of two compatible candidates, at their positions. *)
Definition make_pair (li : nat) (l : IceCandidate) (ri : nat) (r : IceCandidate)
    : list CandidatePair :=
  if negb (component l =? component r) || negb (bool_decide (transport l = transport r)) then []
  else
    [mkCandidatePair (Z.of_nat li) (Z.of_nat ri) (pair_priority (ic_priority l) (ic_priority r))
       false Frozen].

(** The two loops over the candidates of both sides. *)
Definition all_pairs (local remote : list IceCandidate) : list CandidatePair :=
  concat (imap (λ li l, concat (imap (λ ri r, make_pair li l ri r) remote)) local).

Definition new (local remote : list IceCandidate) : IceChecklist :=
  mkIceChecklist local remote (sort_desc (all_pairs local remote)).

(** [next_check]: the first frozen pair goes in progress. *)
Definition next_check (c : IceChecklist) : option (Z * Z) * IceChecklist :=
  match list_find (λ p, pstate p = Frozen) (pairs c) with
  | None => (None, c)
  | Some (i, p) =>
      (Some (local_index p, remote_index p),
       c <| pairs := <[i := p <| pstate := InProgress |>]> (pairs c) |>)
  end.

(** [mark_check_result]: the first pair at the two positions. *)
Definition mark_check_result (local_idx remote_idx : Z) (ok : bool) (c : IceChecklist)
    : IceChecklist :=
  match list_find (λ p, local_index p = local_idx ∧ remote_index p = remote_idx) (pairs c) with
  | None => c
  | Some (i, p) =>
      c <| pairs := <[i := p <| pstate := if ok then Succeeded else Failed |>]> (pairs c) |>
  end.

(** [filter(..).max_by(..)]: the last of the greatest succeeded pairs, with its position. *)
Fixpoint max_succeeded (i : nat) (best : option (nat * CandidatePair)) (l : list CandidatePair)
    : option (nat * CandidatePair) :=
  match l with
  | [] => best
  | p :: l' =>
      let best' :=
        if bool_decide (pstate p = Succeeded) then
          match best with
          | Some (_, b) => if priority p <? priority b then best else Some (i, p)
          | None => Some (i, p)
          end
        else best in
      max_succeeded (S i) best' l'
  end.

Definition nominate_best (c : IceChecklist) : option CandidatePair * IceChecklist :=
  match max_succeeded 0 None (pairs c) with
  | None => (None, c)
  | Some (i, p) =>
      let best := p <| nominated := true |> in
      (Some best, c <| pairs := <[i := best]> (pairs c) |>)
  end.

(** [relay_path_mtu]. *)
Definition relay_path_mtu (candidate_type : CandidateType) : Z :=
  match candidate_type with
  | Relay => 1200
  | Srflx => 1232
  | Host => 1400
  end.

Inductive RelayPolicy : Type := PreferDirect | RelayOnly.

(** The closure [allow] of [select_path_candidates]. *)
Definition allow (policy : RelayPolicy) (c : IceCandidate) : bool :=
  match policy with
  | PreferDirect => true
  | RelayOnly => bool_decide (typ c = Relay)
  end.

Definition select_path_candidates (local remote : list IceCandidate) (policy : RelayPolicy)
    : list IceCandidate * list IceCandidate :=
  (filter (λ c, allow policy c = true) local, filter (λ c, allow policy c = true) remote).

(** [format!("host-{idx}")]. *)
Definition host_foundation (idx : nat) : string := String.append "host-" (pretty idx).

Definition gather_host_candidates (sockets : list (IpAddr * Z)) (component : Z)
    (transport : string) : list IceCandidate :=
  imap (λ idx s,
    mkIceCandidate (host_foundation idx) component transport
      (sat_add U32_MAX 100 (as_u32 (Z.of_nat idx))) s.1 s.2 Host None None) sockets.

(* ------------------------------------------------------------------ *)
(** ** Runs of a checklist *)
(* ------------------------------------------------------------------ *)

Inductive operation : Type :=
| NextCheck
| MarkResult (local_idx remote_idx : Z) (ok : bool)
| NominateBest.

(** One operation, with the pair it tells the host to check. *)
Definition operate (o : operation) (c : IceChecklist) : list (Z * Z) * IceChecklist :=
  match o with
  | NextCheck =>
      let '(r, c') := next_check c in (option_list r, c')
  | MarkResult li ri ok => ([], mark_check_result li ri ok c)
  | NominateBest => ([], (nominate_best c).2)
  end.

Fixpoint operate_all (os : list operation) (c : IceChecklist) : list (Z * Z) * IceChecklist :=
  match os with
  | [] => ([], c)
  | o :: os' =>
      let '(l, c1) := operate o c in
      let '(l', c2) := operate_all os' c1 in
      (l ++ l', c2)
  end.

(** The positions of a pair. *)
Definition place (p : CandidatePair) : Z * Z := (local_index p, remote_index p).

(** The positions still to be checked, in order. *)
Definition frozen_places (c : IceChecklist) : list (Z * Z) :=
  map place (filter (λ p, pstate p = Frozen) (pairs c)).
