(* ===== verification/IceProps.v ===== *)
(** * Correctness of ICE checklists

    The order of the pairs, the checks each pair receives, and the nomination. *)

From S2P Require Import Prelude Bytes Ice.

(** The order of a checklist: greatest priority first. *)
Definition desc (p q : CandidatePair) : Prop := priority q ≤ priority p.

(** Candidates that can be paired. *)
Definition compatible (l r : IceCandidate) : Prop :=
  component l = component r ∧ transport l = transport r.

Definition ex_candidate (transport : string) (prio : Z) : IceCandidate :=
  mkIceCandidate "f" 1 transport prio (V4 x0a x00 x00 x01) 5000 Host None None.

Definition ex_checklist : IceChecklist :=
  new [ex_candidate "udp" 100; ex_candidate "udp" 200] [ex_candidate "udp" 90; ex_candidate "udp" 250].

(* ------------------------------------------------------------------ *)
(** ** Sorting *)
(* ------------------------------------------------------------------ *)

Lemma insert_desc_perm p l : insert_desc p l ≡ₚ p :: l.
Proof.
  induction l as [|q l IH]; cbn; [done|]. destruct (priority q <=? priority p); [done|].
  rewrite IH. apply Permutation_swap.
Qed.

Lemma sort_desc_perm l : sort_desc l ≡ₚ l.
Proof. induction l as [|p l IH]; cbn; [done|]. by rewrite insert_desc_perm, IH. Qed.

Lemma insert_desc_sorted p l : StronglySorted desc l → StronglySorted desc (insert_desc p l).
Proof.
  induction 1 as [|q l Hl IH Hq]; cbn; [by repeat constructor|].
  destruct (priority q <=? priority p) eqn:Hle; zprop.
  - constructor; [by constructor|]. constructor; [done|].
    eapply Forall_impl; [exact Hq|]. unfold desc. intros r. lia.
  - constructor; [done|]. rewrite insert_desc_perm. constructor; [unfold desc; lia|done].
Qed.

Lemma sort_desc_sorted l : StronglySorted desc (sort_desc l).
Proof. induction l as [|p l IH]; cbn; [constructor|]. by apply insert_desc_sorted. Qed.

Lemma insert_desc_stable p l x :
  filter (λ q, priority q = x) (insert_desc p l) = filter (λ q, priority q = x) (p :: l).
Proof.
  induction l as [|q l IH]; [done|]. cbn [insert_desc].
  destruct (priority q <=? priority p) eqn:Hle; zprop; [done|].
  rewrite (filter_cons _ q), IH, !filter_cons.
  destruct (decide (priority q = x)), (decide (priority p = x)); try done. lia.
Qed.

Lemma sort_desc_stable l x :
  filter (λ q, priority q = x) (sort_desc l) = filter (λ q, priority q = x) l.
Proof.
  induction l as [|p l IH]; [done|]. cbn [sort_desc foldr]. fold (sort_desc l).
  by rewrite insert_desc_stable, !filter_cons, IH.
Qed.

(* ------------------------------------------------------------------ *)
(** ** The pairs *)
(* ------------------------------------------------------------------ *)

Lemma elem_of_concat_imap {A B} (f : nat → A → list B) l y :
  y ∈ concat (imap f l) ↔ ∃ i x, l !! i = Some x ∧ y ∈ f i x.
Proof.
  rewrite list_elem_of_In, in_concat. split.
  - intros (k & Hk & Hy). apply list_elem_of_In, list_elem_of_lookup in Hk as [i Hi].
    rewrite list_lookup_imap in Hi. destruct (l !! i) as [x|] eqn:Hx; [|done].
    injection Hi as <-. exists i, x. by rewrite list_elem_of_In.
  - intros (i & x & Hx & Hy). exists (f i x). rewrite <-!list_elem_of_In. split; [|done].
    eapply list_elem_of_lookup_2 with (i := i). by rewrite list_lookup_imap, Hx.
Qed.

Lemma elem_of_all_pairs local remote p :
  p ∈ all_pairs local remote ↔
  ∃ li ri l r, local !! li = Some l ∧ remote !! ri = Some r ∧ compatible l r ∧
    p = mkCandidatePair (Z.of_nat li) (Z.of_nat ri) (pair_priority (ic_priority l) (ic_priority r))
          false Frozen.
Proof.
  unfold all_pairs. rewrite elem_of_concat_imap. setoid_rewrite elem_of_concat_imap.
  unfold make_pair, compatible. split.
  - intros (li & l & Hl & ri & r & Hr & Hp). exists li, ri, l, r.
    destruct (component l =? component r) eqn:Hc; [|set_solver].
    destruct (bool_decide_reflect (transport l = transport r)); [|set_solver].
    zprop. cbn in Hp. set_solver.
  - intros (li & ri & l & r & Hl & Hr & [Hc Ht] & ->). exists li, l. split; [done|].
    exists ri, r. split; [done|]. rewrite Hc, Z.eqb_refl, bool_decide_eq_true_2 by done.
    cbn. set_solver.
Qed.

Lemma NoDup_concat_imap {A B} (f : nat → A → list B) l :
  (∀ i x, l !! i = Some x → NoDup (f i x)) →
  (∀ i j x x' y, l !! i = Some x → l !! j = Some x' → y ∈ f i x → y ∈ f j x' → i = j) →
  NoDup (concat (imap f l)).
Proof.
  revert f. induction l as [|x l IH]; intros f Hf Hd; cbn; [constructor|].
  apply NoDup_app. split_and!.
  - by apply (Hf 0%nat).
  - intros y Hy Hin. apply elem_of_concat_imap in Hin as (i & x' & Hi & Hy').
    by specialize (Hd 0%nat (S i) x x' y eq_refl Hi Hy Hy').
  - apply (IH (f ∘ S)).
    + intros i x' Hi. by apply (Hf (S i)).
    + intros i j x1 x2 y H1 H2 Hy1 Hy2. specialize (Hd (S i) (S j) x1 x2 y H1 H2 Hy1 Hy2). lia.
Qed.

Lemma elem_of_make_pair li l ri r p :
  p ∈ make_pair li l ri r → local_index p = Z.of_nat li ∧ remote_index p = Z.of_nat ri.
Proof. unfold make_pair. destruct (_ || _); set_solver. Qed.

Lemma all_pairs_nodup local remote : NoDup (all_pairs local remote).
Proof.
  unfold all_pairs. apply NoDup_concat_imap.
  - intros li l Hl. apply NoDup_concat_imap.
    + intros ri r _. unfold make_pair. destruct (_ || _); repeat constructor; set_solver.
    + intros i j r r' p _ _ [_ ?]%elem_of_make_pair [_ ?]%elem_of_make_pair. lia.
  - intros i j l l' p _ _ Hi Hj.
    apply elem_of_concat_imap in Hi as (ri & r & _ & [? _]%elem_of_make_pair).
    apply elem_of_concat_imap in Hj as (rj & r' & _ & [? _]%elem_of_make_pair). lia.
Qed.

Lemma places_nodup local remote : NoDup (map place (all_pairs local remote)).
Proof.
  apply NoDup_fmap_2_strong; [|apply all_pairs_nodup].
  intros p q Hp Hq Heq.
  apply elem_of_all_pairs in Hp as (li & ri & l & r & Hl & Hr & _ & ->).
  apply elem_of_all_pairs in Hq as (li' & ri' & l' & r' & Hl' & Hr' & _ & ->).
  unfold place in Heq. cbn in Heq. injection Heq as H1 H2.
  apply Nat2Z.inj in H1 as ->. apply Nat2Z.inj in H2 as ->. congruence.
Qed.

Lemma new_nodup loc rem : NoDup (map place (pairs (new loc rem))).
Proof. pose proof (places_nodup loc rem) as H. unfold map in *. cbn. by rewrite sort_desc_perm. Qed.

(** A new checklist pairs every local candidate with every remote one of the same component
    and transport, and no other; the pairs are frozen and not nominated, one per pair of
    positions, ordered by decreasing priority, equal priorities in the order of the
    positions. *)
Theorem checklist_pairs_compatible_candidates loc rem :
  let c := new loc rem in
  StronglySorted desc (pairs c) ∧ NoDup (map place (pairs c)) ∧
  (∀ x, filter (λ q, priority q = x) (pairs c) = filter (λ q, priority q = x) (all_pairs loc rem)) ∧
  (∀ p, p ∈ pairs c ↔ ∃ li ri l r, loc !! li = Some l ∧ rem !! ri = Some r ∧ compatible l r ∧
     p = mkCandidatePair (Z.of_nat li) (Z.of_nat ri)
           (pair_priority (ic_priority l) (ic_priority r)) false Frozen).
Proof.
  cbn. split_and!.
  - apply sort_desc_sorted.
  - apply new_nodup.
  - intros x. apply sort_desc_stable.
  - intros p. rewrite sort_desc_perm. apply elem_of_all_pairs.
Qed.

(* ------------------------------------------------------------------ *)
(** ** Checks *)
(* ------------------------------------------------------------------ *)

(** What [list_find] says, as a split of the list. *)
Lemma list_find_split {A} (P : A → Prop) `{!∀ x, Decision (P x)} l i x :
  list_find P l = Some (i, x) →
  ∃ l1 l2, l = l1 ++ x :: l2 ∧ length l1 = i ∧ P x ∧ Forall (λ y, ¬ P y) l1.
Proof.
  intros (Hi & Hx & Hall)%list_find_Some. exists (take i l), (drop (S i) l).
  split_and!; [by rewrite take_drop_middle|rewrite length_take; apply lookup_lt_Some in Hi; lia|done|].
  apply Forall_lookup_2. intros j y Hj. apply lookup_take_Some in Hj as [Hj ?]. by eapply Hall.
Qed.

Definition is_frozen (p : CandidatePair) : Prop := pstate p = Frozen.

#[global] Instance is_frozen_dec p : Decision (is_frozen p).
Proof. unfold is_frozen. apply _. Defined.

Lemma frozen_places_alt c : frozen_places c = map place (filter is_frozen (pairs c)).
Proof. done. Qed.

Lemma frozen_none l : Forall (λ p, ¬ is_frozen p) l → filter is_frozen l = [].
Proof. induction 1 as [|p l Hp _ IH]; [done|]. by rewrite filter_cons_False. Qed.

(** [next_check] takes the first frozen pair. *)
Lemma next_check_spec c :
  match (next_check c).1 with
  | None => frozen_places c = [] ∧ (next_check c).2 = c
  | Some q => frozen_places c = q :: frozen_places (next_check c).2
  end.
Proof.
  unfold next_check. destruct (list_find _ (pairs c)) as [[i p]|] eqn:Hf; cbn [fst snd].
  - apply list_find_split in Hf as (l1 & l2 & Heq & <- & Hp & Hl1).
    rewrite !frozen_places_alt. cbn. rewrite Heq, insert_app_r_alt, Nat.sub_diag by done. cbn.
    rewrite !filter_app, frozen_none, filter_cons_True, filter_cons_False by done. done.
  - apply list_find_None in Hf. split; [|done]. rewrite frozen_places_alt, frozen_none; done.
Qed.

(** The other operations only take pairs away from those still to be checked. *)
Lemma frozen_insert l1 p p' l2 :
  ¬ is_frozen p' → sublist (map place (filter is_frozen (l1 ++ p' :: l2)))
    (map place (filter is_frozen (l1 ++ p :: l2))).
Proof.
  intros Hp'. apply fmap_sublist. rewrite !filter_app. apply sublist_app; [done|].
  rewrite filter_cons_False by done. rewrite filter_cons.
  destruct (decide (is_frozen p)); [by apply sublist_cons|done].
Qed.

Lemma mark_frozen li ri ok c :
  sublist (frozen_places (mark_check_result li ri ok c)) (frozen_places c).
Proof.
  unfold mark_check_result. destruct (list_find _ (pairs c)) as [[i p]|] eqn:Hf; [|done].
  apply list_find_split in Hf as (l1 & l2 & Heq & <- & _ & _).
  rewrite !frozen_places_alt. cbn. rewrite Heq, insert_app_r_alt, Nat.sub_diag by done.
  apply frozen_insert. unfold is_frozen. by destruct ok.
Qed.

(** What the fold of [max_by] returns: the last of the greatest succeeded pairs. *)
Lemma max_succeeded_spec l i best :
  match max_succeeded i best l with
  | None => best = None ∧ Forall (λ p, pstate p ≠ Succeeded) l
  | Some (j, p) =>
      (best = Some (j, p) ∧ ∀ k q, l !! k = Some q → pstate q = Succeeded → priority q < priority p) ∨
      (∃ k, j = (i + k)%nat ∧ l !! k = Some p ∧ pstate p = Succeeded ∧
        (∀ b, best = Some b → priority b.2 ≤ priority p) ∧
        ∀ k' q, l !! k' = Some q → pstate q = Succeeded →
          priority q ≤ priority p ∧ ((k < k')%nat → priority q < priority p))
  end.
Proof.
  revert i best. induction l as [|p l IH]; intros i best; cbn [max_succeeded].
  { destruct best as [[j q]|]; [left; split; [done|]; intros [|]; done|done]. }
  set (best' := if bool_decide (pstate p = Succeeded) then _ else best).
  specialize (IH (S i) best').
  destruct (max_succeeded (S i) best' l) as [[j q]|].
  - destruct IH as [[Hb Hall]|(k & -> & Hk & Hs & Hb & Hall)].
    + unfold best' in Hb. case_bool_decide as Hps.
      * destruct best as [[jb b]|]; [destruct (priority p <? priority b) eqn:Hlt|]; zprop; simplify_eq.
        -- left. split; [done|]. intros [|k] r Hr Hrs; [by injection Hr as <-|by eapply Hall].
        -- right. exists 0%nat. split_and!; [lia|done|done|intros b' [= <-]; done|].
           intros [|k] r Hr Hrs; [injection Hr as <-; split; lia|].
           specialize (Hall k r Hr Hrs). split; lia.
        -- right. exists 0%nat. split_and!; [lia|done|done|done|].
           intros [|k] r Hr Hrs; [injection Hr as <-; split; lia|].
           specialize (Hall k r Hr Hrs). split; lia.
      * left. split; [done|]. intros [|k] r Hr Hrs; [by injection Hr as <-|by eapply Hall].
    + right. exists (S k). split_and!; [lia|done|done| |].
      * intros b Hbb. unfold best' in Hb. case_bool_decide; [|by apply Hb]. subst best.
        destruct b as [jb b]. cbn. destruct (priority p <? priority b) eqn:Hlt; zprop.
        -- apply (Hb (jb, b) eq_refl).
        -- specialize (Hb (i, p) eq_refl). cbn in Hb. lia.
      * intros [|k'] r Hr Hrs.
        -- injection Hr as <-. split; [|lia]. unfold best' in Hb.
           rewrite bool_decide_eq_true_2 in Hb by done.
           destruct best as [[jb b]|]; [destruct (priority p <? priority b) eqn:Hlt|]; zprop.
           ++ specialize (Hb (jb, b) eq_refl). cbn in Hb. lia.
           ++ apply (Hb (i, p) eq_refl).
           ++ apply (Hb (i, p) eq_refl).
        -- destruct (Hall k' r Hr Hrs) as [H1 H2]. split; [done|]. intros ?. apply H2. lia.
  - destruct IH as [Hb Hall]. unfold best' in Hb. case_bool_decide as Hps; cycle 1.
    { split; [done|]. by constructor. }
    by destruct best as [[jb b]|]; [destruct (priority p <? priority b)|].
Qed.

Lemma nominate_frozen c : frozen_places (nominate_best c).2 = frozen_places c.
Proof.
  unfold nominate_best. pose proof (max_succeeded_spec (pairs c) 0 None) as Hm.
  destruct (max_succeeded 0 None (pairs c)) as [[i p]|]; [|done]. cbn [snd].
  destruct Hm as [[? _]|(k & -> & Hk & Hs & _ & _)]; [done|]. cbn [Nat.add].
  rewrite !frozen_places_alt. cbn. rewrite <-(take_drop_middle (pairs c) k p) at 2 by done.
  rewrite insert_take_drop by (by eapply lookup_lt_Some). rewrite !filter_app, !filter_cons_False; [done|..];
    unfold is_frozen; cbn; by rewrite Hs.
Qed.

Lemma operate_frozen o c :
  sublist ((operate o c).1 ++ frozen_places (operate o c).2) (frozen_places c).
Proof.
  destruct o as [|li ri ok|]; cbn [operate].
  - pose proof (next_check_spec c) as Hn. destruct (next_check c) as [[q|] c']; cbn in *.
    + by rewrite Hn.
    + destruct Hn as [Hn ->]. done.
  - apply mark_frozen.
  - cbn. by rewrite nominate_frozen.
Qed.

Lemma operate_all_frozen os c :
  sublist ((operate_all os c).1 ++ frozen_places (operate_all os c).2) (frozen_places c).
Proof.
  revert c. induction os as [|o os IH]; intros c; [done|]. cbn [operate_all].
  pose proof (operate_frozen o c) as Ho. destruct (operate o c) as [l c1]. cbn in Ho.
  specialize (IH c1). destruct (operate_all os c1) as [l' c2]. cbn in *.
  rewrite <-app_assoc. etrans; [|exact Ho]. by apply sublist_app.
Qed.

Lemma new_frozen loc rem : frozen_places (new loc rem) = map place (pairs (new loc rem)).
Proof.
  rewrite frozen_places_alt. f_equal. cbn. apply filter_all. intros p Hp. revert Hp. rewrite sort_desc_perm. intros (li & ri & l & r & _ & _ & _ & ->)%elem_of_all_pairs. done.
Qed.

(** Marking a result takes the pair at those positions away, whatever its state, and no other. *)
Lemma mark_frozen_exact li ri ok c :
  NoDup (map place (pairs c)) →
  frozen_places (mark_check_result li ri ok c) = filter (λ q, q ≠ (li, ri)) (frozen_places c).
Proof.
  intros Hnd. unfold mark_check_result. destruct (list_find _ (pairs c)) as [[i p]|] eqn:Hf.
  - apply list_find_split in Hf as (l1 & l2 & Heq & <- & [Hli Hri] & Hl1).
    rewrite !frozen_places_alt. cbn. rewrite Heq, insert_app_r_alt, Nat.sub_diag by done. cbn.
    assert (Hp : place p = (li, ri)) by (unfold place; congruence).
    rewrite Heq, map_app in Hnd. cbn [map] in Hnd. apply NoDup_app in Hnd as (_ & Hd1 & Hd2).
    apply NoDup_cons in Hd2 as [Hd2 _]. rewrite Hp in *.
    assert (Hother : ∀ l, (li, ri) ∉ map place l → filter (λ q, q ≠ (li, ri)) (map place (filter is_frozen l)) = map place (filter is_frozen l)).
    { intros l Hl. apply filter_all. intros q (x & -> & [_ Hx]%list_elem_of_filter)%list_elem_of_fmap Hq. apply Hl. rewrite <-Hq.
      by apply list_elem_of_fmap_2. }
    rewrite !filter_app, !map_app, !filter_app, Hother by (intros Hin; by apply (Hd1 _ Hin); left).
    f_equal. rewrite (filter_cons_False is_frozen) by (unfold is_frozen; by destruct ok). rewrite filter_cons.
    destruct (decide (is_frozen p)); [|by rewrite Hother]. cbn [map]. rewrite Hp, filter_cons_False by auto. by rewrite Hother.
  - apply list_find_None in Hf. symmetry. apply filter_all.
    intros q (x & -> & [_ Hx]%list_elem_of_filter)%list_elem_of_fmap [= H1 H2].
    rewrite Forall_forall in Hf. by apply (Hf x Hx).
Qed.

(** No operation moves a pair. *)
Lemma insert_places l i p p' : l !! i = Some p → place p' = place p → map place (<[i := p']> l) = map place l.
Proof.
  intros Hi Hp. change (place <$> <[i := p']> l = place <$> l). rewrite list_fmap_insert. apply list_insert_id.
  by rewrite list_lookup_fmap, Hi, Hp.
Qed.

Lemma operate_places o c : map place (pairs (operate o c).2) = map place (pairs c).
Proof.
  destruct o as [|li ri ok|]; cbn [operate]; unfold next_check, mark_check_result, nominate_best.
  - destruct (list_find _ (pairs c)) as [[i p]|] eqn:Hf; [|done]. apply list_find_Some in Hf as (Hi & _). by eapply insert_places.
  - destruct (list_find _ (pairs c)) as [[i p]|] eqn:Hf; [|done]. apply list_find_Some in Hf as (Hi & _). by eapply insert_places.
  - pose proof (max_succeeded_spec (pairs c) 0 None) as Hm. destruct (max_succeeded 0 None (pairs c)) as [[i p]|]; [|done].
    destruct Hm as [[? _]|(k & -> & Hk & _)]; [done|]. by eapply insert_places.
Qed.

(** The checks of a host, from the pairs it has still to check: each call for a check takes the
    first one, and a result for a pair takes that pair away. *)
Fixpoint checks_of (os : list operation) (todo : list (Z * Z)) : list (Z * Z) :=
  match os with
  | [] => []
  | NextCheck :: os' => option_list (head todo) ++ checks_of os' (tail todo)
  | MarkResult li ri _ :: os' => checks_of os' (filter (λ q, q ≠ (li, ri)) todo)
  | NominateBest :: os' => checks_of os' todo
  end.

Lemma checks_of_all todo : checks_of (replicate (length todo) NextCheck) todo = todo.
Proof. induction todo as [|q todo IH]; [done|]. cbn. by f_equal. Qed.

Lemma operate_all_checks os c :
  NoDup (map place (pairs c)) → (operate_all os c).1 = checks_of os (frozen_places c).
Proof.
  revert c. induction os as [|o os IH]; intros c Hnd; [done|]. cbn [operate_all].
  pose proof (operate_places o c) as Hpl. rewrite <-Hpl in Hnd. specialize (IH _ Hnd). rewrite Hpl in Hnd.
  destruct (operate o c) as [l c1] eqn:Ho. cbn [fst snd] in *. destruct (operate_all os c1) as [l' c2]. cbn [fst] in *. subst l'.
  destruct o as [|li ri ok|]; cbn [operate checks_of] in *.
  - pose proof (next_check_spec c) as Hn. destruct (next_check c) as [[q|] c']; cbn [fst snd] in *; injection Ho as <- <-.
    + by rewrite Hn.
    + destruct Hn as [Hn ->]. by rewrite Hn.
  - injection Ho as <- <-. by rewrite mark_frozen_exact.
  - injection Ho as <- <-. by rewrite nominate_frozen.
Qed.

(** C40. The checks of a checklist are its pairs in order: whatever results the host reports and
    whenever it nominates, the pairs it is told to check are, one per call, the first pair in the
    order of decreasing priority that was neither handed out nor marked with a result before, and
    none once there is no such pair; so each pair is checked at most once, and a host that only
    asks is told to check every pair. *)
Theorem checks_follow_priority loc rem os :
  let todo := map place (pairs (new loc rem)) in
  let checked := (operate_all os (new loc rem)).1 in
  let c := (operate_all os (new loc rem)).2 in
  StronglySorted desc (pairs (new loc rem)) ∧ NoDup todo ∧
  checked = checks_of os todo ∧
  (operate_all (replicate (length todo) NextCheck) (new loc rem)).1 = todo ∧
  sublist (checked ++ frozen_places c) todo ∧ NoDup (checked ++ frozen_places c) ∧
  ((next_check c).1 = None ↔ Forall (λ p, pstate p ≠ Frozen) (pairs c)).
Proof.
  cbn zeta. pose proof (operate_all_frozen os (new loc rem)) as Hs. rewrite new_frozen in Hs.
  split; [apply sort_desc_sorted|]. split; [apply new_nodup|]. split; [|split; [|split; [exact Hs|split]]].
  - rewrite operate_all_checks by apply new_nodup. by rewrite new_frozen.
  - rewrite operate_all_checks by apply new_nodup. rewrite new_frozen.
    apply checks_of_all.
  - eapply sublist_NoDup; [|exact Hs]. apply new_nodup.
  - generalize (operate_all os (new loc rem)).2. intros c. unfold next_check.
    destruct (list_find _ (pairs c)) as [[i p]|] eqn:Hf; cbn.
    + split; [done|]. intros Hall. apply list_find_Some in Hf as (Hi & Hp & _).
      by eapply Forall_lookup_1 in Hall.
    + apply list_find_None in Hf. split; [intros _; exact Hf|done].
Qed.

(** Nomination picks, among the pairs whose check succeeded, one of greatest priority (the
    last of them in the list), marks this pair and changes nothing else; it fails exactly when
    no check has succeeded. *)
Theorem nomination_is_best c :
  match nominate_best c with
  | (None, c') => c' = c ∧ Forall (λ p, pstate p ≠ Succeeded) (pairs c)
  | (Some best, c') =>
      ∃ i p, pairs c !! i = Some p ∧ pstate p = Succeeded ∧ best = p <| nominated := true |> ∧
        c' = c <| pairs := <[i := best]> (pairs c) |> ∧
        (∀ j q, pairs c !! j = Some q → pstate q = Succeeded →
           priority q ≤ priority p ∧ ((i < j)%nat → priority q < priority p))
  end.
Proof.
  unfold nominate_best. pose proof (max_succeeded_spec (pairs c) 0 None) as Hm.
  destruct (max_succeeded 0 None (pairs c)) as [[i p]|].
  - destruct Hm as [[? _]|(k & -> & Hk & Hs & _ & Hall)]; [done|]. exists k, p. by split_and!.
  - by destruct Hm.
Qed.

(* ------------------------------------------------------------------ *)
(** ** Pair priorities *)
(* ------------------------------------------------------------------ *)

(** The rank of a pair: the smaller priority, the larger one, and whether the local side has
    the larger one. *)
Definition rank (l r : Z) : Z * Z * Z := (Z.min l r, Z.max l r, if r <? l then 1 else 0).

Definition rank_lt (p q : Z * Z * Z) : Prop :=
  p.1.1 < q.1.1 ∨ p.1.1 = q.1.1 ∧ (p.1.2 < q.1.2 ∨ p.1.2 = q.1.2 ∧ p.2 < q.2).

Lemma pair_priority_exact l r :
  0 ≤ l ≤ U32_MAX - 2 → 0 ≤ r ≤ U32_MAX - 2 →
  pair_priority l r = 2 ^ 32 * Z.min l r + 2 * Z.max l r + (if r <? l then 1 else 0).
Proof.
  intros Hl Hr. unfold pair_priority, add64, mul64, wrap64, U32_MAX, U64_MAX in *.
  change (2 ^ 32) with 4294967296 in *.
  rewrite (Z.mod_small (4294967296 * _)), (Z.mod_small (2 * _)) by lia.
  rewrite (Z.mod_small (_ + _ * _)) by lia. destruct (r <? l); apply Z.mod_small; lia.
Qed.

(** Up to [u32::MAX - 2] the priority of a pair is computed without overflow; for candidate
    priorities below 2^31 it orders pairs by the smaller priority, then the larger, then by
    the side that has the larger.  Beyond, the unchecked sum wraps: the pair of two greatest
    priorities gets 2^32 - 2. *)
Theorem pair_priority_order :
  (∀ l r, 0 ≤ l ≤ U32_MAX - 2 → 0 ≤ r ≤ U32_MAX - 2 →
     is_u64 (pair_priority l r) ∧
     pair_priority l r = 2 ^ 32 * Z.min l r + 2 * Z.max l r + (if r <? l then 1 else 0)) ∧
  (∀ l r l' r', 0 ≤ l < 2 ^ 31 → 0 ≤ r < 2 ^ 31 → 0 ≤ l' < 2 ^ 31 → 0 ≤ r' < 2 ^ 31 →
     pair_priority l r < pair_priority l' r' ↔ rank_lt (rank l r) (rank l' r')) ∧
  pair_priority U32_MAX U32_MAX = 2 ^ 32 - 2.
Proof.
  change (2 ^ 31) with 2147483648. split_and!; [| |by vm_compute].
  - intros l r Hl Hr. rewrite pair_priority_exact by done. split; [|done].
    change (2 ^ 32) with 4294967296. unfold U32_MAX in *. destruct (r <? l); ulia.
  - intros l r l' r' Hl Hr Hl' Hr'. rewrite !pair_priority_exact by ulia.
    change (2 ^ 32) with 4294967296. unfold rank_lt, rank. cbn [fst snd].
    destruct (r <? l), (r' <? l'); lia.
Qed.

Lemma pair_priority_order_witness :
  pair_priority 100 200 < pair_priority 200 100 ∧ pair_priority 2147483647 2147483647 < 2 ^ 64.
Proof.
  destruct pair_priority_order as (H1 & H2 & _). split.
  - apply (H2 100 200 200 100); [lia..|]. right. split; [done|]. right. split; done.
  - destruct (H1 2147483647 2147483647) as [[_ Hle] _]; [ulia..|].
    revert Hle. unfold U64_MAX. lia.
Defined.

Lemma checklist_witness :
  map place (pairs ex_checklist) = [(1, 1); (0, 1); (1, 0); (0, 0)].
Proof. by vm_compute. Qed.
