(* ===== verification/Stun.v ===== *)
(** * STUN binding ([v3-nat/src/lib.rs], second part)

    The binding request and the parser of its success response. *)

From S2P Require Import Prelude Bytes Ice.

Definition STUN_MAGIC_COOKIE : Z := 0x2112A442.

Inductive NatError : Type := InvalidStunPacket | UnsupportedStunFamily.

#[global] Instance NatError_eq_dec : EqDecision NatError.
Proof. solve_decision. Defined.

(** [a ^ b] on [u8]. *)
Definition byte_xor (a b : byte) : byte := byte_of_Z (Z.lxor (byte_to_Z a) (byte_to_Z b)).

(** The header of a binding request; [tx_id] is an array of 12 bytes. *)
Definition stun_build_binding_request (tx_id : list byte) : list byte :=
  [x00; x01; x00; x00] ++ u32_be STUN_MAGIC_COOKIE ++ tx_id.

(** [u16::from_be_bytes([packet[i], packet[i + 1]])]. *)
Definition u16_at (packet : list byte) (i : Z) : outcome NatError Z :=
  a ← index packet i;
  b ← index packet (i + 1);
  mret (be_value [a; b]).

(** [(attr_len + 3) & !3]. *)
Definition padded (attr_len : Z) : Z := Z.land (attr_len + 3) (Z.lnot 3).

(** The value of an [XOR-MAPPED-ADDRESS] attribute that starts at [pos]. *)
Definition xor_mapped_address (packet : list byte) (pos attr_len : Z)
    : outcome NatError (IpAddr * Z) :=
  reject (attr_len <? 8) InvalidStunPacket ;;
  family ← index packet (pos + 1);
  reject (negb (bool_decide (family = x01))) UnsupportedStunFamily ;;
  x_port ← u16_at packet (pos + 2);
  let port := Z.lxor x_port (Z.shiftr STUN_MAGIC_COOKIE 16) in
  a ← index packet (pos + 4);
  b ← index packet (pos + 5);
  c ← index packet (pos + 6);
  d ← index packet (pos + 7);
  match u32_be STUN_MAGIC_COOKIE with
  | [c0; c1; c2; c3] => mret (V4 (byte_xor a c0) (byte_xor b c1) (byte_xor c c2) (byte_xor d c3), port)
  | _ => Panic
  end.

(** The loop over the attributes: every round but the last advances by at least four bytes, so
    the length of the packet is enough fuel. *)
Fixpoint attributes_loop (fuel : nat) (packet tx_id : list byte) (pos : Z)
    : outcome NatError ((IpAddr * Z) * list byte) :=
  match fuel with
  | O => Panic
  | S fuel' =>
      if pos + 4 <=? zlen packet then
        attr_type ← u16_at packet pos;
        attr_len ← u16_at packet (pos + 2);
        let pos := pos + 4 in
        reject (zlen packet <? pos + attr_len) InvalidStunPacket ;;
        if attr_type =? 0x0020 then
          addr ← xor_mapped_address packet pos attr_len;
          mret (addr, tx_id)
        else attributes_loop fuel' packet tx_id (pos + padded attr_len)
      else Err InvalidStunPacket
  end.

Definition stun_parse_binding_success (packet : list byte)
    : outcome NatError ((IpAddr * Z) * list byte) :=
  reject (zlen packet <? 20) InvalidStunPacket ;;
  p0 ← index packet 0;
  p1 ← index packet 1;
  reject (negb (bool_decide (p0 = x01)) || negb (bool_decide (p1 = x01))) InvalidStunPacket ;;
  len ← u16_at packet 2;
  reject (zlen packet <? 20 + len) InvalidStunPacket ;;
  c4 ← index packet 4;
  c5 ← index packet 5;
  c6 ← index packet 6;
  c7 ← index packet 7;
  reject (negb (be_value [c4; c5; c6; c7] =? STUN_MAGIC_COOKIE)) InvalidStunPacket ;;
  tx_id ← slice packet 8 20;
  attributes_loop (S (length packet)) packet tx_id 20.

(* ------------------------------------------------------------------ *)
(** ** The layout of a response *)
(* ------------------------------------------------------------------ *)

(** An attribute: type, value, padding to a multiple of four. *)
Record attribute : Type := mkAttribute { a_type : Z; a_value : list byte; a_pad : list byte }.

Definition attribute_layout (a : attribute) : list byte :=
  u16_be (a_type a) ++ u16_be (zlen (a_value a)) ++ a_value a ++ a_pad a.

(** Any attribute but the mapped address. *)
Definition other_attribute (a : attribute) : Prop :=
  is_u16 (a_type a) ∧ a_type a ≠ 0x0020 ∧ zlen (a_value a) ≤ U16_MAX ∧
  zlen (a_pad a) = padded (zlen (a_value a)) - zlen (a_value a).

Definition cookie_bytes : list byte := u32_be STUN_MAGIC_COOKIE.

(** The four octets of an address, each masked with a byte of the cookie. *)
Definition mask (l : list byte) : list byte := zip_with byte_xor l cookie_bytes.

(** The header, with the length the response declares. *)
Definition response_header (declared : Z) (tx_id : list byte) : list byte :=
  [x01; x01] ++ u16_be declared ++ cookie_bytes ++ tx_id.

(** The mapped address: a reserved byte, the family, the masked port and octets, and more bytes
    when the declared length of the attribute is above eight. *)
Definition mapped_layout (reserved : byte) (port : Z) (ip extra : list byte) : list byte :=
  u16_be 0x0020 ++ u16_be (8 + zlen extra) ++ [reserved; x01] ++
  u16_be (Z.lxor port 0x2112) ++ mask ip ++ extra.

(** The bytes of a mapped address among other attributes. *)
Definition mapped_attributes (s : list byte) (addr : IpAddr * Z) : Prop :=
  ∃ attrs reserved port ip extra tail,
    s = concat (map attribute_layout attrs) ++ mapped_layout reserved port ip extra ++ tail ∧
    Forall other_attribute attrs ∧ is_u16 port ∧ zlen extra ≤ U16_MAX - 8 ∧
    ∃ a b c d, ip = [a; b; c; d] ∧ addr = (V4 a b c d, port).
