(* ===== verification/StunProps.v ===== *)
(** * Correctness of the STUN parser

    The parser of binding responses is total, accepts exactly the layouts of responses with an
    IPv4 mapped address, and undoes the masking. *)

From S2P Require Import Prelude Bytes Ice Stun.
From S2P Require WireLemmas.

(* ------------------------------------------------------------------ *)
(** ** Masking *)
(* ------------------------------------------------------------------ *)

Lemma lxor_range n a b : 0 ≤ n → 0 ≤ a < 2 ^ n → 0 ≤ b < 2 ^ n → 0 ≤ Z.lxor a b < 2 ^ n.
Proof.
  intros Hn Ha Hb. split; [by apply Z.lxor_nonneg; lia|].
  destruct (decide (Z.lxor a b = 0)) as [->|Hne]; [lia|].
  assert (0 ≤ Z.lxor a b) by (apply Z.lxor_nonneg; lia).
  apply Z.log2_lt_pow2; [lia|].
  pose proof (Z.log2_lxor a b ltac:(lia) ltac:(lia)) as Hl.
  assert (Hlog : ∀ x, 0 ≤ x < 2 ^ n → x ≠ 0 → Z.log2 x < n)
    by (intros x Hx Hx0; apply Z.log2_lt_pow2; lia).
  destruct (decide (a = 0)) as [->|Ha0]; destruct (decide (b = 0)) as [->|Hb0].
  - by rewrite Z.lxor_0_l in Hne.
  - rewrite Z.lxor_0_l in *. by apply Hlog.
  - rewrite Z.lxor_0_r in *. by apply Hlog.
  - pose proof (Hlog a Ha Ha0). pose proof (Hlog b Hb Hb0). lia.
Qed.

Lemma lxor_twice a b : Z.lxor (Z.lxor a b) b = a.
Proof. by rewrite Z.lxor_assoc, Z.lxor_nilpotent, Z.lxor_0_r. Qed.

Lemma byte_xor_twice a b : byte_xor (byte_xor a b) b = a.
Proof.
  unfold byte_xor. rewrite byte_to_Z_of_Z, Z.mod_small, lxor_twice; [apply byte_of_Z_to_Z|].
  apply (lxor_range 8); [lia|apply byte_to_Z_range..].
Qed.

Lemma lxor_u16 a : is_u16 a → is_u16 (Z.lxor a 0x2112).
Proof.
  intros Ha. pose proof (lxor_range 16 a 0x2112 ltac:(lia)) as Hr.
  change (2 ^ 16) with 65536 in Hr. unfold is_u16, U16_MAX in *. lia.
Qed.

Lemma padded_range n : 0 ≤ n → n ≤ padded n ≤ n + 3 ∧ 0 ≤ padded n - n.
Proof.
  intros Hn. unfold padded. rewrite <-Z.ldiff_land.
  replace (Z.ldiff (n + 3) 3) with (Z.ldiff (n + 3) (Z.ones 2)) by done.
  rewrite Z.ldiff_ones_r, Z.shiftl_mul_pow2, Z.shiftr_div_pow2 by lia.
  change (2 ^ 2) with 4. pose proof (Z.mod_pos_bound (n + 3) 4). pose proof (Z.div_mod (n + 3) 4). lia.
Qed.

(* ------------------------------------------------------------------ *)
(** ** Reading at a position *)
(* ------------------------------------------------------------------ *)

Lemma index_app {E} (pre r : list byte) pos k :
  pos = zlen pre + k → 0 ≤ k → index (E:=E) (pre ++ r) pos = index r k.
Proof.
  intros -> Hk. unfold index. pose proof (zlen_nonneg pre). zdec.
  rewrite lookup_app_r by (unfold zlen; lia). do 2 f_equal. unfold zlen. lia.
Qed.

Lemma u16_at_app pre z r pos :
  is_u16 z → pos = zlen pre → u16_at (pre ++ u16_be z ++ r) pos = Ok z.
Proof.
  intros Hz ->. unfold u16_at.
  rewrite (index_app pre _ (zlen pre) 0), (index_app pre _ (zlen pre + 1) 1) by lia.
  exact (f_equal Ok (be_value_u16 z Hz)).
Qed.

Lemma u16_at_app2 pre s z r pos :
  is_u16 z → pos = zlen pre + zlen s → u16_at (pre ++ s ++ u16_be z ++ r) pos = Ok z.
Proof. intros Hz ->. rewrite app_assoc. apply u16_at_app; [done|]. by rewrite zlen_app. Qed.

(** One round of the loop at an attribute. *)
Lemma attributes_step fuel pre t n r tx :
  is_u16 t → is_u16 n →
  let packet := pre ++ u16_be t ++ u16_be n ++ r in
  attributes_loop (S fuel) packet tx (zlen pre) =
    if zlen r <? n then Err InvalidStunPacket
    else if t =? 0x0020 then
      (addr ← xor_mapped_address packet (zlen pre + 4) n; mret (addr, tx))
    else attributes_loop fuel packet tx (zlen pre + 4 + padded n).
Proof.
  intros Ht Hn packet. cbn [attributes_loop].
  assert (Hlen : zlen packet = zlen pre + 4 + zlen r) by (unfold packet; zlen_norm; lia).
  pose proof (zlen_nonneg r). rewrite (proj2 (Z.leb_le _ _)) by lia.
  assert (H1 : u16_at packet (zlen pre) = Ok t) by by apply u16_at_app.
  assert (H2 : u16_at packet (zlen pre + 2) = Ok n) by by apply u16_at_app2.
  rewrite H1. cbn [mbind outcome_bind]. rewrite H2. cbn [mbind outcome_bind]. rewrite Hlen. replace (zlen pre + 4 + zlen r <? zlen pre + 4 + n) with (zlen r <? n)
    by (destruct (zlen r <? n) eqn:?; zprop; symmetry; zdec; done).
  by destruct (zlen r <? n).
Qed.

Lemma attributes_end fuel pre s tx :
  zlen s < 4 → attributes_loop (S fuel) (pre ++ s) tx (zlen pre) = Err InvalidStunPacket.
Proof.
  intros Hs. cbn [attributes_loop]. rewrite zlen_app.
  by rewrite (proj2 (Z.leb_gt _ _)) by lia.
Qed.

Lemma attributes_past fuel packet tx pos :
  zlen packet < pos + 4 → attributes_loop (S fuel) packet tx pos = Err InvalidStunPacket.
Proof. intros Hs. cbn [attributes_loop]. by rewrite (proj2 (Z.leb_gt _ _)). Qed.

(** The mapped address on a value of at least eight bytes. *)
Lemma xor_mapped_value pre res fam xp a b c d r n :
  8 ≤ n → is_u16 xp →
  xor_mapped_address (pre ++ [res; fam] ++ u16_be xp ++ [a; b; c; d] ++ r) (zlen pre) n =
    if bool_decide (fam = x01) then
      Ok (V4 (byte_xor a x21) (byte_xor b x12) (byte_xor c xa4) (byte_xor d x42), Z.lxor xp 0x2112)
    else Err UnsupportedStunFamily.
Proof.
  intros Hn Hxp. unfold xor_mapped_address. rewrite (proj2 (Z.ltb_ge _ _)) by lia.
  cbn [reject mbind outcome_bind]. rewrite (index_app pre _ (zlen pre + 1) 1) by lia.
  change (index ([res; fam] ++ u16_be xp ++ [a; b; c; d] ++ r) 1) with (@Ok NatError _ fam).
  cbn [mbind outcome_bind]. case_bool_decide; [|done]. cbn [negb reject mbind outcome_bind].
  rewrite u16_at_app2 by done. cbn [mbind outcome_bind].
  rewrite (index_app pre _ (zlen pre + 4) 4), (index_app pre _ (zlen pre + 5) 5),
    (index_app pre _ (zlen pre + 6) 6), (index_app pre _ (zlen pre + 7) 7) by lia.
  done.
Qed.

Lemma xor_mapped_short packet pos n :
  n < 8 → xor_mapped_address packet pos n = Err InvalidStunPacket.
Proof. intros Hn. unfold xor_mapped_address. by rewrite (proj2 (Z.ltb_lt _ _)). Qed.

(** A value of at least eight bytes. *)
Lemma mapped_split s :
  8 ≤ zlen s → ∃ res fam xp a b c d r, is_u16 xp ∧ s = [res; fam] ++ u16_be xp ++ [a; b; c; d] ++ r.
Proof.
  intros Hs. destruct s as [|res [|fam s]]; [zlen_norm; lia..|]. rewrite !zlen_cons in Hs.
  destruct (WireLemmas.split_u16 s) as (xp & r & Hxp & ->); [lia|]. zlen_norm.
  destruct r as [|a [|b [|c [|d r]]]]; [zlen_norm; lia..|].
  by exists res, fam, xp, a, b, c, d, r.
Qed.

Lemma attr_split s :
  zlen s < 4 ∨ ∃ t n r, is_u16 t ∧ is_u16 n ∧ s = u16_be t ++ u16_be n ++ r.
Proof.
  destruct (decide (zlen s < 4)) as [|Hs]; [by left|right].
  destruct (WireLemmas.split_u16 s) as (t & r1 & Ht & ->); [lia|]. zlen_norm.
  destruct (WireLemmas.split_u16 r1) as (n & r & Hn & ->); [lia|]. by exists t, n, r.
Qed.

(* ------------------------------------------------------------------ *)
(** ** The loop *)
(* ------------------------------------------------------------------ *)

Lemma attributes_total fuel pre s tx :
  zlen s < Z.of_nat fuel → attributes_loop fuel (pre ++ s) tx (zlen pre) ≠ Panic.
Proof.
  revert pre s. induction fuel as [|fuel IH]; intros pre s Hf; [pose proof (zlen_nonneg s); lia|].
  destruct (attr_split s) as [Hs|(t & n & r & Ht & Hn & ->)]; [by rewrite attributes_end|].
  rewrite attributes_step by done. destruct (zlen r <? n) eqn:Hr; [done|]. zprop.
  destruct (t =? 0x0020) eqn:Hty; zprop.
  - destruct (decide (n < 8)); [by rewrite xor_mapped_short|].
    destruct (mapped_split r) as (res & fam & xp & a & b & c & d & r' & Hxp & ->); [lia|].
    rewrite (app_assoc (u16_be t)), (app_assoc pre).
    replace (zlen pre + 4) with (zlen (pre ++ u16_be t ++ u16_be n)) by (zlen_norm; lia).
    rewrite xor_mapped_value by (done || lia). by case_bool_decide.
  - unfold is_u16 in Hn. destruct (padded_range n) as [[Hp1 Hp2] _]; [lia|]. zlen_norm.
    destruct fuel as [|fuel]; [pose proof (zlen_nonneg r); lia|].
    destruct (decide (padded n ≤ zlen r)) as [Hle|Hgt].
    + destruct (WireLemmas.split_zlen r (padded n)) as (v & r' & Hv & ->); [lia|].
      rewrite (app_assoc (u16_be n)), (app_assoc (u16_be t)), (app_assoc pre).
      replace (zlen pre + 4 + padded n) with (zlen (pre ++ u16_be t ++ u16_be n ++ v)) by (zlen_norm; lia).
      apply IH. zlen_norm. lia.
    + rewrite attributes_past; [done|]. zlen_norm. lia.
Qed.

Lemma attributes_sound fuel pre s tx addr tx' :
  attributes_loop fuel (pre ++ s) tx (zlen pre) = Ok (addr, tx') → tx' = tx ∧ mapped_attributes s addr.
Proof.
  revert pre s. induction fuel as [|fuel IH]; intros pre s H; [done|].
  destruct (attr_split s) as [Hs|(t & n & r & Ht & Hn & ->)]; [by rewrite attributes_end in H|].
  rewrite attributes_step in H by done. destruct (zlen r <? n) eqn:Hr; [done|]. zprop.
  destruct (t =? 0x0020) eqn:Hty; zprop.
  - destruct (decide (n < 8)); [by rewrite xor_mapped_short in H|]. subst t.
    destruct (mapped_split r) as (res & fam & xp & a & b & c & d & r' & Hxp & ->); [lia|].
    rewrite (app_assoc (u16_be 32)), (app_assoc pre) in H.
    replace (zlen pre + 4) with (zlen (pre ++ u16_be 32 ++ u16_be n)) in H by (zlen_norm; lia).
    rewrite xor_mapped_value in H by (done || lia). case_bool_decide as Hfam; [|done].
    injection H as <- <-. subst fam. split; [done|]. zlen_norm.
    destruct (WireLemmas.split_zlen r' (n - 8)) as (extra & tail & He & ->); [lia|].
    exists [], res, (Z.lxor xp 0x2112),
      [byte_xor a x21; byte_xor b x12; byte_xor c xa4; byte_xor d x42], extra, tail.
    split_and!; [|constructor|by apply lxor_u16|ulia|by do 4 eexists].
    unfold mapped_layout, mask, cookie_bytes. rewrite lxor_twice, He.
    change (zip_with byte_xor ?l (u32_be STUN_MAGIC_COOKIE)) with (zip_with byte_xor l [x21; x12; xa4; x42]).
    cbn [zip_with map concat app]. rewrite !byte_xor_twice.
    replace (8 + (n - 8)) with n by lia. by rewrite <-!app_assoc.
  - destruct fuel as [|fuel]; [done|]. unfold is_u16 in Hn.
    destruct (padded_range n) as [[Hp1 Hp2] _]; [lia|].
    destruct (decide (padded n ≤ zlen r)) as [Hle|Hgt]; cycle 1.
    { rewrite attributes_past in H; [done|]. zlen_norm. lia. }
    destruct (WireLemmas.split_zlen r n) as (v & r1 & Hv & ->); [lia|]. zlen_norm.
    destruct (WireLemmas.split_zlen r1 (padded n - n)) as (pad & r2 & Hpad & ->); [lia|].
    set (at1 := mkAttribute t v pad).
    assert (Heq : u16_be t ++ u16_be n ++ v ++ pad ++ r2 = attribute_layout at1 ++ r2).
    { unfold attribute_layout, at1. cbn. by rewrite Hv, <-!app_assoc. }
    rewrite Heq, app_assoc in H.
    replace (zlen pre + 4 + padded n) with (zlen (pre ++ attribute_layout at1)) in H
      by (unfold attribute_layout, at1; cbn; zlen_norm; lia).
    apply IH in H as [-> (attrs & res & port & ip & extra & tail & -> & Hall & Hrest)].
    split; [done|]. exists (at1 :: attrs), res, port, ip, extra, tail.
    split; [by rewrite Heq; cbn; rewrite <-app_assoc|]. split; [|done]. constructor; [|done].
    unfold other_attribute, at1. cbn. rewrite Hv. unfold U16_MAX in *. split_and!; [done|done|lia|done].
Qed.

Lemma attributes_complete fuel pre attrs reserved port a b c d extra tail tx :
  Forall other_attribute attrs → is_u16 port → zlen extra ≤ U16_MAX - 8 →
  let s := concat (map attribute_layout attrs) ++ mapped_layout reserved port [a; b; c; d] extra ++ tail in
  zlen s < Z.of_nat fuel →
  attributes_loop fuel (pre ++ s) tx (zlen pre) = Ok ((V4 a b c d, port), tx).
Proof.
  intros Hall Hport Hextra. revert fuel pre. induction Hall as [|at1 attrs Hat Hall IH]; intros fuel pre s Hf.
  - destruct fuel as [|fuel]; [pose proof (zlen_nonneg s); lia|]. unfold s. cbn [map concat app].
    unfold mapped_layout. rewrite <-!app_assoc. pose proof (zlen_nonneg extra).
    rewrite attributes_step by ulia.
    replace (_ <? _) with false by (symmetry; apply Z.ltb_ge; zlen_norm; pose proof (zlen_nonneg tail); change (zlen (mask [a; b; c; d])) with 4; lia).
    change (32 =? 32) with true. cbn [mbind outcome_bind].
    rewrite (app_assoc (u16_be 32)), (app_assoc pre).
    replace (zlen pre + 4) with (zlen (pre ++ u16_be 32 ++ u16_be (8 + zlen extra))) by (zlen_norm; lia).
    change (mask [a; b; c; d]) with [byte_xor a x21; byte_xor b x12; byte_xor c xa4; byte_xor d x42].
    rewrite xor_mapped_value by (by apply lxor_u16 || lia). rewrite bool_decide_eq_true_2 by done.
    cbn [mbind outcome_bind]. by rewrite !byte_xor_twice, lxor_twice.
  - destruct fuel as [|fuel]; [pose proof (zlen_nonneg s); lia|].
    destruct Hat as (Ht & Hne & Hlen & Hpad). pose proof (zlen_nonneg (a_value at1)).
    destruct (padded_range (zlen (a_value at1))) as [[Hp1 Hp2] _]; [lia|].
    assert (Heq : s = attribute_layout at1 ++ concat (map attribute_layout attrs) ++
                      mapped_layout reserved port [a; b; c; d] extra ++ tail)
      by (unfold s; cbn; by rewrite <-!app_assoc).
    assert (Hz : zlen (attribute_layout at1) = 4 + padded (zlen (a_value at1)))
      by (unfold attribute_layout; zlen_norm; lia).
    rewrite Heq, zlen_app, Hz in Hf.
    rewrite <-(IH fuel (pre ++ attribute_layout at1)) by lia.
    rewrite Heq, <-app_assoc. unfold attribute_layout at 1. rewrite <-!app_assoc.
    rewrite attributes_step by ulia. zlen_norm.
    pose proof (zlen_nonneg (a_pad at1)).
    rewrite (proj2 (Z.ltb_ge _ _)) by (pose proof (zlen_nonneg (concat (map attribute_layout attrs)));
      pose proof (zlen_nonneg (mapped_layout reserved port [a; b; c; d] extra)); pose proof (zlen_nonneg tail); lia).
    rewrite (proj2 (Z.eqb_neq _ _)) by done. f_equal; [|lia].
    unfold attribute_layout at 2. by rewrite <-!app_assoc.
Qed.

(** The loop accepts exactly the mapped addresses. *)
Lemma attributes_iff pre s tx addr tx' :
  attributes_loop (S (length (pre ++ s))) (pre ++ s) tx (zlen pre) = Ok (addr, tx') ↔
  tx' = tx ∧ mapped_attributes s addr.
Proof.
  split; [apply attributes_sound|].
  intros (-> & attrs & res & port & ip & extra & tail & -> & Hall & Hport & He & a & b & c & d & -> & ->).
  apply attributes_complete; [done..|]. rewrite length_app. unfold zlen. lia.
Qed.

(* ------------------------------------------------------------------ *)
(** ** The header *)
(* ------------------------------------------------------------------ *)

Lemma parse_header declared tx s :
  zlen tx = 12 → is_u16 declared →
  stun_parse_binding_success (response_header declared tx ++ s) =
    if zlen s <? declared then Err InvalidStunPacket
    else attributes_loop (S (length (response_header declared tx ++ s))) (response_header declared tx ++ s)
           tx (zlen (response_header declared tx)).
Proof.
  intros Htx Hd. set (h := response_header declared tx).
  assert (Hh : zlen h = 20) by (unfold h, response_header, cookie_bytes; zlen_norm; lia).
  assert (Hhd : h = [x01; x01] ++ u16_be declared ++ [x21; x12; xa4; x42] ++ tx) by done.
  pose proof (zlen_nonneg s). unfold stun_parse_binding_success.
  rewrite zlen_app, Hh, (proj2 (Z.ltb_ge _ _)) by lia. cbn [reject mbind outcome_bind].
  change (index (h ++ s) 0) with (@Ok NatError _ x01). change (index (h ++ s) 1) with (@Ok NatError _ x01).
  cbn [mbind outcome_bind]. rewrite bool_decide_eq_true_2 by done. cbn [negb orb reject mbind outcome_bind].
  assert (Hl : u16_at (h ++ s) 2 = Ok declared).
  { rewrite Hhd, <-!app_assoc. by apply (u16_at_app [x01; x01]). }
  rewrite Hl. cbn [mbind outcome_bind].
  replace (20 + zlen s <? 20 + declared) with (zlen s <? declared)
    by (destruct (zlen s <? declared) eqn:?; zprop; symmetry; zdec; done).
  destruct (zlen s <? declared); [done|]. cbn [reject mbind outcome_bind].
  change (index (h ++ s) 4) with (@Ok NatError _ x21). change (index (h ++ s) 5) with (@Ok NatError _ x12).
  change (index (h ++ s) 6) with (@Ok NatError _ xa4). change (index (h ++ s) 7) with (@Ok NatError _ x42).
  cbn [mbind outcome_bind]. change (be_value [x21; x12; xa4; x42] =? STUN_MAGIC_COOKIE) with true.
  cbn [negb reject mbind outcome_bind].
  assert (Hs : slice (E:=NatError) (h ++ s) 8 20 = Ok tx).
  { unfold slice. rewrite zlen_app, Hh. zdec. cbn [andb].
    rewrite Hhd, <-!app_assoc. change (drop (Z.to_nat 8) _) with (tx ++ s).
    by rewrite take_zlen_app by lia. }
  by rewrite Hs.
Qed.

(** What the checks on the header let through is a header. *)
Lemma parse_header_inv packet :
  (∃ declared tx s, zlen tx = 12 ∧ is_u16 declared ∧ packet = response_header declared tx ++ s) ∨
  stun_parse_binding_success packet = Err InvalidStunPacket.
Proof.
  unfold stun_parse_binding_success.
  destruct (zlen packet <? 20) eqn:Hlen; zprop; [by right|]. cbn [reject mbind outcome_bind].
  destruct (WireLemmas.split_zlen packet 8) as (hd & r & Hhd & ->); [lia|]. zlen_norm.
  destruct (WireLemmas.split_zlen r 12) as (tx & s & Htx & ->); [lia|].
  do 8 (destruct hd as [|? hd]; [zlen_norm; lia|]). destruct hd; [|zlen_norm; pose proof (zlen_nonneg hd); lia].
  set (pk := ([b; b0; b1; b2; b3; b4; b5; b6] ++ tx ++ s)). unfold u16_at.
  change (index pk 0) with (@Ok NatError _ b). change (index pk 1) with (@Ok NatError _ b0).
  change (index pk 2) with (@Ok NatError _ b1). change (index pk (2 + 1)) with (@Ok NatError _ b2).
  change (index pk 4) with (@Ok NatError _ b3). change (index pk 5) with (@Ok NatError _ b4).
  change (index pk 6) with (@Ok NatError _ b5). change (index pk 7) with (@Ok NatError _ b6).
  cbn [mbind outcome_bind].
  destruct (bool_decide (b = x01)) eqn:H0; [apply bool_decide_eq_true in H0 as ->|by right].
  destruct (bool_decide (b0 = x01)) eqn:H1; [apply bool_decide_eq_true in H1 as ->|by right].
  cbn [negb orb reject mbind outcome_bind mret outcome_ret].
  destruct (_ <? _); [by right|]. cbn [reject mbind outcome_bind].
  destruct (be_value [b3; b4; b5; b6] =? STUN_MAGIC_COOKIE) eqn:Hc; [|by right]. zprop. left.
  exists (be_value [b1; b2]), tx, s. split; [done|]. split; [by apply be_value_is_u16|].
  unfold response_header, cookie_bytes. rewrite <-Hc, u16_be_value, u32_be_value by done. done.
Qed.

Lemma header_inj d d' tx tx' s s' :
  is_u16 d → is_u16 d' → zlen tx = 12 → zlen tx' = 12 →
  response_header d tx ++ s = response_header d' tx' ++ s' → d = d' ∧ tx = tx' ∧ s = s'.
Proof.
  intros Hd Hd' Htx Htx' Heq. unfold response_header in Heq. rewrite <-!app_assoc in Heq.
  apply app_inj_1 in Heq as [_ Heq]; [|done]. apply app_inj_1 in Heq as [Hu Heq]; [|done].
  apply app_inj_1 in Heq as [_ Heq]; [|done].
  apply app_inj_1 in Heq as [-> ->]; [|unfold zlen in *; lia].
  split; [|done]. by rewrite <-(be_value_u16 d), Hu, be_value_u16.
Qed.

(** C37. The parser of binding responses is total (no packet makes it index out of range) and
    accepts exactly the packets that are a success header with the magic cookie, at least as
    many bytes after it as the header declares, and among the attributes that follow an
    XOR-MAPPED-ADDRESS of family IPv4; it returns the unmasked address and port and the
    transaction id of the header. *)
Theorem binding_success_accepts_layouts (packet : list byte) :
  stun_parse_binding_success packet ≠ Panic ∧
  ∀ addr tx, stun_parse_binding_success packet = Ok (addr, tx) ↔
    ∃ declared s, packet = response_header declared tx ++ s ∧ zlen tx = 12 ∧
      is_u16 declared ∧ declared ≤ zlen s ∧ mapped_attributes s addr.
Proof.
  destruct (parse_header_inv packet) as [(declared & tx & s & Htx & Hd & ->)|Herr].
  - rewrite parse_header by done. split.
    { destruct (_ <? _); [done|]. apply attributes_total. rewrite length_app. unfold zlen. lia. }
    intros addr tx'. destruct (zlen s <? declared) eqn:Hs; zprop.
    + split; [done|]. intros (d' & s' & Heq & Htx' & Hd' & Hle & _).
      apply header_inj in Heq as (-> & -> & ->); [lia|done..].
    + rewrite attributes_iff. split.
      * intros [-> Hm]. by exists declared, s.
      * intros (d' & s' & Heq & Htx' & Hd' & Hle & Hm).
        by apply header_inj in Heq as (-> & -> & ->).
  - rewrite Herr. split; [done|]. intros addr tx. split; [done|].
    intros (d & s & -> & Htx & Hd & Hle & Hm). rewrite parse_header in Herr by done.
    rewrite (proj2 (Z.ltb_ge _ _)) in Herr by lia.
    rewrite (proj2 (attributes_iff _ _ _ addr tx)) in Herr by done. done.
Qed.

(** The length a response declares is only a lower bound on the packet: two headers with
    the same transaction id and any two lengths the packet can hold give the same result, so
    attributes past the declared end of the message are read like the others. *)
Theorem declared_length_is_ignored (d d' : Z) (tx s : list byte) :
  zlen tx = 12 → is_u16 d → is_u16 d' → d ≤ zlen s → d' ≤ zlen s →
  ∀ addr, stun_parse_binding_success (response_header d tx ++ s) = Ok (addr, tx) ↔
          stun_parse_binding_success (response_header d' tx ++ s) = Ok (addr, tx).
Proof.
  intros Htx Hd Hd' Hle Hle' addr. rewrite !parse_header by done.
  rewrite !(proj2 (Z.ltb_ge _ _)) by lia. by rewrite !attributes_iff.
Qed.

(** A response that declares no attributes and is followed by a mapped address. *)
Definition sample_tx : list byte := [x01; x02; x03; x04; x05; x06; x07; x08; x09; x0a; x0b; x0c].
Definition sample_mapped : list byte := mapped_layout x00 3478 [x01; x02; x03; x04] [].

Lemma declared_length_is_ignored_witness :
  zlen sample_tx = 12 ∧
  stun_parse_binding_success (response_header 12 sample_tx ++ sample_mapped) =
    Ok (V4 x01 x02 x03 x04, 3478, sample_tx) ∧
  stun_parse_binding_success (response_header 0 sample_tx ++ sample_mapped) =
    Ok (V4 x01 x02 x03 x04, 3478, sample_tx).
Proof.
  split; [done|]. split; [by vm_compute|].
  apply (declared_length_is_ignored 12 0 sample_tx sample_mapped); try by vm_compute.
Defined.

(** The binding request is a header of 20 bytes with no attributes. *)
Example binding_request_layout :
  stun_build_binding_request sample_tx = u16_be 1 ++ u16_be 0 ++ cookie_bytes ++ sample_tx.
Proof. by vm_compute. Qed.
