(* ===== verification/Consent.v ===== *)
(** * Consent freshness ([v3-nat/src/lib.rs], third part)

    The keepalive manager of a nominated path: it sends a keepalive every interval and gives the
    path up after too many intervals without a response. *)

From S2P Require Import Prelude.

Record ConsentConfig : Type := mkConsentConfig { interval_ms : Z; max_missed : Z }.

Definition default_config : ConsentConfig := mkConsentConfig 15000 3.

Record ConsentState : Type := mkConsentState { next_deadline_ms : Z; missed_count : Z }.

Inductive ConsentAction : Type := SendKeepalive | PathLost | Noop.

#[global] Instance ConsentAction_eq_dec : EqDecision ConsentAction.
Proof. solve_decision. Defined.

Record ConsentManager : Type := mkConsentManager { cfg : ConsentConfig; state : ConsentState }.

#[global] Instance ConsentManager_eta : Eta ConsentManager := λ r, mkConsentManager (cfg r) (state r).

Definition new (start_ms : Z) (cfg : ConsentConfig) : ConsentManager :=
  mkConsentManager cfg (mkConsentState (sat_add U64_MAX start_ms (interval_ms cfg)) 0).

Definition on_tick (now_ms : Z) (c : ConsentManager) : ConsentAction * ConsentManager :=
  if now_ms <? next_deadline_ms (state c) then (Noop, c)
  else
    let missed := sat_add U8_MAX (missed_count (state c)) 1 in
    let c' := c <| state := mkConsentState (sat_add U64_MAX now_ms (interval_ms (cfg c))) missed |> in
    (if max_missed (cfg c) <? missed then PathLost else SendKeepalive, c').

Definition on_response (now_ms : Z) (c : ConsentManager) : ConsentManager :=
  c <| state := mkConsentState (sat_add U64_MAX now_ms (interval_ms (cfg c))) 0 |>.

(* ------------------------------------------------------------------ *)
(** ** Runs *)
(* ------------------------------------------------------------------ *)

(** The host's calls: a tick or a response, at a time. *)
Inductive call : Type := Tick (now_ms : Z) | Response (now_ms : Z).

Definition do_call (o : call) (c : ConsentManager) : list ConsentAction * ConsentManager :=
  match o with
  | Tick now => let '(a, c') := on_tick now c in ([a], c')
  | Response now => ([], on_response now c)
  end.

Fixpoint run (os : list call) (c : ConsentManager) : list ConsentAction * ConsentManager :=
  match os with
  | [] => ([], c)
  | o :: os' =>
      let '(l, c1) := do_call o c in
      let '(l', c2) := run os' c1 in
      (l ++ l', c2)
  end.

(** Ticks every one of which is at least an interval after the one before (the first, after
    [last]). *)
Fixpoint spaced (interval last : Z) (ts : list Z) : Prop :=
  match ts with
  | [] => True
  | t :: ts' => last + interval ≤ t ∧ t ≤ U64_MAX ∧ spaced interval t ts'
  end.

Definition config_ok (c : ConsentConfig) : Prop := is_u64 (interval_ms c) ∧ is_u8 (max_missed c).
