(* ===== verification/ConsentProps.v ===== *)
(** * Correctness of the consent manager

    When a silent path is given up, and when it is not. *)

From S2P Require Import Prelude Consent.

(** The time of the last response, or the start. *)
Definition last_heard (start : Z) (os : list call) : Z :=
  foldl (λ h o, match o with Response now => now | Tick _ => h end) start os.

(** What a manager remembers of the silence since [heard]. *)
Definition silence_inv (c0 : ConsentConfig) (heard : Z) (c : ConsentManager) : Prop :=
  cfg c = c0 ∧ 0 ≤ missed_count (state c) ∧
  Z.min U64_MAX (heard + (missed_count (state c) + 1) * interval_ms c0) ≤ next_deadline_ms (state c).

Lemma silence_new c0 start : silence_inv c0 start (new start c0).
Proof. unfold silence_inv, new. cbn [cfg state missed_count next_deadline_ms]. split; [done|ulia]. Qed.

Lemma silence_response c0 heard now c : silence_inv c0 heard c → silence_inv c0 now (on_response now c).
Proof. intros (<- & _ & _). unfold silence_inv, on_response, upd. cbn [cfg state missed_count next_deadline_ms]. split; [done|ulia]. Qed.

Lemma silence_tick c0 heard now c :
  0 ≤ interval_ms c0 → silence_inv c0 heard c → silence_inv c0 heard (on_tick now c).2.
Proof.
  intros Hi (<- & Hm & Hd). unfold on_tick, silence_inv. destruct (_ <? _) eqn:Hlt; [done|].
  zprop. unfold upd. cbn [fst snd cfg state missed_count next_deadline_ms]. split; [done|]. unfold_ints. nia.
Qed.

Lemma silence_run c0 heard os c :
  0 ≤ interval_ms c0 → silence_inv c0 heard c → silence_inv c0 (last_heard heard os) (run os c).2.
Proof.
  intros Hi. revert heard c. induction os as [|o os IH]; intros heard c H; [done|]. cbn [run].
  destruct (do_call o c) as [l c1] eqn:Ho. destruct (run os c1) as [l' c2] eqn:Hr. cbn.
  change c2 with (l', c2).2. rewrite <-Hr. apply IH. destruct o as [now|now]; cbn in Ho.
  - destruct (on_tick now c) as [a c'] eqn:Ht. injection Ho as _ <-.
    change c' with (a, c').2. rewrite <-Ht. by apply silence_tick.
  - injection Ho as _ <-. by eapply silence_response.
Qed.

(** A path is never given up early: whatever ticks and responses the host feeds a manager, a
    tick that answers [PathLost] is at least [max_missed + 1] whole intervals after the last
    response (or the start), or at the end of the clock. *)
Theorem path_is_not_lost_early (c0 : ConsentConfig) (start now : Z) (os : list call) :
  config_ok c0 → (on_tick now (run os (new start c0)).2).1 = PathLost →
  Z.min U64_MAX (last_heard start os + (max_missed c0 + 1) * interval_ms c0) ≤ now.
Proof.
  intros [Hi Hm]. pose proof (silence_run c0 start os _ ltac:(ulia) (silence_new c0 start)) as Hinv.
  revert Hinv. generalize (run os (new start c0)).2. intros c (<- & Hc & Hd). unfold on_tick.
  destruct (_ <? _) eqn:Hlt; [done|]. destruct (max_missed (cfg c) <? _) eqn:Hlost; [|done]. intros _.
  zprop. unfold_ints. nia.
Qed.

Lemma path_is_not_lost_early_witness :
  config_ok (mkConsentConfig 100 2) ∧
  (on_tick 400 (run [Tick 100; Response 100; Tick 200; Tick 300] (new 0 (mkConsentConfig 100 2))).2).1
    = PathLost ∧ Z.min U64_MAX (100 + (2 + 1) * 100) ≤ 400.
Proof.
  split; [by vm_compute|]. split; [by vm_compute|].
  apply (path_is_not_lost_early (mkConsentConfig 100 2) 0 400 [Tick 100; Response 100; Tick 200; Tick 300]);
    by vm_compute.
Defined.

(** The verdict of the [k]-th silent tick, counted from 0. *)
Definition verdict (c0 : ConsentConfig) (k : nat) : ConsentAction :=
  if bool_decide (max_missed c0 < U8_MAX ∧ max_missed c0 ≤ Z.of_nat k) then PathLost else SendKeepalive.

Lemma silent_ticks ts c heard k :
  config_ok (cfg c) → missed_count (state c) = Z.min U8_MAX (Z.of_nat k) →
  next_deadline_ms (state c) = sat_add U64_MAX heard (interval_ms (cfg c)) →
  spaced (interval_ms (cfg c)) heard ts →
  (run (map Tick ts) c).1 = map (verdict (cfg c)) (seq k (length ts)).
Proof.
  revert c heard k. induction ts as [|t ts IH]; intros c heard k Hok Hm Hd Hs; [done|].
  destruct Hs as (Hle & Hmax & Hs). cbn [map run do_call length seq].
  unfold on_tick. rewrite Hd, (proj2 (Z.ltb_ge _ _)) by ulia.
  set (c' := c <| state := _ |>). destruct (run (map Tick ts) c') as [l c2] eqn:Hr. cbn [app fst].
  f_equal.
  - unfold verdict. rewrite Hm. destruct Hok as [_ Hmm].
    destruct (max_missed (cfg c) <? _) eqn:Hlt; zprop; case_bool_decide; try done; exfalso; ulia.
  - change l with (l, c2).1. rewrite <-Hr. apply (IH c' t); [done| |done|done].
    unfold c'. cbn. rewrite Hm. ulia.
Qed.

(** C38. After a response, ticks at least an interval apart are answered by [max_missed]
    keepalives and then by [PathLost] each time, except that with [max_missed] at 255 the [u8]
    counter saturates below the bound and the path is never given up. *)
Theorem silence_loses_path (c : ConsentManager) (heard : Z) (ts : list Z) :
  config_ok (cfg c) → spaced (interval_ms (cfg c)) heard ts →
  (run (map Tick ts) (on_response heard c)).1 = map (verdict (cfg c)) (seq 0 (length ts)).
Proof. intros Hok Hs. by apply (silent_ticks ts (on_response heard c) heard 0). Qed.

Lemma silence_loses_path_witness :
  spaced 100 0 [100; 200; 350; 450] ∧
  (run (map Tick [100; 200; 350; 450]) (on_response 0 (new 0 (mkConsentConfig 100 2)))).1 =
    [SendKeepalive; SendKeepalive; PathLost; PathLost].
Proof.
  split; [by vm_compute|].
  apply (silence_loses_path (new 0 (mkConsentConfig 100 2)) 0 [100; 200; 350; 450]); by vm_compute.
Defined.
