(* ===== verification/Turn.v ===== *)
(** * TURN allocations ([v3-nat/src/lib.rs], fourth part)

    The state machine of a relay allocation: authentication, refreshes ahead of the expiries and
    retries with exponential backoff. *)

From S2P Require Import Prelude.
From S2P Require Ice.

Inductive TurnAuthMode : Type := LongTerm | RestSecret.

Inductive TurnState : Type := Idle | Allocating | Allocated | Failed.

#[global] Instance TurnState_eq_dec : EqDecision TurnState.
Proof. solve_decision. Defined.

Inductive TurnEvent : Type :=
| AllocationOk (lifetime_secs : Z)
| PermissionOk
| ChannelBindOk
| Unauthorized
| StaleNonce
| TransportFailure.

Inductive TurnAction : Type :=
| SendAllocate
| SendAllocateWithAuth
| SendRefresh
| SendCreatePermission
| SendChannelBind
| RetryAfter (delay_ms : Z)
| MarkFailed
| Noop.

#[global] Instance TurnAction_eq_dec : EqDecision TurnAction.
Proof. solve_decision. Defined.

Record TurnConfig : Type := mkTurnConfig {
  auth_mode : TurnAuthMode;
  refresh_before_expiry_secs : Z;
  retry_backoff_ms : Z;
  permission_refresh_ms : Z;
  channel_refresh_ms : Z;
  relay_policy : Ice.RelayPolicy;
}.

#[global] Instance TurnConfig_eta : Eta TurnConfig := λ r,
  mkTurnConfig (auth_mode r) (refresh_before_expiry_secs r) (retry_backoff_ms r)
    (permission_refresh_ms r) (channel_refresh_ms r) (relay_policy r).

Definition default_config : TurnConfig :=
  mkTurnConfig RestSecret 60 1000 240000 540000 Ice.PreferDirect.

Record TurnManager : Type := mkTurnManager {
  state : TurnState;
  allocation_expiry_ms : option Z;
  permission_expiry_ms : option Z;
  channel_expiry_ms : option Z;
  retries : Z;
  cfg : TurnConfig;
}.

#[global] Instance TurnManager_eta : Eta TurnManager := λ r,
  mkTurnManager (state r) (allocation_expiry_ms r) (permission_expiry_ms r)
    (channel_expiry_ms r) (retries r) (cfg r).

Definition new (cfg : TurnConfig) : TurnManager := mkTurnManager Idle None None None 0 cfg.

Definition start_allocate (t : TurnManager) : TurnAction * TurnManager :=
  (SendAllocate, t <| state := Allocating |>).

(** [deadline.is_some_and(|v| now_ms >= v)]. *)
Definition is_due (now_ms : Z) (deadline : option Z) : bool :=
  match deadline with
  | Some v => v <=? now_ms
  | None => false
  end.

(** [u64::from(secs) * 1000]. *)
Definition secs_to_ms (secs : Z) : Z := mul64 secs 1000.

(** When the allocation is refreshed. *)
Definition refresh_at (t : TurnManager) : option Z :=
  (λ expiry, sat_sub expiry (secs_to_ms (refresh_before_expiry_secs (cfg t)))) <$>
  allocation_expiry_ms t.

Definition on_tick (now_ms : Z) (t : TurnManager) : TurnAction :=
  if negb (bool_decide (state t = Allocated)) then Noop
  else if is_due now_ms (refresh_at t) then SendRefresh
  else if is_due now_ms (permission_expiry_ms t) then SendCreatePermission
  else if is_due now_ms (channel_expiry_ms t) then SendChannelBind
  else Noop.

(** [a << b] on [u64]: the amount is taken modulo 64 in the release profile. *)
Definition shl64 (a b : Z) : Z := wrap64 (Z.shiftl a (b mod 64)).

(** [now_ms.saturating_add(period)]. *)
Definition after (now_ms period : Z) : option Z := Some (sat_add U64_MAX now_ms period).

Definition on_event (now_ms : Z) (event : TurnEvent) (t : TurnManager) : TurnAction * TurnManager :=
  match event with
  | AllocationOk lifetime_secs =>
      (SendCreatePermission,
       t <| state := Allocated |>
         <| retries := 0 |>
         <| allocation_expiry_ms := after now_ms (secs_to_ms lifetime_secs) |>
         <| permission_expiry_ms := after now_ms (permission_refresh_ms (cfg t)) |>
         <| channel_expiry_ms := after now_ms (channel_refresh_ms (cfg t)) |>)
  | PermissionOk =>
      (SendChannelBind,
       t <| permission_expiry_ms := after now_ms (permission_refresh_ms (cfg t)) |>)
  | ChannelBindOk =>
      (Noop, t <| channel_expiry_ms := after now_ms (channel_refresh_ms (cfg t)) |>)
  | Unauthorized | StaleNonce => (SendAllocateWithAuth, t)
  | TransportFailure =>
      let n := sat_add U32_MAX (retries t) 1 in
      let t' := t <| retries := n |> in
      if 5 <? n then (MarkFailed, t' <| state := Failed |>)
      else (RetryAfter (sat_mul U64_MAX (retry_backoff_ms (cfg t)) (shl64 1 (n - 1))), t')
  end.

(** [tune_turn_refresh_for_disconnect_window]. *)
Definition tune_turn_refresh_for_disconnect_window (cfg : TurnConfig) (disconnect_window_ms : Z)
    : TurnConfig :=
  let guard_ms := disconnect_window_ms / 10 in
  let target_ms := Z.max (sat_sub disconnect_window_ms guard_ms) 30000 in
  cfg <| permission_refresh_ms := Z.min (permission_refresh_ms cfg) target_ms |>
      <| channel_refresh_ms := Z.min (channel_refresh_ms cfg) target_ms |>.

(* ------------------------------------------------------------------ *)
(** ** Runs *)
(* ------------------------------------------------------------------ *)

(** The host's calls that change the state. *)
Inductive turn_call : Type :=
| StartAllocate
| Event (now_ms : Z) (event : TurnEvent).

Definition turn_step (o : turn_call) (t : TurnManager) : TurnAction * TurnManager :=
  match o with
  | StartAllocate => start_allocate t
  | Event now_ms event => on_event now_ms event t
  end.

Fixpoint turn_run (os : list turn_call) (t : TurnManager) : list TurnAction * TurnManager :=
  match os with
  | [] => ([], t)
  | o :: os' =>
      let '(a, t1) := turn_step o t in
      let '(l, t2) := turn_run os' t1 in
      (a :: l, t2)
  end.

(** The values of the configuration's types. *)
Definition turn_config_ok (c : TurnConfig) : Prop :=
  is_u32 (refresh_before_expiry_secs c) ∧ is_u64 (retry_backoff_ms c) ∧
  is_u64 (permission_refresh_ms c) ∧ is_u64 (channel_refresh_ms c).

(** The answer to the [k]-th transport failure in a row, counted from 0. *)
Definition failure_answer (cfg : TurnConfig) (k : nat) : TurnAction :=
  if bool_decide (k < 5)%nat then RetryAfter (Z.min U64_MAX (retry_backoff_ms cfg * 2 ^ Z.of_nat k))
  else MarkFailed.

(** The failures among the calls, and the answers to them. *)
Definition is_failure (o : turn_call) : bool :=
  match o with
  | Event _ TransportFailure => true
  | _ => false
  end.

Definition failure_actions (os : list turn_call) (acts : list TurnAction) : list TurnAction :=
  omap (λ p, if is_failure p.1 then Some p.2 else None) (zip os acts).

Definition failure_count (os : list turn_call) : nat := length (filter (λ o, is_failure o = true) os).

Definition is_allocation (o : turn_call) : Prop :=
  match o with
  | Event _ (AllocationOk _) => True
  | _ => False
  end.

(** The call's arguments fit their types. *)
Definition call_ok (o : turn_call) : Prop :=
  match o with
  | Event _ (AllocationOk lifetime_secs) => is_u32 lifetime_secs
  | _ => True
  end.

(** When the allocation, the permission and the channel were last confirmed, and for how long
    the allocation was granted. *)
Definition note_allocation (acc : option (Z * Z)) (o : turn_call) : option (Z * Z) :=
  match o with
  | Event now (AllocationOk secs) => Some (now, secs)
  | _ => acc
  end.

Definition note_permission (acc : option Z) (o : turn_call) : option Z :=
  match o with
  | Event now (AllocationOk _) | Event now PermissionOk => Some now
  | _ => acc
  end.

Definition note_channel (acc : option Z) (o : turn_call) : option Z :=
  match o with
  | Event now (AllocationOk _) | Event now ChannelBindOk => Some now
  | _ => acc
  end.

Definition last_allocation : list turn_call → option (Z * Z) := foldl note_allocation None.
Definition last_permission : list turn_call → option Z := foldl note_permission None.
Definition last_channel : list turn_call → option Z := foldl note_channel None.
