(* ===== verification/TurnProps.v ===== *)
(** * Correctness of the TURN manager

    The deadlines it keeps, the retries it makes and the tuning of its refreshes. *)

From S2P Require Import Prelude Turn.
From S2P Require Core.

(* ------------------------------------------------------------------ *)
(** ** Deadlines *)
(* ------------------------------------------------------------------ *)

(** What a manager knows after some calls, in terms of the last confirmations. *)
Definition deadlines_inv (c : TurnConfig) (alloc : option (Z * Z)) (perm chan : option Z)
    (t : TurnManager) : Prop :=
  cfg t = c ∧
  allocation_expiry_ms t = (λ a, sat_add U64_MAX a.1 (a.2 * 1000)) <$> alloc ∧
  permission_expiry_ms t = (λ p, sat_add U64_MAX p (permission_refresh_ms c)) <$> perm ∧
  channel_expiry_ms t = (λ p, sat_add U64_MAX p (channel_refresh_ms c)) <$> chan ∧
  (state t = Allocated → is_Some alloc ∧ is_Some perm ∧ is_Some chan).

Lemma secs_to_ms_exact s : is_u32 s → secs_to_ms s = s * 1000.
Proof. intros Hs. unfold secs_to_ms, mul64, wrap64. apply Z.mod_small. ulia. Qed.

Lemma deadlines_step c alloc perm chan o t :
  call_ok o → deadlines_inv c alloc perm chan t →
  deadlines_inv c (note_allocation alloc o) (note_permission perm o) (note_channel chan o)
    (turn_step o t).2.
Proof.
  intros Hok (<- & Ha & Hp & Hc & Hs). unfold deadlines_inv.
  destruct o as [|now [secs| | | | |]]; cbn in Hok |- *; unfold after;
    rewrite ?secs_to_ms_exact by done;
    try (destruct (5 <? sat_add U32_MAX (retries t) 1); cbn);
    split_and!; try done; try (by intros _; eauto); intros Hst; destruct (Hs Hst) as (? & ? & ?); eauto.
Qed.

Lemma deadlines_run c os alloc perm chan t :
  Forall call_ok os → deadlines_inv c alloc perm chan t →
  deadlines_inv c (foldl note_allocation alloc os) (foldl note_permission perm os)
    (foldl note_channel chan os) (turn_run os t).2.
Proof.
  intros Hok. revert alloc perm chan t. induction Hok as [|o os Ho Hok IH]; intros alloc perm chan t H; [done|].
  apply (deadlines_step _ _ _ _ o) in H; [|done]. cbn [turn_run foldl].
  destruct (turn_step o t) as [a t1]. apply IH in H. cbn in H. by destruct (turn_run os t1).
Qed.

(** C39. The tick of every reachable manager, on every branch: nothing unless an allocation
    stands; a refresh from [refresh_before_expiry_secs] before the end of the lifetime last
    granted; else a permission once [permission_refresh_ms] passed since it was last confirmed;
    else a channel binding after [channel_refresh_ms]; else nothing. *)
Theorem ticks_follow_deadlines (c : TurnConfig) (os : list turn_call) (now : Z) :
  turn_config_ok c → Forall call_ok os → 0 ≤ now →
  let t := (turn_run os (new c)).2 in
  (state t ≠ Allocated → on_tick now t = Noop) ∧
  (state t = Allocated → ∃ granted secs permitted bound,
    last_allocation os = Some (granted, secs) ∧ last_permission os = Some permitted ∧
    last_channel os = Some bound ∧
    on_tick now t =
      if decide (Z.min U64_MAX (granted + secs * 1000) - refresh_before_expiry_secs c * 1000 ≤ now)
      then SendRefresh
      else if decide (Z.min U64_MAX (permitted + permission_refresh_ms c) ≤ now) then SendCreatePermission
      else if decide (Z.min U64_MAX (bound + channel_refresh_ms c) ≤ now) then SendChannelBind
      else Noop).
Proof.
  intros Hc Hos Hnow t.
  assert (Hinv : deadlines_inv c (last_allocation os) (last_permission os) (last_channel os) t)
    by (by apply deadlines_run).
  destruct Hinv as (Hcfg & Ha & Hp & Hch & Hs). split; intros Hst.
  { unfold on_tick. by rewrite bool_decide_eq_false_2. }
  destruct (Hs Hst) as ([[granted secs] Hg] & [permitted Hpe] & [bound Hb]).
  exists granted, secs, permitted, bound. split; [done|]. split; [done|]. split; [done|].
  unfold on_tick, refresh_at. rewrite bool_decide_eq_true_2 by done. rewrite Ha, Hp, Hch, Hg, Hpe, Hb, Hcfg.
  cbn [fmap option_fmap option_map negb is_due fst snd].
  rewrite secs_to_ms_exact by apply Hc. 
  repeat case_decide; unfold_ints; zdec; done.
Qed.

(** A granted allocation of 600 s: the refresh is due 60 s before its end. *)
Definition sample_calls : list turn_call :=
  [StartAllocate; Event 1000 Unauthorized; Event 1500 (AllocationOk 600); Event 2000 PermissionOk].

Lemma ticks_follow_deadlines_witness :
  turn_config_ok default_config ∧ Forall call_ok sample_calls ∧
  state (turn_run sample_calls (new default_config)).2 = Allocated ∧
  on_tick 541500 (turn_run sample_calls (new default_config)).2 = SendRefresh ∧
  ∃ granted secs, last_allocation sample_calls = Some (granted, secs).
Proof.
  assert (Hc : turn_config_ok default_config) by (unfold turn_config_ok; vm_compute; intuition discriminate).
  assert (Hs : Forall call_ok sample_calls) by (repeat constructor; vm_compute; discriminate).
  split; [done|]. split; [done|]. split; [by vm_compute|]. split; [by vm_compute|].
  destruct (ticks_follow_deadlines default_config sample_calls 541500 Hc Hs ltac:(lia)) as [_ H].
  destruct H as (granted & secs & _ & _ & H & _); [by vm_compute|]. by exists granted, secs.
Defined.

(* ------------------------------------------------------------------ *)
(** ** Retries *)
(* ------------------------------------------------------------------ *)

Lemma shl64_one n : 1 ≤ n ≤ 5 → shl64 1 (n - 1) = 2 ^ (n - 1).
Proof.
  intros Hn. unfold shl64. rewrite (Z.mod_small (n - 1)), Z.shiftl_1_l by lia.
  pose proof (Z.pow_le_mono_r 2 (n - 1) 4). change (2 ^ 4) with 16 in *.
  pose proof (Z.pow_pos_nonneg 2 (n - 1)). apply Z.mod_small. ulia.
Qed.

(** One call that is not a confirmed allocation, after [k] failures. *)
Lemma retry_step o t k :
  ¬ is_allocation o → retries t = Z.min U32_MAX (Z.of_nat k) →
  let '(a, t') := turn_step o t in
  cfg t' = cfg t ∧
  if is_failure o then a = failure_answer (cfg t) k ∧ retries t' = Z.min U32_MAX (Z.of_nat (S k)) ∧
    (if bool_decide (5 ≤ k)%nat then state t' = Failed else state t' = state t)
  else retries t' = retries t.
Proof.
  intros Ho Hr. destruct o as [|now [secs| | | | |]]; try done.
  cbn [turn_step on_event is_failure]. unfold upd. cbn [retries]. rewrite Hr.
  assert (Hn : sat_add U32_MAX (Z.min U32_MAX (Z.of_nat k)) 1 = Z.min U32_MAX (Z.of_nat (S k))) by ulia.
  rewrite Hn. unfold failure_answer. destruct (5 <? _) eqn:H5; zprop; cbn [cfg retries state];
    (split; [done|]).
  - rewrite (bool_decide_eq_false_2 (k < 5)%nat), (bool_decide_eq_true_2 (5 <= k)%nat) by ulia. done.
  - rewrite (bool_decide_eq_true_2 (k < 5)%nat), (bool_decide_eq_false_2 (5 <= k)%nat) by ulia. split; [|done].
    replace (Z.min U32_MAX (Z.of_nat (S k))) with (Z.of_nat (S k)) by ulia.
    rewrite shl64_one by ulia. by replace (Z.of_nat (S k) - 1) with (Z.of_nat k) by lia.
Qed.

Lemma retry_run os t k :
  Forall (λ o, ¬ is_allocation o) os → retries t = Z.min U32_MAX (Z.of_nat k) →
  failure_actions os (turn_run os t).1 = map (failure_answer (cfg t)) (seq k (failure_count os)) ∧
  retries (turn_run os t).2 = Z.min U32_MAX (Z.of_nat (k + failure_count os)) ∧
  cfg (turn_run os t).2 = cfg t.
Proof.
  intros Hos. revert t k. induction Hos as [|o os Ho Hos IH]; intros t k Hr.
  { cbn. by rewrite Nat.add_0_r. }
  pose proof (retry_step o t k Ho Hr) as Hstep. cbn [turn_run].
  destruct (turn_step o t) as [a t1]. destruct Hstep as [Hcfg Hstep].
  unfold failure_count. destruct (is_failure o) eqn:Hf.
  - destruct Hstep as (-> & Hr1 & _). destruct (IH t1 (S k) Hr1) as (Ha & Hr2 & Hc).
    destruct (turn_run os t1) as [l t2]. cbn [fst snd] in *. unfold failure_actions in *.
    cbn [zip_with omap list_omap fst snd]. rewrite Hf, filter_cons_True by done. cbn [length seq map].
    rewrite Ha, Hcfg, Hr2, Hc. split_and!; [done|f_equal; unfold failure_count; lia|done].
  - destruct (IH t1 k) as (Ha & Hr2 & Hc); [congruence|].
    destruct (turn_run os t1) as [l t2]. cbn [fst snd] in *. unfold failure_actions in *.
    cbn [zip_with omap list_omap fst snd]. rewrite Hf, filter_cons_False by congruence.
    rewrite Ha, Hcfg, Hr2, Hc. done.
Qed.

(** Until an allocation is confirmed, and whatever other calls come between, the transport
    failures of a new manager are answered by retries after [retry_backoff_ms] times 1, 2, 4, 8
    and 16 (capped at the end of the clock, the shift never overflows), and the sixth and every
    later one gives the allocation up: the manager is then [Failed] and its ticks idle. *)
Theorem failures_back_off (c : TurnConfig) (os : list turn_call) (now : Z) :
  Forall (λ o, ¬ is_allocation o) os →
  let '(acts, t) := turn_run os (new c) in
  failure_actions os acts = map (failure_answer c) (seq 0 (failure_count os)) ∧
  let '(a, t') := on_event now TransportFailure t in
  a = failure_answer c (failure_count os) ∧
  ((5 ≤ failure_count os)%nat → state t' = Failed ∧ ∀ later, on_tick later t' = Noop) ∧
  ((failure_count os < 5)%nat → state t' = state t).
Proof.
  intros Hos. pose proof (retry_run os (new c) 0 Hos eq_refl) as H.
  destruct (turn_run os (new c)) as [acts t]. cbn [fst snd] in H. destruct H as (Ha & Hr & Hc).
  split; [done|].
  pose proof (retry_step (Event now TransportFailure) t _ (λ H, H) Hr) as Hstep. cbn [turn_step] in Hstep.
  destruct (on_event now TransportFailure t) as [a t']. cbn [is_failure] in Hstep.
  destruct Hstep as (_ & -> & _ & Hst). cbn [Nat.add] in Hst. rewrite Hc. split; [done|].
  split; intros Hk; [rewrite bool_decide_eq_true_2 in Hst by done|by rewrite bool_decide_eq_false_2 in Hst by lia].
  split; [done|]. intros later. unfold on_tick. by rewrite Hst.
Qed.

(** Six failures with a stale nonce between them. *)
Definition sample_failures : list turn_call :=
  [StartAllocate; Event 1 TransportFailure; Event 2 TransportFailure; Event 3 StaleNonce;
   Event 4 TransportFailure; Event 5 TransportFailure; Event 6 TransportFailure].

Lemma failures_back_off_witness :
  Forall (λ o, ¬ is_allocation o) sample_failures ∧
  map (failure_answer default_config) (seq 0 6) =
    [RetryAfter 1000; RetryAfter 2000; RetryAfter 4000; RetryAfter 8000; RetryAfter 16000; MarkFailed] ∧
  state (on_event 7 TransportFailure (turn_run sample_failures (new default_config)).2).2 = Failed.
Proof.
  assert (Hs : Forall (λ o, ¬ is_allocation o) sample_failures) by (repeat constructor; intros []).
  split; [done|]. split; [by vm_compute|].
  pose proof (failures_back_off default_config sample_failures 7 Hs) as H. vm_compute in H.
  vm_compute. apply H. lia.
Defined.

(* ------------------------------------------------------------------ *)
(** ** Tuning *)
(* ------------------------------------------------------------------ *)

(** Tuning only lowers the two refresh periods, to at most nine tenths of the disconnect
    window (rounded up) or 30 s; both are inside a window of at least 30 s, and for a shorter
    one, which a timer negotiation may settle on, the default periods come out at 30 s, past
    the window. *)
Theorem tuned_refresh_bounds (c : TurnConfig) (w : Z) :
  is_u64 w →
  let c' := tune_turn_refresh_for_disconnect_window c w in
  (permission_refresh_ms c' = Z.min (permission_refresh_ms c) (Z.max (w - w / 10) 30000) ∧
   channel_refresh_ms c' = Z.min (channel_refresh_ms c) (Z.max (w - w / 10) 30000)) ∧
  (30000 ≤ w → permission_refresh_ms c' ≤ w ∧ channel_refresh_ms c' ≤ w) ∧
  (Core.MIN_DISCONNECT_WINDOW_MS ≤ w < 30000 → c = default_config →
   w < permission_refresh_ms c' ∧ w < channel_refresh_ms c') ∧
  (auth_mode c' = auth_mode c ∧ refresh_before_expiry_secs c' = refresh_before_expiry_secs c ∧
   retry_backoff_ms c' = retry_backoff_ms c ∧ relay_policy c' = relay_policy c).
Proof.
  intros Hw c'. assert (0 ≤ w / 10 ≤ w) by (unfold_ints; split; [apply Z.div_pos|apply Z.div_le_upper_bound]; lia).
  unfold c', tune_turn_refresh_for_disconnect_window, upd. cbn. unfold_ints.
  split_and!; try lia; try done; intros ? ->; cbn; lia.
Qed.

Lemma tuned_refresh_bounds_witness :
  is_u64 5000 ∧ 5000 < permission_refresh_ms (tune_turn_refresh_for_disconnect_window default_config 5000).
Proof.
  split; [by vm_compute|].
  destruct (tuned_refresh_bounds default_config 5000 ltac:(by vm_compute)) as (_ & _ & H & _).
  apply H; [vm_compute; split; [discriminate|done]|done].
Defined.
