(* ===== verification/Replay.v ===== *)
(** * Replay protection and frame authentication ([v3-crypto/src/lib.rs], first part)

    The sliding window over sequence numbers and the per-frame tags.  HMAC-SHA256 is the [hmac]
    crate's: a class of its operations with the laws the crate documents. *)

From S2P Require Import Prelude Bytes Text.

Inductive CryptoError : Type :=
| InvalidConfig (message : str)
| AuthFailed (message : str)
| Provider (message : str).

#[global] Instance CryptoError_eq_dec : EqDecision CryptoError.
Proof. solve_decision. Defined.

(* ------------------------------------------------------------------ *)
(** ** The window *)
(* ------------------------------------------------------------------ *)

Record ReplayWindow : Type := mkReplayWindow { max_seen : Z; bits : Z; window_size : Z }.

#[global] Instance ReplayWindow_eta : Eta ReplayWindow := λ r,
  mkReplayWindow (max_seen r) (bits r) (window_size r).

(** [window_size.clamp(1, 128)]. *)
Definition clamp_size (window_size : Z) : Z := Z.max 1 (Z.min window_size 128).

Definition new_window (window_size : Z) : ReplayWindow := mkReplayWindow 0 0 (clamp_size window_size).

(** [a << b] on [u128]: the amount is taken modulo 128 in the release profile. *)
Definition shl128 (a b : Z) : Z := Z.shiftl a (b mod 128) mod 2 ^ 128.

Definition accept (sequence : Z) (w : ReplayWindow) : bool * ReplayWindow :=
  if (max_seen w =? 0) && (bits w =? 0) then
    (true, w <| max_seen := sequence |> <| bits := 1 |>)
  else if max_seen w <? sequence then
    let shift := sequence - max_seen w in
    let shifted := if window_size w <=? shift then 0 else shl128 (bits w) (as_u32 shift) in
    (true, w <| bits := Z.lor shifted 1 |> <| max_seen := sequence |>)
  else
    let delta := max_seen w - sequence in
    if window_size w <=? delta then (false, w)
    else
      let mask := shl128 1 delta in
      if negb (Z.land (bits w) mask =? 0) then (false, w)
      else (true, w <| bits := Z.lor (bits w) mask |>).

(** A sequence of frames. *)
Fixpoint accept_all (ss : list Z) (w : ReplayWindow) : list bool * ReplayWindow :=
  match ss with
  | [] => ([], w)
  | s :: ss' =>
      let '(b, w1) := accept s w in
      let '(bs, w2) := accept_all ss' w1 in
      (b :: bs, w2)
  end.

(** What the window promises: with [seen] accepted so far, a sequence number is fresh when it was
    not accepted before and is less than [w] behind every accepted one. *)
Definition fresh (w : Z) (seen : list Z) (s : Z) : bool :=
  bool_decide (s ∉ seen) && forallb (λ a, a - s <? w) seen.

Fixpoint fresh_all (w : Z) (seen ss : list Z) : list bool * list Z :=
  match ss with
  | [] => ([], seen)
  | s :: ss' =>
      let b := fresh w seen s in
      let '(bs, seen') := fresh_all w (if b then s :: seen else seen) ss' in
      (b :: bs, seen')
  end.

(* ------------------------------------------------------------------ *)
(** ** Frame tags *)
(* ------------------------------------------------------------------ *)

(** The [Mac] trait of the [hmac] crate, with the behaviour it documents. *)
Class Mac (mac : Type) : Type := {
  new_from_slice : list byte → outcome str mac;
  update : mac → list byte → mac;
  finalize : mac → list byte;
  verify_slice : mac → list byte → bool;
  (** HMAC takes keys of every length. *)
  new_from_slice_ok key : ∃ m, new_from_slice key = Ok m;
  (** Updates are incremental. *)
  update_app m a b : update (update m a) b = update m (a ++ b);
  (** A tag verifies when it is the one [finalize] gives. *)
  verify_slice_iff m tag : verify_slice m tag = true ↔ tag = finalize m;
}.

Record HmacSha256FrameAuth : Type := mkFrameAuth { key : list byte; replay_window : ReplayWindow }.

#[global] Instance HmacSha256FrameAuth_eta : Eta HmacSha256FrameAuth := λ r,
  mkFrameAuth (key r) (replay_window r).

Definition new_auth (key : list byte) (replay_window_size : Z) : HmacSha256FrameAuth :=
  mkFrameAuth key (new_window replay_window_size).

Section FrameAuth.
Context {mac : Type} `{!Mac mac}.

(** The bytes fed to the MAC, one [update] after the other. *)
Definition feed (m : mac) (sequence cid path_id : Z) (payload : list byte) : mac :=
  let m := update m (u64_be sequence) in
  let m := update m (u64_be cid) in
  let m := update m (u32_be path_id) in
  let m := update m (u64_be (zlen payload)) in
  update m payload.

Definition init_mac (key : list byte) : outcome CryptoError mac :=
  map_err (λ e, Provider (lit "hmac init failed: " ++ e)) (new_from_slice key).

Definition sign_inner (key : list byte) (sequence cid path_id : Z) (payload : list byte)
    : outcome CryptoError (list byte) :=
  m ← init_mac key;
  mret (finalize (feed m sequence cid path_id payload)).

Definition sign (sequence cid path_id : Z) (payload : list byte) (a : HmacSha256FrameAuth)
    : outcome CryptoError (list byte) :=
  sign_inner (key a) sequence cid path_id payload.

Definition replay_message (sequence : Z) : str :=
  lit "replay rejected for sequence=" ++ show_u64 sequence.

Definition verify (sequence cid path_id : Z) (payload tag : list byte)
    : ST HmacSha256FrameAuth CryptoError () :=
  a ← st_get;
  let '(accepted, w) := accept sequence (replay_window a) in
  st_modify (λ a, a <| replay_window := w |>) ;;
  st_reject (negb accepted) (AuthFailed (replay_message sequence)) ;;
  expected ← st_lift (sign_inner (key a) sequence cid path_id payload);
  m ← st_lift (init_mac (key a));
  let m := feed m sequence cid path_id payload in
  st_reject (negb (verify_slice m tag)) (AuthFailed (lit "frame auth tag mismatch")) ;;
  st_reject (negb (zlen expected =? zlen tag)) (AuthFailed (lit "frame auth tag length mismatch")).

(** The message the tag of a frame covers. *)
Definition frame_message (sequence cid path_id : Z) (payload : list byte) : list byte :=
  u64_be sequence ++ u64_be cid ++ u32_be path_id ++ u64_be (zlen payload) ++ payload.

End FrameAuth.
