(* ===== verification/ReplayProps.v ===== *)
(** * Correctness of replay protection and of the frame tags *)

From S2P Require Import Prelude Bytes Text Replay.

(* ------------------------------------------------------------------ *)
(** ** The window implements its specification *)
(* ------------------------------------------------------------------ *)

(** The window of width [window_size w] over the numbers accepted so far. *)
Definition window_ok (seen : list Z) (w : ReplayWindow) : Prop :=
  1 ≤ window_size w ≤ 128 ∧ Forall is_u64 seen ∧
  (seen = [] ∧ max_seen w = 0 ∧ bits w = 0 ∨
   max_seen w ∈ seen ∧ (∀ a, a ∈ seen → a ≤ max_seen w) ∧ 0 ≤ bits w < 2 ^ 128 ∧
   ∀ i, 0 ≤ i < window_size w → Z.testbit (bits w) i = bool_decide (max_seen w - i ∈ seen)).

Lemma new_window_ok n : window_ok [] (new_window n).
Proof. split; [cbn; unfold clamp_size; lia|]. split; [done|by left]. Qed.

Lemma shl128_testbit a b i :
  0 ≤ b < 128 → 0 ≤ i < 128 → 0 ≤ a → Z.testbit (shl128 a b) i = (b <=? i) && Z.testbit a (i - b).
Proof.
  intros Hb Hi Ha. unfold shl128. rewrite (Z.mod_small b), Z.mod_pow2_bits_low, Z.shiftl_spec by lia.
  destruct (b <=? i) eqn:H; zprop; [done|]. by rewrite Z.testbit_neg_r by lia.
Qed.

Lemma shl128_range a b : 0 ≤ shl128 a b < 2 ^ 128.
Proof. apply Z.mod_pos_bound. lia. Qed.

Lemma lor_range n a b : 0 ≤ n → 0 ≤ a < 2 ^ n → 0 ≤ b < 2 ^ n → 0 ≤ Z.lor a b < 2 ^ n.
Proof.
  intros Hn Ha Hb. split; [by apply Z.lor_nonneg; lia|].
  destruct (decide (Z.lor a b = 0)) as [->|Hne]; [lia|].
  assert (0 ≤ Z.lor a b) by (apply Z.lor_nonneg; lia).
  apply Z.log2_lt_pow2; [lia|]. rewrite Z.log2_lor by lia.
  assert (Hlog : ∀ x, 0 ≤ x < 2 ^ n → x ≠ 0 → Z.log2 x < n) by (intros x Hx Hx0; apply Z.log2_lt_pow2; lia).
  destruct (decide (a = 0)) as [->|]; destruct (decide (b = 0)) as [->|]; [done| | |].
  - rewrite Z.max_r; [auto|apply Z.log2_nonneg].
  - rewrite Z.max_l; [auto|apply Z.log2_nonneg].
  - pose proof (Hlog a Ha ltac:(done)). pose proof (Hlog b Hb ltac:(done)). lia.
Qed.

Lemma testbit_one i : 0 ≤ i → Z.testbit 1 i = (i =? 0).
Proof. intros Hi. change 1 with (2 ^ 0). rewrite Z.pow2_bits_eqb by lia. destruct (i =? 0) eqn:H; zprop; subst; zdec; done. Qed.

Lemma shl128_one d : 0 ≤ d < 128 → shl128 1 d = 2 ^ d.
Proof.
  intros Hd. unfold shl128. rewrite (Z.mod_small d), Z.shiftl_1_l by lia. apply Z.mod_small.
  split; [apply Z.pow_nonneg; lia|apply Z.pow_lt_mono_r; lia].
Qed.

(** A number inside the window was seen when its bit is set. *)
Lemma mask_test a d : 0 ≤ d < 128 → negb (Z.land a (shl128 1 d) =? 0) = Z.testbit a d.
Proof.
  intros Hd. rewrite shl128_one by done. destruct (Z.testbit a d) eqn:Ht.
  - apply negb_true_iff, Z.eqb_neq. intros H0. apply (f_equal (λ z, Z.testbit z d)) in H0.
    by rewrite Z.land_spec, Ht, Z.pow2_bits_true, Z.testbit_0_l in H0 by lia.
  - apply negb_false_iff, Z.eqb_eq, Z.bits_inj'. intros i Hi.
    rewrite Z.land_spec, Z.pow2_bits_eqb, Z.testbit_0_l by lia.
    destruct (d =? i) eqn:He; zprop; subst; by rewrite ?Ht, ?andb_false_r.
Qed.

Lemma fresh_true w seen s : fresh w seen s = true ↔ s ∉ seen ∧ ∀ a, a ∈ seen → a - s < w.
Proof.
  unfold fresh. rewrite andb_true_iff, bool_decide_eq_true, forallb_forall.
  setoid_rewrite Z.ltb_lt. setoid_rewrite <-list_elem_of_In. done.
Qed.

Lemma bool_decide_eq_b (P : Prop) `{!Decision P} (b : bool) : (b = true ↔ P) → b = bool_decide P.
Proof. intros H. destruct b; symmetry; [apply bool_decide_eq_true_2|apply bool_decide_eq_false_2]; naive_solver. Qed.

(** The bits after a move of the window to a newer number. *)
Lemma newer_bits seen w s i :
  window_size w ≤ 128 → max_seen w < s → (∀ a, a ∈ seen → a ≤ max_seen w) → 0 ≤ bits w →
  (∀ i, 0 ≤ i < window_size w → Z.testbit (bits w) i = bool_decide (max_seen w - i ∈ seen)) →
  0 ≤ i < window_size w →
  let shift := s - max_seen w in
  Z.testbit (Z.lor (if window_size w <=? shift then 0 else shl128 (bits w) (as_u32 shift)) 1) i =
    bool_decide (s - i ∈ s :: seen).
Proof.
  intros Hw Hlt Hmax Hb Hbits Hi shift. rewrite Z.lor_spec, testbit_one by lia.
  destruct (i =? 0) eqn:Hi0; zprop.
  { rewrite orb_true_r. symmetry. apply bool_decide_eq_true_2. subst i. rewrite Z.sub_0_r. set_solver. }
  rewrite orb_false_r. apply bool_decide_eq_b. rewrite elem_of_cons.
  assert (Hnot : i < shift → s - i ∉ seen) by (intros Hlti Hin; specialize (Hmax _ Hin); lia).
  destruct (window_size w <=? shift) eqn:Hs; zprop.
  - rewrite Z.testbit_0_l. split; [done|]. intros [?|Hin]; [lia|]. exfalso. apply Hnot; [lia|done].
  - assert (Has : as_u32 shift = shift) by (apply Z.mod_small; ulia).
    rewrite Has, shl128_testbit by lia.
    destruct (shift <=? i) eqn:Hsi; zprop; cbn [andb].
    + rewrite Hbits, bool_decide_eq_true by lia. replace (max_seen w - (i - shift)) with (s - i) by lia.
      split; [by right|]. intros [?|Hin]; [lia|done].
    + split; [done|]. intros [?|Hin]; [lia|]. exfalso. by apply Hnot.
Qed.

(** One frame: the window answers as the specification and keeps the invariant. *)
Lemma accept_ok seen w s :
  is_u64 s → window_ok seen w →
  (accept s w).1 = fresh (window_size w) seen s ∧
  window_size (accept s w).2 = window_size w ∧
  window_ok (if fresh (window_size w) seen s then s :: seen else seen) (accept s w).2.
Proof.
  intros Hs (Hw & Hall & [(-> & Hm & Hb)|(Hin & Hmax & Hb & Hbits)]).
  { unfold accept. rewrite Hm, Hb. change (fresh (window_size w) [] s) with true.
    cbn. split; [done|]. split; [done|].
    split; [done|]. split; [by constructor|]. right. cbn.
    split; [set_solver|]. split; [set_solver by lia|]. split; [lia|].
    intros i Hi. rewrite testbit_one by lia. apply bool_decide_eq_b.
    rewrite Z.eqb_eq, elem_of_cons, elem_of_nil. lia. }
  assert (Hne : (max_seen w =? 0) && (bits w =? 0) = false).
  { apply andb_false_iff. right. apply Z.eqb_neq. intros H0. specialize (Hbits 0 ltac:(lia)).
    rewrite H0, Z.testbit_0_l, Z.sub_0_r in Hbits. symmetry in Hbits. by apply bool_decide_eq_false in Hbits. }
  assert (Hmu : is_u64 (max_seen w)) by by eapply Forall_forall in Hall.
  unfold accept. rewrite Hne. destruct (max_seen w <? s) eqn:Hlt; zprop.
  - assert (Hf : fresh (window_size w) seen s = true).
    { apply fresh_true. split; [intros Hseen; specialize (Hmax _ Hseen); lia|].
      intros a Ha. specialize (Hmax a Ha). lia. }
    rewrite Hf. split; [done|]. split; [done|]. split; [done|]. split; [by constructor|]. right. cbn.
    split; [set_solver|]. split; [intros a [->|Ha]%elem_of_cons; [lia|]; specialize (Hmax a Ha); lia|].
    split; [|intros i Hi; apply newer_bits; by try lia].
    apply lor_range; [lia| |lia]. destruct (_ <=? _); [lia|apply shl128_range].
  - destruct (window_size w <=? max_seen w - s) eqn:Hold; zprop.
    { assert (Hf : fresh (window_size w) seen s = false).
      { apply not_true_is_false. intros [_ H]%fresh_true. specialize (H _ Hin). lia. }
      rewrite Hf. do 4 (split; [done|]). by right. }
    rewrite mask_test, Hbits by lia. replace (max_seen w - (max_seen w - s)) with s by lia.
    case_bool_decide as Hseen.
    { assert (Hf : fresh (window_size w) seen s = false).
      { apply not_true_is_false. by intros [H _]%fresh_true. }
      rewrite Hf. do 4 (split; [done|]). by right. }
    assert (Hf : fresh (window_size w) seen s = true).
    { apply fresh_true. split; [done|]. intros a Ha. specialize (Hmax a Ha). lia. }
    rewrite Hf. split; [done|]. split; [done|]. split; [done|]. split; [by constructor|]. right. cbn.
    split; [set_solver|]. split; [intros a [->|Ha]%elem_of_cons; [lia|by apply Hmax]|].
    split; [apply lor_range; [lia|done|apply shl128_range]|].
    intros i Hi. rewrite Z.lor_spec, Hbits, shl128_one, Z.pow2_bits_eqb by lia. apply bool_decide_eq_b.
    rewrite orb_true_iff, bool_decide_eq_true, Z.eqb_eq, elem_of_cons.
    split; [intros [H|H]; [by right|left; lia]|intros [H|H]; [right; lia|by left]].
Qed.

Lemma accept_all_ok seen w ss :
  Forall is_u64 ss → window_ok seen w → (accept_all ss w).1 = (fresh_all (window_size w) seen ss).1.
Proof.
  intros Hss. revert seen w. induction Hss as [|s ss Hs Hss IH]; intros seen w H; [done|].
  destruct (accept_ok seen w s Hs H) as (Hb & Hsz & Hok). cbn [accept_all fresh_all].
  destruct (accept s w) as [b w1]. cbn [fst snd] in *. apply IH in Hok. rewrite Hsz in Hok.
  destruct (accept_all ss w1) as [bs w2]. destruct (fresh_all _ _ ss) as [bs' seen']. cbn in *. congruence.
Qed.

(** The frames a window lets through. *)
Definition accepted (ss : list Z) (bs : list bool) : list Z := omap (λ p, if p.2 : bool then Some p.1 else None) (zip ss bs).

Lemma fresh_all_nodup w seen ss :
  NoDup seen → NoDup (accepted ss (fresh_all w seen ss).1 ++ seen).
Proof.
  revert seen. induction ss as [|s ss IH]; intros seen Hnd; [done|]. cbn [fresh_all].
  destruct (fresh w seen s) eqn:Hf.
  - apply fresh_true in Hf as [Hnot _]. specialize (IH (s :: seen)).
    destruct (fresh_all w (s :: seen) ss) as [bs seen']. cbn in *. unfold accepted in *. cbn.
    rewrite <-Permutation_middle in IH. apply IH. by constructor.
  - specialize (IH seen Hnd). destruct (fresh_all w seen ss) as [bs seen']. done.
Qed.

(** C12. The sliding window, kept in a [u64] and the bits of a [u128], implements its
    specification on every sequence of frames: a frame is accepted exactly when its number was
    not accepted before and is less than the window (clamped to 1..128) behind every accepted
    number; so no number is ever accepted twice. *)
Theorem replay_window_refines_seen_set (n : Z) (ss : list Z) :
  Forall is_u64 ss →
  (accept_all ss (new_window n)).1 = (fresh_all (clamp_size n) [] ss).1 ∧
  NoDup (accepted ss (accept_all ss (new_window n)).1).
Proof.
  intros Hss. rewrite (accept_all_ok [] _ ss Hss (new_window_ok n)). split; [done|].
  pose proof (fresh_all_nodup (clamp_size n) [] ss (NoDup_nil_2)) as H. by rewrite app_nil_r in H.
Qed.

Lemma replay_window_refines_seen_set_witness :
  (accept_all [10; 11; 9; 10; 18; 9; 11] (new_window 8)).1 = [true; true; true; false; true; false; false] ∧
  NoDup (accepted [10; 11; 9; 10; 18; 9; 11] (accept_all [10; 11; 9; 10; 18; 9; 11] (new_window 8)).1).
Proof.
  split; [by vm_compute|].
  apply (replay_window_refines_seen_set 8 [10; 11; 9; 10; 18; 9; 11]).
  repeat constructor; vm_compute; discriminate.
Defined.

(* ------------------------------------------------------------------ *)
(** ** Frame tags *)
(* ------------------------------------------------------------------ *)

(** Two frames with the same message are the same frame. *)
Lemma frame_message_inj s c p l s' c' p' l' :
  is_u64 s → is_u64 c → is_u32 p → is_u64 s' → is_u64 c' → is_u32 p' →
  frame_message s c p l = frame_message s' c' p' l' → s = s' ∧ c = c' ∧ p = p' ∧ l = l'.
Proof.
  intros Hs Hc Hp Hs' Hc' Hp' H. unfold frame_message in H.
  apply app_inj_1 in H as [H1 H]; [|done]. apply app_inj_1 in H as [H2 H]; [|done].
  apply app_inj_1 in H as [H3 H]; [|done]. apply app_inj_1 in H as [_ H]; [|done].
  split_and!; [| | |done].
  - by rewrite <-(be_value_u64 s), H1, be_value_u64.
  - by rewrite <-(be_value_u64 c), H2, be_value_u64.
  - by rewrite <-(be_value_u32 p), H3, be_value_u32.
Qed.

Section Tags.
Context {mac : Type} `{!Mac mac}.

Lemma feed_message (m : mac) s c p l : feed m s c p l = update m (frame_message s c p l).
Proof. unfold feed, frame_message. by rewrite !update_app. Qed.

(** The tag of a frame. *)
Definition frame_tag (m : mac) (s c p : Z) (l : list byte) : list byte :=
  finalize (update m (frame_message s c p l)).

Lemma sign_tag k m s c p l : new_from_slice k = Ok m → sign_inner k s c p l = Ok (frame_tag m s c p l).
Proof. intros Hm. unfold sign_inner, init_mac. rewrite Hm. cbn. by rewrite feed_message. Qed.

Lemma verify_branches s c p l tag a m :
  new_from_slice (key a) = Ok m →
  verify s c p l tag a =
    (if (accept s (replay_window a)).1 then
       if decide (tag = frame_tag m s c p l) then Ok () else Err (AuthFailed (lit "frame auth tag mismatch"))
     else Err (AuthFailed (replay_message s)),
     a <| replay_window := (accept s (replay_window a)).2 |>).
Proof.
  intros Hm.
  unfold verify, st_get, st_modify, st_reject, st_lift, st_throw, mbind, ST_bind, mret, ST_ret.
  destruct (accept s (replay_window a)) as [b w]. cbn [fst snd].
  destruct b; cbn [negb]; [|done].
  rewrite (sign_tag _ m) by done. unfold init_mac. rewrite Hm. cbn [map_err]. rewrite feed_message.
  destruct (verify_slice _ tag) eqn:Hv; cbn [negb]; case_decide as Ht; [| | |done].
  - by rewrite Ht, Z.eqb_refl.
  - by apply verify_slice_iff in Hv.
  - exfalso. apply not_true_iff_false in Hv. apply Hv, verify_slice_iff, Ht.
Qed.

(** C33. A frame is let through exactly when its number is fresh for the window and its tag is the
    one [sign] gives for that number, connection, path and payload; the message under the tag
    determines all four, so a tag never authenticates another frame.  Every other frame is
    refused with an authentication error. *)
Theorem verified_frames_are_signed (a : HmacSha256FrameAuth) (s c p : Z) (l tag : list byte) :
  ((verify s c p l tag a).1 = Ok () ↔
     (accept s (replay_window a)).1 = true ∧ sign s c p l a = Ok tag) ∧
  ((verify s c p l tag a).1 ≠ Ok () → ∃ e, (verify s c p l tag a).1 = Err (AuthFailed e)) ∧
  (∃ m : mac, new_from_slice (key a) = Ok m ∧ sign s c p l a = Ok (finalize (update m (frame_message s c p l)))) ∧
  (∀ s' c' p' l', is_u64 s → is_u64 c → is_u32 p → is_u64 s' → is_u64 c' → is_u32 p' →
     frame_message s c p l = frame_message s' c' p' l' → (s, c, p, l) = (s', c', p', l')).
Proof.
  destruct (new_from_slice_ok (key a)) as [m Hm]. pose proof (verify_branches s c p l tag a m Hm) as Hv.
  unfold sign. rewrite (sign_tag _ m) by done. rewrite Hv. cbn [fst].
  destruct (accept s (replay_window a)) as [b w]. cbn [fst].
  split_and!; [destruct b; case_decide; naive_solver|destruct b; case_decide; naive_solver|by exists m|].
  intros s' c' p' l' Hs Hc Hp Hs' Hc' Hp' H.
  by destruct (frame_message_inj s c p l s' c' p' l') as (-> & -> & -> & ->).
Qed.

(** The window moves before the tag is checked: one frame with a wrong tag and a number ahead
    of the window is refused, but from then on every correctly signed frame whose number is a
    window or more behind the forged one is refused as a replay. *)
Theorem forged_frame_advances_window (a : HmacSha256FrameAuth) (s c p : Z) (l tag : list byte) :
  is_u64 s → 1 ≤ window_size (replay_window a) → max_seen (replay_window a) < s →
  sign s c p l a ≠ Ok tag →
  let '(r, a') := verify s c p l tag a in
  r = Err (AuthFailed (lit "frame auth tag mismatch")) ∧
  ∀ s' c' p' l' tag', s' ≤ s - window_size (replay_window a) → sign s' c' p' l' a' = Ok tag' →
    (verify s' c' p' l' tag' a').1 = Err (AuthFailed (replay_message s')).
Proof.
  intros Hs Hw Hlt Hbad. destruct (new_from_slice_ok (key a)) as [m Hm].
  rewrite (verify_branches s c p l tag a m Hm).
  assert (Ha : (accept s (replay_window a)).1 = true ∧ max_seen (accept s (replay_window a)).2 = s ∧
               bits (accept s (replay_window a)).2 ≠ 0 ∧
               window_size (accept s (replay_window a)).2 = window_size (replay_window a)).
  { unfold accept. destruct (_ && _); [done|]. rewrite (proj2 (Z.ltb_lt _ _)) by done.
    cbn. split_and!; try done. rewrite Z.lor_eq_0_iff. by intros [_ ?]. }
  destruct Ha as (Hok & Hmax & Hbits & Hsz). rewrite Hok. cbn [fst].
  rewrite decide_False by (intros ->; apply Hbad; by apply sign_tag). split; [done|].
  intros s' c' p' l' tag' Hle _. rewrite (verify_branches _ _ _ _ _ _ m) by exact Hm. unfold upd. cbn [fst replay_window].
  set (w := (accept s (replay_window a)).2) in *.
  assert (Hrej : (accept s' w).1 = false).
  { unfold accept. rewrite Hmax. replace (bits w =? 0) with false by (symmetry; by apply Z.eqb_neq).
    rewrite andb_false_r, Hsz. zdec. done. }
  by rewrite Hrej.
Qed.

End Tags.

(** A transcript as a MAC, for the witness. *)
#[local] Instance transcript_mac : Mac (list byte).
Proof.
  refine {| new_from_slice := λ k, Ok k; update := app; finalize := λ m, m;
            verify_slice := λ m tag, bool_decide (tag = m) |}.
  - intros k. by exists k.
  - intros m a b. by rewrite app_assoc.
  - intros m tag. apply bool_decide_eq_true.
Defined.

Lemma forged_frame_advances_window_witness :
  let a := new_auth [x03] 32 in
  let a' := (verify 1000 55 9 [x01] [] a).2 in
  (verify 1 55 9 [x02] ([x03] ++ frame_message 1 55 9 [x02]) a).1 = Ok () ∧
  (verify 1 55 9 [x02] ([x03] ++ frame_message 1 55 9 [x02]) a').1 = Err (AuthFailed (replay_message 1)).
Proof.
  cbv zeta. split; [by vm_compute|].
  pose proof (forged_frame_advances_window (new_auth [x03] 32) 1000 55 9 [x01] []) as H.
  destruct (verify 1000 55 9 [x01] [] (new_auth [x03] 32)) as [r a'] eqn:Hv.
  assert (Ha : a' = (verify 1000 55 9 [x01] [] (new_auth [x03] 32)).2) by (by rewrite Hv).
  apply H; [vm_compute; split; discriminate|vm_compute; discriminate|by vm_compute|vm_compute; discriminate|vm_compute; discriminate|].
  rewrite Ha. by vm_compute.
Defined.

Lemma verified_frames_are_signed_witness :
  (verify 1 55 9 [x02] ([x03] ++ frame_message 1 55 9 [x02]) (new_auth [x03] 32)).1 = Ok () ∧
  (verify 1 55 9 [x02] [x03] (new_auth [x03] 32)).1 ≠ Ok () ∧
  frame_message 1 55 9 [x02] ≠ frame_message 1 55 9 [x04].
Proof.
  split_and!.
  - apply (verified_frames_are_signed (new_auth [x03] 32)). split; by vm_compute.
  - by vm_compute.
  - intros H. by apply (verified_frames_are_signed (new_auth [x03] 32) 1 55 9 [x02] []) in H;
      [|vm_compute; split; discriminate..].
Defined.
