(* ===== verification/Policy.v ===== *)
(** * Security policy ([v3-crypto/src/lib.rs], second part)

    The amplification limit before authentication, certificate expiry and rotation, and the
    revocation list. *)

From S2P Require Import Prelude Bytes Text Replay.

(* ------------------------------------------------------------------ *)
(** ** Anti-amplification *)
(* ------------------------------------------------------------------ *)

Record AntiAmplificationGate : Type := mkGate {
  bytes_in : Z;
  bytes_out : Z;
  amplification_factor : Z;
  authenticated : bool;
}.

#[global] Instance AntiAmplificationGate_eta : Eta AntiAmplificationGate := λ r,
  mkGate (bytes_in r) (bytes_out r) (amplification_factor r) (authenticated r).

Definition new_gate (amplification_factor : Z) : AntiAmplificationGate :=
  mkGate 0 0 (Z.max amplification_factor 1) false.

Definition default_gate : AntiAmplificationGate := new_gate 3.

Definition on_receive (bytes : Z) (g : AntiAmplificationGate) : AntiAmplificationGate :=
  g <| bytes_in := sat_add U64_MAX (bytes_in g) bytes |>.

Definition can_send (bytes : Z) (g : AntiAmplificationGate) : bool :=
  if authenticated g then true
  else
    let allowed := sat_mul U64_MAX (bytes_in g) (amplification_factor g) in
    sat_add U64_MAX (bytes_out g) bytes <=? allowed.

Definition on_send (bytes : Z) (g : AntiAmplificationGate) : bool * AntiAmplificationGate :=
  if negb (can_send bytes g) then (false, g)
  else (true, g <| bytes_out := sat_add U64_MAX (bytes_out g) bytes |>).

Definition mark_authenticated (g : AntiAmplificationGate) : AntiAmplificationGate :=
  g <| authenticated := true |>.

(** Traffic before authentication. *)
Inductive traffic : Type := Received (bytes : Z) | Sending (bytes : Z).

Definition traffic_bytes (o : traffic) : Z :=
  match o with Received b | Sending b => b end.

Definition received (os : list traffic) : Z :=
  foldr (λ o n, match o with Received b => b + n | Sending _ => n end) 0 os.

(** The bytes the gate lets out. *)
Fixpoint traffic_run (os : list traffic) (g : AntiAmplificationGate) : Z * AntiAmplificationGate :=
  match os with
  | [] => (0, g)
  | Received b :: os' => traffic_run os' (on_receive b g)
  | Sending b :: os' =>
      let '(sent, g1) := on_send b g in
      let '(o, g') := traffic_run os' g1 in
      (if sent : bool then b + o else o, g')
  end.

(* ------------------------------------------------------------------ *)
(** ** Certificates *)
(* ------------------------------------------------------------------ *)

Inductive MtlsPolicy : Type := Disabled | Optional | Required.

Definition requires_client_cert (p : MtlsPolicy) : bool :=
  match p with Required => true | _ => false end.

Record CertMetadata : Type := mkCertMetadata {
  cert_id : str;
  fingerprint_sha256_hex : str;
  not_before_ms : Z;
  not_after_ms : Z;
}.

Inductive ExpiryAlarmLevel : Type := NoAlarm | Warning30d | High14d | Critical7d | Expired.

#[global] Instance ExpiryAlarmLevel_eq_dec : EqDecision ExpiryAlarmLevel.
Proof. solve_decision. Defined.

Definition DAY_MS : Z := 24 * 60 * 60 * 1000.

Definition expiry_alarm_level (now_ms : Z) (cert : CertMetadata) : ExpiryAlarmLevel :=
  if not_after_ms cert <=? now_ms then Expired
  else
    let remaining_ms := sat_sub (not_after_ms cert) now_ms in
    if remaining_ms <=? 7 * DAY_MS then Critical7d
    else if remaining_ms <=? 14 * DAY_MS then High14d
    else if remaining_ms <=? 30 * DAY_MS then Warning30d
    else NoAlarm.

Record RotationPlan : Type := mkRotationPlan {
  old_cert_id : str;
  new_cert_id : str;
  overlap_start_ms : Z;
  overlap_end_ms : Z;
  can_rotate_without_downtime : bool;
}.

Definition plan_rotation (now_ms : Z) (old_cert new_cert : CertMetadata) (min_overlap_ms : Z)
    : RotationPlan :=
  let overlap_start := Z.max (Z.max (not_before_ms old_cert) (not_before_ms new_cert)) now_ms in
  let overlap_end := Z.min (not_after_ms old_cert) (not_after_ms new_cert) in
  let overlap := sat_sub overlap_end overlap_start in
  mkRotationPlan (cert_id old_cert) (cert_id new_cert) overlap_start overlap_end
    (min_overlap_ms <=? overlap).

(** A certificate that is in force at a time: begun, and not [Expired]. *)
Definition in_force (t : Z) (c : CertMetadata) : Prop :=
  not_before_ms c ≤ t ∧ expiry_alarm_level t c ≠ Expired.

(* ------------------------------------------------------------------ *)
(** ** Revocation *)
(* ------------------------------------------------------------------ *)

(** [to_ascii_lowercase]: the letters [A] to [Z] of a UTF-8 string, byte by byte. *)
Definition lower_byte (b : byte) : byte :=
  let n := byte_to_Z b in
  if (65 <=? n) && (n <=? 90) then byte_of_Z (n + 32) else b.

Definition to_ascii_lowercase (s : str) : str := map lower_byte s.

Definition RevocationList : Type := list str.

Definition revoke_fingerprint (fingerprint : str) (r : RevocationList) : RevocationList :=
  let fp := to_ascii_lowercase fingerprint in
  if existsb (λ x, bool_decide (x = fp)) r then r else r ++ [fp].

Definition is_revoked (fingerprint : str) (r : RevocationList) : bool :=
  let fp := to_ascii_lowercase fingerprint in
  existsb (λ x, bool_decide (x = fp)) r.

Definition revoke_all (fps : list str) (r : RevocationList) : RevocationList :=
  foldl (λ r fp, revoke_fingerprint fp r) r fps.
