(* ===== verification/PolicyProps.v ===== *)
(** * Correctness of the security policy *)

From S2P Require Import Prelude Bytes Text Replay Policy.

(* ------------------------------------------------------------------ *)
(** ** Amplification *)
(* ------------------------------------------------------------------ *)

(** A gate after [i] bytes in and [o] bytes out: both counters saturate. *)
Definition gate_ok (f i o : Z) (g : AntiAmplificationGate) : Prop :=
  authenticated g = false ∧ amplification_factor g = f ∧ bytes_in g = Z.min U64_MAX i ∧ bytes_out g = Z.min U64_MAX o ∧
  0 ≤ i ∧ 0 ≤ o ∧ (i * f < U64_MAX → o ≤ i * f).

Lemma received_nonneg os : Forall (λ t, 0 ≤ traffic_bytes t) os → 0 ≤ received os.
Proof. induction 1 as [|[b|b] os Hb _ IH]; unfold received in *; cbn in *; lia. Qed.

Lemma sat_add_min n b : 0 ≤ n → 0 ≤ b → sat_add U64_MAX (Z.min U64_MAX n) b = Z.min U64_MAX (n + b).
Proof. unfold_ints. lia. Qed.

(** The allowance is the product, up to the end of [u64]. *)
Lemma allowance f i : 1 ≤ f → 0 ≤ i → sat_mul U64_MAX (Z.min U64_MAX i) f = Z.min U64_MAX (i * f).
Proof. intros Hf Hi. unfold_ints. destruct (Z.min_spec 18446744073709551615 i) as [[? ->]|[? ->]]; nia. Qed.

Lemma can_send_iff f i o g b :
  1 ≤ f → 0 ≤ b → gate_ok f i o g → can_send b g = true ↔ o + b ≤ i * f ∨ U64_MAX ≤ i * f.
Proof.
  intros Hf Hb (Ha & Hfa & Hin & Hout & Hi & Ho & _). unfold can_send.
  rewrite Ha, Hin, Hout, Hfa, sat_add_min, allowance, Z.leb_le by done. lia.
Qed.

Lemma gate_receives f i o g b : 1 ≤ f → 0 ≤ b → gate_ok f i o g → gate_ok f (i + b) o (on_receive b g).
Proof.
  intros Hf Hb (Ha & Hfa & Hin & Hout & Hi & Ho & Hle). unfold gate_ok, on_receive, upd.
  cbn [authenticated amplification_factor bytes_in bytes_out]. rewrite Hin, sat_add_min by done.
  split_and!; try done; [lia|nia].
Qed.

Lemma gate_sends f i o g b :
  0 ≤ b → gate_ok f i o g → o + b ≤ i * f ∨ U64_MAX ≤ i * f →
  gate_ok f i (o + b) (g <| bytes_out := sat_add U64_MAX (bytes_out g) b |>).
Proof.
  intros Hb (Ha & Hfa & Hin & Hout & Hi & Ho & Hle) Hfit. unfold gate_ok, upd.
  cbn [authenticated amplification_factor bytes_in bytes_out]. rewrite Hout, sat_add_min by done.
  split_and!; try done; lia.
Qed.

Lemma traffic_run_ok f os g i o :
  1 ≤ f → Forall (λ t, 0 ≤ traffic_bytes t) os → gate_ok f i o g →
  gate_ok f (i + received os) (o + (traffic_run os g).1) (traffic_run os g).2.
Proof.
  intros Hf Hos. revert g i o. induction Hos as [|t os Ht Hos IH]; intros g i o Hg; [by cbn; rewrite !Z.add_0_r|].
  destruct t as [b|b]; cbn in Ht; cbn [traffic_run received foldr]; fold (received os).
  - rewrite Z.add_assoc. by apply IH, gate_receives.
  - unfold on_send. destruct (can_send b g) eqn:Hc; cbn [negb].
    + apply (can_send_iff f i o) in Hc; [|done..]. specialize (IH _ _ _ (gate_sends f i o g b Ht Hg Hc)).
      destruct (traffic_run os _) as [d g']. cbn [fst snd] in *. by rewrite Z.add_assoc.
    + specialize (IH g i o Hg). by destruct (traffic_run os g).
Qed.

(** C35. Before authentication, in whatever order receiving and sending alternate (every prefix of
    the traffic is such traffic), a gate lets a datagram out exactly when the bytes let out so far
    and its own fit in the factor times what came in, or that product has reached [u64::MAX],
    where the gate is open for good; so while the product is smaller, never more than it goes out.
    What the gate refuses does not count; after authentication everything passes. *)
Theorem amplification_is_bounded (factor : Z) (os : list traffic) (b : Z) :
  let f := Z.max factor 1 in
  Forall (λ t, 0 ≤ traffic_bytes t) os → 0 ≤ b →
  let '(out, g) := traffic_run os (new_gate factor) in
  0 ≤ out ∧ (received os * f < U64_MAX → out ≤ received os * f) ∧
  (can_send b g = true ↔ out + b ≤ received os * f ∨ U64_MAX ≤ received os * f) ∧
  (can_send b g = false → on_send b g = (false, g)) ∧
  can_send b (mark_authenticated g) = true.
Proof.
  intros f Hos Hb. assert (Hf : 1 ≤ f) by lia.
  pose proof (traffic_run_ok f os (new_gate factor) 0 0 Hf Hos) as Hg.
  destruct (traffic_run os (new_gate factor)) as [out g]. cbn [fst snd] in *. rewrite !Z.add_0_l in Hg.
  specialize (Hg ltac:(unfold gate_ok, new_gate; cbn; split_and!; try done; unfold_ints; lia)).
  pose proof (can_send_iff f _ _ g b Hf Hb Hg) as Hiff. destruct Hg as (_ & _ & _ & _ & _ & Ho & Hle).
  split_and!; [done|done|done| |done]. intros Hc. unfold on_send. by rewrite Hc.
Qed.

(** Below the end of [u64], and at it: a gate whose allowance is [u64::MAX] refuses nothing. *)
Lemma amplification_is_bounded_witness :
  (let '(out, g) := traffic_run [Received 100; Sending 150; Sending 150; Sending 1] (new_gate 3) in
   out = 300 ∧ can_send 1 g = false ∧ out ≤ 300) ∧
  (let '(out, g) := traffic_run [Received 1; Sending U64_MAX; Sending 1] (new_gate U64_MAX) in
   out = U64_MAX + 1 ∧ can_send 1 g = true).
Proof.
  split.
  - pose proof (amplification_is_bounded 3 [Received 100; Sending 150; Sending 150; Sending 1] 1
      ltac:(repeat constructor; vm_compute; discriminate) ltac:(done)) as (_ & H & _).
    specialize (H ltac:(by vm_compute)). vm_compute in H. vm_compute. split; [done|]. split; [done|exact H].
  - pose proof (amplification_is_bounded U64_MAX [Received 1; Sending U64_MAX; Sending 1] 1
      ltac:(repeat constructor; vm_compute; discriminate) ltac:(done)) as (_ & _ & H & _).
    split; [by vm_compute|]. apply H. by right.
Defined.

(* ------------------------------------------------------------------ *)
(** ** Certificates *)
(* ------------------------------------------------------------------ *)

Lemma expired_iff t c : expiry_alarm_level t c = Expired ↔ not_after_ms c ≤ t.
Proof.
  unfold expiry_alarm_level. destruct (_ <=? t) eqn:H; zprop; [done|].
  repeat case_match; split; intros; try done; lia.
Qed.

Lemma in_force_iff t c : in_force t c ↔ not_before_ms c ≤ t < not_after_ms c.
Proof. unfold in_force. rewrite expired_iff. lia. Qed.

(** A rotation plan allows the switch exactly when from some time on, not before now, both
    certificates stay in force for the whole minimal overlap (which is positive); the overlap it
    names is the longest such time. *)
Theorem rotation_keeps_both_in_force (now : Z) (old_cert new_cert : CertMetadata) (m : Z) :
  0 < m →
  let plan := plan_rotation now old_cert new_cert m in
  (can_rotate_without_downtime plan = true ↔
   ∃ t0, now ≤ t0 ∧ ∀ t, t0 ≤ t < t0 + m → in_force t old_cert ∧ in_force t new_cert) ∧
  ∀ t, now ≤ t → (overlap_start_ms plan ≤ t < overlap_end_ms plan ↔ in_force t old_cert ∧ in_force t new_cert).
Proof.
  intros Hm plan. assert (Hspan : ∀ t, now ≤ t →
    (overlap_start_ms plan ≤ t < overlap_end_ms plan ↔ in_force t old_cert ∧ in_force t new_cert)).
  { intros t Ht. rewrite !in_force_iff. cbn. lia. }
  split; [|done]. unfold plan, plan_rotation. cbn. rewrite Z.leb_le. split.
  - intros Hle. exists (overlap_start_ms plan). split; [cbn; lia|]. intros t Ht.
    apply Hspan; cbn in *; unfold_ints; lia.
  - intros (t0 & Ht0 & Hall). destruct (Hall t0) as [H1 H2]; [lia|]. destruct (Hall (t0 + m - 1)) as [H3 H4]; [lia|].
    rewrite in_force_iff in *. unfold_ints. lia.
Qed.

Definition sample_old : CertMetadata := mkCertMetadata (lit "old") (lit "AA") 0 (100 * DAY_MS).
Definition sample_new : CertMetadata := mkCertMetadata (lit "new") (lit "BB") (90 * DAY_MS) (400 * DAY_MS).

Lemma rotation_keeps_both_in_force_witness :
  can_rotate_without_downtime (plan_rotation 0 sample_old sample_new (7 * DAY_MS)) = true ∧
  ∃ t0, 0 ≤ t0 ∧ ∀ t, t0 ≤ t < t0 + 7 * DAY_MS → in_force t sample_old ∧ in_force t sample_new.
Proof.
  split; [by vm_compute|].
  apply (rotation_keeps_both_in_force 0 sample_old sample_new (7 * DAY_MS)); by vm_compute.
Defined.

(* ------------------------------------------------------------------ *)
(** ** Revocation *)
(* ------------------------------------------------------------------ *)

Lemma existsb_elem (x : str) r : existsb (λ y, bool_decide (y = x)) r = true ↔ x ∈ r.
Proof.
  rewrite existsb_exists. setoid_rewrite bool_decide_eq_true. setoid_rewrite <-list_elem_of_In.
  naive_solver.
Qed.

Lemma revoke_elem fp x r : x ∈ revoke_fingerprint fp r ↔ x = to_ascii_lowercase fp ∨ x ∈ r.
Proof.
  unfold revoke_fingerprint. destruct (existsb _ r) eqn:H; [apply existsb_elem in H|]; set_solver.
Qed.

Lemma revoke_nodup fp r : NoDup r → NoDup (revoke_fingerprint fp r).
Proof.
  intros Hr. unfold revoke_fingerprint. destruct (existsb _ r) eqn:H; [done|].
  apply not_true_iff_false in H. rewrite existsb_elem in H.
  apply NoDup_app. split_and!; [done| |apply NoDup_singleton]. set_solver.
Qed.

(** A revocation list is the set of revoked fingerprints up to ASCII case: after any
    revocations a fingerprint is revoked exactly when one of them differs from it in case only,
    and the list holds no duplicates. *)
Theorem revocations_are_a_set (fps : list str) (fp : str) :
  (is_revoked fp (revoke_all fps []) = true ↔
     ∃ x, x ∈ fps ∧ to_ascii_lowercase x = to_ascii_lowercase fp) ∧
  NoDup (revoke_all fps []).
Proof.
  assert (H : ∀ r, NoDup r → NoDup (revoke_all fps r) ∧
    ∀ y, y ∈ revoke_all fps r ↔ y ∈ r ∨ y ∈ to_ascii_lowercase <$> fps).
  { induction fps as [|x fps' IH]; intros r Hr; [set_solver|].
    destruct (IH (revoke_fingerprint x r) (revoke_nodup x r Hr)) as [Hnd Hel].
    split; [exact Hnd|]. intros y. cbn. rewrite Hel, revoke_elem. set_solver. }
  destruct (H [] (NoDup_nil_2)) as [Hnd Hel]. split; [|done].
  unfold is_revoked. rewrite existsb_elem, Hel, list_elem_of_fmap. set_solver.
Qed.
