(* ===== verification/Dtls.v ===== *)
(** * Handshake providers ([v3-crypto/src/lib.rs], third part)

    The handshake boundary as a class, with the deterministic adapter and the OpenSSL adapter as
    its instances.  OpenSSL itself (building a context from certificates and keys) is a class of
    the calls the adapter makes. *)

From S2P Require Import Prelude Bytes Text Replay.

(* ------------------------------------------------------------------ *)
(** ** Strings *)
(* ------------------------------------------------------------------ *)

(** [std::str::from_utf8(s).unwrap_or_default()]. *)
Definition from_utf8_or_default (s : list byte) : str :=
  match utf8 s with Some _ => s | None => [] end.

(** [s.trim_start_matches(c)]. *)
Fixpoint trim_start_matches (c : byte) (s : str) : str :=
  match s with
  | b :: s' => if bool_decide (b = c) then trim_start_matches c s' else s
  | [] => []
  end.

(** [s.split_once(needle)]: what is before and after the first occurrence. *)
Fixpoint split_once (needle s : str) : option (str * str) :=
  if bool_decide (needle `prefix_of` s) then Some ([], drop (length needle) s)
  else
    match s with
    | [] => None
    | b :: s' => (λ p, (b :: p.1, p.2)) <$> split_once needle s'
    end.

(* ------------------------------------------------------------------ *)
(** ** Data *)
(* ------------------------------------------------------------------ *)

Inductive DtlsVersion : Type := Dtls12 | Dtls13.

#[global] Instance DtlsVersion_eq_dec : EqDecision DtlsVersion.
Proof. solve_decision. Defined.

Inductive AuthProfile : Type := ServerAuth | MutualTls.

#[global] Instance AuthProfile_eq_dec : EqDecision AuthProfile.
Proof. solve_decision. Defined.

Record CipherPolicy : Type := mkCipherPolicy {
  min_dtls_version : DtlsVersion;
  allow_weak_suites : bool;
}.

Definition default_cipher_policy : CipherPolicy := mkCipherPolicy Dtls12 false.

Record TrustConfig : Type := mkTrustConfig {
  trust_anchor_pems : list (list byte);
  require_hostname_verification : bool;
}.

Definition default_trust : TrustConfig := mkTrustConfig [] true.

Record ClientIdentityRef : Type := mkClientIdentityRef { key_id : str; cert_chain_ids : list str }.

Record HandshakeConfig : Type := mkHandshakeConfig {
  profile : AuthProfile;
  cipher_policy : CipherPolicy;
  trust : TrustConfig;
  client_identity : option ClientIdentityRef;
  expected_server_name : option str;
}.

Record PeerIdentity : Type := mkPeerIdentity { subject : str; cert_fingerprint_sha256 : list byte }.

Record ExporterBinding : Type := mkExporterBinding { eb_cid : Z; eb_path_id : Z; context_hash : list byte }.

Record HandshakeOutput : Type := mkHandshakeOutput {
  outbound_datagrams : list (list byte);
  established : bool;
  peer_identity : option PeerIdentity;
  binding : option ExporterBinding;
}.

(** The outputs of the two adapters that carry no identity. *)
Definition plain_output (datagrams : list (list byte)) (established : bool) : HandshakeOutput :=
  mkHandshakeOutput datagrams established None None.

(** The [HandshakeProvider] trait. *)
Class HandshakeProvider (P : Type) : Type := {
  start_client : HandshakeConfig → ST P CryptoError HandshakeOutput;
  start_server : HandshakeConfig → ST P CryptoError HandshakeOutput;
  on_datagram : list byte → ST P CryptoError HandshakeOutput;
  on_timeout : Z → ST P CryptoError HandshakeOutput;
}.

(* ------------------------------------------------------------------ *)
(** ** The deterministic adapter *)
(* ------------------------------------------------------------------ *)

Inductive AdapterRole : Type := Client | Server.

#[global] Instance AdapterRole_eq_dec : EqDecision AdapterRole.
Proof. solve_decision. Defined.

Record DtlsBackendAdapter : Type := mkDtlsBackendAdapter {
  role : option AdapterRole;
  config : option HandshakeConfig;
  is_established : bool;
}.

#[global] Instance DtlsBackendAdapter_eta : Eta DtlsBackendAdapter := λ r,
  mkDtlsBackendAdapter (role r) (config r) (is_established r).

Definition new_backend : DtlsBackendAdapter := mkDtlsBackendAdapter None None false.

Definition validate_cfg (cfg : HandshakeConfig) : outcome CryptoError () :=
  reject (allow_weak_suites (cipher_policy cfg))
    (InvalidConfig (lit "weak cipher suites are not allowed")) ;;
  reject (require_hostname_verification (trust cfg) &&
          is_blank (default [] (expected_server_name cfg)))
    (InvalidConfig (lit "expected_server_name required when hostname verification is enabled")) ;;
  reject (bool_decide (profile cfg = MutualTls) && bool_decide (client_identity cfg = None))
    (InvalidConfig (lit "client identity required for mutual TLS profile")).

Definition established_output (cfg : HandshakeConfig) : HandshakeOutput :=
  mkHandshakeOutput [] true
    (Some (mkPeerIdentity (default (lit "peer") (expected_server_name cfg)) (replicate 32 x07)))
    (Some (mkExporterBinding 0 0 (replicate 32 x09))).

(** What a server answers once the client is accepted. *)
Definition accepted_output (datagram : list byte) : HandshakeOutput :=
  mkHandshakeOutput [datagram] true
    (Some (mkPeerIdentity (lit "client") (replicate 32 x05)))
    (Some (mkExporterBinding 0 0 (replicate 32 x0b))).

(** [start_client] and [start_server] differ in the role and the first flight. *)
Definition backend_start (r : AdapterRole) (hello : list (list byte)) (cfg : HandshakeConfig)
    : ST DtlsBackendAdapter CryptoError HandshakeOutput :=
  st_lift (validate_cfg cfg) ;;
  st_modify (λ a, a <| role := Some r |> <| config := Some cfg |> <| is_established := false |>) ;;
  mret (plain_output hello false).

Definition backend_on_datagram (datagram : list byte)
    : ST DtlsBackendAdapter CryptoError HandshakeOutput :=
  a ← st_get;
  r ← st_lift (ok_or (role a) (Provider (lit "handshake not started")));
  cfg ← st_lift (ok_or (config a) (Provider (lit "missing config")));
  if is_established a then mret (established_output cfg)
  else
    match r with
    | Client =>
        if bool_decide (datagram = lit "DTLS_SERVER_HELLO") then
          st_modify (λ a, a <| is_established := true |>) ;;
          mret (established_output cfg)
        else st_throw (AuthFailed (lit "unexpected handshake response"))
    | Server =>
        if bool_decide (datagram = lit "DTLS_CLIENT_HELLO") then
          st_modify (λ a, a <| is_established := true |>) ;;
          mret (accepted_output (lit "DTLS_SERVER_HELLO"))
        else st_throw (AuthFailed (lit "unexpected client hello"))
    end.

Definition backend_on_timeout (now_ms : Z) : ST DtlsBackendAdapter CryptoError HandshakeOutput :=
  a ← st_get;
  if is_established a then mret (plain_output [] true)
  else st_throw (Provider (lit "handshake timed out")).

#[global] Instance backend_provider : HandshakeProvider DtlsBackendAdapter := {|
  start_client := backend_start Client [lit "DTLS_CLIENT_HELLO"];
  start_server := backend_start Server [];
  on_datagram := backend_on_datagram;
  on_timeout := backend_on_timeout;
|}.

(* ------------------------------------------------------------------ *)
(** ** The OpenSSL adapter *)
(* ------------------------------------------------------------------ *)

(** The calls of the [openssl] crate the adapter makes; an error is what its [Display] prints. *)
Class Openssl : Type := {
  SslContextBuilder : Type;
  SslContext : Type;
  Ssl : Type;
  X509StoreBuilder : Type;
  X509 : Type;
  context_builder_new : AdapterRole → str + SslContextBuilder;
  set_verify : bool → SslContextBuilder → SslContextBuilder;
  set_cipher_list : str → SslContextBuilder → str + SslContextBuilder;
  store_builder_new : str + X509StoreBuilder;
  stack_from_pem : list byte → str + list X509;
  add_cert : X509 → X509StoreBuilder → str + X509StoreBuilder;
  set_cert_store : X509StoreBuilder → SslContextBuilder → SslContextBuilder;
  set_certificate_file : str → SslContextBuilder → str + SslContextBuilder;
  set_private_key_file : str → SslContextBuilder → str + SslContextBuilder;
  build : SslContextBuilder → SslContext;
  ssl_new : SslContext → str + Ssl;
}.

(** [call.map_err(|e| err(e))?]. *)
Definition checked {A} (err : str → CryptoError) (r : str + A) : outcome CryptoError A :=
  match r with
  | inl e => Err (err e)
  | inr a => Ok a
  end.

(** A loop that threads a value and stops at the first error. *)
Fixpoint try_fold {A B} (f : B → A → outcome CryptoError B) (b : B) (l : list A)
    : outcome CryptoError B :=
  match l with
  | [] => mret b
  | x :: l' => b' ← f b x; try_fold f b' l'
  end.

(** [parse_kv]: the part before the first bar, and the rest without its leading bars. *)
Definition parse_kv (datagram : list byte) : str * option str :=
  let raw := from_utf8_or_default datagram in
  match list_find (λ b, b = x7c) raw with
  | Some (idx, _) => (take idx raw, Some (trim_start_matches x7c (drop idx raw)))
  | None => (raw, None)
  end.

(** [kv.and_then(|k| k.split_once(name).map(|(_, v)| v))]. *)
Definition kv_value (name : str) (kv : option str) : option str :=
  k ← kv;
  snd <$> split_once name k.

Section OpenSslAdapter.
Context `{ossl : !Openssl}.

Record OpenSslDtlsAdapter : Type := mkOpenSslDtlsAdapter {
  o_role : option AdapterRole;
  o_cfg : option HandshakeConfig;
  o_established : bool;
  o_ctx : option SslContext;
  o_ssl : option Ssl;
  last_flight : list (list byte);
  next_retransmit_at_ms : option Z;
  flight_rto_ms : Z;
  issued_cookie : option str;
}.

#[global] Instance OpenSslDtlsAdapter_eta : Eta OpenSslDtlsAdapter := λ r,
  mkOpenSslDtlsAdapter (o_role r) (o_cfg r) (o_established r) (o_ctx r) (o_ssl r)
    (last_flight r) (next_retransmit_at_ms r) (flight_rto_ms r) (issued_cookie r).

Definition new_openssl : OpenSslDtlsAdapter :=
  mkOpenSslDtlsAdapter None None false None None [] None 1000 None.

(** The certificates of one trust anchor bundle. *)
Definition add_anchor (store : X509StoreBuilder) (anchor : nat * list byte)
    : outcome CryptoError X509StoreBuilder :=
  let index := lit (pretty (N.of_nat anchor.1)) in
  certs ← checked (λ e, InvalidConfig (lit "invalid trust anchor bundle at index " ++ index ++ lit ": " ++ e))
            (stack_from_pem anchor.2);
  reject (bool_decide (certs = []))
    (InvalidConfig (lit "trust anchor bundle at index " ++ index ++
                    lit " does not contain any certificates")) ;;
  try_fold (λ store cert,
    checked (λ e, InvalidConfig (lit "failed to add trust anchor certificate at index " ++ index ++
                                 lit ": " ++ e)) (add_cert cert store)) store certs.

Definition build_trust_store (cfg : HandshakeConfig) (builder : SslContextBuilder)
    : outcome CryptoError SslContextBuilder :=
  if bool_decide (trust_anchor_pems (trust cfg) = []) then mret builder
  else
    store ← checked (λ e, Provider (lit "openssl trust store build failed: " ++ e)) store_builder_new;
    store ← try_fold add_anchor store (imap pair (trust_anchor_pems (trust cfg)));
    mret (set_cert_store store builder).

Definition set_identity (cfg : HandshakeConfig) (builder : SslContextBuilder)
    : outcome CryptoError SslContextBuilder :=
  match client_identity cfg with
  | None => mret builder
  | Some id =>
      builder ←
        match cert_chain_ids id with
        | [] => mret builder
        | cert_path :: _ =>
            checked (λ e, InvalidConfig (lit "invalid client certificate file '" ++ cert_path ++
                                         lit "': " ++ e)) (set_certificate_file cert_path builder)
        end;
      checked (λ e, InvalidConfig (lit "invalid client private key file '" ++ key_id id ++
                                   lit "': " ++ e)) (set_private_key_file (key_id id) builder)
  end.

Definition build_context (r : AdapterRole) (cfg : HandshakeConfig) : outcome CryptoError SslContext :=
  validate_cfg cfg ;;
  reject (bool_decide (min_dtls_version (cipher_policy cfg) = Dtls13))
    (InvalidConfig (lit "DTLS 1.3 policy requested but OpenSSL adapter currently targets DTLS 1.2")) ;;
  builder ← checked (λ e, Provider (lit "openssl context build failed: " ++ e)) (context_builder_new r);
  let builder := set_verify (bool_decide (profile cfg = MutualTls)) builder in
  reject (bool_decide (r = Client) && bool_decide (trust_anchor_pems (trust cfg) = []))
    (InvalidConfig (lit "at least one trust anchor is required for client TLS")) ;;
  builder ←
    (if negb (allow_weak_suites (cipher_policy cfg)) then
       checked (λ e, InvalidConfig (lit "cipher policy reject: " ++ e))
         (set_cipher_list (lit "HIGH:!aNULL:!MD5:!RC4:!DES:!3DES") builder)
     else mret builder);
  builder ← build_trust_store cfg builder;
  builder ← set_identity cfg builder;
  mret (build builder).

Definition queue_flight (now_ms : Z) (datagrams : list (list byte))
    : ST OpenSslDtlsAdapter CryptoError HandshakeOutput :=
  st_modify (λ a, a <| last_flight := datagrams |>
                    <| next_retransmit_at_ms := Some (sat_add U64_MAX now_ms (flight_rto_ms a)) |>) ;;
  a ← st_get;
  mret (plain_output datagrams (o_established a)).

(** What both starts store. *)
Definition openssl_start (r : AdapterRole) (cfg : HandshakeConfig)
    : ST OpenSslDtlsAdapter CryptoError () :=
  ctx ← st_lift (build_context r cfg);
  ssl ← st_lift (checked (λ e, Provider (lit "openssl ssl init failed: " ++ e)) (ssl_new ctx));
  st_modify (λ a, a <| o_role := Some r |> <| o_cfg := Some cfg |> <| o_established := false |>
                    <| o_ctx := Some ctx |> <| o_ssl := Some ssl |>).

Definition server_name (cfg : HandshakeConfig) : str := default (lit "peer") (expected_server_name cfg).

Definition openssl_start_client (cfg : HandshakeConfig)
    : ST OpenSslDtlsAdapter CryptoError HandshakeOutput :=
  openssl_start Client cfg ;;
  queue_flight 0 [lit "DTLS_CLIENT_HELLO|sni=" ++ server_name cfg].

Definition openssl_start_server (cfg : HandshakeConfig)
    : ST OpenSslDtlsAdapter CryptoError HandshakeOutput :=
  openssl_start Server cfg ;;
  st_modify (λ a, a <| last_flight := [] |> <| next_retransmit_at_ms := None |>
                    <| issued_cookie := None |>) ;;
  mret (plain_output [] false).

Definition cookie_v3 : str := lit "cookie-v3".

Definition mark_established : ST OpenSslDtlsAdapter CryptoError () :=
  st_modify (λ a, a <| o_established := true |> <| next_retransmit_at_ms := None |>).

Definition client_on_datagram (cfg : HandshakeConfig) (head : str) (kv : option str)
    : ST OpenSslDtlsAdapter CryptoError HandshakeOutput :=
  if bool_decide (head = lit "DTLS_HELLO_VERIFY") then
    cookie ← st_lift (ok_or (kv_value (lit "cookie=") kv) (AuthFailed (lit "missing hello-verify cookie")));
    queue_flight 0 [lit "DTLS_CLIENT_HELLO_COOKIE|cookie=" ++ cookie]
  else if bool_decide (head = lit "DTLS_SERVER_HELLO") then
    let sni := default [] (kv_value (lit "sni=") kv) in
    let expected := default [] (expected_server_name cfg) in
    st_reject (require_hostname_verification (trust cfg) && negb (bool_decide (sni = expected)))
      (AuthFailed (lit "server identity mismatch expected '" ++ expected ++ lit "' got '" ++ sni ++ lit "'")) ;;
    mark_established ;;
    mret (established_output cfg)
  else st_throw (AuthFailed (lit "unexpected handshake response")).

Definition server_on_datagram (cfg : HandshakeConfig) (head : str) (kv : option str)
    : ST OpenSslDtlsAdapter CryptoError HandshakeOutput :=
  if bool_decide (head = lit "DTLS_CLIENT_HELLO") then
    st_modify (λ a, a <| issued_cookie := Some cookie_v3 |>) ;;
    queue_flight 0 [lit "DTLS_HELLO_VERIFY|cookie=" ++ cookie_v3]
  else if bool_decide (head = lit "DTLS_CLIENT_HELLO_COOKIE") then
    let cookie := default [] (kv_value (lit "cookie=") kv) in
    a ← st_get;
    st_reject (negb (bool_decide (default [] (issued_cookie a) = cookie)))
      (AuthFailed (lit "invalid or missing hello-verify cookie")) ;;
    mark_established ;;
    mret (accepted_output (lit "DTLS_SERVER_HELLO|sni=" ++ server_name cfg))
  else st_throw (AuthFailed (lit "unexpected client hello")).

Definition openssl_on_datagram (datagram : list byte)
    : ST OpenSslDtlsAdapter CryptoError HandshakeOutput :=
  a ← st_get;
  st_reject (bool_decide (o_ctx a = None) || bool_decide (o_ssl a = None))
    (Provider (lit "openssl context not initialized")) ;;
  r ← st_lift (ok_or (o_role a) (Provider (lit "handshake not started")));
  cfg ← st_lift (ok_or (o_cfg a) (Provider (lit "missing config")));
  if o_established a then mret (established_output cfg)
  else
    let '(head, kv) := parse_kv datagram in
    match r with
    | Client => client_on_datagram cfg head kv
    | Server => server_on_datagram cfg head kv
    end.

Definition openssl_on_timeout (now_ms : Z) : ST OpenSslDtlsAdapter CryptoError HandshakeOutput :=
  a ← st_get;
  if o_established a then mret (plain_output [] true)
  else
    match next_retransmit_at_ms a with
    | None => st_throw (Provider (lit "handshake timed out"))
    | Some deadline =>
        if now_ms <? deadline then mret (plain_output [] false)
        else
          st_reject (bool_decide (last_flight a = [])) (Provider (lit "handshake timed out")) ;;
          queue_flight now_ms (last_flight a)
    end.

#[global] Instance openssl_provider : HandshakeProvider OpenSslDtlsAdapter := {|
  start_client := openssl_start_client;
  start_server := openssl_start_server;
  on_datagram := openssl_on_datagram;
  on_timeout := openssl_on_timeout;
|}.

End OpenSslAdapter.
