(* ===== verification/DtlsProps.v ===== *)
(** * Correctness of the handshake providers

    The laws every provider keeps, discharged by both adapters, what follows from them for any
    caller, and the cookie exchange of the OpenSSL adapter. *)

From S2P Require Import Prelude Bytes Text Replay Dtls.

(* ------------------------------------------------------------------ *)
(** ** The provider's contract *)
(* ------------------------------------------------------------------ *)

(** What the caller of a provider relies on. *)
Class LawfulProvider (P : Type) `{!HandshakeProvider P} : Type := {
  fresh_provider : P;
  complete : P → bool;
  config_of : P → option HandshakeConfig;
  fresh_config : config_of fresh_provider = None ∧ complete fresh_provider = false;
  (** A start that succeeds was given a valid configuration and begins anew; a start that fails
      changes nothing. *)
  start_law cfg p start :
    start = start_client cfg ∨ start = start_server cfg →
    match start p with
    | (Ok out, p') => validate_cfg cfg = Ok () ∧ config_of p' = Some cfg ∧ complete p' = false ∧
                      established out = false
    | (Err _, p') => p' = p
    | (Panic, _) => False
    end;
  (** A datagram needs a started provider, keeps the configuration and never undoes a
      handshake; the output tells whether it is done. *)
  datagram_law d p :
    match on_datagram d p with
    | (Ok out, p') => config_of p' = config_of p ∧ is_Some (config_of p) ∧
                      (complete p = true → complete p' = true) ∧ established out = complete p'
    | (Err _, p') => config_of p' = config_of p ∧ complete p' = complete p
    | (Panic, _) => False
    end;
  timeout_law now p :
    match on_timeout now p with
    | (Ok out, p') => config_of p' = config_of p ∧ complete p' = complete p ∧ established out = complete p
    | (Err _, p') => p' = p
    | (Panic, _) => False
    end;
}.

(** The caller's operations. *)
Inductive request : Type :=
| StartClient (cfg : HandshakeConfig)
| StartServer (cfg : HandshakeConfig)
| Datagram (d : list byte)
| Timeout (now_ms : Z).

Definition serve {P} `{!HandshakeProvider P} (r : request) : ST P CryptoError HandshakeOutput :=
  match r with
  | StartClient cfg => start_client cfg
  | StartServer cfg => start_server cfg
  | Datagram d => on_datagram d
  | Timeout now => on_timeout now
  end.

(** Requests one after the other, whatever each returns. *)
Fixpoint serve_all {P} `{!HandshakeProvider P} (rs : list request) (p : P)
    : list (outcome CryptoError HandshakeOutput) * P :=
  match rs with
  | [] => ([], p)
  | r :: rs' =>
      let '(o, p1) := serve r p in
      let '(os, p2) := serve_all rs' p1 in
      (o :: os, p2)
  end.

(** The configuration passes the policy, by its three conditions. *)
Definition policy_ok (cfg : HandshakeConfig) : Prop :=
  allow_weak_suites (cipher_policy cfg) = false ∧
  (require_hostname_verification (trust cfg) = true →
     ∃ name, expected_server_name cfg = Some name ∧ is_blank name = false) ∧
  (profile cfg = MutualTls → is_Some (client_identity cfg)).

Lemma name_given_iff o :
  is_blank (default [] o) = false ↔ ∃ name, o = Some name ∧ is_blank name = false.
Proof. destruct o as [name|]; cbn; naive_solver. Qed.

Lemma validate_cfg_iff cfg : validate_cfg cfg = Ok () ↔ policy_ok cfg.
Proof.
  unfold validate_cfg, policy_ok, reject. setoid_rewrite <-name_given_iff.
  rewrite <-not_eq_None_Some.
  destruct (allow_weak_suites _); [naive_solver|]. cbn [mbind outcome_bind].
  destruct (require_hostname_verification _), (is_blank _); cbn [andb mbind outcome_bind];
    try naive_solver; repeat case_bool_decide; naive_solver.
Qed.

Lemma validate_cfg_cases cfg : validate_cfg cfg = Ok () ∨ ∃ e, validate_cfg cfg = Err e.
Proof.
  unfold validate_cfg, reject. repeat case_match; cbn [mbind outcome_bind] in *; eauto.
Qed.

(* ------------------------------------------------------------------ *)
(** ** The deterministic adapter keeps the contract *)
(* ------------------------------------------------------------------ *)

Lemma backend_start_law r hello cfg a :
  match backend_start r hello cfg a with
  | (Ok out, a') => validate_cfg cfg = Ok () ∧ config a' = Some cfg ∧ is_established a' = false ∧
                    established out = false
  | (Err _, a') => a' = a
  | (Panic, _) => False
  end.
Proof.
  unfold backend_start, st_lift, st_modify, mbind, ST_bind, mret, ST_ret.
  by destruct (validate_cfg_cases cfg) as [->|[e ->]].
Qed.

Lemma backend_datagram_law d a :
  match backend_on_datagram d a with
  | (Ok out, a') => config a' = config a ∧ is_Some (config a) ∧
                    (is_established a = true → is_established a' = true) ∧ established out = is_established a'
  | (Err _, a') => config a' = config a ∧ is_established a' = is_established a
  | (Panic, _) => False
  end.
Proof.
  unfold backend_on_datagram, st_get, st_lift, st_modify, st_throw, mbind, ST_bind, mret, ST_ret.
  destruct a as [[r|] [cfg|] est]; cbn; [|done..].
  destruct est; [by eauto|]. destruct r; case_bool_decide; cbn; eauto.
Qed.

#[global] Instance backend_lawful : LawfulProvider DtlsBackendAdapter.
Proof.
  refine {| fresh_provider := new_backend; complete := is_established; config_of := config |}.
  - done.
  - intros cfg p start [->| ->]; apply backend_start_law.
  - apply backend_datagram_law.
  - intros now p. cbn. unfold backend_on_timeout, st_get, st_throw, mbind, ST_bind, mret, ST_ret.
    destruct (is_established p) eqn:He; cbn; by rewrite ?He.
Defined.

(* ------------------------------------------------------------------ *)
(** ** The OpenSSL adapter keeps the contract *)
(* ------------------------------------------------------------------ *)

Section OpenSslLaws.
Context `{ossl : !Openssl}.

(** A computation that fails with an error at worst. *)
Definition no_panic {E A} (o : outcome E A) : Prop := o ≠ Panic.

Lemma no_panic_bind {E A B} (o : outcome E A) (k : A → outcome E B) :
  no_panic o → (∀ a, no_panic (k a)) → no_panic (a ← o; k a).
Proof. intros Ho Hk. destruct o; [apply Hk|done|done]. Qed.

Lemma no_panic_checked {A} (err : str → CryptoError) (r : str + A) : no_panic (checked err r).
Proof. by destruct r. Qed.

Lemma no_panic_reject (b : bool) (e : CryptoError) : no_panic (reject b e).
Proof. by destruct b. Qed.

Lemma no_panic_ret {A} (a : A) : no_panic (E:=CryptoError) (mret a).
Proof. done. Qed.

Lemma no_panic_fold {A B} (f : B → A → outcome CryptoError B) l b :
  (∀ b a, no_panic (f b a)) → no_panic (try_fold f b l).
Proof. intros Hf. revert b. induction l as [|x l IH]; intros b; [done|]. by apply no_panic_bind. Qed.

Ltac calm :=
  repeat first
    [ apply no_panic_ret | apply no_panic_checked | apply no_panic_reject
    | apply no_panic_fold; intros ? ? | apply no_panic_bind; [|intros ?] | case_match ].

Lemma build_context_total r cfg : no_panic (build_context r cfg).
Proof. unfold build_context, validate_cfg, build_trust_store, add_anchor, set_identity. calm. Qed.

Lemma build_context_valid r cfg ctx : build_context r cfg = Ok ctx → validate_cfg cfg = Ok ().
Proof. unfold build_context. by destruct (validate_cfg_cases cfg) as [->|[e ->]]. Qed.

Lemma openssl_start_cases r cfg a :
  (∃ ctx ssl, openssl_start r cfg a =
     (Ok (), a <| o_role := Some r |> <| o_cfg := Some cfg |> <| o_established := false |>
               <| o_ctx := Some ctx |> <| o_ssl := Some ssl |>) ∧ validate_cfg cfg = Ok ()) ∨
  ∃ e, openssl_start r cfg a = (Err e, a).
Proof.
  unfold openssl_start, st_lift, st_modify, mbind, ST_bind.
  destruct (build_context r cfg) as [ctx|e|] eqn:Hb; [|by eauto|by apply build_context_total in Hb].
  destruct (ssl_new ctx) as [e|ssl]; cbn; [by eauto|]. left. exists ctx, ssl.
  split; [done|]. by eapply build_context_valid.
Qed.

Lemma openssl_datagram_law d (a : OpenSslDtlsAdapter) :
  match openssl_on_datagram d a with
  | (Ok out, a') => o_cfg a' = o_cfg a ∧ is_Some (o_cfg a) ∧
                    (o_established a = true → o_established a' = true) ∧ established out = o_established a'
  | (Err _, a') => o_cfg a' = o_cfg a ∧ o_established a' = o_established a
  | (Panic, _) => False
  end.
Proof.
  unfold openssl_on_datagram, client_on_datagram, server_on_datagram, queue_flight, mark_established,
    st_reject, st_get, st_lift, st_modify, st_throw, mbind, ST_bind, mret, ST_ret.
  destruct (_ || _); [done|]. destruct (o_role a) as [r|]; [|done]. cbn [ok_or].
  destruct (o_cfg a) as [cfg|] eqn:Hcfg; [|done]. cbn [ok_or].
  destruct (o_established a) eqn:He; [by rewrite He; eauto|].
  destruct (parse_kv d) as [head kv]. destruct r; repeat case_bool_decide.
  all: try destruct (kv_value _ kv); cbn -[lit from_utf8_or_default];
    repeat case_match; simplify_eq; cbn; eauto.
Qed.

#[global] Instance openssl_lawful : LawfulProvider OpenSslDtlsAdapter.
Proof.
  refine {| fresh_provider := new_openssl; complete := o_established; config_of := o_cfg |}.
  - done.
  - intros cfg p start [->| ->]; cbn -[lit];
      unfold openssl_start_client, openssl_start_server, queue_flight, st_get, st_modify, mbind, ST_bind, mret, ST_ret.
    + by destruct (openssl_start_cases Client cfg p) as [(ctx & ssl & -> & ->)|[e ->]].
    + by destruct (openssl_start_cases Server cfg p) as [(ctx & ssl & -> & ->)|[e ->]].
  - apply openssl_datagram_law.
  - intros now p. cbn. unfold openssl_on_timeout, queue_flight, st_reject, st_get, st_modify, st_throw, mbind, ST_bind, mret, ST_ret.
    destruct (o_established p) eqn:He; [by rewrite He|].
    destruct (next_retransmit_at_ms p); [|done]. destruct (now <? z); [by rewrite He|].
    case_bool_decide; [done|]. cbn. by rewrite He.
Defined.

End OpenSslLaws.

(* ------------------------------------------------------------------ *)
(** ** What any caller of a provider may rely on *)
(* ------------------------------------------------------------------ *)

Section Callers.
Context {P : Type} `{!HandshakeProvider P, !LawfulProvider P}.

(** Some request of the list started with this configuration. *)
Definition started_with (cfg : HandshakeConfig) (rs : list request) : Prop :=
  StartClient cfg ∈ rs ∨ StartServer cfg ∈ rs.

Definition provider_inv (rs : list request) (p : P) : Prop :=
  (complete p = true → is_Some (config_of p)) ∧
  ∀ cfg, config_of p = Some cfg → policy_ok cfg ∧ started_with cfg rs.

Lemma serve_inv rs r p :
  provider_inv rs p → provider_inv (rs ++ [r]) (serve r p).2 ∧ (serve r p).1 ≠ Panic.
Proof.
  intros [Hc Hp].
  assert (Hmono : ∀ cfg, config_of p = Some cfg → policy_ok cfg ∧ started_with cfg (rs ++ [r])).
  { intros cfg Hcfg. destruct (Hp cfg Hcfg) as [? Hs]. split; [done|]. unfold started_with in *. set_solver. }
  unfold provider_inv. destruct r as [cfg|cfg|d|now]; cbn [serve].
  1: pose proof (start_law cfg p _ (or_introl eq_refl)) as H; destruct (start_client cfg p) as [[out|e|] p'].
  4: pose proof (start_law cfg p _ (or_intror eq_refl)) as H; destruct (start_server cfg p) as [[out|e|] p'].
  7: pose proof (datagram_law d p) as H; destruct (on_datagram d p) as [[out|e|] p'].
  10: pose proof (timeout_law now p) as H; destruct (on_timeout now p) as [[out|e|] p'].
  all: cbn [fst snd]; try done.
  1, 3: destruct H as (Hv & Hcfg & Hd & _); apply validate_cfg_iff in Hv; rewrite Hcfg, Hd; split; [|done];
    split; [done|]; intros ? [= <-]; split; [done|]; unfold started_with; set_solver.
  1, 2, 6: subst p'; done.
  - destruct H as (Hcfg & Hs & _). by rewrite Hcfg.
  - destruct H as (Hcfg & Hd). by rewrite Hcfg, Hd.
  - destruct H as (Hcfg & Hd & _). by rewrite Hcfg, Hd.
Qed.

Lemma serve_all_inv rs rs' p :
  provider_inv rs p →
  provider_inv (rs ++ rs') (serve_all rs' p).2 ∧ Forall (λ o, o ≠ Panic) (serve_all rs' p).1.
Proof.
  revert rs p. induction rs' as [|r rs' IH]; intros rs p Hp; [by rewrite app_nil_r|].
  cbn [serve_all]. destruct (serve_inv rs r p Hp) as [H1 H2]. destruct (serve r p) as [o p1]. cbn in H1, H2.
  destruct (IH _ _ H1) as [H3 H4]. destruct (serve_all rs' p1) as [os p2]. cbn in *.
  rewrite <-app_assoc in H3. split; [done|by constructor].
Qed.

(** From a new provider on, whatever requests a caller makes and in any order: none panics, and
    the handshake is complete ([done]), or an output says so, only under a configuration ([used])
    that some request started with and that passes the policy. *)
Definition only_under_policy (fresh : P) (done : P → bool) (used : P → option HandshakeConfig) : Prop :=
  ∀ rs r, let '(os, p) := serve_all rs fresh in
  Forall (λ o, o ≠ Panic) os ∧
  (done p = true → ∃ cfg, used p = Some cfg ∧ policy_ok cfg ∧ started_with cfg rs) ∧
  ∀ out p', serve r p = (Ok out, p') → established out = true →
    done p' = true ∧ ∃ cfg, used p' = Some cfg ∧ policy_ok cfg ∧ started_with cfg (rs ++ [r]).

Lemma lawful_needs_policy : only_under_policy fresh_provider complete config_of.
Proof.
  intros rs r. assert (H0 : provider_inv [] (fresh_provider : P)).
  { destruct fresh_config as [Hc Hd]. split; [by rewrite Hd|by rewrite Hc]. }
  destruct (serve_all_inv [] rs _ H0) as [Hinv Hnp]. cbn [app] in Hinv.
  destruct (serve_all rs fresh_provider) as [os p]. cbn [fst snd] in *.
  assert (Hgive : ∀ rs p, provider_inv rs p → complete p = true →
            ∃ cfg, config_of p = Some cfg ∧ policy_ok cfg ∧ started_with cfg rs).
  { intros rs' q [Hc Hp] Hd. destruct (Hc Hd) as [cfg Hcfg]. exists cfg. split; [done|by apply Hp]. }
  split; [done|]. split; [by apply Hgive|]. intros out p' Hr Hout.
  destruct (serve_inv rs r p Hinv) as [Hinv' _]. rewrite Hr in Hinv'. cbn [snd] in Hinv'.
  assert (Hd : complete p' = true); [|split; [done|by apply Hgive]].
  destruct r as [cfg|cfg|d|now]; cbn [serve] in Hr.
  - pose proof (start_law cfg p _ (or_introl eq_refl)) as H. rewrite Hr in H. destruct H as (_ & _ & _ & H). congruence.
  - pose proof (start_law cfg p _ (or_intror eq_refl)) as H. rewrite Hr in H. destruct H as (_ & _ & _ & H). congruence.
  - pose proof (datagram_law d p) as H. rewrite Hr in H. destruct H as (_ & _ & _ & H). congruence.
  - pose proof (timeout_law now p) as H. rewrite Hr in H. destruct H as (_ & H1 & H2). congruence.
Qed.

End Callers.

(** C34. The deterministic adapter and the OpenSSL adapter, whatever the calls of the openssl
    crate answer: whatever requests a caller makes of a new one, in any order, none panics, and
    the handshake is complete, or an output says so, only under a configuration that some
    request started with and that passes the policy: no weak suites, a server name where the
    hostname is verified, an identity where TLS is mutual. *)
Theorem establishment_needs_policy `{ossl : !Openssl} :
  only_under_policy new_backend is_established config ∧
  only_under_policy new_openssl o_established o_cfg.
Proof. split; [exact (lawful_needs_policy (P:=DtlsBackendAdapter))|exact (lawful_needs_policy (P:=OpenSslDtlsAdapter))]. Qed.

(** A client that verifies the server's name. *)
Definition sample_handshake : HandshakeConfig :=
  mkHandshakeConfig ServerAuth default_cipher_policy (mkTrustConfig [[x2d]] true) None
    (Some (lit "api.example.com")).

(* ------------------------------------------------------------------ *)
(** ** The exchange of the OpenSSL adapter *)
(* ------------------------------------------------------------------ *)

Section Exchange.
Context `{ossl : !Openssl}.

Lemma utf8_app_ascii l s :
  forallb (λ b, byte_to_Z b <? 0x80) l = true → is_Some (utf8 s) → is_Some (utf8 (l ++ s)).
Proof.
  intros Hl Hs. induction l as [|b l IH]; [done|]. cbn [forallb] in Hl. apply andb_true_iff in Hl as [Hb Hl].
  cbn [app utf8]. rewrite Hb. destruct (IH Hl) as [x ->]. by eexists.
Qed.

(** A head without bars and what follows the bar. *)
Lemma parse_kv_message head b rest :
  is_Some (utf8 (head ++ x7c :: b :: rest)) → x7c ∉ head → b ≠ x7c →
  parse_kv (head ++ x7c :: b :: rest) = (head, Some (b :: rest)).
Proof.
  intros [cps Hu] Hh Hb. unfold parse_kv, from_utf8_or_default. rewrite Hu.
  assert (Hf : list_find (λ b, b = x7c) (head ++ x7c :: b :: rest) = Some (length head, x7c)).
  { apply list_find_Some. split; [by rewrite list_lookup_middle|]. split; [done|].
    intros j y Hj Hlt ->. rewrite lookup_app_l in Hj by done. apply Hh. by eapply list_elem_of_lookup_2. }
  rewrite Hf, take_app_length, drop_app_length. cbn [trim_start_matches].
  by rewrite (bool_decide_eq_true_2 (x7c = x7c)), bool_decide_eq_false_2.
Qed.

Lemma split_once_head needle v : split_once needle (needle ++ v) = Some ([], v).
Proof.
  assert (H : bool_decide (needle `prefix_of` needle ++ v) = true)
    by (apply bool_decide_eq_true_2; by exists v).
  destruct (needle ++ v) as [|b s] eqn:Hs; cbn [split_once]; rewrite H, <-Hs; by rewrite drop_app_length.
Qed.

Lemma kv_value_head name v : kv_value name (Some (name ++ v)) = Some v.
Proof. unfold kv_value. cbn. by rewrite split_once_head. Qed.

(** The parts of the four messages. *)
Definition hello_message (sni : str) : list byte := lit "DTLS_CLIENT_HELLO|sni=" ++ sni.
Definition verify_message : list byte := lit "DTLS_HELLO_VERIFY|cookie=" ++ cookie_v3.
Definition echo_message : list byte := lit "DTLS_CLIENT_HELLO_COOKIE|cookie=" ++ cookie_v3.
Definition answer_message (sni : str) : list byte := lit "DTLS_SERVER_HELLO|sni=" ++ sni.

Lemma hello_parse sni :
  is_Some (utf8 sni) → parse_kv (hello_message sni) = (lit "DTLS_CLIENT_HELLO", Some (lit "sni=" ++ sni)).
Proof.
  intros Hs. apply (parse_kv_message (lit "DTLS_CLIENT_HELLO") x73 (lit "ni=" ++ sni)); [|set_solver|done].
  by apply (utf8_app_ascii (lit "DTLS_CLIENT_HELLO|sni=")).
Qed.

Lemma answer_parse sni :
  is_Some (utf8 sni) → parse_kv (answer_message sni) = (lit "DTLS_SERVER_HELLO", Some (lit "sni=" ++ sni)).
Proof.
  intros Hs. apply (parse_kv_message (lit "DTLS_SERVER_HELLO") x73 (lit "ni=" ++ sni)); [|set_solver|done].
  by apply (utf8_app_ascii (lit "DTLS_SERVER_HELLO|sni=")).
Qed.

Lemma verify_parse :
  parse_kv verify_message = (lit "DTLS_HELLO_VERIFY", Some (lit "cookie=" ++ cookie_v3)).
Proof. by vm_compute. Qed.

Lemma echo_parse :
  parse_kv echo_message = (lit "DTLS_CLIENT_HELLO_COOKIE", Some (lit "cookie=" ++ cookie_v3)).
Proof. by vm_compute. Qed.

(** An adapter in the middle of a handshake. *)
Definition waiting (r : AdapterRole) (cfg : HandshakeConfig) (a : OpenSslDtlsAdapter) : Prop :=
  o_role a = Some r ∧ o_cfg a = Some cfg ∧ is_Some (o_ctx a) ∧ is_Some (o_ssl a) ∧ o_established a = false.

Lemma waiting_datagram r cfg a d :
  waiting r cfg a →
  openssl_on_datagram d a =
    match r with
    | Client => client_on_datagram cfg (parse_kv d).1 (parse_kv d).2 a
    | Server => server_on_datagram cfg (parse_kv d).1 (parse_kv d).2 a
    end.
Proof.
  intros (Hr & Hc & [ctx Hx] & [ssl Hs] & He).
  unfold openssl_on_datagram, st_reject, st_get, st_lift, mbind, ST_bind, mret, ST_ret.
  rewrite Hx, Hs, Hr, Hc, He. cbn [ok_or]. rewrite !bool_decide_eq_false_2 by done. cbn [orb].
  destruct (parse_kv d). by destruct r.
Qed.

Ltac run_state :=
  unfold client_on_datagram, server_on_datagram, queue_flight, mark_established,
    st_reject, st_get, st_lift, st_modify, st_throw, mbind, ST_bind, mret, ST_ret.

Lemma server_hello_step cfg a sni :
  waiting Server cfg a → is_Some (utf8 sni) →
  ∃ a', openssl_on_datagram (hello_message sni) a = (Ok (plain_output [verify_message] false), a') ∧
        waiting Server cfg a' ∧ issued_cookie a' = Some cookie_v3.
Proof.
  intros Hw Hs. rewrite (waiting_datagram Server cfg), hello_parse by done. cbn [fst snd]. run_state.
  rewrite bool_decide_eq_true_2 by done. destruct Hw as (Hr & Hc & Hx & Hss & He).
  eexists. split; [by unfold upd; cbn [o_established]; rewrite He|]. done.
Qed.

Lemma client_verify_step cfg a :
  waiting Client cfg a →
  ∃ a', openssl_on_datagram verify_message a = (Ok (plain_output [echo_message] false), a') ∧ waiting Client cfg a'.
Proof.
  intros Hw. rewrite (waiting_datagram Client cfg), verify_parse by done. cbn [fst snd]. run_state.
  rewrite bool_decide_eq_true_2, kv_value_head by done. cbn [ok_or].
  destruct Hw as (Hr & Hc & Hx & Hss & He). eexists. split; [by unfold upd; cbn [o_established]; rewrite He|]. done.
Qed.

Lemma server_cookie_step cfg a d kv :
  waiting Server cfg a → parse_kv d = (lit "DTLS_CLIENT_HELLO_COOKIE", kv) →
  openssl_on_datagram d a =
    if decide (default [] (issued_cookie a) = default [] (kv_value (lit "cookie=") kv)) then
      (Ok (accepted_output (answer_message (server_name cfg))),
       a <| o_established := true |> <| next_retransmit_at_ms := None |>)
    else (Err (AuthFailed (lit "invalid or missing hello-verify cookie")), a).
Proof.
  intros Hw Hd. rewrite (waiting_datagram Server cfg), Hd by done. cbn [fst snd]. run_state.
  rewrite (bool_decide_eq_false_2 (_ = lit "DTLS_CLIENT_HELLO")) by done.
  rewrite (bool_decide_eq_true_2 (_ = lit "DTLS_CLIENT_HELLO_COOKIE")) by done.
  case_bool_decide; case_decide; done.
Qed.

Lemma client_answer_step cfg a sni :
  waiting Client cfg a → is_Some (utf8 sni) →
  (require_hostname_verification (trust cfg) = true → sni = default [] (expected_server_name cfg)) →
  openssl_on_datagram (answer_message sni) a =
    (Ok (established_output cfg), a <| o_established := true |> <| next_retransmit_at_ms := None |>).
Proof.
  intros Hw Hs Hreq. rewrite (waiting_datagram Client cfg), answer_parse by done. cbn [fst snd]. run_state.
  rewrite (bool_decide_eq_false_2 (_ = lit "DTLS_HELLO_VERIFY")) by done.
  rewrite (bool_decide_eq_true_2 (_ = lit "DTLS_SERVER_HELLO")), kv_value_head by done. cbn [default].
  destruct (require_hostname_verification (trust cfg)); [|done].
  by rewrite bool_decide_eq_true_2 by auto.
Qed.

Lemma start_waiting_client cfg a out a' :
  start_client cfg a = (Ok out, a') →
  waiting Client cfg a' ∧ out = plain_output [hello_message (server_name cfg)] false ∧ policy_ok cfg.
Proof.
  cbn [start_client openssl_provider]. unfold openssl_start_client, queue_flight, st_get, st_modify, mbind, ST_bind, mret, ST_ret.
  destruct (openssl_start_cases Client cfg a) as [(ctx & ssl & -> & Hv)|[e ->]]; [|done].
  intros [= <- <-]. apply validate_cfg_iff in Hv. split; [|done].
  unfold waiting, upd. cbn. eauto 8.
Qed.

Lemma start_waiting_server cfg a out a' :
  start_server cfg a = (Ok out, a') → waiting Server cfg a' ∧ issued_cookie a' = None ∧ policy_ok cfg.
Proof.
  cbn [start_server openssl_provider]. unfold openssl_start_server, st_modify, mbind, ST_bind, mret, ST_ret.
  destruct (openssl_start_cases Server cfg a) as [(ctx & ssl & -> & Hv)|[e ->]]; [|done].
  intros [= <- <-]. apply validate_cfg_iff in Hv. split; [|done].
  unfold waiting, upd. cbn. eauto 8.
Qed.

(** The honest exchange of the OpenSSL adapter, for every server name: a client and a server
    that started, the server under the name the client expects (if the client verifies it),
    complete the handshake in the four messages hello, verify, echo and answer, each the only
    datagram of its step, and both end up complete. *)
Theorem exchange_completes (cc sc : HandshakeConfig) (c s c0 s0 : OpenSslDtlsAdapter) outc outs :
  start_client cc c = (Ok outc, c0) → start_server sc s = (Ok outs, s0) →
  is_Some (utf8 (server_name cc)) → is_Some (utf8 (server_name sc)) →
  (require_hostname_verification (trust cc) = true →
     server_name sc = default [] (expected_server_name cc)) →
  ∃ hello verify echo answer c1 c2 s1 s2,
    outbound_datagrams outc = [hello] ∧
    on_datagram hello s0 = (Ok (plain_output [verify] false), s1) ∧
    on_datagram verify c0 = (Ok (plain_output [echo] false), c1) ∧
    on_datagram echo s1 = (Ok (accepted_output answer), s2) ∧
    on_datagram answer c1 = (Ok (established_output cc), c2) ∧
    complete s1 = false ∧ complete c1 = false ∧ complete s2 = true ∧ complete c2 = true.
Proof.
  intros Hc Hs Hnc Hns Hname.
  apply start_waiting_client in Hc as (Hc & -> & _). apply start_waiting_server in Hs as (Hs & _ & _).
  destruct (server_hello_step sc s0 (server_name cc) Hs Hnc) as (s1 & H1 & Hs1 & Hcookie).
  destruct (client_verify_step cc c0 Hc) as (c1 & H2 & Hc1).
  exists (hello_message (server_name cc)), verify_message, echo_message, (answer_message (server_name sc)), c1.
  do 2 eexists. eexists. split; [done|]. split; [exact H1|]. split; [exact H2|].
  split.
  { cbn [on_datagram openssl_provider]. rewrite (server_cookie_step sc s1 _ _ Hs1 echo_parse), kv_value_head, Hcookie.
    by rewrite decide_True. }
  split; [apply (client_answer_step cc c1); done|].
  split; [apply Hs1|]. split; [apply Hc1|]. done.
Qed.

(** C36. The server's cookie check, on both branches: a cookie message completes the handshake
    exactly when its cookie equals the issued one, but a missing cookie and a cookie never issued
    both count as the empty string, so a server that just started, and issued nothing, completes
    the handshake at a bare cookie message from anyone. *)
Theorem cookie_check_and_its_gap (sc : HandshakeConfig) (s s0 : OpenSslDtlsAdapter) outs (d : list byte) kv :
  start_server sc s = (Ok outs, s0) →
  (∀ s1, waiting Server sc s1 → parse_kv d = (lit "DTLS_CLIENT_HELLO_COOKIE", kv) →
     if decide (default [] (issued_cookie s1) = default [] (kv_value (lit "cookie=") kv))
     then complete (on_datagram d s1).2 = true
     else on_datagram d s1 = (Err (AuthFailed (lit "invalid or missing hello-verify cookie")), s1)) ∧
  issued_cookie s0 = None ∧
  let '(o, s1) := on_datagram (lit "DTLS_CLIENT_HELLO_COOKIE") s0 in
  o = Ok (accepted_output (answer_message (server_name sc))) ∧ complete s1 = true.
Proof.
  intros Hs. apply start_waiting_server in Hs as (Hs & Hnone & _). split.
  { intros s1 Hs1 Hd. cbn [on_datagram openssl_provider]. rewrite (server_cookie_step sc s1 d kv) by done.
    by case_decide. }
  split; [done|]. cbn [on_datagram openssl_provider].
  rewrite (server_cookie_step sc s0 _ None Hs) by by vm_compute. rewrite Hnone. by rewrite decide_True.
Qed.

End Exchange.

(** An OpenSSL that accepts every file and certificate, for the witnesses. *)
#[local] Instance permissive_openssl : Openssl := {|
  SslContextBuilder := unit; SslContext := unit; Ssl := unit; X509StoreBuilder := unit; X509 := unit;
  context_builder_new := λ _, inr ();
  set_verify := λ _ b, b;
  set_cipher_list := λ _ b, inr b;
  store_builder_new := inr ();
  stack_from_pem := λ _, inr [()];
  add_cert := λ _ s, inr s;
  set_cert_store := λ _ b, b;
  set_certificate_file := λ _ b, inr b;
  set_private_key_file := λ _ b, inr b;
  build := λ b, b;
  ssl_new := λ _, inr ();
|}.

(** A client of either adapter, and a configuration neither starts with. *)
Lemma establishment_needs_policy_witness :
  let answer := lit "DTLS_SERVER_HELLO|sni=api.example.com" in
  let rs := [StartClient (mkHandshakeConfig MutualTls default_cipher_policy default_trust None None);
             StartClient sample_handshake; Timeout 5; Datagram (lit "DTLS_SERVER_HELLO"); Datagram answer] in
  (is_established (serve_all rs new_backend).2 = true ∧
   ∃ cfg, config (serve_all rs new_backend).2 = Some cfg ∧ policy_ok cfg) ∧
  (o_established (serve_all rs new_openssl).2 = true ∧
   ∃ cfg, o_cfg (serve_all rs new_openssl).2 = Some cfg ∧ policy_ok cfg).
Proof.
  intros answer rs. destruct establishment_needs_policy as [Hb Ho].
  assert (Hd : is_established (serve_all rs new_backend).2 = true) by by vm_compute.
  assert (Hd' : o_established (serve_all rs new_openssl).2 = true) by by vm_compute.
  specialize (Hb rs (Timeout 9)). specialize (Ho rs (Timeout 9)).
  destruct (serve_all rs new_backend) as [osb pb]. destruct (serve_all rs new_openssl) as [oso po]. cbn [snd] in *.
  destruct Hb as (_ & Hb & _). destruct (Hb Hd) as (cfg & ? & ? & _).
  destruct Ho as (_ & Ho & _). destruct (Ho Hd') as (cfg' & ? & ? & _).
  split; (split; [done|]); [by exists cfg|by exists cfg'].
Defined.

Lemma exchange_completes_witness :
  is_ok (start_client sample_handshake new_openssl).1 = true ∧
  ∃ hello s1, on_datagram hello (start_server sample_handshake new_openssl).2 =
                (Ok (plain_output [verify_message] false), s1) ∧ complete s1 = false.
Proof.
  split; [by vm_compute|].
  assert (Hu : is_Some (utf8 (server_name sample_handshake))) by (vm_compute; by eexists).
  destruct (start_client sample_handshake new_openssl) as [oc c0] eqn:Hc.
  destruct (start_server sample_handshake new_openssl) as [os s0] eqn:Hs.
  assert (Hoc : ∃ out, oc = Ok out).
  { apply (f_equal fst) in Hc. vm_compute in Hc. rewrite <-Hc. by eexists. }
  assert (Hos : ∃ out, os = Ok out).
  { apply (f_equal fst) in Hs. vm_compute in Hs. rewrite <-Hs. by eexists. }
  destruct Hoc as [outc ->]. destruct Hos as [outs ->].
  destruct (exchange_completes sample_handshake sample_handshake new_openssl new_openssl c0 s0 outc outs
    Hc Hs Hu Hu (λ _, eq_refl)) as (hello & verify & echo & answer & c1 & c2 & s1 & s2 & Ho & H1 & H2 & _ & _ & He & _).
  assert (Hv : verify = verify_message).
  { pose proof (start_waiting_client _ _ _ _ Hc) as (_ & -> & _). injection Ho as <-.
    pose proof (start_waiting_server _ _ _ _ Hs) as (Hw & _ & _).
    destruct (server_hello_step _ _ _ Hw Hu) as (s1' & H1' & _).
    cbn [on_datagram openssl_provider] in H1. rewrite H1' in H1. by injection H1. }
  subst verify. by exists hello, s1.
Defined.

Lemma cookie_check_and_its_gap_witness :
  is_ok (start_server sample_handshake new_openssl).1 = true ∧
  complete (on_datagram (lit "DTLS_CLIENT_HELLO_COOKIE") (start_server sample_handshake new_openssl).2).2 = true.
Proof.
  split; [by vm_compute|].
  destruct (start_server sample_handshake new_openssl) as [os s0] eqn:Hs.
  assert (Hos : ∃ out, os = Ok out).
  { apply (f_equal fst) in Hs. vm_compute in Hs. rewrite <-Hs. by eexists. }
  destruct Hos as [outs ->].
  destruct (cookie_check_and_its_gap sample_handshake new_openssl s0 outs [] None Hs) as (_ & _ & H).
  cbn [snd]. destruct (on_datagram _ s0). apply H.
Defined.
