(* ===== verification/Store.v ===== *)
(** * Session storage ([v3-store/src/lib.rs], first part)

    Versioned records with an expiry, the store interface as a class, and the in-memory store of
    sharded hash maps. *)

From S2P Require Import Prelude.

Definition SESSION_SCHEMA_VERSION : Z := 1.
Definition DEFAULT_SHARD_COUNT : Z := 32.

Record SessionRecord : Type := mkSessionRecord {
  sr_cid : Z;
  peer_id : string;
  negotiated_msr_interval_ms : Z;
  disconnect_window_ms : Z;
  last_ordered_rx : Z;
  last_ordered_tx : Z;
}.

Record VersionedRecord : Type := mkVersionedRecord {
  vr_version : Z;
  vr_record : SessionRecord;
  vr_expires_at_ms : Z;
}.

Record Entry : Type := mkEntry { version : Z; record : SessionRecord; expires_at_ms : Z }.

Inductive StoreError : Type :=
| CasConflict (expected actual : option Z)
| InvalidShardCount
| Serialization (message : string)
| UnsupportedSchemaVersion (schema_version : Z)
| Backend (message : string)
| Io (message : string)
| CorruptLogEntry
| ChecksumMismatch.

(** The [SessionStore] trait. *)
Class SessionStore (S : Type) : Type := {
  load : Z → Z → ST S StoreError (option VersionedRecord);
  compare_and_swap : Z → option Z → SessionRecord → Z → Z → ST S StoreError VersionedRecord;
  upsert : Z → SessionRecord → Z → Z → ST S StoreError VersionedRecord;
  delete_session : Z → ST S StoreError ();
  scan_expired : Z → Z → ST S StoreError (list Z);
}.

(* ------------------------------------------------------------------ *)
(** ** The in-memory store *)
(* ------------------------------------------------------------------ *)

Record InMemorySessionStore : Type := mkInMemory { shards : list (gmap Z Entry) }.

#[global] Instance InMemorySessionStore_eta : Eta InMemorySessionStore := λ r, mkInMemory (shards r).

Definition new (shard_count : Z) : outcome StoreError InMemorySessionStore :=
  if shard_count =? 0 then Err InvalidShardCount
  else mret (mkInMemory (replicate (Z.to_nat shard_count) ∅)).

Definition with_default_shards : outcome StoreError InMemorySessionStore :=
  match new DEFAULT_SHARD_COUNT with
  | Ok s => Ok s
  | _ => Panic
  end.

(** [(cid as usize) % self.shards.len()]; a remainder by zero panics. *)
Definition shard_index (cid : Z) : ST InMemorySessionStore StoreError nat :=
  s ← st_get;
  if zlen (shards s) =? 0 then st_panic else mret (Z.to_nat (cid mod zlen (shards s))).

(** A call under the write lock of the shard of [cid]. *)
Definition with_shard {A} (cid : Z) (body : ST (gmap Z Entry) StoreError A)
    : ST InMemorySessionStore StoreError A :=
  i ← shard_index cid;
  s ← st_get;
  match shards s !! i with
  | None => st_panic
  | Some m =>
      let '(o, m') := body m in
      st_modify (λ s, s <| shards := <[i := m']> (shards s) |>) ;;
      st_lift o
  end.

(** The live entry of [cid]; an expired one is removed on the way. *)
Definition effective_entry (cid now_ms : Z) : ST (gmap Z Entry) StoreError (option Entry) :=
  m ← st_get;
  match m !! cid with
  | Some e =>
      if now_ms <? expires_at_ms e then mret (Some e)
      else st_modify (base.delete cid) ;; mret None
  | None => mret None
  end.

Definition to_versioned (e : Entry) : VersionedRecord :=
  mkVersionedRecord (version e) (record e) (expires_at_ms e).

Definition mem_load (cid now_ms : Z) : ST InMemorySessionStore StoreError (option VersionedRecord) :=
  with_shard cid
    (e ← effective_entry cid now_ms;
     mret (to_versioned <$> e)).

(** The entry a write puts in place of the live one. *)
Definition next_entry (current_version : option Z) (new_record : SessionRecord) (ttl_ms now_ms : Z)
    : Entry :=
  mkEntry (sat_add U64_MAX (default 0 current_version) 1) new_record (sat_add U64_MAX now_ms ttl_ms).

Definition mem_compare_and_swap (cid : Z) (expected_version : option Z) (new_record : SessionRecord)
    (ttl_ms now_ms : Z) : ST InMemorySessionStore StoreError VersionedRecord :=
  with_shard cid
    (current ← effective_entry cid now_ms;
     let current_version := version <$> current in
     st_reject (negb (bool_decide (current_version = expected_version)))
       (CasConflict expected_version current_version) ;;
     let entry := next_entry current_version new_record ttl_ms now_ms in
     st_modify <[cid := entry]> ;;
     mret (to_versioned entry)).

Definition mem_upsert (cid : Z) (new_record : SessionRecord) (ttl_ms now_ms : Z)
    : ST InMemorySessionStore StoreError VersionedRecord :=
  with_shard cid
    (current ← effective_entry cid now_ms;
     let entry := next_entry (version <$> current) new_record ttl_ms now_ms in
     st_modify <[cid := entry]> ;;
     mret (to_versioned entry)).

Definition mem_delete (cid : Z) : ST InMemorySessionStore StoreError () :=
  with_shard cid (st_modify (base.delete cid)).

Section HashMaps.
(** The order in which a [HashMap] is iterated. *)
Context (iter : gmap Z Entry → list (Z * Entry)).

(** The loop that collects expired keys of one shard, [removed] many being removed before. *)
Fixpoint expired_keys (now_ms limit removed : Z) (found : list Z) (l : list (Z * Entry)) : list Z :=
  match l with
  | [] => found
  | (cid, e) :: l' =>
      if expires_at_ms e <=? now_ms then
        let found := found ++ [cid] in
        if limit <=? removed + zlen found then found
        else expired_keys now_ms limit removed found l'
      else expired_keys now_ms limit removed found l'
  end.

(** The loop that removes them. *)
Fixpoint remove_keys (limit : Z) (removed keys : list Z) (m : gmap Z Entry) : list Z * gmap Z Entry :=
  match keys with
  | [] => (removed, m)
  | cid :: keys' =>
      let m := base.delete cid m in
      let removed := removed ++ [cid] in
      if limit <=? zlen removed then (removed, m) else remove_keys limit removed keys' m
  end.

(** The loop over the shards. *)
Fixpoint scan_shards (now_ms limit : Z) (removed : list Z) (ss : list (gmap Z Entry))
    : list Z * list (gmap Z Entry) :=
  match ss with
  | [] => (removed, [])
  | m :: ss' =>
      if limit <=? zlen removed then (removed, ss)
      else
        let keys := expired_keys now_ms limit (zlen removed) [] (iter m) in
        let '(removed, m') := remove_keys limit removed keys m in
        let '(removed, ss'') := scan_shards now_ms limit removed ss' in
        (removed, m' :: ss'')
  end.

Definition mem_scan_expired (now_ms limit : Z) : ST InMemorySessionStore StoreError (list Z) :=
  if limit =? 0 then mret []
  else
    s ← st_get;
    let '(removed, ss) := scan_shards now_ms limit [] (shards s) in
    st_modify (λ s, s <| shards := ss |>) ;;
    mret removed.

#[global] Instance in_memory_store : SessionStore InMemorySessionStore := {|
  load := mem_load;
  compare_and_swap := mem_compare_and_swap;
  upsert := mem_upsert;
  delete_session := mem_delete;
  scan_expired := mem_scan_expired;
|}.

End HashMaps.

(* ------------------------------------------------------------------ *)
(** ** Record codec *)
(* ------------------------------------------------------------------ *)

Record StoredSession : Type := mkStoredSession { schema_version : Z; stored_record : SessionRecord }.

(** The [serde_json] calls on a stored session, an error being what its [Display] prints, with the
    round trip the crate documents. *)
Class Json : Type := {
  to_vec : StoredSession → outcome string (list Byte.byte);
  from_slice : list Byte.byte → outcome string StoredSession;
  to_vec_from_slice s bytes : to_vec s = Ok bytes → from_slice bytes = Ok s;
}.

Section Codec.
Context `{!Json}.

Definition encode_session_record (record : SessionRecord) : outcome StoreError (list Byte.byte) :=
  map_err Serialization (to_vec (mkStoredSession SESSION_SCHEMA_VERSION record)).

Definition decode_session_record (bytes : list Byte.byte) : outcome StoreError SessionRecord :=
  payload ← map_err Serialization (from_slice bytes);
  reject (negb (schema_version payload =? SESSION_SCHEMA_VERSION))
    (UnsupportedSchemaVersion (schema_version payload)) ;;
  mret (stored_record payload).

End Codec.
