(* ===== verification/StoreSpec.v ===== *)
(** * The contract of a session store

    What every [SessionStore] promises, in terms of the entries a caller can see, and what
    follows for its callers. *)

From S2P Require Import Prelude Store.

(** The entries of a store, expired ones included. *)
Abbreviation entries := (Z → option Entry).

(** The entry of [cid] a caller can see at a time. *)
Definition visible (m : entries) (now cid : Z) : option Entry :=
  e ← m cid;
  if now <? expires_at_ms e then Some e else None.

(** Two states no caller can tell apart from [now] on: they may differ in expired entries. *)
Definition same_from (now : Z) (m m' : entries) : Prop :=
  ∀ cid later, now ≤ later → visible m later cid = visible m' later cid.

Definition set_entry (cid : Z) (o : option Entry) (m : entries) : entries :=
  λ c, if decide (c = cid) then o else m c.

#[global] Instance same_from_equiv now : Equivalence (same_from now).
Proof.
  split; [by intros m c t|by intros m m' H c t Ht; rewrite H|].
  intros m1 m2 m3 H1 H2 c t Ht. by rewrite H1, H2.
Qed.

#[global] Instance visible_proper now : Proper (same_from now ==> (=) ==> (=)) (λ m, visible m now).
Proof. intros m m' H c ? <-. by apply H. Qed.

#[global] Instance set_entry_proper now cid o :
  Proper (same_from now ==> same_from now) (set_entry cid o).
Proof. intros m m' H c t Ht. unfold visible, set_entry. case_decide; [done|]. by apply H. Qed.

Lemma same_from_later now later m m' : now ≤ later → same_from now m m' → same_from later m m'.
Proof. intros Hl H c t Ht. apply H. lia. Qed.

(** The contract: every operation returns (no panic), and its result and effect are those of a
    map from connections to entries in which expired entries count as absent. *)
Class LawfulStore (S : Type) `{!SessionStore S} : Type := {
  store_ok : S → Prop;
  entry_of : S → entries;
  load_law s cid now :
    store_ok s → ∃ s',
      load cid now s = (Ok (to_versioned <$> visible (entry_of s) now cid), s') ∧ store_ok s' ∧
      same_from now (entry_of s) (entry_of s');
  cas_law s cid expected r ttl now :
    store_ok s → ∃ s',
      let current := version <$> visible (entry_of s) now cid in
      let e := next_entry current r ttl now in
      compare_and_swap cid expected r ttl now s =
        (if decide (current = expected) then Ok (to_versioned e) else Err (CasConflict expected current), s') ∧
      store_ok s' ∧
      same_from now (if decide (current = expected) then set_entry cid (Some e) (entry_of s) else entry_of s)
        (entry_of s');
  upsert_law s cid r ttl now :
    store_ok s → ∃ s',
      let e := next_entry (version <$> visible (entry_of s) now cid) r ttl now in
      upsert cid r ttl now s = (Ok (to_versioned e), s') ∧ store_ok s' ∧
      same_from now (set_entry cid (Some e) (entry_of s)) (entry_of s');
  delete_law s cid :
    store_ok s → ∃ s',
      delete_session cid s = (Ok (), s') ∧ store_ok s' ∧
      ∀ now, same_from now (set_entry cid None (entry_of s)) (entry_of s');
  scan_law s now limit :
    store_ok s → 0 ≤ limit → ∃ s' removed,
      scan_expired now limit s = (Ok removed, s') ∧ store_ok s' ∧
      zlen removed ≤ limit ∧ NoDup removed ∧
      (∀ cid, cid ∈ removed → ∃ e, entry_of s cid = Some e ∧ expires_at_ms e ≤ now) ∧
      (∀ cid, entry_of s' cid = if decide (cid ∈ removed) then None else entry_of s cid) ∧
      (zlen removed < limit → ∀ cid e, entry_of s' cid = Some e → now < expires_at_ms e);
}.

(* ------------------------------------------------------------------ *)
(** ** Runs of a store against the abstract map *)
(* ------------------------------------------------------------------ *)

Inductive store_request : Type :=
| Load (cid now_ms : Z)
| CompareAndSwap (cid : Z) (expected : option Z) (r : SessionRecord) (ttl_ms now_ms : Z)
| Upsert (cid : Z) (r : SessionRecord) (ttl_ms now_ms : Z)
| Delete (cid : Z)
| ScanExpired (now_ms limit : Z).

Inductive store_response : Type :=
| Loaded (r : option VersionedRecord)
| Written (r : VersionedRecord)
| Deleted
| Removed (cids : list Z).

Section Runs.
Context {S : Type} `{!SessionStore S}.

Definition respond {A} (f : A → store_response) (m : ST S StoreError A) : ST S StoreError store_response :=
  a ← m; mret (f a).

Definition serve (q : store_request) : ST S StoreError store_response :=
  match q with
  | Load cid now => respond Loaded (load cid now)
  | CompareAndSwap cid expected r ttl now => respond Written (compare_and_swap cid expected r ttl now)
  | Upsert cid r ttl now => respond Written (upsert cid r ttl now)
  | Delete cid => respond (λ _, Deleted) (delete_session cid)
  | ScanExpired now limit => respond Removed (scan_expired now limit)
  end.

Fixpoint serve_all (qs : list store_request) (s : S) : list (outcome StoreError store_response) * S :=
  match qs with
  | [] => ([], s)
  | q :: qs' =>
      let '(o, s1) := serve q s in
      let '(os, s2) := serve_all qs' s1 in
      (o :: os, s2)
  end.

End Runs.

(** The abstract store: a map that only writes and deletes change. *)
Definition spec_state (q : store_request) (m : entries) : entries :=
  match q with
  | Load _ _ | ScanExpired _ _ => m
  | CompareAndSwap cid expected r ttl now =>
      let current := version <$> visible m now cid in
      if decide (current = expected) then set_entry cid (Some (next_entry current r ttl now)) m else m
  | Upsert cid r ttl now =>
      set_entry cid (Some (next_entry (version <$> visible m now cid) r ttl now)) m
  | Delete cid => set_entry cid None m
  end.

(** The answers it allows: one each, except that a scan may report any connections without a
    live entry, each once and at most [limit] of them. *)
Definition spec_answer (q : store_request) (m : entries) (o : outcome StoreError store_response) : Prop :=
  match q with
  | Load cid now => o = Ok (Loaded (to_versioned <$> visible m now cid))
  | CompareAndSwap cid expected r ttl now =>
      let current := version <$> visible m now cid in
      o = if decide (current = expected) then Ok (Written (to_versioned (next_entry current r ttl now)))
          else Err (CasConflict expected current)
  | Upsert cid r ttl now =>
      o = Ok (Written (to_versioned (next_entry (version <$> visible m now cid) r ttl now)))
  | Delete _ => o = Ok Deleted
  | ScanExpired now limit =>
      ∃ removed, o = Ok (Removed removed) ∧ zlen removed ≤ limit ∧ NoDup removed ∧
                 ∀ cid, cid ∈ removed → visible m now cid = None
  end.

Fixpoint spec_run (qs : list store_request) (m : entries) (os : list (outcome StoreError store_response)) : Prop :=
  match qs, os with
  | [], [] => True
  | q :: qs', o :: os' => spec_answer q m o ∧ spec_run qs' (spec_state q m) os'
  | _, _ => False
  end.

(** The clock of the requests does not run backwards, and limits are unsigned. *)
Fixpoint clocked (now : Z) (qs : list store_request) : Prop :=
  match qs with
  | [] => True
  | (Load _ t | CompareAndSwap _ _ _ _ t | Upsert _ _ _ t) :: qs' => now ≤ t ∧ clocked t qs'
  | Delete _ :: qs' => clocked now qs'
  | ScanExpired t limit :: qs' => now ≤ t ∧ 0 ≤ limit ∧ clocked t qs'
  end.
