(* ===== verification/StoreProps.v ===== *)
(** * Correctness of session storage

    The in-memory store keeps the contract of a session store, for every number of shards and
    every iteration order, and callers of any store that does never lose an update. *)

From S2P Require Import Prelude Store StoreSpec.

(** Taking expired entries out changes nothing a caller can see. *)
Lemma same_from_drop now cid m :
  visible m now cid = None → same_from now m (set_entry cid None m).
Proof.
  intros Hv c t Ht. unfold visible, set_entry in *. case_decide as Hc; [subst c|done].
  destruct (m cid) as [e|]; [|done]. cbn in *. destruct (now <? _) eqn:He; [done|]. zprop. by zdec.
Qed.

Lemma set_entry_twice cid o o' m c : set_entry cid o (set_entry cid o' m) c = set_entry cid o m c.
Proof. unfold set_entry. by case_decide. Qed.

Lemma visible_set now cid e m :
  visible (set_entry cid (Some e) m) now cid = if now <? expires_at_ms e then Some e else None.
Proof. unfold visible, set_entry. by rewrite decide_True. Qed.

(* ------------------------------------------------------------------ *)
(** ** One shard *)
(* ------------------------------------------------------------------ *)

(** The map of one shard after [effective_entry]. *)
Definition drop_expired (cid now : Z) (m : gmap Z Entry) : gmap Z Entry :=
  match m !! cid with
  | Some e => if now <? expires_at_ms e then m else base.delete cid m
  | None => m
  end.

Lemma effective_entry_spec cid now m :
  effective_entry cid now m = (Ok (visible (λ c, m !! c) now cid), drop_expired cid now m).
Proof.
  unfold effective_entry, drop_expired, visible, st_get, st_modify, mbind, ST_bind, mret, ST_ret.
  destruct (m !! cid) as [e|] eqn:He; [|done]. cbn. by destruct (now <? expires_at_ms e).
Qed.

Lemma drop_expired_other cid now m c : c ≠ cid → drop_expired cid now m !! c = m !! c.
Proof.
  intros Hc. unfold drop_expired. repeat case_match; try done. by rewrite lookup_delete_ne.
Qed.

Lemma drop_expired_same cid now m :
  drop_expired cid now m !! cid = visible (λ c, m !! c) now cid.
Proof.
  unfold drop_expired, visible. destruct (m !! cid) as [e|] eqn:He; [|done]. cbn.
  destruct (now <? expires_at_ms e); [done|]. apply lookup_delete_eq.
Qed.

(* ------------------------------------------------------------------ *)
(** ** The sharded maps *)
(* ------------------------------------------------------------------ *)

(** The shard of a connection. *)
Definition home (s : InMemorySessionStore) (cid : Z) : nat := Z.to_nat (cid mod zlen (shards s)).

Definition mem_entries (s : InMemorySessionStore) : entries := λ cid, m ← shards s !! home s cid; m !! cid.

(** Entries live in their connection's shard. *)
Definition mem_ok (s : InMemorySessionStore) : Prop :=
  shards s ≠ [] ∧ ∀ i m cid, shards s !! i = Some m → is_Some (m !! cid) → i = home s cid.

Lemma home_lookup s cid : shards s ≠ [] → ∃ m, shards s !! home s cid = Some m.
Proof.
  intros Hne. apply lookup_lt_is_Some. unfold home.
  assert (0 < zlen (shards s)) by (destruct (shards s); [done|zlen_norm; pose proof (zlen_nonneg l); lia]).
  pose proof (Z.mod_pos_bound cid (zlen (shards s))). unfold zlen in *. lia.
Qed.

(** A call under a shard's lock. *)
Lemma with_shard_spec {A} cid (body : ST (gmap Z Entry) StoreError A) s m :
  mem_ok s → shards s !! home s cid = Some m →
  with_shard cid body s = ((body m).1, mkInMemory (<[home s cid := (body m).2]> (shards s))).
Proof.
  intros [Hne _] Hm.
  unfold with_shard, shard_index, st_get, st_modify, st_lift, st_panic, mbind, ST_bind, mret, ST_ret.
  assert (Hz : zlen (shards s) =? 0 = false).
  { apply Z.eqb_neq. destruct (shards s); [done|]. zlen_norm. pose proof (zlen_nonneg l). lia. }
  rewrite Hz. fold (home s cid). rewrite Hm. by destruct (body m).
Qed.

(** Replacing a shard by a map that differs at its connection only. *)
Lemma mem_update s cid m m' :
  mem_ok s → shards s !! home s cid = Some m → (∀ c, c ≠ cid → m' !! c = m !! c) →
  let s' := mkInMemory (<[home s cid := m']> (shards s)) in
  mem_ok s' ∧ ∀ c, mem_entries s' c = set_entry cid (m' !! cid) (mem_entries s) c.
Proof.
  intros [Hne Hok] Hm Hother s'. assert (Hlen : zlen (shards s') = zlen (shards s)).
  { unfold s', zlen. cbn. by rewrite length_insert. }
  assert (Hhome : ∀ c, home s' c = home s c) by (intros c; unfold home; by rewrite Hlen).
  assert (Hlt : (home s cid < length (shards s))%nat) by by eapply lookup_lt_Some.
  split.
  - split; [unfold s'; cbn; intros H0; apply (f_equal length) in H0; rewrite length_insert in H0; cbn in H0; lia|].
    intros i mi c Hi Hc. rewrite Hhome. unfold s' in Hi. cbn in Hi.
    destruct (decide (i = home s cid)) as [->|Hne'].
    + rewrite list_lookup_insert_eq in Hi by done. injection Hi as <-.
      destruct (decide (c = cid)) as [->|Hcc]; [done|]. rewrite Hother in Hc by done. by eapply Hok.
    + rewrite list_lookup_insert_ne in Hi by done. by eapply Hok.
  - intros c. unfold mem_entries, set_entry. rewrite Hhome. unfold s'. cbn. case_decide as Hc.
    + subst c. by rewrite list_lookup_insert_eq.
    + destruct (decide (home s c = home s cid)) as [Heq|Hneq].
      * rewrite Heq, list_lookup_insert_eq by done. rewrite Hm. cbn. by apply Hother.
      * by rewrite list_lookup_insert_ne.
Qed.

Lemma mem_visible s cid now m :
  shards s !! home s cid = Some m → visible (λ c, m !! c) now cid = visible (mem_entries s) now cid.
Proof. intros Hm. unfold visible, mem_entries. by rewrite Hm. Qed.

(** A call that ends with [o] in the entry of [cid]: it changes nothing else. *)
Lemma mem_call {A} cid (body : ST (gmap Z Entry) StoreError A) s r o :
  mem_ok s →
  (∀ m, shards s !! home s cid = Some m →
     (body m).1 = r ∧ (body m).2 !! cid = o ∧ ∀ c, c ≠ cid → (body m).2 !! c = m !! c) →
  ∃ s', with_shard cid body s = (r, s') ∧ mem_ok s' ∧ length (shards s') = length (shards s) ∧
        ∀ c, mem_entries s' c = set_entry cid o (mem_entries s) c.
Proof.
  intros Hs Hbody. destruct (home_lookup s cid) as [m Hm]; [apply Hs|].
  destruct (Hbody m Hm) as (Hr & Ho & Hother).
  destruct (mem_update s cid m (body m).2 Hs Hm Hother) as [Hok He].
  eexists. split; [rewrite (with_shard_spec cid body s m) by done; by rewrite Hr|]. split; [done|].
  split; [apply length_insert|]. intros c. by rewrite He, Ho.
Qed.

Lemma same_from_eq now (m m' : entries) : (∀ c, m' c = m c) → same_from now m m'.
Proof. intros H c t _. unfold visible. by rewrite H. Qed.

Lemma same_from_visible now cid m : same_from now (set_entry cid (visible m now cid) m) m.
Proof.
  intros c t Ht. unfold visible, set_entry. case_decide as Hc; [subst c|done].
  destruct (m cid) as [e|]; [|done]. cbn. destruct (now <? expires_at_ms e) eqn:He; [done|].
  zprop. cbn. by zdec.
Qed.

Ltac in_shard Hm :=
  unfold st_reject, st_modify, st_throw, mbind, ST_bind, mret, ST_ret;
  rewrite effective_entry_spec, (mem_visible _ _ _ _ Hm).

(** The entry a request on [cid] leaves there. *)
Definition entry_after (q : store_request) (m : entries) : option Entry :=
  match q with
  | Load cid now => visible m now cid
  | CompareAndSwap cid expected r ttl now =>
      let current := version <$> visible m now cid in
      if decide (current = expected) then Some (next_entry current r ttl now) else visible m now cid
  | Upsert cid r ttl now => Some (next_entry (version <$> visible m now cid) r ttl now)
  | Delete _ | ScanExpired _ _ => None
  end.

(** What a call on one connection does to the sharded maps. *)
Definition mem_effect (cid : Z) (q : store_request) (s s' : InMemorySessionStore) : Prop :=
  mem_ok s' ∧ length (shards s') = length (shards s) ∧
  ∀ c, mem_entries s' c = set_entry cid (entry_after q (mem_entries s)) (mem_entries s) c.

Lemma mem_load_effect s cid now :
  mem_ok s → ∃ s', mem_load cid now s = (Ok (to_versioned <$> visible (mem_entries s) now cid), s') ∧
    mem_effect cid (Load cid now) s s'.
Proof.
  intros Hs. eapply mem_call; [done|]. intros m Hm. in_shard Hm. cbn [fst snd]. split; [done|].
  rewrite drop_expired_same, (mem_visible s) by done. split; [done|]. intros c Hc. by apply drop_expired_other.
Qed.

Lemma mem_cas_effect s cid expected r ttl now :
  mem_ok s → ∃ s',
    let current := version <$> visible (mem_entries s) now cid in
    mem_compare_and_swap cid expected r ttl now s =
      (if decide (current = expected) then Ok (to_versioned (next_entry current r ttl now))
       else Err (CasConflict expected current), s') ∧
    mem_effect cid (CompareAndSwap cid expected r ttl now) s s'.
Proof.
  intros Hs. eapply mem_call; [done|]. intros m Hm. in_shard Hm. cbn [entry_after]. cbv zeta.
  case_bool_decide; case_decide; try done; cbn [negb fst snd].
  - split; [done|]. split; [by rewrite lookup_insert_eq|]. intros c Hc.
    rewrite lookup_insert_ne by done. by apply drop_expired_other.
  - split; [done|]. rewrite drop_expired_same, (mem_visible s) by done. split; [done|].
    intros c Hc. by apply drop_expired_other.
Qed.

Lemma mem_upsert_effect s cid r ttl now :
  mem_ok s → ∃ s',
    mem_upsert cid r ttl now s =
      (Ok (to_versioned (next_entry (version <$> visible (mem_entries s) now cid) r ttl now)), s') ∧
    mem_effect cid (Upsert cid r ttl now) s s'.
Proof.
  intros Hs. eapply mem_call; [done|]. intros m Hm. in_shard Hm. cbn [fst snd]. split; [done|].
  split; [by rewrite lookup_insert_eq|]. intros c Hc. rewrite lookup_insert_ne by done. by apply drop_expired_other.
Qed.

Lemma mem_delete_effect s cid :
  mem_ok s → ∃ s', mem_delete cid s = (Ok (), s') ∧ mem_effect cid (Delete cid) s s'.
Proof.
  intros Hs. eapply mem_call; [done|]. intros m Hm. split; [done|].
  split; [by apply lookup_delete_eq|]. intros c Hc. by apply lookup_delete_ne.
Qed.

(** The laws of the contract forget what is below the horizon of a caller. *)
Lemma mem_load_law s cid now :
  mem_ok s → ∃ s', mem_load cid now s = (Ok (to_versioned <$> visible (mem_entries s) now cid), s') ∧
    mem_ok s' ∧ same_from now (mem_entries s) (mem_entries s').
Proof.
  intros Hs. destruct (mem_load_effect s cid now Hs) as (s' & H & Hok & _ & He). exists s'.
  split; [done|]. split; [done|]. apply same_from_eq with (now := now) in He. cbn [entry_after] in He. by rewrite <-He, same_from_visible.
Qed.

Lemma mem_cas_law s cid expected r ttl now :
  mem_ok s → ∃ s',
    let current := version <$> visible (mem_entries s) now cid in
    let e := next_entry current r ttl now in
    mem_compare_and_swap cid expected r ttl now s =
      (if decide (current = expected) then Ok (to_versioned e) else Err (CasConflict expected current), s') ∧
    mem_ok s' ∧
    same_from now (if decide (current = expected) then set_entry cid (Some e) (mem_entries s) else mem_entries s)
      (mem_entries s').
Proof.
  intros Hs. destruct (mem_cas_effect s cid expected r ttl now Hs) as (s' & H & Hok & _ & He). exists s'.
  cbv zeta. split; [done|]. split; [done|]. apply same_from_eq with (now := now) in He. cbn [entry_after] in He. cbv zeta in He. rewrite <-He.
  case_decide; [done|]. by rewrite same_from_visible.
Qed.

Lemma mem_upsert_law s cid r ttl now :
  mem_ok s → ∃ s',
    let e := next_entry (version <$> visible (mem_entries s) now cid) r ttl now in
    mem_upsert cid r ttl now s = (Ok (to_versioned e), s') ∧ mem_ok s' ∧
    same_from now (set_entry cid (Some e) (mem_entries s)) (mem_entries s').
Proof.
  intros Hs. destruct (mem_upsert_effect s cid r ttl now Hs) as (s' & H & Hok & _ & He). exists s'.
  split; [done|]. split; [done|]. by apply same_from_eq.
Qed.

Lemma mem_delete_law s cid :
  mem_ok s → ∃ s', mem_delete cid s = (Ok (), s') ∧ mem_ok s' ∧
    ∀ now, same_from now (set_entry cid None (mem_entries s)) (mem_entries s').
Proof.
  intros Hs. destruct (mem_delete_effect s cid Hs) as (s' & H & Hok & _ & He). exists s'.
  split; [done|]. split; [done|]. intros now. by apply same_from_eq.
Qed.

(* ------------------------------------------------------------------ *)
(** ** The scan for expired entries *)
(* ------------------------------------------------------------------ *)

Definition expired (now : Z) (p : Z * Entry) : Prop := expires_at_ms p.2 ≤ now.

#[global] Instance expired_dec now p : Decision (expired now p).
Proof. unfold expired. apply _. Defined.

(** The keys collected are the first expired ones of the iteration, as many as the limit allows. *)
Lemma expired_keys_spec now limit removed found l :
  removed + zlen found < limit →
  ∃ ks, expired_keys now limit removed found l = found ++ ks ∧ removed + zlen (found ++ ks) ≤ limit ∧
    ks `sublist_of` (filter (expired now) l).*1 ∧
    (removed + zlen (found ++ ks) < limit → ks = (filter (expired now) l).*1).
Proof.
  revert found. induction l as [|[cid e] l IH]; intros found Hlt; cbn [expired_keys].
  { exists []. rewrite app_nil_r. split_and!; [done|lia|done|done]. }
  destruct (expires_at_ms e <=? now) eqn:He; zprop.
  - rewrite filter_cons_True by done. cbn [fmap list_fmap fst].
    destruct (limit <=? _) eqn:Hl; zprop.
    + exists [cid]. split_and!; [done|zlen_norm; lia|apply sublist_skip, sublist_nil_l|lia].
    + destruct (IH (found ++ [cid])) as (ks & -> & Hle & Hsub & Hall); [done|].
      exists (cid :: ks). rewrite <-app_assoc in *. cbn [app] in *.
      split_and!; [done|done|by apply sublist_skip|]. intros H. by rewrite Hall.
  - rewrite filter_cons_False by (unfold expired; cbn; lia). by apply IH.
Qed.

Lemma remove_keys_all limit removed keys m :
  zlen removed + zlen keys ≤ limit →
  remove_keys limit removed keys m = (removed ++ keys, foldl (λ m c, base.delete c m) m keys).
Proof.
  revert removed m. induction keys as [|c keys IH]; intros removed m Hle; cbn [remove_keys foldl].
  { by rewrite app_nil_r. }
  zlen_norm. destruct (limit <=? _) eqn:Hl; zprop.
  - destruct keys; [done|]. zlen_norm. pose proof (zlen_nonneg keys). lia.
  - rewrite IH by (zlen_norm; lia). by rewrite <-app_assoc.
Qed.

Lemma delete_all_lookup keys (m : gmap Z Entry) c :
  foldl (λ m c, base.delete c m) m keys !! c = if decide (c ∈ keys) then None else m !! c.
Proof.
  revert m. induction keys as [|k keys IH]; intros m; [done|]. cbn [foldl]. rewrite IH.
  destruct (decide (c ∈ keys)); [by rewrite decide_True by set_solver|].
  destruct (decide (c = k)) as [->|].
  - rewrite decide_True by set_solver. apply lookup_delete_eq.
  - rewrite decide_False by set_solver. by rewrite lookup_delete_ne.
Qed.

Section Scan.
Context (iter : gmap Z Entry → list (Z * Entry)).
(** A hash map is iterated in some order, every entry once. *)
Context (iter_perm : ∀ m, iter m ≡ₚ map_to_list m).

Lemma iter_expired now (m : gmap Z Entry) c :
  c ∈ (filter (expired now) (iter m)).*1 ↔ ∃ e, m !! c = Some e ∧ expires_at_ms e ≤ now.
Proof.
  rewrite list_elem_of_fmap. setoid_rewrite list_elem_of_filter. setoid_rewrite iter_perm. split.
  - intros ([c' e] & -> & He & Hin). apply elem_of_map_to_list in Hin. by exists e.
  - intros (e & Hm & He). exists (c, e). by rewrite elem_of_map_to_list.
Qed.

Lemma iter_nodup now m : NoDup (filter (expired now) (iter m)).*1.
Proof.
  eapply sublist_NoDup; [|apply fmap_sublist; apply sublist_filter].
  rewrite iter_perm. apply NoDup_fst_map_to_list.
Qed.

(** The keys one shard gives up. *)
Lemma shard_keys now limit (removed : list Z) m :
  zlen removed < limit →
  ∃ ks, expired_keys now limit (zlen removed) [] (iter m) = ks ∧ zlen removed + zlen ks ≤ limit ∧ NoDup ks ∧
    (∀ c, c ∈ ks → ∃ e, m !! c = Some e ∧ expires_at_ms e ≤ now) ∧
    (zlen removed + zlen ks < limit → ∀ c e, m !! c = Some e → expires_at_ms e ≤ now → c ∈ ks).
Proof.
  intros Hlt. destruct (expired_keys_spec now limit (zlen removed) [] (iter m)) as (ks & -> & Hle & Hsub & Hall);
    [change (zlen []) with 0; lia|]. cbn [app] in *. exists ks.
  split_and!; [done|done|eapply sublist_NoDup; [apply iter_nodup|done]| |].
  - intros c Hc. apply iter_expired. by eapply elem_of_sublist.
  - intros Hk c e Hm He. rewrite Hall by done. apply iter_expired. by exists e.
Qed.

(** No connection has entries in two shards. *)
Definition disjoint_shards (ss : list (gmap Z Entry)) : Prop :=
  ∀ i j m m' c, ss !! i = Some m → ss !! j = Some m' → is_Some (m !! c) → is_Some (m' !! c) → i = j.

Lemma disjoint_tail m ss : disjoint_shards (m :: ss) → disjoint_shards ss.
Proof. intros H i j mi mj c Hi Hj Hc Hc'. specialize (H (S i) (S j) mi mj c Hi Hj Hc Hc'). lia. Qed.

Lemma scan_shards_spec now limit removed ss :
  zlen removed ≤ limit → disjoint_shards ss →
  ∃ ks ss', scan_shards iter now limit removed ss = (removed ++ ks, ss') ∧
    zlen removed + zlen ks ≤ limit ∧ NoDup ks ∧ length ss' = length ss ∧
    (∀ j m, ss !! j = Some m → ∃ m', ss' !! j = Some m' ∧ ∀ c, m' !! c = if decide (c ∈ ks) then None else m !! c) ∧
    (∀ c, c ∈ ks → ∃ j m e, ss !! j = Some m ∧ m !! c = Some e ∧ expires_at_ms e ≤ now) ∧
    (zlen removed + zlen ks < limit → ∀ j m c e, ss !! j = Some m → m !! c = Some e → expires_at_ms e ≤ now → c ∈ ks).
Proof.
  revert removed. induction ss as [|m ss IH]; intros removed Hle Hdis; cbn [scan_shards].
  { exists [], []. rewrite app_nil_r. split_and!; try done; [zlen_norm; change (zlen []) with 0; lia|apply NoDup_nil_2|set_solver]. }
  destruct (limit <=? zlen removed) eqn:Hl; zprop.
  { exists [], (m :: ss). rewrite app_nil_r. change (zlen []) with 0.
    split_and!; try done; [lia|apply NoDup_nil_2| |set_solver|lia].
    intros j mj Hj. exists mj. split; [done|]. intros c. by rewrite decide_False by set_solver. }
  destruct (shard_keys now limit removed m) as (ks & -> & Hk & Hnd & Hin & Hall); [done|].
  rewrite remove_keys_all by lia.
  destruct (IH (removed ++ ks)) as (ks' & ss' & -> & Hk' & Hnd' & Hlen & Hmaps & Hin' & Hall');
    [zlen_norm; lia|by eapply disjoint_tail|].
  exists (ks ++ ks'). eexists. split; [by rewrite <-app_assoc|]. zlen_norm.
  assert (Hother : ∀ c, c ∈ ks → c ∉ ks').
  { intros c Hc Hc'. destruct (Hin c Hc) as (e & He & _). destruct (Hin' c Hc') as (j & mj & e' & Hj & He' & _).
    specialize (Hdis 0%nat (S j) m mj c eq_refl Hj ltac:(by eexists) ltac:(by eexists)). lia. }
  split_and!; [lia|apply NoDup_app; by split_and!|cbn; by rewrite Hlen| | |].
  - intros [|j] mj Hj; cbn in Hj |- *.
    + injection Hj as <-. eexists. split; [done|]. intros c. rewrite delete_all_lookup.
      destruct (decide (c ∈ ks)); [by rewrite decide_True by set_solver|].
      destruct (decide (c ∈ ks')) as [Hc'|]; [|by rewrite decide_False by set_solver].
      rewrite decide_True by set_solver. destruct (m !! c) as [e|] eqn:He; [|done].
      destruct (Hin' c Hc') as (j & mj & e' & Hj & He' & _).
      specialize (Hdis 0%nat (S j) m mj c eq_refl Hj ltac:(by eexists) ltac:(by eexists)). lia.
    + destruct (Hmaps j mj Hj) as (m' & Hm' & Heq). exists m'. split; [done|]. intros c. rewrite Heq.
      destruct (decide (c ∈ ks')); [by rewrite decide_True by set_solver|].
      destruct (decide (c ∈ ks)) as [Hc|]; [|by rewrite decide_False by set_solver].
      rewrite decide_True by set_solver. destruct (mj !! c) as [e|] eqn:He; [|done].
      destruct (Hin c Hc) as (e' & He' & _).
      specialize (Hdis 0%nat (S j) m mj c eq_refl Hj ltac:(by eexists) ltac:(by eexists)). lia.
  - intros c [Hc|Hc]%elem_of_app.
    + destruct (Hin c Hc) as (e & ? & ?). by exists 0%nat, m, e.
    + destruct (Hin' c Hc) as (j & mj & e & ? & ? & ?). by exists (S j), mj, e.
  - intros Hlt [|j] mj c e Hj He Hexp; cbn in Hj; apply elem_of_app.
    + injection Hj as <-. left. eapply Hall; [pose proof (zlen_nonneg ks'); lia|done..].
    + right. eapply Hall'; [zlen_norm; lia|done..].
Qed.

Lemma mem_scan_law s now limit :
  mem_ok s → 0 ≤ limit → ∃ s' removed,
    mem_scan_expired iter now limit s = (Ok removed, s') ∧ mem_ok s' ∧ zlen removed ≤ limit ∧ NoDup removed ∧
    (∀ cid, cid ∈ removed → ∃ e, mem_entries s cid = Some e ∧ expires_at_ms e ≤ now) ∧
    (∀ cid, mem_entries s' cid = if decide (cid ∈ removed) then None else mem_entries s cid) ∧
    (zlen removed < limit → ∀ cid e, mem_entries s' cid = Some e → now < expires_at_ms e).
Proof.
  intros [Hne Hok] Hlim. unfold mem_scan_expired, st_get, st_modify, mbind, ST_bind, mret, ST_ret.
  destruct (limit =? 0) eqn:Hl; zprop.
  { exists s, []. change (zlen []) with 0. split; [done|]. split; [done|]. split; [lia|].
    split; [apply NoDup_nil_2|]. split; [set_solver|]. split; [|lia].
    intros c. by rewrite decide_False by set_solver. }
  assert (Hdis : disjoint_shards (shards s)).
  { intros i j m m' c Hi Hj Hc Hc'. rewrite (Hok i m c Hi Hc). by rewrite (Hok j m' c Hj Hc'). }
  destruct (scan_shards_spec now limit [] (shards s)) as (ks & ss' & -> & Hk & Hnd & Hlen & Hmaps & Hin & Hall);
    [change (zlen []) with 0; lia|done|]. change (zlen []) with 0 in *. cbn [app] in *.
  exists (mkInMemory ss'), ks.
  assert (Hhome : ∀ c, home (mkInMemory ss') c = home s c) by (intros c; unfold home, zlen; cbn; by rewrite Hlen).
  assert (He : ∀ c, mem_entries (mkInMemory ss') c = if decide (c ∈ ks) then None else mem_entries s c).
  { intros c. unfold mem_entries. rewrite Hhome. cbn. destruct (home_lookup s c Hne) as [m Hm].
    destruct (Hmaps _ _ Hm) as (m' & Hm' & Heq). rewrite Hm, Hm'. cbn. by rewrite Heq. }
  assert (Hmem : ∀ j m c e, shards s !! j = Some m → m !! c = Some e → mem_entries s c = Some e).
  { intros j m c e Hj Hc. unfold mem_entries. rewrite <-(Hok j m c Hj ltac:(by eexists)), Hj. done. }
  split_and!; [done|..].
  - split; [cbn; intros ->; by destruct (shards s)|]. intros i m c Hi Hc. rewrite Hhome. cbn in Hi.
    destruct (lookup_lt_is_Some_2 (shards s) i) as [m0 Hm0]; [rewrite <-Hlen; by eapply lookup_lt_Some|].
    destruct (Hmaps i m0 Hm0) as (m' & Hm' & Heq). simplify_eq. rewrite Heq in Hc.
    case_decide; [by destruct Hc|]. by eapply Hok.
  - lia.
  - done.
  - intros c Hc. destruct (Hin c Hc) as (j & m & e & Hj & Hm & Hexp). exists e. split; [by eapply Hmem|done].
  - exact He.
  - intros Hlt c e Hce. rewrite He in Hce. case_decide as Hc; [done|].
    destruct (decide (now < expires_at_ms e)) as [|Hexp]; [done|]. exfalso. apply Hc.
    unfold mem_entries in Hce. destruct (shards s !! home s c) as [m|] eqn:Hm; [|done].
    eapply Hall; [lia|exact Hm|exact Hce|lia].
Qed.

(** The in-memory store keeps the contract. *)
#[global] Instance in_memory_lawful : @LawfulStore InMemorySessionStore (in_memory_store iter).
Proof.
  refine (@Build_LawfulStore _ (in_memory_store iter) mem_ok mem_entries _ _ _ _ _).
  - exact mem_load_law.
  - exact mem_cas_law.
  - exact mem_upsert_law.
  - exact mem_delete_law.
  - exact mem_scan_law.
Defined.

End Scan.

(* ------------------------------------------------------------------ *)
(** ** Every store that keeps the contract *)
(* ------------------------------------------------------------------ *)

Section Callers.
Context {S : Type} `{!SessionStore S, !LawfulStore S}.

Lemma same_visible now m m' cid : same_from now m m' → visible m now cid = visible m' now cid.
Proof. intros H. by apply H. Qed.

(** One request, at a time not before [now]. *)
Lemma serve_refines now q qs m s :
  store_ok s → same_from now m (entry_of s) → clocked now (q :: qs) →
  ∃ o s' later, serve q s = (o, s') ∧ store_ok s' ∧ spec_answer q m o ∧ clocked later qs ∧
    same_from later (spec_state q m) (entry_of s').
Proof.
  intros Hs Hm Hq. destruct q as [cid t|cid expected r ttl t|cid r ttl t|cid|t limit]; cbn [clocked] in Hq;
    cbn [serve spec_answer spec_state]; unfold respond, mbind, ST_bind, mret, ST_ret.
  1-3: destruct Hq as [Ht Hqs]; apply (same_from_later now t) in Hm; [|done];
    rewrite (same_visible t m (entry_of s) cid Hm).
  - destruct (load_law s cid t Hs) as (s' & -> & Hok & Hsame). exists (Ok (Loaded (to_versioned <$> visible (entry_of s) t cid))), s', t.
    split_and!; [done..|]. by rewrite Hm.
  - destruct (cas_law s cid expected r ttl t Hs) as (s' & -> & Hok & Hsame). cbv zeta in *.
    case_decide; eexists _, s', t; (split; [done|]; split; [done|]; split; [done|]; split; [done|]; by rewrite Hm).
  - destruct (upsert_law s cid r ttl t Hs) as (s' & -> & Hok & Hsame). eexists _, s', t.
    split_and!; [done..|]. by rewrite Hm.
  - destruct (delete_law s cid Hs) as (s' & -> & Hok & Hsame). eexists _, s', now.
    split_and!; [done..|]. by rewrite Hm.
  - destruct Hq as (Ht & Hlim & Hqs). apply (same_from_later now t) in Hm; [|done].
    destruct (scan_law s t limit Hs Hlim) as (s' & removed & -> & Hok & Hlen & Hnd & Hin & He & _).
    eexists _, s', t. split; [done|]. split; [done|]. split; [|split; [done|]].
    + exists removed. split_and!; [done..|]. intros cid Hc. rewrite (same_visible t _ _ cid Hm).
      destruct (Hin cid Hc) as (e & Hce & Hexp). unfold visible. rewrite Hce. cbn. by zdec.
    + rewrite Hm. intros cid later Hl. unfold visible. rewrite He. case_decide as Hc; [|done].
      destruct (Hin cid Hc) as (e & -> & Hexp). cbn. by zdec.
Qed.

Lemma serve_all_refines now qs m s :
  store_ok s → same_from now m (entry_of s) → clocked now qs → spec_run qs m (serve_all qs s).1.
Proof.
  revert now m s. induction qs as [|q qs IH]; intros now m s Hs Hm Hq; [done|].
  destruct (serve_refines now q qs m s Hs Hm Hq) as (o & s' & later & Ho & Hok & Ha & Hqs & Hsame).
  cbn [serve_all]. rewrite Ho. specialize (IH later _ s' Hok Hsame Hqs).
  destruct (serve_all qs s') as [os s2]. by split.
Qed.

(** No lost update, for every store that keeps the contract: when two writers both read
    version [expected] of a connection, and the first one's swap succeeds, the second one's swap
    fails as long as the first entry lives, is told the version that is there now, and changes
    nothing a reader can see (versions below the end of [u64]). *)
Theorem stale_swap_conflicts (s : S) (cid : Z) (expected : option Z) (r r' : SessionRecord)
    (ttl ttl' now now' : Z) (v : VersionedRecord) :
  store_ok s → 0 ≤ default 0 expected < U64_MAX → now ≤ now' < sat_add U64_MAX now ttl →
  (compare_and_swap cid expected r ttl now s).1 = Ok v →
  let s1 := (compare_and_swap cid expected r ttl now s).2 in
  vr_version v = default 0 expected + 1 ∧
  ∃ s2, compare_and_swap cid expected r' ttl' now' s1 = (Err (CasConflict expected (Some (vr_version v))), s2) ∧
        ∃ s3, load cid now' s2 = (Ok (Some v), s3).
Proof.
  intros Hs Hexp Hnow Hcas s1. unfold s1. clear s1.
  destruct (cas_law s cid expected r ttl now Hs) as (s1 & H1 & Hs1 & Hsame1). cbv zeta in H1, Hsame1.
  rewrite H1 in Hcas |- *. cbn [fst snd] in *. case_decide as Hcur; [|done]. injection Hcas as <-.
  rewrite Hcur in *. set (e := next_entry expected r ttl now) in *. cbn [vr_version to_versioned].
  assert (Hv : version e = default 0 expected + 1) by (unfold e; cbn; ulia).
  split; [done|].
  assert (Hvis : visible (entry_of s1) now' cid = Some e).
  { rewrite <-(Hsame1 cid now') by lia. rewrite visible_set. unfold e at 1. cbn [expires_at_ms next_entry].
    by zdec. }
  destruct (cas_law s1 cid expected r' ttl' now' Hs1) as (s2 & H2 & Hs2 & Hsame2). cbv zeta in H2, Hsame2.
  rewrite Hvis in H2, Hsame2. cbn [fmap option_fmap option_map] in *.
  destruct (decide (Some (version e) = expected)) as [Heq|_].
  { rewrite <-Heq in Hv. cbn in Hv. lia. }
  exists s2. split; [done|].
  destruct (load_law s2 cid now' Hs2) as (s3 & H3 & _). exists s3. rewrite H3.
  by rewrite <-(Hsame2 cid now'), Hvis by lia.
Qed.

End Callers.

(** C8. The in-memory store, whatever its number of shards and the iteration order of its hash
    maps, implements the abstract map: over any requests under a clock that does not run
    backwards, every answer is the one the map gives (expired entries count as absent, versions
    restart after expiry), and a scan reports only connections without a live entry. *)
Theorem in_memory_store_refines_map (iter : gmap Z Entry → list (Z * Entry)) (n now : Z)
    (qs : list store_request) :
  (∀ m, iter m ≡ₚ map_to_list m) → 0 < n → clocked now qs →
  ∃ s0, new n = Ok s0 ∧
    let '(os, _) := @serve_all _ (in_memory_store iter) qs s0 in spec_run qs (λ _, None) os.
Proof.
  intros Hiter Hn Hqs. unfold new. rewrite (proj2 (Z.eqb_neq _ _)) by lia.
  eexists. split; [done|]. set (s0 := mkInMemory (replicate (Z.to_nat n) ∅)).
  assert (Hempty : ∀ i m, shards s0 !! i = Some m → m = ∅) by (intros i m Hi; by apply lookup_replicate in Hi as [-> _]).
  assert (Hok : mem_ok s0).
  { split.
    - unfold s0. cbn. destruct (Z.to_nat n) eqn:Hn0; [lia|done].
    - intros i m c Hi [e He]. apply Hempty in Hi as ->. by rewrite lookup_empty in He. }
  assert (Hent : ∀ c, mem_entries s0 c = None).
  { intros c. unfold mem_entries. destruct (home_lookup s0 c) as [m Hm]; [apply Hok|].
    rewrite Hm. cbn. apply Hempty in Hm as ->. apply lookup_empty. }
  pose proof (@serve_all_refines _ (in_memory_store iter) (in_memory_lawful iter Hiter) now qs (λ _, None) s0 Hok) as H.
  destruct (serve_all qs s0) as [os s']. apply H; [|done].
  intros c t _. unfold visible. cbn. by rewrite Hent.
Qed.

(* ------------------------------------------------------------------ *)
(** ** Witnesses *)
(* ------------------------------------------------------------------ *)

Definition sample_record : SessionRecord := mkSessionRecord 7 "peer" 15000 90000 10 12.

Definition sample_requests : list store_request :=
  [CompareAndSwap 7 None sample_record 100 0; CompareAndSwap 7 None sample_record 100 50;
   Upsert 39 sample_record 10 60; ScanExpired 70 5; Load 7 100; Load 7 99].

Lemma in_memory_store_refines_map_witness :
  ∃ s0, new 32 = Ok s0 ∧
    let '(os, _) := @serve_all _ (in_memory_store map_to_list) (take 5 sample_requests) s0 in
    spec_run (take 5 sample_requests) (λ _, None) os.
Proof.
  apply (in_memory_store_refines_map map_to_list 32 0 (take 5 sample_requests)).
  - done.
  - done.
  - vm_compute. repeat split; discriminate.
Defined.

Lemma stale_swap_conflicts_witness :
  let s := (mem_compare_and_swap 7 None sample_record 100 0 (mkInMemory [∅; ∅])).2 in
  ∃ s2, mem_compare_and_swap 7 None sample_record 100 50 s = (Err (CasConflict None (Some 1)), s2).
Proof.
  pose proof (@stale_swap_conflicts _ _ (in_memory_lawful map_to_list (λ m, reflexivity _))
    (mkInMemory [∅; ∅]) 7 None sample_record sample_record 100 100 0 50 (mkVersionedRecord 1 sample_record 100)) as H.
  destruct H as (_ & s2 & H & _); [|vm_compute; intuition discriminate|vm_compute; intuition discriminate|by vm_compute|by exists s2].
  split; [done|]. intros [|[|i]] m c Hi [e He]; simplify_eq/=; by rewrite lookup_empty in He.
Defined.
