(* ===== verification/StoreRace.v ===== *)
(** * Threads on one in-memory store

    The in-memory store is shared between threads. A call on one connection holds the lock of its
    shard from beginning to end, but [scan_expired] takes the locks of the shards one after the
    other, so other calls, and other scans, run between two of its shards. This file gives the
    threads as a step relation, and shows that a scan is invisible to every other call, that it
    never waits on a lock that is not released, and that alone it is [mem_scan_expired]. *)

From S2P Require Import Prelude Store StoreSpec StoreProps.

(* ------------------------------------------------------------------ *)
(** ** The steps of the threads *)
(* ------------------------------------------------------------------ *)

(** A scan under way: its arguments, the shard it takes next, and what it has removed. *)
Record Scan : Type := mkScan { scan_now : Z; scan_limit : Z; next_shard : nat; removed : list Z }.

(** The store, and the scans under way, by thread. *)
Record Shared : Type := mkShared { store : InMemorySessionStore; scans : gmap nat Scan }.

(** What happens: a call on one connection is answered, a scan starts, takes one shard, returns. *)
Inductive label : Type :=
| Answered (q : store_request) (o : outcome StoreError store_response)
| Started (thread : nat) (now limit : Z)
| Swept (thread : nat) (cids : list Z)
| Returned (thread : nat) (cids : list Z).

Definition is_scan (q : store_request) : bool := match q with ScanExpired _ _ => true | _ => false end.

Section Threads.
(** The order in which a [HashMap] is iterated. *)
Context (iter : gmap Z Entry → list (Z * Entry)).

#[local] Instance shared_store : SessionStore InMemorySessionStore := in_memory_store iter.

(** The body of the loop over the shards: one shard, under its lock. *)
Definition sweep (now limit : Z) (removed : list Z) (m : gmap Z Entry) : list Z * gmap Z Entry :=
  remove_keys limit removed (expired_keys now limit (zlen removed) [] (iter m)) m.

Inductive step : Shared → label → Shared → Prop :=
| step_call q o s s' sc :
    is_scan q = false → serve q s = (o, s') →
    step (mkShared s sc) (Answered q o) (mkShared s' sc)
| step_start t now limit s sc :
    sc !! t = None →
    step (mkShared s sc) (Started t now limit) (mkShared s (<[t := mkScan now limit 0 []]> sc))
| step_sweep t now limit i found cids m m' s sc :
    sc !! t = Some (mkScan now limit i found) → zlen found < limit →
    shards s !! i = Some m → sweep now limit found m = (found ++ cids, m') →
    step (mkShared s sc) (Swept t cids)
      (mkShared (mkInMemory (<[i := m']> (shards s))) (<[t := mkScan now limit (S i) (found ++ cids)]> sc))
| step_return t now limit i found s sc :
    sc !! t = Some (mkScan now limit i found) → limit ≤ zlen found ∨ shards s !! i = None →
    step (mkShared s sc) (Returned t found) (mkShared s (base.delete t sc)).

Inductive run : Shared → list label → Shared → Prop :=
| run_nil st : run st [] st
| run_cons st l st' ls st'' : step st l st' → run st' ls st'' → run st (l :: ls) st''.

(** A run passes through each of its labels. *)
Lemma run_split ls1 l ls2 : ∀ st st'', run st (ls1 ++ l :: ls2) st'' →
  ∃ st1 st2, run st ls1 st1 ∧ step st1 l st2 ∧ run st2 ls2 st''.
Proof.
  induction ls1 as [|l1 ls1 IH]; intros st st'' H; inversion H as [|? ? st1 ? ? Hs Hr]; subst.
  - exists st, st1. split_and!; [constructor|done..].
  - destruct (IH _ _ Hr) as (st2 & st3 & H1 & H2 & H3). exists st2, st3. split_and!; [by econstructor|done..].
Qed.

Lemma run_app st ls st' ls' st'' : run st ls st' → run st' ls' st'' → run st (ls ++ ls') st''.
Proof. induction 1; [done|]. intros H'. econstructor; eauto. Qed.

End Threads.

(* ------------------------------------------------------------------ *)
(** ** The abstract map under threads *)
(* ------------------------------------------------------------------ *)

(** A scan as its caller knows it. *)
Record SpecScan : Type := mkSpecScan { asked_at : Z; at_most : Z; found : list Z }.

(** What the abstract map allows: calls on connections are answered by the map; a scan never
    changes the map, it removes only entries that had expired by the time it was asked for, and
    returns what it removed, each connection once and at most as many as asked for. *)
Fixpoint spec_trace (ls : list label) (m : entries) (pending : gmap nat SpecScan) : Prop :=
  match ls with
  | [] => True
  | Answered q o :: ls => is_scan q = false ∧ spec_answer q m o ∧ spec_trace ls (spec_state q m) pending
  | Started t now limit :: ls => spec_trace ls m (<[t := mkSpecScan now limit []]> pending)
  | Swept t cids :: ls =>
      ∃ p, pending !! t = Some p ∧
        (∀ cid, cid ∈ cids → ∃ e, m cid = Some e ∧ expires_at_ms e ≤ asked_at p) ∧
        spec_trace ls m (<[t := mkSpecScan (asked_at p) (at_most p) (found p ++ cids)]> pending)
  | Returned t cids :: ls =>
      ∃ p, pending !! t = Some p ∧ cids = found p ∧ NoDup cids ∧ zlen cids ≤ at_most p ∧
        spec_trace ls m (base.delete t pending)
  end.

(** What a step of a scan does to the store. A sweep finds, in the shard it takes, entries that
    had expired when the scan was asked for; they are gone afterwards and nothing else is, and a
    scan that has not reached its limit leaves no such entry in that shard. A scan returns what
    its sweeps removed, once it has reached its limit or the last shard. *)
Definition scan_effect (st : Shared) (l : label) (st' : Shared) : Prop :=
  match l with
  | Answered _ _ => True
  | Started t now limit => scans st' !! t = Some (mkScan now limit 0 []) ∧ store st' = store st
  | Swept t cids =>
      ∃ sc, scans st !! t = Some sc ∧
        scans st' !! t = Some (mkScan (scan_now sc) (scan_limit sc) (S (next_shard sc)) (removed sc ++ cids)) ∧
        (∀ c, c ∈ cids → home (store st) c = next_shard sc ∧
           ∃ e, mem_entries (store st) c = Some e ∧ expires_at_ms e ≤ scan_now sc) ∧
        (∀ c, mem_entries (store st') c = if decide (c ∈ cids) then None else mem_entries (store st) c) ∧
        (zlen (removed sc) + zlen cids < scan_limit sc →
           ∀ c e, home (store st) c = next_shard sc → mem_entries (store st') c = Some e → scan_now sc < expires_at_ms e)
  | Returned t cids =>
      ∃ sc, scans st !! t = Some sc ∧ removed sc = cids ∧ scans st' !! t = None ∧ store st' = store st ∧
        (scan_limit sc ≤ zlen cids ∨ (length (shards (store st)) ≤ next_shard sc)%nat)
  end.

(** The time of a request that is made when the clock shows [now]. *)
Definition request_time (now : Z) (q : store_request) : Z :=
  match q with
  | Load _ t | CompareAndSwap _ _ _ _ t | Upsert _ _ _ t | ScanExpired t _ => t
  | Delete _ => now
  end.

(** The clock of the threads does not run backwards, and limits are unsigned. *)
Fixpoint on_time (now : Z) (ls : list label) : Prop :=
  match ls with
  | [] => True
  | Answered q _ :: ls => now ≤ request_time now q ∧ on_time (request_time now q) ls
  | Started _ t limit :: ls => now ≤ t ∧ 0 ≤ limit ∧ on_time t ls
  | (Swept _ _ | Returned _ _) :: ls => on_time now ls
  end.

(* ------------------------------------------------------------------ *)
(** ** Trailing behind the map *)
(* ------------------------------------------------------------------ *)

(** The store holds what the map holds, except for entries that have expired. *)
Definition trails (cur : Z) (m c : entries) : Prop :=
  ∀ cid, c cid = m cid ∨ (c cid = None ∧ visible m cur cid = None).

Lemma visible_mono m cur t cid : cur ≤ t → visible m cur cid = None → visible m t cid = None.
Proof.
  intros Ht. unfold visible. destruct (m cid) as [e|]; [|done]. cbn. intros H. destruct (cur <? _) eqn:He; [done|].
  zprop. by zdec.
Qed.

Lemma trails_later cur t m c : cur ≤ t → trails cur m c → trails t m c.
Proof. intros Ht H cid. destruct (H cid) as [|[? ?]]; [by left|right]. split; [done|]. by eapply visible_mono. Qed.

Lemma trails_visible t m c cid : trails t m c → visible c t cid = visible m t cid.
Proof. intros H. unfold visible at 1. destruct (H cid) as [->|[-> Hv]]; [done|by rewrite Hv]. Qed.

Lemma trails_entry cur m c cid e : trails cur m c → c cid = Some e → m cid = Some e.
Proof. intros H Hc. destruct (H cid) as [<-|[? _]]; [done|congruence]. Qed.

Lemma trails_set cur m c cid o : trails cur m c → trails cur (set_entry cid o m) (set_entry cid o c).
Proof. intros H d. unfold visible, set_entry. case_decide; [by left|]. apply H. Qed.

Lemma trails_set_visible t m c cid : trails t m c → trails t m (set_entry cid (visible m t cid) c).
Proof.
  intros H d. unfold set_entry. case_decide as Hd; [subst d|apply H].
  unfold visible. destruct (m cid) as [e|]; [|by left]. cbn. destruct (t <? _); [by left|by right].
Qed.

Lemma trails_ext cur m c c' : (∀ cid, c' cid = c cid) → trails cur m c → trails cur m c'.
Proof. intros Hc H cid. rewrite Hc. apply H. Qed.

(** The connection of a request. *)
Definition target (q : store_request) : Z :=
  match q with Load c _ | CompareAndSwap c _ _ _ _ | Upsert c _ _ _ | Delete c => c | ScanExpired _ _ => 0 end.

(** The answer and the new entry depend on the visible entry of the connection only. *)
Lemma seen_the_same q m c now o :
  is_scan q = false → visible c (request_time now q) (target q) = visible m (request_time now q) (target q) →
  spec_answer q c o → spec_answer q m o ∧ entry_after q c = entry_after q m.
Proof. destruct q; cbn; intros Hq Hv; [rewrite Hv..| |]; done. Qed.

Lemma trails_answer q m c now :
  is_scan q = false → trails (request_time now q) m c →
  trails (request_time now q) (spec_state q m) (set_entry (target q) (entry_after q m) c).
Proof.
  intros Hq H. destruct q as [cid t|cid expected r ttl t|cid r ttl t|cid|t limit]; cbn in *; try done.
  - by apply trails_set_visible.
  - case_decide; [by apply trails_set|by apply trails_set_visible].
  - by apply trails_set.
  - by apply trails_set.
Qed.

(** A call on the shared store. *)
Lemma serve_effect iter q s :
  mem_ok s → is_scan q = false →
  ∃ o s', @serve _ (in_memory_store iter) q s = (o, s') ∧ spec_answer q (mem_entries s) o ∧ mem_effect (target q) q s s'.
Proof.
  intros Hs Hq. destruct q as [cid t|cid expected r ttl t|cid r ttl t|cid|t limit]; [..|done];
    cbn [serve spec_answer target]; unfold respond, mbind, ST_bind, mret, ST_ret; cbn [load compare_and_swap upsert delete_session in_memory_store].
  - destruct (mem_load_effect s cid t Hs) as (s' & -> & He). by eexists _, s'.
  - destruct (mem_cas_effect s cid expected r ttl t Hs) as (s' & H & He). cbv zeta in *. rewrite H.
    case_decide; by eexists _, s'.
  - destruct (mem_upsert_effect s cid r ttl t Hs) as (s' & -> & He). by eexists _, s'.
  - destruct (mem_delete_effect s cid Hs) as (s' & -> & He). by eexists _, s'.
Qed.

(* ------------------------------------------------------------------ *)
(** ** One shard of a scan *)
(* ------------------------------------------------------------------ *)

Section Simulation.
Context (iter : gmap Z Entry → list (Z * Entry)) (Hiter : ∀ m, iter m ≡ₚ map_to_list m).

(** What one shard gives up, whatever else happens to the store meanwhile. *)
Lemma sweep_spec now limit found m :
  zlen found < limit →
  ∃ ks, sweep iter now limit found m = (found ++ ks, foldl (λ m c, base.delete c m) m ks) ∧
    zlen found + zlen ks ≤ limit ∧ NoDup ks ∧
    (∀ c, c ∈ ks → ∃ e, m !! c = Some e ∧ expires_at_ms e ≤ now) ∧
    (zlen found + zlen ks < limit → ∀ c e, m !! c = Some e → expires_at_ms e ≤ now → c ∈ ks).
Proof.
  intros Hlt. destruct (shard_keys iter Hiter now limit found m Hlt) as (ks & <- & Hle & H).
  exists (expired_keys now limit (zlen found) [] (iter m)). split; [|done]. unfold sweep. by rewrite remove_keys_all.
Qed.

(** A shard of the store. *)
Definition with_shard_at (i : nat) (m : gmap Z Entry) (s : InMemorySessionStore) : InMemorySessionStore :=
  mkInMemory (<[i := m]> (shards s)).

Lemma home_with_shard i m s c : home (with_shard_at i m s) c = home s c.
Proof. unfold home, with_shard_at, zlen. cbn. by rewrite length_insert. Qed.

(** Taking keys out of one shard. *)
Lemma drop_keys i m ks s :
  mem_ok s → shards s !! i = Some m → (∀ c, c ∈ ks → is_Some (m !! c)) →
  let s' := with_shard_at i (foldl (λ m c, base.delete c m) m ks) s in
  mem_ok s' ∧ (∀ c, c ∈ ks → home s c = i) ∧
  ∀ c, mem_entries s' c = if decide (c ∈ ks) then None else mem_entries s c.
Proof.
  intros [Hne Hok] Hm Hks s'. assert (Hlt : (i < length (shards s))%nat) by by eapply lookup_lt_Some.
  assert (Hhome : ∀ c, c ∈ ks → home s c = i) by (intros c Hc; symmetry; eapply Hok; [done|by apply Hks]).
  split; [split|split; [done|]].
  - intros H0. apply (f_equal length) in H0. cbn in H0. rewrite length_insert in H0. cbn in H0. lia.
  - intros j mj c Hj Hc. unfold s'. rewrite home_with_shard. cbn in Hj. destruct (decide (j = i)) as [->|].
    + rewrite list_lookup_insert_eq in Hj by done. injection Hj as <-. rewrite delete_all_lookup in Hc.
      case_decide; [by destruct Hc|]. by eapply Hok.
    + rewrite list_lookup_insert_ne in Hj by done. by eapply Hok.
  - intros c. unfold mem_entries, s'. rewrite home_with_shard. cbn. destruct (decide (home s c = i)) as [Hi|Hi].
    + rewrite Hi, list_lookup_insert_eq, Hm by done. cbn. apply delete_all_lookup.
    + rewrite list_lookup_insert_ne by done. rewrite decide_False; [done|]. intros Hc. by apply Hi, Hhome.
Qed.

(* ------------------------------------------------------------------ *)
(** ** The simulation *)
(* ------------------------------------------------------------------ *)

(** What a scan has removed came from the shards it is done with. *)
Record scan_ok (cur : Z) (s : InMemorySessionStore) (sc : Scan) : Prop := {
  so_asked : scan_now sc ≤ cur;
  so_limit : zlen (removed sc) ≤ scan_limit sc;
  so_once : NoDup (removed sc);
  so_done : ∀ c, c ∈ removed sc → (home s c < next_shard sc)%nat;
}.

Definition as_spec (sc : Scan) : SpecScan := mkSpecScan (scan_now sc) (scan_limit sc) (removed sc).

Record follows (cur : Z) (m : entries) (pending : gmap nat SpecScan) (st : Shared) : Prop := {
  fo_store : mem_ok (store st);
  fo_trails : trails cur m (mem_entries (store st));
  fo_scans : pending = as_spec <$> scans st;
  fo_ok : map_Forall (λ _, scan_ok cur (store st)) (scans st);
}.

Lemma scan_ok_moves cur t s s' sc :
  cur ≤ t → (∀ c, home s' c = home s c) → scan_ok cur s sc → scan_ok t s' sc.
Proof. intros Ht Hh [H1 H2 H3 H4]. split; [lia|done|done|]. intros c Hc. rewrite Hh. by apply H4. Qed.

Lemma follows_call cur m st q o s' :
  follows cur m (as_spec <$> scans st) st → is_scan q = false → cur ≤ request_time cur q →
  @serve _ (in_memory_store iter) q (store st) = (o, s') →
  spec_answer q m o ∧ follows (request_time cur q) (spec_state q m) (as_spec <$> scans st) (mkShared s' (scans st)).
Proof.
  intros [Hs Ht _ Hok] Hq Hcur Hserve.
  destruct (serve_effect iter q (store st) Hs Hq) as (o' & s1 & H1 & Ha & Hs1 & Hlen & He).
  rewrite Hserve in H1. injection H1 as <- <-. apply (trails_later cur (request_time cur q)) in Ht; [|done].
  destruct (seen_the_same q m (mem_entries (store st)) cur o Hq) as [Hm Hentry]; [by apply trails_visible|done|].
  split; [done|]. split; [done|..]; cbn [store scans].
  - eapply trails_ext; [exact He|]. rewrite Hentry. by apply trails_answer.
  - done.
  - eapply map_Forall_impl; [exact Hok|]. intros t sc H. eapply scan_ok_moves; [done| |exact H].
    intros c. unfold home, zlen. by rewrite Hlen.
Qed.

Lemma follows_sweep cur m st t now limit i found ks mi m' :
  follows cur m (as_spec <$> scans st) st → scans st !! t = Some (mkScan now limit i found) → zlen found < limit →
  shards (store st) !! i = Some mi → sweep iter now limit found mi = (found ++ ks, m') →
  (∀ c, c ∈ ks → ∃ e, m c = Some e ∧ expires_at_ms e ≤ now) ∧
  follows cur m (as_spec <$> <[t := mkScan now limit (S i) (found ++ ks)]> (scans st))
    (mkShared (with_shard_at i m' (store st)) (<[t := mkScan now limit (S i) (found ++ ks)]> (scans st))).
Proof.
  intros [Hs Ht _ Hok] Hsc Hlt Hmi Hsweep.
  destruct (sweep_spec now limit found mi Hlt) as (ks' & Heq & Hle & Hnd & Hexp & _).
  rewrite Hsweep in Heq. injection Heq as <-%(inj (app found)) ->.
  pose proof (Hok _ _ Hsc) as [Hasked Hlim Honce Hdone]. cbn in *.
  destruct (drop_keys i mi ks (store st) Hs Hmi) as (Hs' & Hhome & He).
  { intros c Hc. destruct (Hexp c Hc) as (e & -> & _). by eexists. }
  assert (Hgone : ∀ c, c ∈ ks → ∃ e, m c = Some e ∧ expires_at_ms e ≤ now).
  { intros c Hc. destruct (Hexp c Hc) as (e & Hce & Hle'). exists e. split; [|done].
    eapply trails_entry; [exact Ht|]. unfold mem_entries. by rewrite (Hhome c Hc), Hmi. }
  split; [done|]. split; [done|..]; cbn [store scans].
  - intros c. rewrite He. case_decide as Hc; [right|apply Ht]. split; [done|].
    destruct (Hgone c Hc) as (e & Hce & Hle'). unfold visible. rewrite Hce. cbn. by zdec.
  - done.
  - apply map_Forall_insert_2.
    + split; cbn; [done|zlen_norm; lia| |].
      * apply NoDup_app. split; [done|]. split; [|done]. intros c Hc Hc'. specialize (Hdone c Hc).
        specialize (Hhome c Hc'). lia.
      * intros c [Hc|Hc]%elem_of_app; rewrite home_with_shard; [specialize (Hdone c Hc)|rewrite (Hhome c Hc)]; lia.
    + eapply map_Forall_impl; [exact Hok|]. intros t' sc H. eapply scan_ok_moves; [reflexivity| |exact H].
      intros c. apply home_with_shard.
Qed.

Lemma run_refines st ls st' : run iter st ls st' → ∀ cur m pending,
  follows cur m pending st → on_time cur ls → spec_trace ls m pending.
Proof.
  induction 1 as [|st l st1 ls st2 Hstep _ IH]; intros cur m pending Hf Ht; [done|].
  pose proof (fo_scans _ _ _ _ Hf) as ->.
  destruct Hstep as [q o s s' sc Hq Hserve|t now limit s sc Hn|t now limit i fd cids mi m' s sc Hsc Hlt Hmi Hsw|
    t now limit i fd s sc Hsc Hend]; cbn [spec_trace on_time scans] in *.
  - destruct Ht as [Hcur Ht]. destruct (follows_call cur m (mkShared s sc) q o s' Hf Hq Hcur Hserve) as [Ha Hf'].
    split; [done|]. split; [done|]. by eapply IH.
  - destruct Ht as (Hcur & Hlim & Ht). rewrite <-(fmap_insert as_spec sc t (mkScan now limit 0 [])).
    apply (IH now); [|done]. destruct Hf as [Hs Htr _ Hok]. split; cbn in *; [done|by eapply trails_later|done|].
    apply map_Forall_insert_2.
    + split; cbn; [lia|done|apply NoDup_nil_2|set_solver].
    + eapply map_Forall_impl; [exact Hok|]. intros t' sc' H. by eapply scan_ok_moves.
  - destruct (follows_sweep cur m (mkShared s sc) t now limit i fd cids mi m' Hf Hsc Hlt Hmi Hsw) as [Hgone Hf'].
    exists (as_spec (mkScan now limit i fd)). rewrite lookup_fmap, Hsc. split; [done|]. split; [done|].
    cbn [asked_at at_most found as_spec scan_now scan_limit removed].
    rewrite fmap_insert in Hf'. by apply (IH cur).
  - exists (as_spec (mkScan now limit i fd)). rewrite lookup_fmap, Hsc. destruct Hf as [Hs Htr _ Hok].
    destruct (Hok _ _ Hsc) as [Hasked Hlim Honce Hdone]. split; [done|]. split; [done|]. split; [done|]. split; [done|].
    rewrite <-fmap_delete. apply (IH cur); [|done]. split; cbn in *; [done..|]. by apply map_Forall_delete.
Qed.

(* ------------------------------------------------------------------ *)
(** ** A scan never waits *)
(* ------------------------------------------------------------------ *)

Definition swept_by (t : nat) (l : label) : bool := match l with Swept t' _ => (t' =? t)%nat | _ => false end.

Definition returned_by (t : nat) (l : label) : bool := match l with Returned t' _ => (t' =? t)%nat | _ => false end.

Fixpoint sweeps (t : nat) (ls : list label) : nat :=
  match ls with
  | [] => 0
  | l :: ls => (if swept_by t l then 1 else 0) + sweeps t ls
  end.

Lemma step_keeps st l st' :
  step iter st l st' → mem_ok (store st) →
  mem_ok (store st') ∧ length (shards (store st')) = length (shards (store st)).
Proof.
  intros Hstep Hs. destruct Hstep as [q o s s' sc Hq Hserve| |t now limit i fd cids mi m' s sc Hsc Hlt Hmi Hsw|];
    cbn [store] in *; [|done| |done].
  - destruct (serve_effect iter q s Hs Hq) as (o' & s1 & H1 & _ & Hs1 & Hlen & _).
    unfold shared_store in Hserve. rewrite Hserve in H1. by injection H1 as <- <-.
  - destruct (sweep_spec now limit fd mi Hlt) as (ks & Heq & _ & _ & Hexp & _). rewrite Hsw in Heq.
    injection Heq as <-%(inj (app fd)) ->. split; [|apply length_insert].
    apply (drop_keys i mi cids s Hs Hmi). intros c Hc. destruct (Hexp c Hc) as (e & -> & _). by eexists.
Qed.

Lemma run_keeps st ls st' : run iter st ls st' → mem_ok (store st) → mem_ok (store st').
Proof. induction 1 as [|? ? ? ? ? Hs _ IH]; [done|]. intros H. by apply IH, (step_keeps _ _ _ Hs). Qed.

Lemma step_effect st l st' : step iter st l st' → mem_ok (store st) → scan_effect st l st'.
Proof.
  intros Hstep Hs. destruct Hstep as [q o s s' sc Hq Hserve|t now limit s sc Hn|t now limit i fd cids mi m' s sc Hsc Hlt Hmi Hsw|t now limit i fd s sc Hsc Hend];
    cbn [scan_effect store scans] in *.
  - done.
  - by rewrite lookup_insert_eq.
  - destruct (sweep_spec now limit fd mi Hlt) as (ks & Heq & _ & _ & Hexp & Hall). rewrite Hsw in Heq.
    injection Heq as <-%(inj (app fd)) ->.
    destruct (drop_keys i mi cids s Hs Hmi) as (_ & Hhome & He).
    { intros c Hc. destruct (Hexp c Hc) as (e & -> & _). by eexists. }
    exists (mkScan now limit i fd). cbn [scan_now scan_limit next_shard removed]. rewrite lookup_insert_eq. split_and!; [done|done| |exact He|].
    + intros c Hc. split; [by apply Hhome|]. destruct (Hexp c Hc) as (e & Hce & Hle). exists e. split; [|done].
      unfold mem_entries. by rewrite (Hhome c Hc), Hmi.
    + intros Hlim c e Hc Hce. specialize (He c). unfold with_shard_at in He. rewrite Hce in He. case_decide as Hd; [done|].
      unfold mem_entries in He. rewrite Hc, Hmi in He. cbn in He. specialize (Hall Hlim c e ltac:(done)).
      destruct (Z.le_gt_cases (expires_at_ms e) now) as [Hle|]; [|lia]. by destruct (Hd (Hall Hle)).
  - exists (mkScan now limit i fd). rewrite lookup_delete_eq. split_and!; [done..|]. cbn.
    destruct Hend as [|Hend]; [by left|right]. by apply lookup_ge_None.
Qed.

(** How a scan of a thread moves. *)
Lemma step_scan st l st' t sc :
  step iter st l st' → scans st !! t = Some sc → returned_by t l = false →
  ∃ sc', scans st' !! t = Some sc' ∧
    next_shard sc' = ((if swept_by t l then 1 else 0) + next_shard sc)%nat ∧
    (swept_by t l = true → (next_shard sc < length (shards (store st)))%nat).
Proof.
  intros Hstep Ht Hr. destruct Hstep as [|t' now limit s sc' Hn|t' now limit i fd cids mi m' s sc' Hsc Hlt Hmi Hsw|t' now limit i fd s sc' Hsc Hend];
    cbn [swept_by returned_by scans store] in *.
  - by exists sc.
  - exists sc. rewrite lookup_insert_ne; [done|]. intros ->. congruence.
  - destruct (Nat.eqb_spec t' t) as [->|Hne].
    + rewrite Hsc in Ht. injection Ht as <-. eexists. rewrite lookup_insert_eq. split; [done|]. split; [done|].
      intros _. by eapply lookup_lt_Some.
    + exists sc. by rewrite lookup_insert_ne.
  - destruct (Nat.eqb_spec t' t) as [->|Hne]; [done|]. exists sc. by rewrite lookup_delete_ne.
Qed.

Lemma scan_can_step st t sc :
  scans st !! t = Some sc → ∃ l st', step iter st l st' ∧ (swept_by t l || returned_by t l = true).
Proof.
  intros Ht. destruct st as [s scs]. destruct sc as [now limit i fd]. cbn in Ht.
  destruct (decide (limit ≤ zlen fd)) as [Hl|Hl].
  { eexists _, _. split; [by eapply step_return, or_introl|]. cbn. by rewrite Nat.eqb_refl. }
  destruct (shards s !! i) as [m|] eqn:Hm.
  - destruct (sweep_spec now limit fd m) as (ks & Hsw & _); [lia|]. eexists _, _.
    split; [eapply step_sweep; [done|lia|done|done]|]. cbn. by rewrite Nat.eqb_refl.
  - eexists _, _. split; [by eapply step_return, or_intror|]. cbn. by rewrite Nat.eqb_refl.
Qed.

Lemma run_scan st ls st' : run iter st ls st' → ∀ t sc,
  mem_ok (store st) → scans st !! t = Some sc → forallb (negb ∘ returned_by t) ls = true →
  (next_shard sc ≤ length (shards (store st)))%nat →
  (sweeps t ls + next_shard sc ≤ length (shards (store st)))%nat ∧ is_Some (scans st' !! t).
Proof.
  induction 1 as [st|st l st1 ls st2 Hstep _ IH]; intros t sc Hs Ht Hl Hn; cbn [sweeps forallb] in *.
  { by rewrite Ht. }
  apply andb_true_iff in Hl as [Hl Hls]. cbn in Hl. apply negb_true_iff in Hl.
  destruct (step_keeps _ _ _ Hstep Hs) as [Hs1 Hlen].
  destruct (step_scan _ _ _ t sc Hstep Ht Hl) as (sc' & Ht' & Hnext & Hlt).
  destruct (IH t sc' Hs1 Ht' Hls) as [IH1 IH2].
  { rewrite Hlen, Hnext. destruct (swept_by t l); [specialize (Hlt eq_refl)|]; lia. }
  split; [|done]. rewrite Hlen, Hnext in IH1. destruct (swept_by t l); lia.
Qed.

(* ------------------------------------------------------------------ *)
(** ** A scan alone *)
(* ------------------------------------------------------------------ *)

Lemma take_insert_snoc {A} (l : list A) i x : (i < length l)%nat → take (S i) (<[i := x]> l) = take i l ++ [x].
Proof.
  intros Hi. rewrite (take_S_r _ _ x) by by apply list_lookup_insert_eq. by rewrite take_insert_ge by lia.
Qed.

(** Whoever only sweeps a thread's shards runs the loop over them. *)
Lemma alone_from st ls st' : run iter st ls st' → ∀ t now limit i found r ls0,
  ls = ls0 ++ [Returned t r] → forallb (swept_by t) ls0 = true →
  scans st !! t = Some (mkScan now limit i found) →
  let '(removed, ss) := scan_shards iter now limit found (drop i (shards (store st))) in
  removed = r ∧ take i (shards (store st)) ++ ss = shards (store st').
Proof.
  induction 1 as [st|st l st1 ls st2 Hstep Hrun IH]; intros t now limit i fd r ls0 Hls Hall Ht; [by destruct ls0|].
  destruct ls0 as [|l0 ls0]; injection Hls as -> Hls.
  - subst ls. inversion Hrun; subst. inversion Hstep as [| | |t' now' limit' i' fd' s sc Hsc Hend]; subst; cbn in *; simplify_eq.
    destruct Hend as [Hend|Hend].
    + destruct (drop i (shards s)) as [|m ss] eqn:Hd; cbn [scan_shards].
      * split; [done|]. rewrite app_nil_r, <-(app_nil_r (take i _)), <-Hd. apply take_drop.
      * zdec. split; [done|]. rewrite <-Hd. apply take_drop.
    + rewrite drop_ge by by apply lookup_ge_None. cbn [scan_shards]. split; [done|]. rewrite app_nil_r.
      apply take_ge. by apply lookup_ge_None.
  - cbn in Hall. apply andb_true_iff in Hall as [Hl0 Hall].
    inversion Hstep as [| |t' now' limit' i' fd' cids mi m' s sc Hsc Hlt Hmi Hsw|]; subst; try done.
    cbn in Hl0. apply Nat.eqb_eq in Hl0 as ->. cbn [store scans] in *. simplify_eq.
    specialize (IH t now limit (S i) (fd ++ cids) r ls0 eq_refl Hall (lookup_insert_eq _ _ _)). cbn [store shards] in IH.
    rewrite (drop_S _ _ _ Hmi). cbn [scan_shards]. rewrite (proj2 (Z.leb_gt _ _)) by lia.
    unfold sweep in Hsw. rewrite Hsw. rewrite drop_insert_lt, take_insert_snoc in IH by (lia || by eapply lookup_lt_Some).
    destruct (scan_shards _ _ _ _ _) as [removed ss]. destruct IH as [<- IH]. split; [done|]. by rewrite <-IH, <-app_assoc.
Qed.

End Simulation.

(* ------------------------------------------------------------------ *)
(** ** What threads may rely on *)
(* ------------------------------------------------------------------ *)

(** A store just made, with no scan under way. *)
Lemma new_follows n s0 now : 0 < n → new n = Ok s0 → follows now (λ _, None) ∅ (mkShared s0 ∅).
Proof.
  intros Hn Hnew. unfold new in Hnew. rewrite (proj2 (Z.eqb_neq _ _)) in Hnew by lia. injection Hnew as <-.
  assert (Hempty : ∀ i m, replicate (Z.to_nat n) (∅ : gmap Z Entry) !! i = Some m → m = ∅) by (by intros i m [-> _]%lookup_replicate).
  split; cbn [store scans].
  - split; [cbn; destruct (Z.to_nat n) eqn:H0; [lia|done]|]. intros i m c Hi [e He]. cbn in Hi.
    apply Hempty in Hi as ->. by rewrite lookup_empty in He.
  - intros c. left. unfold mem_entries. cbn. destruct (_ !! _) as [m|] eqn:Hm; [|done]. apply Hempty in Hm as ->. cbn. apply lookup_empty.
  - by rewrite fmap_empty.
  - apply map_Forall_empty.
Qed.

(** C9. A scan is invisible to the other threads: whatever calls and scans any number of threads
    interleave on one new in-memory store, under one clock that does not run backwards, a scan
    giving up its lock between two shards, every call on a connection is answered as by the map
    from connections to entries (expired entries absent).
    Every sweep of a scan takes out of the store exactly the connections it reports, entries of
    its shard that had expired when the scan was asked for, and below its limit leaves no such
    entry there; a scan returns exactly what its sweeps took out, each connection once and no more
    than its limit, and only at its limit or after the last shard. *)
Theorem shared_store_refines_map (iter : gmap Z Entry → list (Z * Entry)) (n now : Z) (s0 : InMemorySessionStore)
    (ls : list label) (st : Shared) :
  (∀ m, iter m ≡ₚ map_to_list m) → 0 < n → new n = Ok s0 →
  run iter (mkShared s0 ∅) ls st → on_time now ls →
  spec_trace ls (λ _, None) ∅ ∧
  ∀ ls1 l ls2, ls = ls1 ++ l :: ls2 → ∃ st1 st2,
    run iter (mkShared s0 ∅) ls1 st1 ∧ step iter st1 l st2 ∧ run iter st2 ls2 st ∧ scan_effect st1 l st2.
Proof.
  intros Hiter Hn Hnew Hrun Ht. pose proof (new_follows n s0 now Hn Hnew) as Hf.
  split; [by eapply (run_refines iter Hiter)|]. intros ls1 l ls2 ->.
  destruct (run_split iter _ _ _ _ _ Hrun) as (st1 & st2 & H1 & H2 & H3). exists st1, st2. split_and!; [done..|].
  apply (step_effect iter Hiter); [done|]. eapply (run_keeps iter Hiter); [exact H1|apply (fo_store _ _ _ _ Hf)].
Qed.

(** A scan never waits for another one and ends: at any moment of any interleaving the thread of
    a scan under way can go on, and it has done at most as many steps as there are shards left. *)
Theorem scan_never_waits (iter : gmap Z Entry → list (Z * Entry)) (st st' : Shared) (ls : list label) (t : nat) (sc : Scan) :
  (∀ m, iter m ≡ₚ map_to_list m) → mem_ok (store st) → run iter st ls st' →
  scans st !! t = Some sc → (next_shard sc ≤ length (shards (store st)))%nat → forallb (negb ∘ returned_by t) ls = true →
  (sweeps t ls + next_shard sc ≤ length (shards (store st)))%nat ∧
  ∃ l st'', step iter st' l st'' ∧ swept_by t l || returned_by t l = true.
Proof.
  intros Hiter Hs Hrun Ht Hn Hls.
  destruct (run_scan iter Hiter st ls st' Hrun t sc Hs Ht Hls Hn) as [Hle [sc' Ht']].
  split; [done|]. by apply (scan_can_step iter Hiter st' t sc').
Qed.

(** The steps of a scan are the code's loop: when no other thread runs between its start and its
    return, they give the result and the store of [scan_expired]. *)
Theorem scan_alone (iter : gmap Z Entry → list (Z * Entry)) (st st' : Shared) (ls : list label) (t : nat) (now limit : Z)
    (r : list Z) :
  run iter st (Started t now limit :: ls ++ [Returned t r]) st' → forallb (swept_by t) ls = true →
  mem_scan_expired iter now limit (store st) = (Ok r, store st').
Proof.
  intros Hrun Hls. inversion Hrun as [|? ? st1 ? ? Hstep Hrest]; subst. inversion Hstep as [|? ? ? s sc Hn| |]; subst.
  pose proof (alone_from iter _ _ _ Hrest t now limit 0 [] r ls eq_refl Hls (lookup_insert_eq _ _ _)) as H.
  cbn [store drop take app] in H |- *. unfold mem_scan_expired, st_get, st_modify, mbind, ST_bind, mret, ST_ret.
  destruct (limit =? 0) eqn:Hl; zprop.
  - subst limit. destruct (shards s) as [|m ss] eqn:Hsh; cbn [scan_shards] in H; destruct H as [<- H];
      destruct s as [?], (store st') as [?]; cbn in *; by subst.
  - destruct (scan_shards _ _ _ _ _) as [removed ss]. destruct H as [-> H].
    destruct (store st') as [?]. cbn in *. by subst.
Qed.

(* ------------------------------------------------------------------ *)
(** ** Witnesses *)
(* ------------------------------------------------------------------ *)

(** One thread scans two shards, and another one writes a connection again that the scan has just
    removed: what the scan returns is live by then. *)
Definition sample_trace : list label :=
  [Answered (Upsert 2 sample_record 10 0) (Ok (Written (mkVersionedRecord 1 sample_record 10)));
   Answered (Upsert 3 sample_record 10 0) (Ok (Written (mkVersionedRecord 1 sample_record 10)));
   Started 5 20 8; Swept 5 [2];
   Answered (Upsert 2 sample_record 10 20) (Ok (Written (mkVersionedRecord 1 sample_record 30)));
   Swept 5 [3];
   Answered (Load 2 25) (Ok (Loaded (Some (mkVersionedRecord 1 sample_record 30))));
   Returned 5 [2; 3]].

Definition sample_end : Shared := mkShared (mkInMemory [{[2 := mkEntry 1 sample_record 30]}; ∅]) ∅.

Lemma sample_runs : run map_to_list (mkShared (mkInMemory [∅; ∅]) ∅) sample_trace sample_end.
Proof.
  unfold sample_trace.
  do 2 (eapply run_cons; [by apply step_call|]).
  eapply run_cons; [by apply step_start|].
  eapply run_cons; [eapply (step_sweep map_to_list 5 20 8 0 [] [2]); [by vm_compute|done|by vm_compute|by vm_compute]|].
  eapply run_cons; [by apply step_call|].
  eapply run_cons; [eapply (step_sweep map_to_list 5 20 8 1 [2] [3]); [by vm_compute|done|by vm_compute|by vm_compute]|].
  eapply run_cons; [by apply step_call|].
  eapply run_cons; [eapply (step_return map_to_list 5 20 8 2 [2; 3]); [by vm_compute|by right]|].
  apply run_nil.
Qed.

Lemma shared_store_refines_map_witness :
  spec_trace sample_trace (λ _, None) ∅ ∧
  ∃ st1 st2, run map_to_list (mkShared (mkInMemory [∅; ∅]) ∅) (take 3 sample_trace) st1 ∧ step map_to_list st1 (Swept 5 [2]) st2 ∧
    run map_to_list st2 (drop 4 sample_trace) sample_end ∧ scan_effect st1 (Swept 5 [2]) st2.
Proof.
  enough (spec_trace sample_trace (λ _, None) ∅ ∧
    ∀ ls1 l ls2, sample_trace = ls1 ++ l :: ls2 → ∃ st1 st2,
      run map_to_list (mkShared (mkInMemory [∅; ∅]) ∅) ls1 st1 ∧ step map_to_list st1 l st2 ∧
      run map_to_list st2 ls2 sample_end ∧ scan_effect st1 l st2) as [H1 H2]
    by (split; [exact H1|]; apply H2; reflexivity).
  apply (shared_store_refines_map map_to_list 2 0 (mkInMemory [∅; ∅]) sample_trace sample_end).
  - done.
  - done.
  - done.
  - exact sample_runs.
  - vm_compute. repeat split; discriminate.
Defined.

(** A scan of two shards that another thread writes behind and in front of. *)
Definition sample_waiting : Shared := mkShared (mkInMemory [∅; ∅]) {[5%nat := mkScan 20 8 0 []]}.

Lemma scan_never_waits_witness :
  ∃ st', run map_to_list sample_waiting
    [Answered (Upsert 2 sample_record 10 0) (Ok (Written (mkVersionedRecord 1 sample_record 10))); Swept 5 [2]] st' ∧
    ∃ l st'', step map_to_list st' l st'' ∧ swept_by 5 l || returned_by 5 l = true.
Proof.
  assert (Hrun : run map_to_list sample_waiting
    [Answered (Upsert 2 sample_record 10 0) (Ok (Written (mkVersionedRecord 1 sample_record 10))); Swept 5 [2]]
    (mkShared (mkInMemory [∅; ∅]) {[5%nat := mkScan 20 8 1 [2]]})).
  { eapply run_cons; [by apply step_call|].
    eapply run_cons; [eapply (step_sweep map_to_list 5 20 8 0 [] [2]); [by vm_compute|done|by vm_compute|by vm_compute]|].
    apply run_nil. }
  eexists. split; [exact Hrun|].
  eapply (scan_never_waits map_to_list _ _ _ 5 (mkScan 20 8 0 []) (λ m, reflexivity _) _ Hrun);
    [by vm_compute|cbn; lia|by vm_compute].
  Unshelve. split; [done|]. intros [|[|i]] m c Hi [e He]; simplify_eq/=; by rewrite lookup_empty in He.
Defined.

Lemma scan_alone_witness :
  ∃ s, mem_scan_expired map_to_list 20 8 (mkInMemory [{[2 := mkEntry 1 sample_record 10]}; {[3 := mkEntry 1 sample_record 21]}]) =
    (Ok [2], s).
Proof.
  eexists. eapply (scan_alone map_to_list
    (mkShared (mkInMemory [{[2 := mkEntry 1 sample_record 10]}; {[3 := mkEntry 1 sample_record 21]}]) ∅)
    _ [Swept 5 [2]; Swept 5 []] 5 20 8 [2]); [|done].
  eapply run_cons; [by apply step_start|]. cbn [app].
  eapply run_cons; [eapply (step_sweep map_to_list 5 20 8 0 [] [2]); [by vm_compute|done|by vm_compute|by vm_compute]|].
  eapply run_cons; [eapply (step_sweep map_to_list 5 20 8 1 [2] []); [by vm_compute|done|by vm_compute|by vm_compute]|].
  eapply run_cons; [eapply (step_return map_to_list 5 20 8 2 [2]); [by vm_compute|by right]|].
  apply run_nil.
Defined.
