(* ===== verification/Disk.v ===== *)
(** * The disk store ([v3-store/src/lib.rs], second part)

    A session store kept in memory, with a log of its changes and a snapshot on disk.  The disk is
    part of the state; every call on it may fail, and a write that fails may have written a part.
    [serde_json] and the checksum's hash function are parameters. *)

From S2P Require Import Prelude Bytes Text Store.

(* ------------------------------------------------------------------ *)
(** ** The disk *)
(* ------------------------------------------------------------------ *)

(** The files of the directory of a store. *)
Record Files : Type := mkFiles {
  log_file : option (list byte);
  snapshot_file : option (list byte);
  tmp_file : option (list byte);
}.

#[global] Instance Files_eta : Eta Files := λ r, mkFiles (log_file r) (snapshot_file r) (tmp_file r).

Definition no_files : Files := mkFiles None None None.

(** How a call on the disk may fail: nothing was done, or the first bytes were written. *)
Inductive IoFault : Type := NotDone (message : string) | Partly (count : nat) (message : string).

Record Disk : Type := mkDisk { files : Files; io_calls : nat }.

#[global] Instance Disk_eta : Eta Disk := λ r, mkDisk (files r) (io_calls r).

(* ------------------------------------------------------------------ *)
(** ** What is written *)
(* ------------------------------------------------------------------ *)

Inductive DiskOp : Type :=
| Upsert (cid version expires_at_ms : Z) (data : list byte)
| Delete (cid : Z).

Record DiskLogEntry : Type := mkDiskLogEntry { op : DiskOp; checksum : Z }.

Record DiskSnapshotEntry : Type := mkDiskSnapshotEntry {
  dse_cid : Z;
  dse_version : Z;
  dse_expires_at_ms : Z;
  dse_data : list byte;
}.

Record DiskSnapshot : Type := mkDiskSnapshot { ds_schema_version : Z; ds_entries : list DiskSnapshotEntry }.

(** The [serde_json] calls of the disk store.  The text of a log entry is a compact object: it
    opens with a brace, and since its types hold no strings it is printable.  It reads back as
    the entry, and cut short it is an error. *)
Class DiskJson : Type := {
  op_to_vec : DiskOp → outcome string (list byte);
  entry_to_vec : DiskLogEntry → outcome string (list byte);
  entry_from_str : list byte → outcome string DiskLogEntry;
  snapshot_to_vec : DiskSnapshot → outcome string (list byte);
  snapshot_from_slice : list byte → outcome string DiskSnapshot;
  entry_text e text : entry_to_vec e = Ok text → Forall printable text ∧ head text = Some x7b;
  entry_round e text : entry_to_vec e = Ok text → entry_from_str text = Ok e;
  entry_cut e a b : entry_to_vec e = Ok (a ++ b) → b ≠ [] → ∃ message, entry_from_str a = Err message;
  snapshot_round s text : snapshot_to_vec s = Ok text → text ≠ [] ∧ snapshot_from_slice text = Ok s;
}.

(** Stored sessions read as JSON values, for the migration of old records. *)
Class RecordJson (V : Type) `{!JsonValue V, !Json} : Type := {
  value_from_slice : list byte → outcome string V;
  legacy_from_value : V → outcome string SessionRecord;
  stored_value s bytes : is_u16 (schema_version s) → to_vec s = Ok bytes →
    ∃ v, value_from_slice bytes = Ok v ∧ (get "schema_version" v ≫= as_u64) = Some (schema_version s);
}.

Section Disk.
Context {V : Type} `{!JsonValue V, !Json, !RecordJson V, !DiskJson}.
(** [calc_checksum], the hash of the default hasher, whose algorithm is not specified. *)
Context (calc_checksum : list byte → Z).
(** What goes wrong with the [n]-th call on the disk, and the iteration order of a hash map. *)
Context (fault : nat → option IoFault) (iter : gmap Z Entry → list (Z * Entry)).

Abbreviation disk := (ST Disk StoreError).

(** A call on the files that gives [ok], or fails after it did [partly]. *)
Definition io_call {A} (ok : Files → outcome StoreError A * Files) (partly : nat → Files → Files) : disk A := λ d,
  let d' := d <| io_calls := S (io_calls d) |> in
  match fault (io_calls d) with
  | None => let '(o, f) := ok (files d) in (o, d' <| files := f |>)
  | Some (NotDone message) => (Err (Io message), d')
  | Some (Partly n message) => (Err (Io message), d' <| files := partly n (files d) |>)
  end.

Definition unchanged (n : nat) (f : Files) : Files := f.

(** A call that reads: an absent file is an error. *)
Definition read_file (path : Files → option (list byte)) : disk (list byte) :=
  io_call (λ f, (ok_or (path f) (Io "No such file or directory (os error 2)"), f)) unchanged.

(** [File::create] and [fs::write]: the file is truncated, then written. *)
Definition write_file (put : list byte → Files → Files) (content : list byte) : disk () :=
  io_call (λ f, (Ok (), put content f)) (λ n f, put (take n content) f).

Definition put_log (content : list byte) (f : Files) : Files := f <| log_file := Some content |>.
Definition put_tmp (content : list byte) (f : Files) : Files := f <| tmp_file := Some content |>.

(** [create(true).append(true)], [write_all] of the line and the newline, and [flush]. *)
Definition append_log (line : list byte) : disk () :=
  io_call (λ f, (Ok (), put_log (default [] (log_file f) ++ line) f))
    (λ n f, put_log (default [] (log_file f) ++ take n line) f).

(** [fs::rename] of the temporary file over the snapshot. *)
Definition rename_tmp : disk () :=
  io_call (λ f,
    match tmp_file f with
    | Some content => (Ok (), f <| snapshot_file := Some content |> <| tmp_file := None |>)
    | None => (Err (Io "No such file or directory (os error 2)"), f)
    end) unchanged.

Definition create_dir_all : disk () := io_call (λ f, (Ok (), f)) unchanged.

(* ------------------------------------------------------------------ *)
(** ** Records *)
(* ------------------------------------------------------------------ *)

(** [schema as u16] decides which codec reads the record. *)
Definition decode_session_record_migrating (bytes : list byte) : outcome StoreError SessionRecord :=
  value ← map_err Serialization (value_from_slice bytes);
  let schema := as_u16 (default 0 (get "schema_version" value ≫= as_u64)) in
  if schema =? SESSION_SCHEMA_VERSION then decode_session_record bytes
  else if schema =? 0 then map_err Serialization (legacy_from_value value)
  else Err (UnsupportedSchemaVersion schema).

(* ------------------------------------------------------------------ *)
(** ** Log and snapshot *)
(* ------------------------------------------------------------------ *)

Definition append_op (o : DiskOp) : disk () :=
  op_bytes ← st_lift (map_err Serialization (op_to_vec o));
  let entry := mkDiskLogEntry o (calc_checksum op_bytes) in
  line ← st_lift (map_err Serialization (entry_to_vec entry));
  append_log (line ++ [x0a]).

(** The loop over the entries of a snapshot. *)
Fixpoint load_entries (l : list DiskSnapshotEntry) (m : gmap Z Entry) : outcome StoreError (gmap Z Entry) :=
  match l with
  | [] => mret m
  | item :: l' =>
      record ← decode_session_record (dse_data item);
      load_entries l' (<[dse_cid item := mkEntry (dse_version item) record (dse_expires_at_ms item)]> m)
  end.

Definition read_snapshot (bytes : list byte) (m : gmap Z Entry) : outcome StoreError (gmap Z Entry) :=
  match bytes with
  | [] => mret m
  | _ =>
      snap ← map_err Serialization (snapshot_from_slice bytes);
      reject (negb (ds_schema_version snap =? SESSION_SCHEMA_VERSION))
        (UnsupportedSchemaVersion (ds_schema_version snap)) ;;
      load_entries (ds_entries snap) m
  end.

Definition load_snapshot (m : gmap Z Entry) : disk (gmap Z Entry) :=
  bytes ← read_file snapshot_file;
  st_lift (read_snapshot bytes m).

Definition apply_op (o : DiskOp) (m : gmap Z Entry) : outcome StoreError (gmap Z Entry) :=
  match o with
  | Upsert cid version expires_at_ms data =>
      record ← decode_session_record_migrating data;
      mret (<[cid := mkEntry version record expires_at_ms]> m)
  | Delete cid => mret (base.delete cid m)
  end.

(** One line of the log. *)
Definition replay_line (line : list byte) (m : gmap Z Entry) : outcome StoreError (gmap Z Entry) :=
  match utf8 line with
  | None => Err (Io "stream did not contain valid UTF-8")
  | Some chars =>
      if forallb is_whitespace chars then mret m
      else
        entry ← map_err (λ _, CorruptLogEntry) (entry_from_str line);
        op_bytes ← map_err Serialization (op_to_vec (op entry));
        reject (negb (calc_checksum op_bytes =? checksum entry)) ChecksumMismatch ;;
        apply_op (op entry) m
  end.

Fixpoint replay_lines (l : list (list byte)) (m : gmap Z Entry) : outcome StoreError (gmap Z Entry) :=
  match l with
  | [] => mret m
  | line :: l' => m ← replay_line line m; replay_lines l' m
  end.

Definition replay_log (m : gmap Z Entry) : disk (gmap Z Entry) :=
  bytes ← read_file log_file;
  st_lift (replay_lines (lines_of bytes) m).

(* ------------------------------------------------------------------ *)
(** ** The store *)
(* ------------------------------------------------------------------ *)

Record DiskSessionStore : Type := mkDiskSessionStore { state : gmap Z Entry; root : Disk }.

#[global] Instance DiskSessionStore_eta : Eta DiskSessionStore := λ r, mkDiskSessionStore (state r) (root r).

(** [DiskSessionStore::new] on a disk: the entries of the store it opens. *)
Definition open_entries : disk (gmap Z Entry) :=
  create_dir_all ;;
  d ← st_get;
  st_when (bool_decide (log_file (files d) = None)) (write_file put_log []) ;;
  d ← st_get;
  m ← (if bool_decide (snapshot_file (files d) = None) then mret ∅ else load_snapshot ∅);
  replay_log m.

Definition new (d : Disk) : outcome StoreError DiskSessionStore * Disk :=
  let '(o, d') := open_entries d in
  match o with
  | Ok m => (Ok (mkDiskSessionStore m d'), d')
  | Err e => (Err e, d')
  | Panic => (Panic, d')
  end.

Abbreviation store := (ST DiskSessionStore StoreError).

(** A call on the disk of the store. *)
Definition on_disk {A} (call : disk A) : store A := st_zoom root (λ d s, s <| root := d |>) call.

(** The loop that collects the entries of a snapshot. *)
Fixpoint snapshot_entries (l : list (Z * Entry)) : outcome StoreError (list DiskSnapshotEntry) :=
  match l with
  | [] => mret []
  | (cid, e) :: l' =>
      data ← encode_session_record (record e);
      rest ← snapshot_entries l';
      mret (mkDiskSnapshotEntry cid (version e) (expires_at_ms e) data :: rest)
  end.

(** [compact] collects the entries under the lock and does the rest after it is dropped. *)
Definition compact_collect : store (list DiskSnapshotEntry) :=
  s ← st_get;
  st_lift (snapshot_entries (iter (state s))).

Definition compact_write (entries : list DiskSnapshotEntry) : store () :=
  payload ← st_lift (map_err Serialization (snapshot_to_vec (mkDiskSnapshot SESSION_SCHEMA_VERSION entries)));
  on_disk (write_file put_tmp payload) ;;
  on_disk rename_tmp ;;
  on_disk (write_file put_log []).

Definition compact : store () := entries ← compact_collect; compact_write entries.

Definition set_state (f : gmap Z Entry → gmap Z Entry) : store () :=
  st_modify (λ s, s <| state := f (state s) |>).

Definition disk_load (cid now_ms : Z) : store (option VersionedRecord) :=
  s ← st_get;
  match state s !! cid with
  | Some e =>
      if now_ms <? expires_at_ms e then mret (Some (to_versioned e))
      else
        set_state (base.delete cid) ;;
        on_disk (append_op (Delete cid)) ;;
        mret None
  | None => mret None
  end.

(** [.get(&cid).cloned().filter(|v| v.expires_at_ms > now_ms)]. *)
Definition live_entry (cid now_ms : Z) (m : gmap Z Entry) : option Entry :=
  e ← m !! cid;
  if now_ms <? expires_at_ms e then Some e else None.

(** The end of both writes: the record is encoded and the memory changed under the lock, the
    log is appended to after the lock is dropped. *)
Definition write_memory (cid : Z) (entry : Entry) : store (list byte) :=
  encoded ← st_lift (encode_session_record (record entry));
  set_state <[cid := entry]> ;;
  mret encoded.

Definition write_log (cid : Z) (entry : Entry) (encoded : list byte) : store () :=
  on_disk (append_op (Upsert cid (version entry) (expires_at_ms entry) encoded)).

Definition write_entry (cid : Z) (entry : Entry) : store VersionedRecord :=
  encoded ← write_memory cid entry;
  write_log cid entry encoded ;;
  mret (to_versioned entry).

Definition disk_compare_and_swap (cid : Z) (expected_version : option Z) (new_record : SessionRecord)
    (ttl_ms now_ms : Z) : store VersionedRecord :=
  s ← st_get;
  let current_version := version <$> live_entry cid now_ms (state s) in
  st_reject (negb (bool_decide (current_version = expected_version)))
    (CasConflict expected_version current_version) ;;
  write_entry cid (next_entry current_version new_record ttl_ms now_ms).

Definition disk_upsert (cid : Z) (new_record : SessionRecord) (ttl_ms now_ms : Z) : store VersionedRecord :=
  s ← st_get;
  write_entry cid (next_entry (version <$> live_entry cid now_ms (state s)) new_record ttl_ms now_ms).

Definition disk_delete (cid : Z) : store () :=
  set_state (base.delete cid) ;;
  on_disk (append_op (Delete cid)).

(** [if entry.expires_at_ms <= now_ms { expired.push(cid); if expired.len() >= limit { break } }]. *)
Fixpoint collect_expired (now_ms limit : Z) (expired : list Z) (l : list (Z * Entry)) : list Z :=
  match l with
  | [] => expired
  | (cid, e) :: l' =>
      if expires_at_ms e <=? now_ms then
        let expired := expired ++ [cid] in
        if limit <=? zlen expired then expired else collect_expired now_ms limit expired l'
      else collect_expired now_ms limit expired l'
  end.

Definition disk_scan_expired (now_ms limit : Z) : store (list Z) :=
  if limit =? 0 then mret []
  else
    s ← st_get;
    let expired := collect_expired now_ms limit [] (iter (state s)) in
    set_state (λ m, foldl (λ m cid, base.delete cid m) m expired) ;;
    st_for expired (λ cid, on_disk (append_op (Delete cid))) ;;
    mret expired.

#[global] Instance disk_store : SessionStore DiskSessionStore := {|
  load := disk_load;
  compare_and_swap := disk_compare_and_swap;
  upsert := disk_upsert;
  delete_session := disk_delete;
  scan_expired := disk_scan_expired;
|}.

End Disk.
