(* ===== verification/DiskLemmas.v ===== *)
(** * Lemmas on the disk store

    The text of the log and of a snapshot, what opening a directory recovers from them, and what
    every call on the disk does to them. *)

From S2P Require Import Prelude Bytes Text Store StoreSpec StoreProps Disk.

(** A change of one entry, in memory. *)
Abbreviation change := (Z * option Entry)%type.

Definition apply_change (m : gmap Z Entry) (c : change) : gmap Z Entry :=
  match c.2 with
  | Some e => <[c.1 := e]> m
  | None => base.delete c.1 m
  end.

Definition apply_changes (m : gmap Z Entry) (cs : list change) : gmap Z Entry := foldl apply_change m cs.

Lemma apply_change_lookup m c k : apply_change m c !! k = if decide (k = c.1) then c.2 else m !! k.
Proof.
  unfold apply_change. destruct c as [i [e|]]; cbn; case_decide as Hk; try subst k.
  - by rewrite lookup_insert_eq.
  - by rewrite lookup_insert_ne.
  - by rewrite lookup_delete_eq.
  - by rewrite lookup_delete_ne.
Qed.

(** What the last change of a key leaves, wherever the changes start from. *)
Lemma apply_changes_lookup cs m k :
  apply_changes m cs !! k = match last (filter (λ c, c.1 = k) cs) with Some c => c.2 | None => m !! k end.
Proof.
  unfold apply_changes. induction cs as [|c cs IH] using rev_ind; [done|].
  rewrite foldl_app, filter_app. cbn [foldl]. rewrite apply_change_lookup, filter_cons, filter_nil.
  case_decide as Hk.
  - rewrite decide_True by done. by rewrite last_snoc.
  - rewrite decide_False by done. by rewrite app_nil_r.
Qed.

(** Changes applied twice are applied once: a log replayed over a snapshot taken after it does
    nothing. *)
Lemma apply_changes_idem cs m : apply_changes (apply_changes m cs) cs = apply_changes m cs.
Proof.
  apply map_eq. intros k. rewrite !apply_changes_lookup.
  by destruct (last (filter (λ c, c.1 = k) cs)).
Qed.

(** The encoders have no error. *)
Class JsonTotal `{!Json, !DiskJson} : Prop := {
  to_vec_total s : ∃ bytes, to_vec s = Ok bytes;
  op_to_vec_total o : ∃ text, op_to_vec o = Ok text;
  entry_to_vec_total e : ∃ text, entry_to_vec e = Ok text;
  snapshot_to_vec_total s : ∃ text, snapshot_to_vec s = Ok text;
}.

Section Disk.
Context {V : Type} `{HV : !JsonValue V, HJ : !Json, HR : !RecordJson V, HD : !DiskJson, HT : !JsonTotal}.
Context (calc_checksum : list byte → Z).

(** What the encoders give. *)
Definition data_of (r : SessionRecord) : list byte :=
  match encode_session_record r with Ok bytes => bytes | _ => [] end.

Definition op_of (c : change) : DiskOp :=
  match c.2 with
  | Some e => Upsert c.1 (version e) (expires_at_ms e) (data_of (record e))
  | None => Delete c.1
  end.

Definition entry_of_op (o : DiskOp) : DiskLogEntry :=
  mkDiskLogEntry o (calc_checksum (match op_to_vec o with Ok text => text | _ => [] end)).

Definition line_of (c : change) : list byte :=
  match entry_to_vec (entry_of_op (op_of c)) with Ok text => text | _ => [] end.

Definition log_of (cs : list change) : list byte := cs ≫= λ c, line_of c ++ [x0a].

Lemma encode_data r : encode_session_record r = Ok (data_of r).
Proof.
  unfold data_of, encode_session_record. destruct (to_vec_total (mkStoredSession SESSION_SCHEMA_VERSION r)) as [b Hb].
  by rewrite Hb.
Qed.

Lemma line_encodes c : entry_to_vec (entry_of_op (op_of c)) = Ok (line_of c).
Proof. unfold line_of. destruct (entry_to_vec_total (entry_of_op (op_of c))) as [t Ht]. by rewrite Ht. Qed.

Lemma decode_data r : decode_session_record (data_of r) = Ok r.
Proof.
  pose proof (encode_data r) as He. unfold encode_session_record in He. unfold decode_session_record.
  destruct (to_vec (mkStoredSession SESSION_SCHEMA_VERSION r)) as [b|e|] eqn:Hb; [|done..]. injection He as <-.
  apply to_vec_from_slice in Hb. by rewrite Hb.
Qed.

Lemma migrate_data r : decode_session_record_migrating (data_of r) = Ok r.
Proof.
  pose proof (encode_data r) as He. unfold encode_session_record in He. unfold decode_session_record_migrating.
  destruct (to_vec (mkStoredSession SESSION_SCHEMA_VERSION r)) as [b|e|] eqn:Hb; [|done..]. injection He as He. subst b.
  destruct (stored_value (mkStoredSession SESSION_SCHEMA_VERSION r) _ ltac:(done) Hb) as (v & -> & Hs). cbn [map_err mbind outcome_bind]. rewrite Hs.
  apply decode_data.
Qed.

Lemma apply_op_of c m : apply_op (op_of c) m = Ok (apply_change m c).
Proof.
  unfold op_of, apply_change. destruct c as [k [e|]]; cbn; [|done]. rewrite migrate_data. by destruct e.
Qed.

Lemma line_printable c : Forall printable (line_of c).
Proof. apply (entry_text _ _ (line_encodes c)). Qed.

Lemma line_brace c : ∃ rest, line_of c = x7b :: rest.
Proof.
  destruct (entry_text _ _ (line_encodes c)) as [_ Hh]. destruct (line_of c) as [|b rest]; [done|].
  injection Hh as ->. by exists rest.
Qed.

Lemma not_blank l : Forall printable (x7b :: l) → ∃ chars, utf8 (x7b :: l) = Some chars ∧ forallb is_whitespace chars = false.
Proof. intros Hl. eexists. split; [by apply printable_utf8|]. done. Qed.

Lemma replay_line_of c m : replay_line calc_checksum (line_of c) m = Ok (apply_change m c).
Proof.
  pose proof (line_printable c) as Hp. destruct (line_brace c) as [rest Hl].
  unfold replay_line. rewrite Hl in *. destruct (not_blank rest Hp) as (chars & -> & ->).
  rewrite <-Hl. rewrite (entry_round _ _ (line_encodes c)). cbn [map_err mbind outcome_bind entry_of_op op checksum].
  destruct (op_to_vec_total (op_of c)) as [t Ht]. rewrite Ht. cbn [map_err mbind outcome_bind].
  rewrite Z.eqb_refl. cbn [negb reject]. apply apply_op_of.
Qed.

Lemma replay_lines_of cs m : replay_lines calc_checksum (line_of <$> cs) m = Ok (apply_changes m cs).
Proof.
  revert m. induction cs as [|c cs IH]; intros m; [done|]. cbn [fmap list_fmap replay_lines].
  rewrite replay_line_of. cbn [mbind outcome_bind]. by rewrite IH.
Qed.

Lemma replay_lines_app l1 l2 m :
  replay_lines calc_checksum (l1 ++ l2) m = (m' ← replay_lines calc_checksum l1 m; replay_lines calc_checksum l2 m').
Proof.
  revert m. induction l1 as [|l l1 IH]; intros m; [done|]. cbn [app replay_lines].
  destruct (replay_line calc_checksum l m) as [m'|e|]; cbn; [apply IH|done..].
Qed.

Lemma lines_of_log cs rest : lines_of (log_of cs ++ rest) = (line_of <$> cs) ++ lines_of rest.
Proof.
  induction cs as [|c cs IH]; [done|]. unfold log_of in *. cbn [mbind list_bind fmap list_fmap].
  rewrite <-!app_assoc. cbn [app]. rewrite lines_of_line by apply line_printable. by rewrite IH.
Qed.

Lemma log_of_app cs c : log_of (cs ++ [c]) = log_of cs ++ line_of c ++ [x0a].
Proof. unfold log_of. rewrite bind_app. cbn. by rewrite app_nil_r. Qed.

(* ------------------------------------------------------------------ *)
(** ** Recovery *)
(* ------------------------------------------------------------------ *)

Definition snapshot_entries_of (f : Files) : outcome StoreError (gmap Z Entry) :=
  match snapshot_file f with Some bytes => read_snapshot bytes ∅ | None => mret ∅ end.

(** What opening a directory reads from its files. *)
Definition recover (f : Files) : outcome StoreError (gmap Z Entry) :=
  m ← snapshot_entries_of f;
  replay_lines calc_checksum (lines_of (default [] (log_file f))) m.

(** The files hold a snapshot and the changes since, which lead to these entries. *)
Definition files_hold (f : Files) (m : gmap Z Entry) : Prop :=
  ∃ m0 cs, snapshot_entries_of f = Ok m0 ∧ log_file f = Some (log_of cs) ∧ m = apply_changes m0 cs.

(** A log that ends in a part of a line. *)
Lemma recover_torn f m0 cs tail :
  snapshot_entries_of f = Ok m0 → log_file f = Some (log_of cs ++ tail) →
  recover f = replay_lines calc_checksum (lines_of tail) (apply_changes m0 cs).
Proof.
  intros Hs Hl. unfold recover. rewrite Hs, Hl. cbn [mbind outcome_bind].
  change (default [] (Some ?x)) with x. by rewrite lines_of_log, replay_lines_app, replay_lines_of.
Qed.

Lemma files_hold_recover f m : files_hold f m → recover f = Ok m.
Proof. intros (m0 & cs & Hs & Hl & ->). rewrite (recover_torn f m0 cs []); [done|done|by rewrite app_nil_r]. Qed.

(** A line cut short is corrupt, unless nothing of it or nothing but the newline is missing. *)
Lemma replay_cut n c m :
  replay_lines calc_checksum (lines_of (take n (line_of c ++ [x0a]))) m =
    if (n =? 0)%nat then Ok m
    else if (n <? length (line_of c))%nat then Err CorruptLogEntry
    else Ok (apply_change m c).
Proof.
  destruct (Nat.eqb_spec n 0) as [->|Hn]; [done|]. pose proof (line_printable c) as Hp.
  destruct (Nat.ltb_spec n (length (line_of c))) as [Hlt|Hge].
  - rewrite take_app_le by lia. set (part := take n (line_of c)).
    assert (Hpart : Forall printable part) by by apply Forall_take.
    rewrite lines_of_end by done. destruct (line_brace c) as [rest Hb].
    assert (Hhd : ∃ rest', part = x7b :: rest') by (unfold part; rewrite Hb; destruct n as [|n']; [done|by eexists]).
    destruct Hhd as [rest' Hr]. rewrite Hr. cbn [replay_lines]. unfold replay_line.
    rewrite Hr in Hpart. destruct (not_blank rest' Hpart) as (chars & -> & ->). rewrite <-Hr.
    destruct (entry_cut (entry_of_op (op_of c)) part (drop n (line_of c))) as [msg ->]; [|..|done].
    + unfold part. rewrite take_drop. apply line_encodes.
    + intros Hd. apply (f_equal length) in Hd. rewrite length_drop in Hd. cbn in Hd. lia.
  - destruct (decide (n = length (line_of c))) as [->|Hne].
    + rewrite take_app_length, lines_of_end by done. destruct (line_brace c) as [rest Hb].
      assert (Hl : match line_of c with [] => [] | _ => [line_of c] end = line_of <$> [c]) by (cbn; by rewrite Hb).
      rewrite Hl, replay_lines_of. done.
    + rewrite take_ge by (rewrite length_app; cbn; lia). rewrite lines_of_line by done.
      change (lines_of []) with (@nil (list byte)). change [line_of c] with (line_of <$> [c]).
      by rewrite replay_lines_of.
Qed.

End Disk.
