(* ===== verification/DiskSteps.v ===== *)
(** * The calls of the disk store

    On a healthy disk every call changes the files in step with the memory, so the disk store keeps
    the contract of a session store, and what a directory holds is what opening it recovers. *)

From S2P Require Import Prelude Bytes Text Store StoreSpec StoreProps Disk DiskLemmas.

Section Disk.
Context {V : Type} `{HV : !JsonValue V, HJ : !Json, HR : !RecordJson V, HD : !DiskJson, HT : !JsonTotal}.
Context (calc_checksum : list byte → Z) (fault : nat → option IoFault) (iter : gmap Z Entry → list (Z * Entry)).
Context (iter_perm : ∀ m, iter m ≡ₚ map_to_list m).

Abbreviation store := (ST DiskSessionStore StoreError).

(** No call on the disk fails from now on. *)
Definition healthy (d : Disk) : Prop := ∀ n, (io_calls d ≤ n)%nat → fault n = None.

(** The files hold what is in memory. *)
Definition in_step (s : DiskSessionStore) : Prop := files_hold calc_checksum (files (root s)) (state s).

Definition disk_ok (s : DiskSessionStore) : Prop := healthy (root s) ∧ in_step s.

(* ------------------------------------------------------------------ *)
(** ** Calls on the disk *)
(* ------------------------------------------------------------------ *)

Lemma io_healthy {A} ok (partly : nat → Files → Files) d :
  healthy d → io_call (A:=A) fault ok partly d = ((ok (files d)).1, mkDisk (ok (files d)).2 (S (io_calls d))).
Proof. intros Hd. unfold io_call. rewrite Hd by done. by destruct (ok (files d)). Qed.

Lemma healthy_later d d' : healthy d → (io_calls d ≤ io_calls d')%nat → healthy d'.
Proof. intros Hd Hle n Hn. apply Hd. lia. Qed.

Lemma healthy_next d f : healthy d → healthy (mkDisk f (S (io_calls d))).
Proof. intros Hd n Hn. apply Hd. cbn in Hn. lia. Qed.

(** The append of a change, on any disk. *)
Lemma append_op_line c d :
  append_op calc_checksum fault (op_of c) d = append_log fault (line_of calc_checksum c ++ [x0a]) d.
Proof.
  unfold append_op, st_lift, mbind, ST_bind. destruct (op_to_vec_total (op_of c)) as [t Ht]. rewrite Ht.
  cbn [map_err]. pose proof (line_encodes calc_checksum c) as Hl. unfold entry_of_op in Hl. rewrite Ht in Hl.
  by rewrite Hl.
Qed.

Lemma append_op_healthy c d :
  healthy d →
  append_op calc_checksum fault (op_of c) d =
    (Ok (), mkDisk (put_log (default [] (log_file (files d)) ++ line_of calc_checksum c ++ [x0a]) (files d))
              (S (io_calls d))).
Proof. intros Hd. rewrite append_op_line. unfold append_log. by rewrite io_healthy. Qed.

Lemma files_hold_append f m c :
  files_hold calc_checksum f m →
  files_hold calc_checksum (put_log (default [] (log_file f) ++ line_of calc_checksum c ++ [x0a]) f) (apply_change m c).
Proof.
  intros (m0 & cs & Hs & Hl & ->). exists m0, (cs ++ [c]). split; [done|]. rewrite Hl. cbn.
  split; [by rewrite log_of_app|]. unfold apply_changes. by rewrite foldl_app.
Qed.

(** The log part of a change whose memory part is done. *)
Lemma log_change c m d :
  healthy d → files_hold calc_checksum (files d) m →
  ∃ d', append_op calc_checksum fault (op_of c) d = (Ok (), d') ∧ healthy d' ∧
        files_hold calc_checksum (files d') (apply_change m c).
Proof.
  intros Hd Hf. eexists. split; [by apply append_op_healthy|]. split; [by apply healthy_next|].
  cbn. by apply files_hold_append.
Qed.

Lemma log_deletes l m d st :
  healthy d → files_hold calc_checksum (files d) m →
  ∃ d', st_for l (λ cid, on_disk (append_op calc_checksum fault (Delete cid))) (mkDiskSessionStore st d) =
          (Ok (), mkDiskSessionStore st d') ∧ healthy d' ∧
        files_hold calc_checksum (files d') (foldl (λ m c, base.delete c m) m l).
Proof.
  revert m d. induction l as [|cid l IH]; intros m d Hd Hf; [by exists d|].
  destruct (log_change (cid, None) m d Hd Hf) as (d1 & H1 & Hd1 & Hf1).
  destruct (IH _ d1 Hd1 Hf1) as (d2 & H2 & Hd2 & Hf2). exists d2. split; [|by split].
  cbn [st_for]. unfold on_disk, st_zoom, mbind, ST_bind. cbn [root]. change (Delete cid) with (op_of (cid, None)).
  rewrite H1. exact H2.
Qed.

(* ------------------------------------------------------------------ *)
(** ** The contract *)
(* ------------------------------------------------------------------ *)

Definition disk_entries (s : DiskSessionStore) : entries := λ cid, state s !! cid.

Lemma live_visible cid now s : live_entry cid now (state s) = visible (disk_entries s) now cid.
Proof. done. Qed.

(** A change in memory followed by its line in the log. *)
Lemma change_call c f o s :
  f (state s) = apply_change (state s) c → o = op_of c → disk_ok s →
  ∃ s', (set_state f ;; on_disk (append_op calc_checksum fault o)) s = (Ok (), s') ∧
        disk_ok s' ∧ state s' = apply_change (state s) c.
Proof.
  intros Hf -> [Hd Hs]. destruct (log_change c (state s) (root s) Hd Hs) as (d & Ha & Hd' & Hf').
  exists (mkDiskSessionStore (f (state s)) d). split; [|split; [|done]]; [|split; [done|]; unfold in_step; cbn; by rewrite Hf].
  unfold set_state, st_modify, on_disk, st_zoom, mbind, ST_bind. cbn [root upd]. by rewrite Ha.
Qed.

(** A method that goes on after a change. *)
Lemma after_change {A} (h k : store ()) (rest : () → store A) s s' :
  (h ;; k) s = (Ok (), s') → (h ;; k ≫= rest) s = rest () s'.
Proof. unfold mbind, ST_bind. destruct (h s) as [[a|e|] s1]; intros H; [by rewrite H|discriminate H|discriminate H]. Qed.

Lemma write_call cid e s :
  disk_ok s → ∃ s',
    write_entry calc_checksum fault cid e s = (Ok (to_versioned e), s') ∧
    disk_ok s' ∧ state s' = <[cid := e]> (state s).
Proof.
  intros Hs.
  destruct (change_call (cid, Some e) <[cid := e]> (Disk.Upsert cid (version e) (expires_at_ms e) (data_of (record e))) s)
    as (s' & Hc & Hok & Hst); [done..|]. exists s'. split; [|by split].
  unfold write_entry, write_memory, write_log, st_lift. rewrite encode_data.
  exact (after_change _ _ (λ _, mret (to_versioned e)) s s' Hc).
Qed.

Lemma same_from_state now (s s' : DiskSessionStore) cid o :
  (∀ c, state s' !! c = if decide (c = cid) then o else state s !! c) →
  same_from now (set_entry cid o (disk_entries s)) (disk_entries s').
Proof. intros H c t _. unfold visible, set_entry, disk_entries. by rewrite H. Qed.

Lemma disk_load_law s cid now :
  disk_ok s → ∃ s',
    disk_load calc_checksum fault cid now s = (Ok (to_versioned <$> visible (disk_entries s) now cid), s') ∧ disk_ok s' ∧
    same_from now (disk_entries s) (disk_entries s').
Proof.
  intros Hs. rewrite <-live_visible. unfold disk_load, live_entry, st_get, mbind at 1 3, ST_bind.
  destruct (state s !! cid) as [e|] eqn:He; [|exists s; split; [done|by split]]. cbn [mbind option_bind].
  destruct (now <? expires_at_ms e) eqn:Hexp; [exists s; split; [done|by split]|]. zprop.
  destruct (change_call (cid, None) (base.delete cid) (Disk.Delete cid) s) as (s' & Hc & Hok & Hst); [done..|].
  exists s'. split; [|split; [done|]].
  - exact (after_change _ _ (λ _, mret None) s s' Hc).
  - etrans; [|apply (same_from_state now s s' cid None); intros c; rewrite Hst; apply apply_change_lookup].
    apply same_from_drop. unfold visible, disk_entries. rewrite He. cbn. by zdec.
Qed.

Lemma disk_cas_law s cid expected r ttl now :
  disk_ok s → ∃ s',
    let current := version <$> visible (disk_entries s) now cid in
    let e := next_entry current r ttl now in
    disk_compare_and_swap calc_checksum fault cid expected r ttl now s =
      (if decide (current = expected) then Ok (to_versioned e) else Err (CasConflict expected current), s') ∧
    disk_ok s' ∧
    same_from now (if decide (current = expected) then set_entry cid (Some e) (disk_entries s) else disk_entries s)
      (disk_entries s').
Proof.
  intros Hs. set (current := version <$> visible (disk_entries s) now cid). cbv zeta.
  unfold disk_compare_and_swap, st_get, st_reject, mbind, ST_bind. rewrite live_visible. fold current.
  case_bool_decide as Hcur; [rewrite !decide_True by done|rewrite !decide_False by done; by exists s].
  destruct (write_call cid (next_entry current r ttl now) s Hs) as (s' & Hw & Hok & Hst).
  exists s'. split; [exact Hw|]. split; [done|]. apply same_from_state. intros c. rewrite Hst.
  case_decide as Hc; [subst c; by rewrite lookup_insert_eq|by rewrite lookup_insert_ne].
Qed.

Lemma disk_upsert_law s cid r ttl now :
  disk_ok s → ∃ s',
    let e := next_entry (version <$> visible (disk_entries s) now cid) r ttl now in
    disk_upsert calc_checksum fault cid r ttl now s = (Ok (to_versioned e), s') ∧ disk_ok s' ∧
    same_from now (set_entry cid (Some e) (disk_entries s)) (disk_entries s').
Proof.
  intros Hs. set (e := next_entry (version <$> visible (disk_entries s) now cid) r ttl now). cbv zeta.
  destruct (write_call cid e s Hs) as (s' & Hw & Hok & Hst).
  exists s'. split; [exact Hw|]. split; [done|]. apply same_from_state. intros c. rewrite Hst.
  case_decide as Hc; [subst c; by rewrite lookup_insert_eq|by rewrite lookup_insert_ne].
Qed.

Lemma disk_delete_law s cid :
  disk_ok s → ∃ s', disk_delete calc_checksum fault cid s = (Ok (), s') ∧ disk_ok s' ∧
    ∀ now, same_from now (set_entry cid None (disk_entries s)) (disk_entries s').
Proof.
  intros Hs. destruct (change_call (cid, None) (base.delete cid) (Disk.Delete cid) s) as (s' & Hc & Hok & Hst); [done..|].
  exists s'. split; [exact Hc|]. split; [done|]. intros now. apply same_from_state.
  intros c. rewrite Hst. apply apply_change_lookup.
Qed.

(** The loop that collects expired entries is the one of a shard. *)
Lemma collect_expired_keys now limit expired l : collect_expired now limit expired l = expired_keys now limit 0 expired l.
Proof.
  revert expired. induction l as [|[cid e] l IH]; intros expired; [done|]. cbn [collect_expired expired_keys].
  by rewrite Z.add_0_l, !IH.
Qed.

Lemma disk_scan_law s now limit :
  disk_ok s → 0 ≤ limit → ∃ s' removed,
    disk_scan_expired calc_checksum fault iter now limit s = (Ok removed, s') ∧ disk_ok s' ∧ zlen removed ≤ limit ∧ NoDup removed ∧
    (∀ cid, cid ∈ removed → ∃ e, disk_entries s cid = Some e ∧ expires_at_ms e ≤ now) ∧
    (∀ cid, disk_entries s' cid = if decide (cid ∈ removed) then None else disk_entries s cid) ∧
    (zlen removed < limit → ∀ cid e, disk_entries s' cid = Some e → now < expires_at_ms e).
Proof.
  intros [Hd Hf] Hlim. unfold disk_scan_expired. destruct (limit =? 0) eqn:Hl; zprop.
  { exists s, []. change (zlen []) with 0. split; [done|]. split; [done|]. split; [lia|].
    split; [apply NoDup_nil_2|]. split; [set_solver|]. split; [|lia]. intros c. by rewrite decide_False by set_solver. }
  unfold st_get, mbind, ST_bind. rewrite collect_expired_keys.
  destruct (shard_keys iter iter_perm now limit [] (state s)) as (ks & Hks & Hk & Hnd & Hin & Hall);
    [change (zlen []) with 0; lia|]. change (zlen []) with 0 in *. rewrite Hks.
  unfold set_state, st_modify, mbind, ST_bind, mret, ST_ret. cbn [upd].
  destruct (log_deletes ks (state s) (root s) (foldl (λ m c, base.delete c m) (state s) ks) Hd Hf) as (d & -> & Hd' & Hf').
  eexists _, ks. split; [done|]. split; [by split|]. split; [lia|]. split; [done|]. split; [exact Hin|].
  assert (He : ∀ c, foldl (λ m c, base.delete c m) (state s) ks !! c = if decide (c ∈ ks) then None else state s !! c)
    by apply delete_all_lookup.
  split; [exact He|]. intros Hlt c e Hce. unfold disk_entries in Hce. cbn [state] in Hce. rewrite He in Hce.
  case_decide as Hc; [done|]. destruct (decide (now < expires_at_ms e)); [done|]. exfalso. apply Hc.
  eapply Hall; [lia|exact Hce|lia].
Qed.

#[global] Instance disk_lawful : @LawfulStore DiskSessionStore (disk_store calc_checksum fault iter).
Proof.
  refine (@Build_LawfulStore _ (disk_store calc_checksum fault iter) disk_ok disk_entries _ _ _ _ _).
  - exact disk_load_law.
  - exact disk_cas_law.
  - exact disk_upsert_law.
  - exact disk_delete_law.
  - exact disk_scan_law.
Defined.

End Disk.
