(* ===== verification/DiskSamples.v ===== *)
(** * A concrete codec for the disk store

    The encoders of the disk store are parameters of its model; this file gives them one executable
    instance that satisfies their laws, for the witnesses. *)

From S2P Require Import Prelude Bytes Text Store Disk DiskLemmas.

(** A codec for values that are lists of numbers: the bits of each number and a comma, between
    braces. *)
Fixpoint bits (p : positive) : list byte :=
  match p with xH => [] | xO p => x30 :: bits p | xI p => x31 :: bits p end.

Fixpoint numbers_text (ps : list positive) : list byte :=
  match ps with [] => [x7d] | p :: ps' => bits p ++ x2c :: numbers_text ps' end.

(** The rest of a number, and the numbers after it. *)
Fixpoint read_numbers (l : list byte) : option (positive * list positive) :=
  match l with
  | x2c :: l' =>
      match l' with
      | [x7d] => Some (xH, [])
      | _ => '(p, ps) ← read_numbers l'; Some (xH, p :: ps)
      end
  | x30 :: l' => '(p, ps) ← read_numbers l'; Some (xO p, ps)
  | x31 :: l' => '(p, ps) ← read_numbers l'; Some (xI p, ps)
  | _ => None
  end.

Lemma read_numbers_text p ps : read_numbers (bits p ++ x2c :: numbers_text ps) = Some (p, ps).
Proof.
  revert p. induction ps as [|q ps IH]; intros p.
  - induction p as [p Hp|p Hp|]; cbn in *; [by rewrite Hp|by rewrite Hp|done].
  - induction p as [p Hp|p Hp|]; cbn [bits app read_numbers numbers_text] in *; [by rewrite Hp|by rewrite Hp|].
    rewrite IH. destruct q; cbn; [done|done|by destruct (numbers_text ps)].
Qed.

Lemma read_numbers_cut p ps a b :
  bits p ++ x2c :: numbers_text ps = a ++ b → b ≠ [] → read_numbers a = None.
Proof.
  revert p a. induction ps as [|q ps IH]; intros p; induction p as [p Hp|p Hp|]; intros [|c a] Heq Hb; try done;
    cbn [bits app numbers_text] in Heq; injection Heq as <- Heq; cbn [read_numbers];
    try (by rewrite (Hp a Heq Hb)).
  - destruct a as [|c a]; [done|]. cbn in Heq. injection Heq as <- Heq.
    symmetry in Heq. by apply app_nil in Heq as [_ ->].
  - pose proof (IH q a Heq Hb) as Hn. rewrite Hn.
    destruct (decide (a = [x7d])) as [->|Ha]; [by destruct q|]. destruct a as [|[] [|]]; done.
Qed.

Lemma numbers_printable ps : Forall printable (numbers_text ps).
Proof.
  induction ps as [|p ps IH]; cbn; [by repeat constructor|]. apply Forall_app. split; [|by constructor].
  induction p as [p Hp|p Hp|]; cbn; constructor; done.
Qed.

(** The values the codec is used on. *)
Class Flat (A : Type) : Type := {
  flat : A → list Z;
  unflat : list Z → option A;
  unflat_flat a : unflat (flat a) = Some a;
}.

Section SampleCodec.
Context {A : Type} `{!Flat A}.

Definition sample_text (a : A) : list byte := x7b :: x2c :: numbers_text (encode <$> flat a).

Definition sample_value (l : list byte) : outcome string A :=
  match l with
  | x7b :: l' =>
      match ('(_, ps) ← read_numbers l'; zs ← mapM decode ps; unflat zs) with
      | Some a => Ok a
      | None => Err "expected value"%string
      end
  | _ => Err "expected value"%string
  end.

Lemma decode_all (zs : list Z) : mapM decode (encode <$> zs) = Some zs.
Proof. induction zs as [|z zs IH]; [done|]. cbn. rewrite decode_encode. cbn. by rewrite IH. Qed.

Lemma sample_value_text a : sample_value (sample_text a) = Ok a.
Proof.
  unfold sample_value, sample_text. pose proof (read_numbers_text xH (encode <$> flat a)) as Hr. cbn [bits app] in Hr.
  rewrite Hr. cbn [mbind option_bind]. rewrite decode_all. cbn [mbind option_bind]. by rewrite unflat_flat.
Qed.

Lemma sample_value_cut v a b : sample_text v = a ++ b → b ≠ [] → ∃ message, sample_value a = Err message.
Proof.
  unfold sample_text. intros Heq Hb. destruct a as [|c a]; [by eexists|]. cbn [app] in Heq. injection Heq as <- Heq.
  exists "expected value"%string. unfold sample_value. by rewrite (read_numbers_cut xH _ a b Heq Hb).
Qed.

Lemma printable_text a : Forall printable (sample_text a).
Proof. constructor; [done|]. constructor; [done|]. apply numbers_printable. Qed.

End SampleCodec.

Definition string_codes (s : string) : list Z := (λ a, Z.of_N (Ascii.N_of_ascii a)) <$> String.list_ascii_of_string s.

Definition codes_string (l : list Z) : string :=
  String.string_of_list_ascii ((λ z, Ascii.ascii_of_N (Z.to_N z)) <$> l).

Lemma codes_string_codes s : codes_string (string_codes s) = s.
Proof.
  unfold codes_string, string_codes. etrans; [|apply String.string_of_list_ascii_of_string]. f_equal.
  induction (String.list_ascii_of_string s) as [|a l IH]; [done|]. cbn.
  rewrite N2Z.id, Ascii.ascii_N_embedding. f_equal. exact IH.
Qed.

Definition bytes_codes (l : list byte) : list Z := byte_to_Z <$> l.

Lemma codes_bytes l : byte_of_Z <$> bytes_codes l = l.
Proof. unfold bytes_codes. induction l as [|b l IH]; [done|]. cbn. by rewrite byte_of_Z_to_Z, IH. Qed.

Arguments string_codes : simpl never.
Arguments codes_string : simpl never.
Arguments bytes_codes : simpl never.

#[export] Instance StoredSession_flat : Flat StoredSession.
Proof.
  refine {| flat := λ s, let r := stored_record s in
              schema_version s :: sr_cid r :: negotiated_msr_interval_ms r :: disconnect_window_ms r ::
              last_ordered_rx r :: last_ordered_tx r :: string_codes (peer_id r);
            unflat := λ l, match l with
              | v :: a :: b :: c :: d :: e :: p => Some (mkStoredSession v (mkSessionRecord a (codes_string p) b c d e))
              | _ => None end |}.
  intros [v [a p b c d e]]. cbn. by rewrite codes_string_codes.
Defined.

Definition op_codes (o : DiskOp) : list Z :=
  match o with Disk.Upsert a b c d => 0 :: a :: b :: c :: bytes_codes d | Disk.Delete a => [1; a] end.

#[export] Instance DiskOp_flat : Flat DiskOp.
Proof.
  refine {| flat := op_codes;
            unflat := λ l, match l with
              | 0 :: a :: b :: c :: d => Some (Disk.Upsert a b c (byte_of_Z <$> d))
              | [1; a] => Some (Disk.Delete a)
              | _ => None end |}.
  intros [a b c d|a]; cbn; [by rewrite codes_bytes|done].
Defined.

#[export] Instance DiskLogEntry_flat : Flat DiskLogEntry.
Proof.
  refine {| flat := λ e, checksum e :: flat (op e);
            unflat := λ l, match l with c :: l' => o ← unflat l'; Some (mkDiskLogEntry o c) | [] => None end |}.
  intros [o c]. cbn [checksum op]. by rewrite unflat_flat.
Defined.

Fixpoint items_codes (l : list DiskSnapshotEntry) : list Z :=
  match l with
  | [] => []
  | i :: l' => dse_cid i :: dse_version i :: dse_expires_at_ms i :: zlen (dse_data i) :: bytes_codes (dse_data i) ++ items_codes l'
  end.

Fixpoint codes_items (fuel : nat) (l : list Z) : option (list DiskSnapshotEntry) :=
  match fuel, l with
  | _, [] => Some []
  | S fuel', a :: b :: c :: n :: l' =>
      rest ← codes_items fuel' (drop (Z.to_nat n) l');
      Some (mkDiskSnapshotEntry a b c (byte_of_Z <$> take (Z.to_nat n) l') :: rest)
  | _, _ => None
  end.

Lemma codes_items_codes l fuel : (length l ≤ fuel)%nat → codes_items fuel (items_codes l) = Some l.
Proof.
  revert fuel. induction l as [|[a b c d] l IH]; intros fuel Hf; [by destruct fuel|].
  destruct fuel as [|fuel]; [cbn in Hf; lia|]. cbn [items_codes codes_items dse_cid dse_version dse_expires_at_ms dse_data].
  assert (Hn : Z.to_nat (zlen d) = length (bytes_codes d)) by (unfold zlen, bytes_codes; rewrite length_fmap; lia).
  rewrite Hn, drop_app_length, take_app_length, IH by (cbn in Hf; lia). cbn. by rewrite codes_bytes.
Qed.

#[export] Instance DiskSnapshot_flat : Flat DiskSnapshot.
Proof.
  refine {| flat := λ s, ds_schema_version s :: zlen (ds_entries s) :: items_codes (ds_entries s);
            unflat := λ l, match l with
              | v :: n :: l' => es ← codes_items (Z.to_nat n) l'; Some (mkDiskSnapshot v es)
              | _ => None end |}.
  intros [v es]. cbn [ds_schema_version ds_entries]. rewrite codes_items_codes by (unfold zlen; lia). done.
Defined.

#[export] Instance sample_json : Json.
Proof.
  refine {| to_vec := λ s, Ok (sample_text s); from_slice := sample_value |}.
  intros s bytes [= <-]. apply sample_value_text.
Defined.

#[export] Instance sample_json_value : JsonValue StoredSession.
Proof.
  refine {| get := λ key v, if String.eqb key "schema_version" then Some v else None;
            as_array := λ _, None; as_str := λ _, None;
            as_u64 := λ v, if bool_decide (is_u64 (schema_version v)) then Some (schema_version v) else None |}.
  intros v n H. case_bool_decide; [by injection H as <-|done].
Defined.

#[export] Instance sample_record_json : RecordJson StoredSession.
Proof.
  refine {| value_from_slice := sample_value; legacy_from_value := λ _, Err "missing field"%string |}.
  intros s bytes Hs [= <-]. exists s. split; [apply sample_value_text|]. cbn.
  rewrite bool_decide_eq_true_2; [done|]. unfold_ints. lia.
Defined.

#[export] Instance sample_disk_json : DiskJson.
Proof.
  refine {| op_to_vec := λ o, Ok (sample_text o);
            entry_to_vec := λ e, Ok (sample_text e); entry_from_str := sample_value;
            snapshot_to_vec := λ s, Ok (sample_text s); snapshot_from_slice := sample_value |}.
  - intros e text [= <-]. split; [apply printable_text|done].
  - intros e text [= <-]. apply sample_value_text.
  - intros e a b [= Heq]. by apply (sample_value_cut e).
  - intros s text [= <-]. split; [done|apply sample_value_text].
Defined.

#[export] Instance sample_total : JsonTotal.
Proof. constructor; intros; by eexists. Qed.

Definition sample_checksum (l : list byte) : Z := foldl (λ h b, (h * 31 + byte_to_Z b) mod 2 ^ 64) 7 l.

