(* ===== verification/DiskProps.v ===== *)
(** * Correctness of the disk store

    Restarts and compactions are invisible to the callers of a store on a healthy disk; a
    compaction that fails anywhere loses nothing; a log line cut short makes the directory
    impossible to open; and since the log is written outside the lock, racing calls can leave a
    directory that recovers an older entry than the one in memory. *)

From S2P Require Import Prelude Bytes Text Store StoreSpec StoreProps Disk DiskLemmas DiskSteps DiskSamples.

Section Disk.
Context {V : Type} `{HV : !JsonValue V, HJ : !Json, HR : !RecordJson V, HD : !DiskJson, HT : !JsonTotal}.
Context (calc_checksum : list byte → Z) (fault : nat → option IoFault) (iter : gmap Z Entry → list (Z * Entry)).
Context (iter_perm : ∀ m, iter m ≡ₚ map_to_list m).

Abbreviation store := (ST DiskSessionStore StoreError).
Abbreviation in_step := (in_step calc_checksum).
Abbreviation disk_ok := (disk_ok calc_checksum fault).
Abbreviation healthy := (healthy fault).

(* ------------------------------------------------------------------ *)
(** ** Opening a directory *)
(* ------------------------------------------------------------------ *)

Ltac later := eapply healthy_later; [eassumption|cbn; lia].

Lemma read_file_healthy path d :
  healthy d →
  read_file fault path d =
    (ok_or (path (files d)) (Io "No such file or directory (os error 2)"), mkDisk (files d) (S (io_calls d))).
Proof. intros Hd. unfold read_file. by rewrite io_healthy. Qed.

(** The part of opening after the log exists. *)
Lemma open_existing d l :
  healthy d → log_file (files d) = Some l → ∃ n,
    (m ← (if bool_decide (snapshot_file (files d) = None) then mret ∅ else load_snapshot fault ∅);
     replay_log calc_checksum fault m) d = (recover calc_checksum (files d), mkDisk (files d) n) ∧ (io_calls d ≤ n)%nat.
Proof.
  intros Hd Hl. unfold recover, snapshot_entries_of, load_snapshot, replay_log, st_lift, mbind, ST_bind, mret, ST_ret.
  assert (Hreplay : ∀ d' m, files d' = files d → healthy d' →
    match read_file fault log_file d' with
    | (Ok a, s') => (replay_lines calc_checksum (lines_of a) m, s')
    | (Err e, s') => (Err e, s')
    | (Panic, s') => (Panic, s')
    end = (replay_lines calc_checksum (lines_of (default [] (log_file (files d)))) m, mkDisk (files d) (S (io_calls d')))).
  { intros d' m Hf Hd'. rewrite read_file_healthy by done. by rewrite Hf, Hl. }
  destruct (snapshot_file (files d)) as [sn|] eqn:Hs.
  - rewrite bool_decide_eq_false_2 by done. rewrite read_file_healthy, Hs by done. cbn [ok_or].
    destruct (read_snapshot sn ∅) as [m|e|]; cbn [outcome_bind].
    + rewrite Hreplay; [|done|later]. eexists. split; [done|cbn; lia].
    + eexists. split; [done|lia].
    + eexists. split; [done|lia].
  - rewrite bool_decide_eq_true_2 by done. rewrite Hreplay by done. eexists. split; [done|lia].
Qed.

Lemma open_recovers d :
  healthy d → ∃ d',
    open_entries calc_checksum fault d = (recover calc_checksum (files d), d') ∧ healthy d' ∧
    files d' = files d <| log_file := Some (default [] (log_file (files d))) |>.
Proof.
  intros Hd. unfold open_entries, create_dir_all, write_file, st_get, st_when.
  erewrite st_bind_ok by by rewrite io_healthy. cbn [fst snd].
  erewrite st_bind_ok by done. cbn [files]. destruct (log_file (files d)) as [l|] eqn:Hl.
  - rewrite bool_decide_eq_false_2 by done. erewrite st_bind_ok by done. erewrite st_bind_ok by done.
    destruct (open_existing (mkDisk (files d) (S (io_calls d))) l) as (n & Ho & Hn); [later|done|].
    eexists. split; [exact Ho|]. split; [eapply healthy_later; [exact Hd|cbn in *; lia]|].
    destruct d as [[lf sf tf] k]. cbn in *. by subst lf.
  - rewrite bool_decide_eq_true_2 by done. erewrite st_bind_ok by (rewrite io_healthy; [done|later]).
    erewrite st_bind_ok by done. cbn [fst snd files io_calls].
    destruct (open_existing (mkDisk (put_log [] (files d)) (S (S (io_calls d)))) []) as (n & Ho & Hn); [later|done|].
    eexists (mkDisk (put_log [] (files d)) n). split; [|split; [eapply healthy_later; [exact Hd|cbn in *; lia]|done]].
    etrans; [exact Ho|]. f_equal. unfold recover, snapshot_entries_of. cbn. by rewrite Hl.
Qed.

(** Reopening the directory of a store gives the store. *)
Lemma reopen s :
  disk_ok s → ∃ s' d', new calc_checksum fault (root s) = (Ok s', d') ∧ disk_ok s' ∧ state s' = state s.
Proof.
  intros [Hd Hs]. destruct (open_recovers (root s) Hd) as (d' & Ho & Hd' & Hf).
  unfold new. rewrite Ho, (files_hold_recover _ _ _ Hs). exists (mkDiskSessionStore (state s) d'), d'.
  split; [done|]. split; [|done]. split; [done|]. unfold DiskSteps.in_step. cbn [root state]. rewrite Hf.
  destruct Hs as (m0 & cs & H1 & H2 & H3). exists m0, cs. rewrite H2. by split_and!.
Qed.

(* ------------------------------------------------------------------ *)
(** ** Compaction *)
(* ------------------------------------------------------------------ *)

Definition item_of (p : Z * Entry) : DiskSnapshotEntry :=
  mkDiskSnapshotEntry p.1 (version p.2) (expires_at_ms p.2) (data_of (record p.2)).

Lemma snapshot_entries_items l : snapshot_entries l = Ok (item_of <$> l).
Proof.
  induction l as [|[cid e] l IH]; [done|]. cbn [snapshot_entries]. rewrite encode_data. cbn [mbind outcome_bind].
  by rewrite IH.
Qed.

Lemma load_items l m :
  load_entries (item_of <$> l) m = Ok (foldl (λ m p, <[p.1 := p.2]> m) m l).
Proof.
  revert m. induction l as [|[cid e] l IH]; intros m; [done|]. cbn [fmap list_fmap load_entries item_of dse_data foldl].
  rewrite decode_data. cbn [mbind outcome_bind]. rewrite IH. by destruct e.
Qed.

Lemma insert_all (l : list (Z * Entry)) m : l ≡ₚ map_to_list m → foldl (λ m p, <[p.1 := p.2]> m) ∅ l = m.
Proof.
  intros Hl. assert (Hf : foldl (λ m p, <[p.1 := p.2]> m) (∅ : gmap Z Entry) l = list_to_map (reverse l)).
  { clear Hl. induction l as [|[i e] l IH] using rev_ind; [done|]. rewrite foldl_app, reverse_snoc. cbn. by rewrite IH. }
  rewrite Hf, <-(list_to_map_to_list m). apply list_to_map_proper; rewrite reverse_Permutation, Hl; [|done].
  apply NoDup_fst_map_to_list.
Qed.

(** The text of a snapshot of the entries. *)
Lemma payload_reads m payload :
  snapshot_to_vec (mkDiskSnapshot SESSION_SCHEMA_VERSION (item_of <$> iter m)) = Ok payload →
  read_snapshot payload ∅ = Ok m.
Proof.
  intros Hp. destruct (snapshot_round _ _ Hp) as [Hne Hr]. unfold read_snapshot. destruct payload as [|b p]; [done|].
  rewrite Hr. cbn. rewrite load_items. f_equal. by apply insert_all.
Qed.

(** The disk part of a compaction of [m], however it goes: the changes [cs] it finds in the log
    were made after the store was in the state [base]. *)
Lemma compact_write_spec m s :
  state s = m → in_step s →
  let '(o, s') := compact_write fault (item_of <$> iter m) s in
  state s' = m ∧ in_step s' ∧ (healthy (root s) → o = Ok () ∧ healthy (root s')).
Proof.
  intros Hm (m0 & cs & Hsn & Hl & Hst). unfold compact_write, st_lift, mbind, ST_bind.
  destruct (snapshot_to_vec_total (mkDiskSnapshot SESSION_SCHEMA_VERSION (item_of <$> iter m))) as [payload Hp].
  rewrite Hp. cbn [map_err]. pose proof (payload_reads m payload Hp) as Hread.
  assert (Hhold : ∀ f, snapshot_file f = snapshot_file (files (root s)) → log_file f = log_file (files (root s)) →
    files_hold calc_checksum f m).
  { intros f H1 H2. exists m0, cs. unfold snapshot_entries_of in *. rewrite H1, H2. by subst m. }
  assert (Hnew : ∀ f, snapshot_file f = Some payload → log_file f = log_file (files (root s)) → files_hold calc_checksum f m).
  { intros f H1 H2. exists m, cs. unfold snapshot_entries_of. rewrite H1, H2. split_and!; [done|done|].
    rewrite <-Hm, Hst. symmetry. apply apply_changes_idem. }
  assert (Hempty : ∀ f, snapshot_file f = Some payload → log_file f = Some [] → files_hold calc_checksum f m).
  { intros f H1 H2. exists m, []. unfold snapshot_entries_of. by rewrite H1, H2. }
  destruct s as [st [f n]]. cbn [state root files io_calls] in *. subst st.
  unfold on_disk, st_zoom, write_file, rename_tmp, io_call. cbn [root io_calls files upd].
  assert (Hhe : ∀ k, (n ≤ k)%nat → fault k ≠ None → ¬ healthy (mkDisk f n)) by (intros k Hk Hne Hd; by apply Hne, Hd).
  destruct (fault n) as [[msg|k msg]|] eqn:F1; cbn -[take].
  1-2: split; [done|]; split; [by apply Hhold|intros Hd; exfalso; eapply (Hhe n); [lia|by rewrite F1|done]].
  destruct (fault (S n)) as [[msg|k msg]|] eqn:F2; cbn -[take].
  1-2: split; [done|]; split; [by apply Hhold|intros Hd; exfalso; eapply (Hhe (S n)); [lia|by rewrite F2|done]].
  destruct (fault (S (S n))) as [[msg|k msg]|] eqn:F3; cbn -[take].
  - split; [done|]. split; [by apply Hnew|intros Hd; exfalso; eapply (Hhe (S (S n))); [lia|by rewrite F3|done]].
  - split; [done|]. split; [apply Hempty; cbn; by rewrite ?take_nil|].
    intros Hd; exfalso; eapply (Hhe (S (S n))); [lia|by rewrite F3|done].
  - split; [done|]. split; [by apply Hempty|]. intros Hd. split; [done|]. later.
Qed.

(* ------------------------------------------------------------------ *)
(** ** Runs with restarts and compactions *)
(* ------------------------------------------------------------------ *)

Inductive disk_event : Type := Ask (q : store_request) | Reopen | Compact.

(** The requests of a run. *)
Definition asked (es : list disk_event) : list store_request :=
  es ≫= λ e, match e with Ask q => [q] | _ => [] end.

(** The answers of a run; a restart or a compaction that fails ends it with an answer of its own. *)
Fixpoint disk_run (es : list disk_event) (s : DiskSessionStore) : list (outcome StoreError store_response) :=
  match es with
  | [] => []
  | Ask q :: es' =>
      let '(o, s') := @serve _ (disk_store calc_checksum fault iter) q s in
      o :: disk_run es' s'
  | Reopen :: es' =>
      match (new calc_checksum fault (root s)).1 with
      | Ok s' => disk_run es' s'
      | Err e => [Err e]
      | Panic => [Panic]
      end
  | Compact :: es' =>
      match compact fault iter s with
      | (Ok _, s') => disk_run es' s'
      | (Err e, _) => [Err e]
      | (Panic, _) => [Panic]
      end
  end.

Lemma compact_healthy s :
  disk_ok s → ∃ s', compact fault iter s = (Ok (), s') ∧ disk_ok s' ∧ state s' = state s.
Proof.
  intros [Hd Hs]. unfold compact, compact_collect, st_get, st_lift, mbind, ST_bind.
  rewrite snapshot_entries_items. pose proof (compact_write_spec (state s) s eq_refl Hs) as Hc.
  destruct (compact_write fault (item_of <$> iter (state s)) s) as [o s']. destruct Hc as (Hst & Hin & Hok).
  destruct (Hok Hd) as [-> Hd']. by exists s'.
Qed.

Lemma disk_run_refines now es m s :
  disk_ok s → same_from now m (disk_entries s) → clocked now (asked es) → spec_run (asked es) m (disk_run es s).
Proof.
  revert now m s. induction es as [|[q| |] es IH]; intros now m s Hs Hm Hq; [done| | |].
  - change (asked (Ask q :: es)) with (q :: asked es) in *. cbn [disk_run].
    destruct (@serve_refines _ (disk_store calc_checksum fault iter) (disk_lawful calc_checksum fault iter iter_perm)
      now q (asked es) m s Hs Hm Hq) as (o & s' & later & -> & Hok & Ha & Hqs & Hsame).
    split; [done|]. by apply (IH later).
  - change (asked (Reopen :: es)) with (asked es) in *. cbn [disk_run].
    destruct (reopen s Hs) as (s' & d' & -> & Hok & Hst). cbn [fst]. apply (IH now); [done| |done].
    unfold disk_entries in *. by rewrite Hst.
  - change (asked (Compact :: es)) with (asked es) in *. cbn [disk_run].
    destruct (compact_healthy s Hs) as (s' & -> & Hok & Hst). apply (IH now); [done| |done].
    unfold disk_entries in *. by rewrite Hst.
Qed.

End Disk.

Section Properties.
Context {V : Type} `{HV : !JsonValue V, HJ : !Json, HR : !RecordJson V, HD : !DiskJson, HT : !JsonTotal}.
Context (calc_checksum : list byte → Z) (iter : gmap Z Entry → list (Z * Entry)).

(** No call on the disk fails. *)
Definition no_fault : nat → option IoFault := λ _, None.

(** What opening a directory gives, on a disk that works. *)
Definition reopened (d : Disk) : outcome StoreError (gmap Z Entry) :=
  s ← (new calc_checksum no_fault d).1; mret (state s).

Lemma reopened_recover d : reopened d = recover calc_checksum (files d).
Proof.
  unfold reopened, new. destruct (open_recovers calc_checksum no_fault d) as (d' & -> & _); [done|].
  by destruct (recover calc_checksum (files d)).
Qed.

(** C10. Restarts and compactions are invisible: on a disk that works, over any requests under a
    clock that does not run backwards, with the directory reopened and compacted at any points
    in between, the disk store answers as the map from connections to entries does, from an
    empty directory on; no restart and no compaction fails. *)
Theorem disk_store_refines_map (now : Z) (es : list disk_event) :
  (∀ m, iter m ≡ₚ map_to_list m) → clocked now (asked es) →
  ∃ s0, (new calc_checksum no_fault (mkDisk no_files 0)).1 = Ok s0 ∧
    spec_run (asked es) (λ _, None) (disk_run calc_checksum no_fault iter es s0).
Proof.
  intros Hiter Hq. destruct (open_recovers calc_checksum no_fault (mkDisk no_files 0)) as (d & Ho & Hd & Hf); [done|].
  exists (mkDiskSessionStore ∅ d). unfold new. rewrite Ho. split; [done|].
  apply (disk_run_refines calc_checksum no_fault iter Hiter now); [|done|done].
  split; [done|]. exists ∅, []. cbn [root]. by rewrite Hf.
Qed.

(** C17. A compaction loses nothing, wherever it stops: whatever goes wrong with the temporary
    file, the renaming or the truncation of the log, and whatever part of a write reached the
    disk, the memory is unchanged and opening the directory afterwards recovers exactly what is
    in memory; if nothing goes wrong, it succeeds. *)
Theorem compaction_is_crash_safe (fault : nat → option IoFault) (s : DiskSessionStore) :
  (∀ m, iter m ≡ₚ map_to_list m) → in_step calc_checksum s →
  let '(o, s') := compact fault iter s in
  state s' = state s ∧ in_step calc_checksum s' ∧ reopened (root s') = Ok (state s) ∧
  (healthy fault (root s) → o = Ok ()).
Proof.
  intros Hiter Hs. unfold compact, compact_collect, st_get, st_lift, mbind, ST_bind.
  rewrite snapshot_entries_items. pose proof (compact_write_spec calc_checksum fault iter Hiter (state s) s eq_refl Hs) as Hc.
  destruct (compact_write fault (item_of <$> iter (state s)) s) as [o s']. destruct Hc as (Hst & Hin & Hok).
  split_and!; [done|done| |intros Hd; by apply Hok]. rewrite reopened_recover, <-Hst. by apply files_hold_recover.
Qed.

(** C29. A write cut short can cost the whole store: when the disk fails after [n] bytes of the
    log line of an upsert, the call fails although the memory holds the new entry, and opening
    the directory afterwards gives the old entries if nothing was written, the new ones if only
    the newline is missing, and otherwise fails with [CorruptLogEntry], so that no session of
    the directory can be loaded any more. *)
Theorem torn_write_bricks_store (fault : nat → option IoFault) (cid ttl now : Z) (r : SessionRecord) (n : nat)
    (message : string) (s : DiskSessionStore) :
  in_step calc_checksum s → fault (io_calls (root s)) = Some (Partly n message) →
  let e := next_entry (version <$> live_entry cid now (state s)) r ttl now in
  let '(o, s') := disk_upsert calc_checksum fault cid r ttl now s in
  o = Err (Io message) ∧ state s' = <[cid := e]> (state s) ∧
  reopened (root s') =
    if (n =? 0)%nat then Ok (state s)
    else if (n <? length (line_of calc_checksum (cid, Some e)))%nat then Err CorruptLogEntry
    else Ok (state s').
Proof.
  intros (m0 & cs & Hsn & Hl & Hst) Hf e. unfold disk_upsert, st_get, mbind at 1, ST_bind at 1. fold e.
  unfold write_entry, write_memory, write_log, on_disk, st_zoom, st_lift, set_state, st_modify, mbind, ST_bind, mret, ST_ret.
  rewrite encode_data. cbn [root upd].
  change (Disk.Upsert cid (version e) (expires_at_ms e) (data_of (record e))) with (op_of (cid, Some e)).
  rewrite append_op_line. unfold append_log, io_call. rewrite Hf. cbn [root state upd].
  split_and!; [done|done|]. rewrite reopened_recover.
  erewrite (recover_torn calc_checksum _ m0 cs); [|exact Hsn|cbn; by rewrite Hl].
  rewrite replay_cut, <-Hst. done.
Qed.

(* ------------------------------------------------------------------ *)
(** ** Calls that race *)
(* ------------------------------------------------------------------ *)

Section Races.
Context (cid ttl now : Z).

(** Two upserts whose memory parts come in one order and whose log parts come in the other: both
    drop the lock before they write the log. *)
Definition racing_upserts (ra rb : SessionRecord) : ST DiskSessionStore StoreError () :=
  s ← st_get;
  let ea := next_entry (version <$> live_entry cid now (state s)) ra ttl now in
  a ← write_memory cid ea;
  s ← st_get;
  let eb := next_entry (version <$> live_entry cid now (state s)) rb ttl now in
  b ← write_memory cid eb;
  write_log calc_checksum no_fault cid eb b ;;
  write_log calc_checksum no_fault cid ea a.

(** An upsert between the two parts of a compaction. *)
Definition racing_compaction (r : SessionRecord) : ST DiskSessionStore StoreError () :=
  entries ← compact_collect iter;
  disk_upsert calc_checksum no_fault cid r ttl now ;;
  compact_write no_fault entries.

End Races.

Lemma write_log_call cid e m s :
  files_hold calc_checksum (files (root s)) m →
  ∃ s', write_log calc_checksum no_fault cid e (data_of (record e)) s = (Ok (), s') ∧ state s' = state s ∧
        files_hold calc_checksum (files (root s')) (<[cid := e]> m).
Proof.
  intros Hf. destruct (log_change calc_checksum no_fault (cid, Some e) m (root s)) as (d & Ha & _ & Hf'); [done|done|].
  exists (s <| root := d |>). split; [|done]. unfold write_log, on_disk, st_zoom.
  change (Disk.Upsert cid (version e) (expires_at_ms e) (data_of (record e))) with (op_of (cid, Some e)). by rewrite Ha.
Qed.

(** A compaction on a disk that works ends with a snapshot of the collected entries and no log. *)
Lemma compact_write_works m s :
  (∀ m, iter m ≡ₚ map_to_list m) →
  ∃ s', compact_write no_fault (item_of <$> iter m) s = (Ok (), s') ∧ state s' = state s ∧
        files_hold calc_checksum (files (root s')) m.
Proof.
  intros Hiter. unfold compact_write, st_lift.
  destruct (snapshot_to_vec_total (mkDiskSnapshot SESSION_SCHEMA_VERSION (item_of <$> iter m))) as [payload Hp].
  rewrite Hp. eexists. split; [done|]. split; [done|]. exists m, []. cbn. split_and!; [|done|done].
  unfold snapshot_entries_of. cbn. by eapply payload_reads.
Qed.

(** C30. The log is written outside the lock, so calls that race lose updates on disk: when two
    upserts of a connection write the log in the other order than the memory, opening the
    directory recovers the first one's entry, although both succeeded and the memory holds the
    second one's; and an upsert that falls between the two parts of a compaction is in memory
    only: opening the directory recovers the entry before it. *)
Theorem racing_calls_lose_updates (cid ttl now : Z) (ra rb : SessionRecord) (s : DiskSessionStore) :
  (∀ m, iter m ≡ₚ map_to_list m) → in_step calc_checksum s → 0 < ttl → now < U64_MAX →
  let ea := next_entry (version <$> live_entry cid now (state s)) ra ttl now in
  let eb := next_entry (Some (version ea)) rb ttl now in
  (let '(o, s') := racing_upserts cid ttl now ra rb s in
   o = Ok () ∧ state s' !! cid = Some eb ∧ reopened (root s') = Ok (<[cid := ea]> (state s'))) ∧
  (let '(o, s') := racing_compaction cid ttl now ra s in
   o = Ok () ∧ state s' !! cid = Some ea ∧ reopened (root s') = Ok (state s)).
Proof.
  intros Hiter Hs Httl Hnow ea eb.
  assert (Hdata : ∀ e s, write_memory cid e s = (Ok (data_of (record e)), s <| state := <[cid := e]> (state s) |>)).
  { intros e s1. unfold write_memory, st_lift. rewrite encode_data. done. }
  split.
  - unfold racing_upserts, st_get, mbind, ST_bind. fold ea. rewrite Hdata.
    assert (Hlive : version <$> live_entry cid now (state (s <| state := <[cid := ea]> (state s) |>)) = Some (version ea)).
    { unfold live_entry. cbn. rewrite lookup_insert_eq. cbn. unfold ea. cbn [expires_at_ms next_entry].
      by rewrite (proj2 (Z.ltb_lt _ _)) by ulia. }
    cbv zeta. rewrite Hlive. fold eb. rewrite Hdata.
    set (s2 := _ : DiskSessionStore). destruct (write_log_call cid eb (state s) s2) as (s3 & -> & Hst3 & Hf3); [done|].
    destruct (write_log_call cid ea (<[cid := eb]> (state s)) s3) as (s4 & -> & Hst4 & Hf4); [done|].
    rewrite Hst4, Hst3. unfold s2. cbn. split; [done|]. split; [by rewrite lookup_insert_eq|].
    rewrite reopened_recover, (files_hold_recover _ _ _ Hf4). f_equal. by rewrite !insert_insert_eq.
  - unfold racing_compaction, compact_collect, st_get, st_lift, mbind, ST_bind. rewrite snapshot_entries_items.
    destruct (write_call calc_checksum no_fault cid ea s) as (s1 & Hw & Hok1 & Hst1); [by split|].
    change (disk_upsert calc_checksum no_fault cid ra ttl now s) with (write_entry calc_checksum no_fault cid ea s).
    rewrite Hw. destruct (compact_write_works (state s) s1 Hiter) as (s2 & -> & Hst2 & Hf2).
    rewrite Hst2, Hst1. split; [done|]. split; [by rewrite lookup_insert_eq|].
    rewrite reopened_recover. by apply files_hold_recover.
Qed.

End Properties.

(* ------------------------------------------------------------------ *)
(** ** Witnesses *)
(* ------------------------------------------------------------------ *)

Definition sample_events : list disk_event :=
  [Ask (StoreSpec.Upsert 7 sample_record 100 0); Compact; Ask (StoreSpec.Upsert 8 sample_record 100 1);
   Ask (CompareAndSwap 7 (Some 1) sample_record 100 2); Reopen; Ask (Load 7 50); Ask (Load 8 101); Compact; Reopen;
   Ask (Load 8 102); Ask (ScanExpired 103 5)].

Lemma disk_store_refines_map_witness :
  ∃ s0, (new sample_checksum no_fault (mkDisk no_files 0)).1 = Ok s0 ∧
    spec_run (asked sample_events) (λ _, None) (disk_run sample_checksum no_fault map_to_list sample_events s0) ∧
    disk_run sample_checksum no_fault map_to_list sample_events s0 !! 3%nat =
      Some (Ok (Loaded (Some (mkVersionedRecord 2 sample_record 102)))).
Proof.
  destruct (disk_store_refines_map sample_checksum map_to_list 0 sample_events) as (s0 & Hs & Hrun);
    [done|vm_compute; repeat split; discriminate|].
  exists s0. split; [exact Hs|]. split; [exact Hrun|]. vm_compute in Hs. injection Hs as <-. by vm_compute.
Defined.

(** A store that opened an empty directory and wrote one entry. *)
Definition sample_disk_store : DiskSessionStore :=
  (disk_upsert sample_checksum no_fault 7 sample_record 100 0
    (mkDiskSessionStore ∅ (mkDisk (mkFiles (Some []) None None) 1))).2.

Lemma sample_in_step : in_step sample_checksum sample_disk_store.
Proof.
  destruct (write_call sample_checksum no_fault 7 (next_entry None sample_record 100 0)
    (mkDiskSessionStore ∅ (mkDisk (mkFiles (Some []) None None) 1))) as (s' & Hw & [_ Hok] & _).
  - split; [done|]. by exists ∅, [].
  - unfold sample_disk_store, disk_upsert, st_get, mbind at 1, ST_bind at 1.
    change (version <$> live_entry 7 0 (state _)) with (@None Z). by rewrite Hw.
Qed.

(** The disk fills up while the compaction writes the temporary file. *)
Lemma compaction_is_crash_safe_witness :
  let fault := λ n, if (n =? 2)%nat then Some (Partly 9 "no space left on device") else None in
  let '(o, s') := compact fault map_to_list sample_disk_store in
  is_err o = true ∧ reopened sample_checksum (root s') = Ok (state sample_disk_store).
Proof.
  intros fault.
  pose proof (compaction_is_crash_safe sample_checksum map_to_list fault sample_disk_store ltac:(done) sample_in_step) as H.
  assert (Herr : is_err (compact fault map_to_list sample_disk_store).1 = true) by by vm_compute.
  destruct (compact fault map_to_list sample_disk_store) as [o s']. split; [exact Herr|apply H].
Defined.

(** The disk fills up within the log line of an upsert. *)
Lemma torn_write_bricks_store_witness :
  let fault := λ n, if (n =? 2)%nat then Some (Partly 9 "no space left on device") else None in
  let '(o, s') := disk_upsert sample_checksum fault 7 sample_record 100 50 sample_disk_store in
  is_err o = true ∧ reopened sample_checksum (root s') = Err CorruptLogEntry.
Proof.
  intros fault. pose proof (torn_write_bricks_store sample_checksum fault 7 100 50 sample_record 9
    "no space left on device" sample_disk_store sample_in_step ltac:(by vm_compute)) as H. cbv zeta in H.
  assert (Hlen : (9 <? length (line_of sample_checksum (7%Z, Some
    (next_entry (version <$> live_entry 7 50 (state sample_disk_store)) sample_record 100 50))))%nat = true) by by vm_compute.
  destruct (disk_upsert _ _ _ _ _ _ _) as [o s']. destruct H as (-> & _ & H). split; [done|].
  rewrite Hlen in H. exact H.
Defined.

Lemma racing_calls_lose_updates_witness :
  let '(o, s') := racing_upserts sample_checksum 7 100 50 sample_record sample_record sample_disk_store in
  o = Ok () ∧ version <$> state s' !! 7 = Some 3 ∧
  ∃ m, reopened sample_checksum (root s') = Ok m ∧ version <$> m !! 7 = Some 2.
Proof.
  pose proof (racing_calls_lose_updates sample_checksum map_to_list 7 100 50 sample_record sample_record
    sample_disk_store ltac:(done) sample_in_step ltac:(lia) ltac:(done)) as [H _]. cbv zeta in H.
  assert (Hv : version <$> live_entry 7 50 (state sample_disk_store) = Some 1) by by vm_compute.
  rewrite Hv in H. destruct (racing_upserts _ _ _ _ _ _ _) as [o s']. destruct H as (-> & H1 & H2).
  split; [done|]. rewrite H1. split; [done|]. eexists. split; [exact H2|]. by rewrite lookup_insert_eq.
Defined.
