(* ===== verification/RedisServer.v ===== *)
(** * What the Redis store relies on

    The server, its Lua numbers and the [redis] crate are not code of the repository: classes of
    the calls the store makes, with the behaviour their documentation states. *)

From S2P Require Import Prelude Bytes Text.

Definition I64_MAX : Z := 0x7FFFFFFFFFFFFFFF.

(* ------------------------------------------------------------------ *)
(** ** Numbers of a script *)
(* ------------------------------------------------------------------ *)

(** The integers up to here are exact in a double. *)
Definition EXACT_MAX : Z := 2 ^ 53.

(** The double nearest to a natural number, ties to even: 53 significant bits are kept. *)
Definition round53 (n : Z) : Z :=
  if n <=? EXACT_MAX then n
  else
    let u := 2 ^ (Z.log2 n - 52) in
    let q := n / u in
    let r := n mod u in
    (if (u <? 2 * r) || ((2 * r =? u) && Z.odd q) then q + 1 else q) * u.

(** Lua: the numbers of the scripts are natural numbers in doubles, or -1.  [tonumber] reads a
    text, [number_text] writes a number as the argument of a command, and [reply_integer] turns
    it into an integer of the reply. *)
Class LuaNumbers : Type := {
  tonumber : str → option Z;
  number_text : Z → str;
  reply_integer : Z → Z;
  type_error : string;
  tonumber_decimal n : is_u64 n → tonumber (show_u64 n) = Some (round53 n);
  number_text_exact n : 0 ≤ n ≤ EXACT_MAX → number_text n = show_u64 n;
  tonumber_number_text n : 0 ≤ n → round53 n = n → tonumber (number_text n) = Some n;
  reply_integer_exact n : -1 ≤ n ≤ EXACT_MAX → reply_integer n = n;
}.

(* ------------------------------------------------------------------ *)
(** ** The server *)
(* ------------------------------------------------------------------ *)

(** The keys of a server at one moment: hashes, sorted sets with the scores of their members, and
    the moments at which keys expire. *)
Record Keyspace : Type := mkKeyspace {
  hashes : gmap str (gmap str str);
  zsets : gmap str (gmap str Z);
  deadlines : gmap str Z;
}.

#[global] Instance Keyspace_eta : Eta Keyspace := λ r, mkKeyspace (hashes r) (zsets r) (deadlines r).

Definition remove_key (k : str) (ks : Keyspace) : Keyspace :=
  mkKeyspace (delete k (hashes ks)) (delete k (zsets ks)) (delete k (deadlines ks)).

(** A sorted set without members is no key. *)
Definition put_zset (k : str) (z : gmap str Z) (ks : Keyspace) : Keyspace :=
  ks <| zsets := if decide (z = ∅) then delete k (zsets ks) else <[k := z]> (zsets ks) |>.

Definition zset_at (ks : Keyspace) (k : str) : gmap str Z := default ∅ (zsets ks !! k).

Definition put_fields (k : str) (fields : list (str * str)) (ks : Keyspace) : Keyspace :=
  ks <| hashes := <[k := foldl (λ h f, <[f.1 := f.2]> h) (default ∅ (hashes ks !! k)) fields]> (hashes ks) |>.

(** The keys that are still there at [now]: a key expires when the clock is past its deadline. *)
Definition unexpired {A} (ks : Keyspace) (now : Z) (m : gmap str A) : gmap str A :=
  filter (λ kv, now ≤ default now (deadlines ks !! kv.1)) m.

Definition expire (now : Z) (ks : Keyspace) : Keyspace :=
  mkKeyspace (unexpired ks now (hashes ks)) (unexpired ks now (zsets ks)) (unexpired ks now (deadlines ks)).

(** The commands of the store.  An error is its message.  [elapse] lets time pass; a command
    takes none (a script runs at one moment). *)
Class RedisServer (R : Type) `{!LuaNumbers} : Type := {
  exists_key : str → ST R string Z;
  hget : str → str → ST R string (option str);
  hset : str → list (str * str) → ST R string Z;
  del : str → ST R string Z;
  pexpire : str → str → ST R string Z;
  zadd : str → str → str → ST R string Z;
  zrem : str → str → ST R string Z;
  zrangebyscore : str → str → str → str → str → ST R string (list str);
  elapse : Z → R → R;
  clock : R → Z;
  keyspace : R → Keyspace;
  exists_law k r :
    zsets (keyspace r) !! k = None → ∃ r',
      exists_key k r = (Ok (if hashes (keyspace r) !! k then 1 else 0), r') ∧
      keyspace r' = keyspace r ∧ clock r' = clock r;
  hget_law k f r :
    zsets (keyspace r) !! k = None → ∃ r',
      hget k f r = (Ok (h ← hashes (keyspace r) !! k; h !! f), r') ∧
      keyspace r' = keyspace r ∧ clock r' = clock r;
  hset_law k fields r :
    zsets (keyspace r) !! k = None → ∃ n r',
      hset k fields r = (Ok n, r') ∧ keyspace r' = put_fields k fields (keyspace r) ∧ clock r' = clock r;
  del_law k r : ∃ n r',
      del k r = (Ok n, r') ∧ keyspace r' = remove_key k (keyspace r) ∧ clock r' = clock r;
  pexpire_law k n r :
    is_Some (hashes (keyspace r) !! k) → 0 ≤ n → clock r + n ≤ I64_MAX → ∃ a r',
      pexpire k (show_u64 n) r = (Ok a, r') ∧ clock r' = clock r ∧
      keyspace r' =
        if n =? 0 then remove_key k (keyspace r)
        else keyspace r <| deadlines := <[k := clock r + n]> (deadlines (keyspace r)) |>;
  pexpire_range k text x r :
    tonumber text = Some x → 2 ^ 63 < x → ∃ e r',
      pexpire k text r = (Err e, r') ∧ keyspace r' = keyspace r ∧ clock r' = clock r;
  zadd_law k score x member r :
    hashes (keyspace r) !! k = None → tonumber score = Some x → ∃ n r',
      zadd k score member r = (Ok n, r') ∧ clock r' = clock r ∧
      keyspace r' = put_zset k (<[member := x]> (zset_at (keyspace r) k)) (keyspace r);
  zrem_law k member r :
    hashes (keyspace r) !! k = None → ∃ n r',
      zrem k member r = (Ok n, r') ∧ clock r' = clock r ∧
      keyspace r' = put_zset k (delete member (zset_at (keyspace r) k)) (keyspace r);
  zrangebyscore_law k max x n r :
    hashes (keyspace r) !! k = None → tonumber max = Some x → 0 ≤ n ≤ I64_MAX → ∃ l r',
      zrangebyscore k (lit "-inf") max (lit "0") (show_u64 n) r = (Ok l, r') ∧
      keyspace r' = keyspace r ∧ clock r' = clock r ∧ NoDup l ∧ zlen l ≤ n ∧
      (∀ m, m ∈ l → ∃ score, zset_at (keyspace r) k !! m = Some score ∧ score ≤ x) ∧
      (zlen l < n → ∀ m score, zset_at (keyspace r) k !! m = Some score → score ≤ x → m ∈ l);
  elapse_law d r :
    0 ≤ d → keyspace (elapse d r) = expire (clock r + d) (keyspace r) ∧ clock (elapse d r) = clock r + d;
}.

(* ------------------------------------------------------------------ *)
(** ** The crate *)
(* ------------------------------------------------------------------ *)

(** [redis::Value]. *)
Inductive value : Type :=
| VNil
| VInt (n : Z)
| VBulk (bytes : str)
| VArray (l : list value).

(** The conversions of a reply to the type a call asks for. *)
Class RedisCrate : Type := {
  client_open : str → outcome string ();
  as_values : value → outcome string (list value);
  as_i64s : value → outcome string (list Z);
  as_strings : value → outcome string (list str);
  as_u64 : value → outcome string Z;
  as_i32 : value → outcome string Z;
  as_bytes : value → outcome string str;
  as_values_array l : as_values (VArray l) = Ok l;
  as_i64s_array l : Forall (λ n, -I64_MAX - 1 ≤ n ≤ I64_MAX) l → as_i64s (VArray (VInt <$> l)) = Ok l;
  as_strings_array l : Forall (λ s, is_Some (utf8 s)) l → as_strings (VArray (VBulk <$> l)) = Ok l;
  as_u64_int n : 0 ≤ n ≤ I64_MAX → as_u64 (VInt n) = Ok n;
  as_i32_int n : 0 ≤ n < 2 ^ 31 → as_i32 (VInt n) = Ok n;
  as_bytes_bulk bytes : as_bytes (VBulk bytes) = Ok bytes;
}.
