(* ===== verification/Redis.v ===== *)
(** * The Redis store ([v3-store/src/lib.rs], third part)

    Every operation of the store connects to a server and runs one Lua script on it, or a short
    pipeline.  The scripts of the source are translated as computations over the server: a failing
    command ends a script and what it wrote before stays.  A call on the network may fail with any
    number of its commands carried out. *)

From S2P Require Import Prelude Bytes Text Store RedisServer.

(** How a call on the network fails: the message, and how many commands of the request the server
    carried out (a script is one command). *)
Record NetFault : Type := mkNetFault { executed : nat; fault_message : string }.

Record RedisSessionStore (R : Type) : Type := mkRedisSessionStore {
  key_prefix : str;
  server : R;
  net_calls : nat;
}.
Arguments mkRedisSessionStore {R} _ _ _.
Arguments key_prefix {R} _.
Arguments server {R} _.
Arguments net_calls {R} _.

#[global] Instance RedisSessionStore_eta {R} : Eta (RedisSessionStore R) :=
  λ r, mkRedisSessionStore (key_prefix r) (server r) (net_calls r).

(** Values of a script. *)
Inductive lua : Type := LNil | LNumber (n : Z) | LString (s : str).

Section Scripts.
Context {R : Type} `{HL : !LuaNumbers, HR : !RedisServer R}.

Abbreviation script := (ST R string).

(* ------------------------------------------------------------------ *)
(** ** Lua *)
(* ------------------------------------------------------------------ *)

(** [tonumber(redis.call('HGET', key, field) or '0')]. *)
Definition hget_number (key : str) (field : string) : script (option Z) :=
  v ← hget key (lit field);
  mret (tonumber (default (lit "0") v)).

(** A number where the script needs one: comparing or adding [nil], or passing it to a command,
    is an error. *)
Definition number (n : option Z) : script Z :=
  match n with
  | Some n => mret n
  | None => st_throw type_error
  end.

(** [a <= b], [a > b] is its negation on numbers. *)
Definition number_le (a b : option Z) : script bool := a ← number a; b ← number b; mret (a <=? b).

Definition lua_number (n : option Z) : lua := match n with Some n => LNumber n | None => LNil end.

Definition lua_value (v : lua) : value :=
  match v with
  | LNil => VNil
  | LNumber n => VInt (reply_integer n)
  | LString s => VBulk s
  end.

(** A table as a reply ends before its first [nil]. *)
Fixpoint lua_table (l : list lua) : list value :=
  match l with
  | [] | LNil :: _ => []
  | v :: l' => lua_value v :: lua_table l'
  end.

(* ------------------------------------------------------------------ *)
(** ** The scripts *)
(* ------------------------------------------------------------------ *)

(** [redis.call('DEL', key)], [redis.call('ZREM', zkey, member)]. *)
Definition drop_session (key zkey member : str) : script () :=
  del key ;;
  zrem zkey member ;;
  mret ().

Definition load_script (key zkey member now : str) : script value :=
  let now := tonumber now in
  e ← exists_key key;
  if e =? 0 then mret (VArray [])
  else
    expires ← hget_number key "expires_at_ms";
    expired ← number_le expires now;
    if expired : bool then drop_session key zkey member ;; mret (VArray [])
    else
      version ← hget_number key "version";
      data ← hget key (lit "data");
      mret (VArray (lua_table [lua_number version; lua_number expires; LString (default [] data)])).

(** The three writes of a session. *)
Definition write_session (key zkey member payload : str) (next_version : Z) (ttl expires : option Z) : script () :=
  expires ← number expires;
  hset key [(lit "version", number_text next_version); (lit "expires_at_ms", number_text expires); (lit "data", payload)] ;;
  ttl ← number ttl;
  pexpire key (number_text ttl) ;;
  zadd zkey (number_text expires) member ;;
  mret ().

(** The version that is there: [exists] and [cur_version]; an expired session is removed. *)
Definition current_version (key zkey member : str) (now : option Z) : script (Z * option Z) :=
  e ← exists_key key;
  if e =? 1 then
    cur_expires ← hget_number key "expires_at_ms";
    expired ← number_le cur_expires now;
    if expired : bool then drop_session key zkey member ;; mret (0, None)
    else
      cur_version ← hget_number key "version";
      mret (1, cur_version)
  else mret (e, None).

Definition cas_script (key zkey member expected payload now ttl expires : str) : script value :=
  let now := tonumber now in
  let ttl := tonumber ttl in
  let expires := tonumber expires in
  '(exists_, cur_version) ← current_version key zkey member now;
  let conflict actual := mret (VArray (lua_table [LNumber 0; actual])) in
  let write :=
    let next_version := round53 (default 0 cur_version + 1) in
    write_session key zkey member payload next_version ttl expires ;;
    mret (VArray (lua_table [LNumber 1; LNumber next_version])) in
  if bool_decide (expected = []) then
    if exists_ =? 1 then conflict (lua_number cur_version) else write
  else
    let expected_num := tonumber expected in
    if exists_ =? 0 then conflict (LNumber (-1))
    else if negb (bool_decide (cur_version = expected_num)) then conflict (lua_number cur_version)
    else write.

Definition upsert_script (key zkey member payload now ttl expires : str) : script value :=
  let now := tonumber now in
  let ttl := tonumber ttl in
  let expires := tonumber expires in
  e ← exists_key key;
  cur_version ←
    (if e =? 1 then
       cur_expires ← hget_number key "expires_at_ms";
       expired ← number_le cur_expires now;
       if negb expired then hget_number key "version" else mret (Some 0)
     else mret (Some 0));
  cur_version ← number cur_version;
  let next_version := round53 (cur_version + 1) in
  write_session key zkey member payload next_version ttl expires ;;
  mret (VInt (reply_integer next_version)).

Definition cleanup_script (key zkey member now : str) : script value :=
  let now := tonumber now in
  e ← exists_key key;
  if e =? 0 then zrem zkey member ;; mret (VInt (reply_integer 0))
  else
    expires ← hget_number key "expires_at_ms";
    expired ← number_le expires now;
    if expired : bool then drop_session key zkey member ;; mret (VInt (reply_integer 1))
    else mret (VInt (reply_integer 0)).

End Scripts.

(* ------------------------------------------------------------------ *)
(** ** The store *)
(* ------------------------------------------------------------------ *)

Section Store.
Context {R : Type} `{HL : !LuaNumbers, HR : !RedisServer R, HC : !RedisCrate, HJ : !Json}.
Context (net : nat → option NetFault).

Abbreviation store := (ST (RedisSessionStore R) StoreError).

Definition new (redis_url prefix : str) (r : R) : outcome StoreError (RedisSessionStore R) :=
  map_err Backend (client_open redis_url) ;;
  mret (mkRedisSessionStore prefix r 0).

Definition session_key (prefix : str) (cid : Z) : str := prefix ++ lit ":session:" ++ show_u64 cid.

Definition expiry_index_key (prefix : str) : str := prefix ++ lit ":session_expiry".

(** One request to the server: [part n] are its first [n] commands, [whole] all of them. *)
Definition request {A} (part : nat → ST R string ()) (whole : ST R string A) : store A := λ s,
  let s' r := mkRedisSessionStore (key_prefix s) r (S (net_calls s)) in
  match net (net_calls s) with
  | Some f => (Err (Backend (fault_message f)), s' (part (executed f) (server s)).2)
  | None => let '(o, r) := whole (server s) in (map_err Backend o, s' r)
  end.

(** [self.client.get_connection()]. *)
Definition conn : store () := request (λ _, mret ()) (mret ()).

(** [.invoke(&mut conn)] of a script or [.query(&mut conn)] of one command. *)
Definition invoke {A} (m : ST R string A) : store A :=
  request (λ n, if (n =? 0)%nat then mret () else m ;; mret ()) m.

(** The conversion of the reply, whose errors are errors of the call. *)
Definition converted {A B} (f : A → outcome string B) (m : store A) : store B :=
  v ← m; st_lift (map_err Backend (f v)).

(** [from_redis_value(..).map_err(|e| Backend(format!("invalid redis ..: {e}")))]. *)
Definition field_of {A} (what : string) (f : value → outcome string A) (row : option value) : store A :=
  row ← st_lift (expect row);
  st_lift (map_err (λ e, Backend (String.append "invalid redis " (String.append what (String.append ": " e)))) (f row)).

Definition redis_load (cid now_ms : Z) : store (option VersionedRecord) :=
  conn ;;
  s ← st_get;
  let key := session_key (key_prefix s) cid in
  let zkey := expiry_index_key (key_prefix s) in
  rows ← converted as_values (invoke (load_script key zkey (show_u64 cid) (show_u64 now_ms)));
  match rows with
  | [] => mret None
  | _ =>
      version ← field_of "version" as_u64 (rows !! 0%nat);
      expires_at_ms ← field_of "expiry" as_u64 (rows !! 1%nat);
      bytes ← field_of "payload" as_bytes (rows !! 2%nat);
      record ← st_lift (decode_session_record bytes);
      mret (Some (mkVersionedRecord version record expires_at_ms))
  end.

(** [expected_version.map(|v| v.to_string()).unwrap_or_default()]. *)
Definition expected_text (expected_version : option Z) : str := default [] (show_u64 <$> expected_version).

(** [as u64] of an [i64]. *)
Definition as_u64_of_i64 (n : Z) : Z := wrap64 n.

Definition redis_compare_and_swap (cid : Z) (expected_version : option Z) (new_record : SessionRecord)
    (ttl_ms now_ms : Z) : store VersionedRecord :=
  payload ← st_lift (encode_session_record new_record);
  let expires_at_ms := sat_add U64_MAX now_ms ttl_ms in
  conn ;;
  s ← st_get;
  let key := session_key (key_prefix s) cid in
  let zkey := expiry_index_key (key_prefix s) in
  let expected := expected_text expected_version in
  result ← converted as_i64s (invoke (cas_script key zkey (show_u64 cid) expected payload
    (show_u64 now_ms) (show_u64 ttl_ms) (show_u64 expires_at_ms)));
  match result with
  | [done; version] =>
      if done =? 1 then mret (mkVersionedRecord (as_u64_of_i64 version) new_record expires_at_ms)
      else
        let actual := if version <? 0 then None else Some (as_u64_of_i64 version) in
        st_throw (CasConflict expected_version actual)
  | _ => st_throw (Backend "invalid CAS response from redis script")
  end.

Definition redis_upsert (cid : Z) (new_record : SessionRecord) (ttl_ms now_ms : Z) : store VersionedRecord :=
  payload ← st_lift (encode_session_record new_record);
  let expires_at_ms := sat_add U64_MAX now_ms ttl_ms in
  conn ;;
  s ← st_get;
  let key := session_key (key_prefix s) cid in
  let zkey := expiry_index_key (key_prefix s) in
  next_version ← converted as_u64 (invoke (upsert_script key zkey (show_u64 cid) payload
    (show_u64 now_ms) (show_u64 ttl_ms) (show_u64 expires_at_ms)));
  mret (mkVersionedRecord next_version new_record expires_at_ms).

(** The pipeline of [delete]: two commands in one request. *)
Definition redis_delete (cid : Z) : store () :=
  conn ;;
  s ← st_get;
  let key := session_key (key_prefix s) cid in
  let zkey := expiry_index_key (key_prefix s) in
  let member := show_u64 cid in
  request (λ n, st_when (0 <? n)%nat (del key ;; mret ()) ;; st_when (1 <? n)%nat (zrem zkey member ;; mret ()))
    (drop_session key zkey member).

(** The loop of [scan_expired] over the members found. *)
Fixpoint cleanup_loop (prefix : str) (now_ms : Z) (removed : list Z) (members : list str) : store (list Z) :=
  match members with
  | [] => mret removed
  | member :: members' =>
      match parse_u64 member with
      | None => cleanup_loop prefix now_ms removed members'
      | Some cid =>
          deleted ← converted as_i32 (invoke (cleanup_script (session_key prefix cid) (expiry_index_key prefix)
            member (show_u64 now_ms)));
          cleanup_loop prefix now_ms (if deleted =? 1 then removed ++ [cid] else removed) members'
      end
  end.

Definition redis_scan_expired (now_ms limit : Z) : store (list Z) :=
  if limit =? 0 then mret []
  else
    conn ;;
    s ← st_get;
    let zkey := expiry_index_key (key_prefix s) in
    members ← converted as_strings (invoke
      (found ← zrangebyscore zkey (lit "-inf") (show_u64 now_ms) (lit "0") (show_u64 limit);
       mret (VArray (VBulk <$> found))));
    cleanup_loop (key_prefix s) now_ms [] members.

#[global] Instance redis_store : SessionStore (RedisSessionStore R) := {|
  load := redis_load;
  compare_and_swap := redis_compare_and_swap;
  upsert := redis_upsert;
  delete_session := redis_delete;
  scan_expired := redis_scan_expired;
|}.

End Store.
