(* ===== verification/RedisLemmas.v ===== *)
(** * Lemmas on the Redis store

    The keys of the store never collide, a server whose keys are the store's own mirrors a map of
    sessions with their deadlines, and what every script does to that map. *)

From S2P Require Import Prelude Bytes Text Store RedisServer Redis.

(** What the server holds of a session: its entry, and the moment the server drops it. *)
Abbreviation slots := (Z → option (Entry * Z)).

Definition set_slot (c : Z) (o : option (Entry * Z)) (M : slots) : slots :=
  λ x, if decide (x = c) then o else M x.

(** The entry a caller can see at [now]. *)
Definition live (M : slots) (now c : Z) : option Entry :=
  s ← M c; if now <? expires_at_ms s.1 then Some s.1 else None.

(** An expired entry is removed when it is met. *)
Definition prune (now c : Z) (M : slots) : slots := if live M now c then M else set_slot c None M.

(** The server drops a session when the clock is past its deadline. *)
Definition evict (now : Z) (M : slots) : slots :=
  λ c, s ← M c; if now <=? s.2 then Some s else None.

Lemma round53_exact n : n ≤ EXACT_MAX → round53 n = n.
Proof. intros Hn. unfold round53. by rewrite (proj2 (Z.leb_le _ _)). Qed.

Lemma exact_is_u64 n : 0 ≤ n ≤ EXACT_MAX → is_u64 n.
Proof. unfold is_u64, EXACT_MAX, U64_MAX. lia. Qed.

(* ------------------------------------------------------------------ *)
(** ** Keys *)
(* ------------------------------------------------------------------ *)

Lemma session_key_inj p c c' : 0 ≤ c → 0 ≤ c' → session_key p c = session_key p c' → c = c'.
Proof. unfold session_key. intros Hc Hc' He%app_inv_head%app_inv_head. by apply show_u64_inj. Qed.

Lemma session_key_not_index p c : session_key p c ≠ expiry_index_key p.
Proof. unfold session_key, expiry_index_key. intros He%app_inv_head. done. Qed.

Lemma zset_at_put k k' z ks :
  zset_at (put_zset k z ks) k' = if decide (k' = k) then z else zset_at ks k'.
Proof.
  unfold zset_at, put_zset. cbn. destruct (decide (k' = k)) as [->|Hk].
  - case_decide as Hz; [by rewrite lookup_delete_eq|by rewrite lookup_insert_eq].
  - case_decide; by rewrite ?lookup_delete_ne, ?lookup_insert_ne.
Qed.

Lemma zsets_put_ne k k' z ks : k' ≠ k → zsets (put_zset k z ks) !! k' = zsets ks !! k'.
Proof. intros Hk. unfold put_zset. cbn. case_decide; by rewrite ?lookup_delete_ne, ?lookup_insert_ne. Qed.

Lemma unexpired_lookup {A} (ks : Keyspace) (now : Z) (m : gmap str A) (k : str) :
  unexpired ks now m !! k = if now <=? default now (deadlines ks !! k) then m !! k else None.
Proof.
  unfold unexpired. destruct (now <=? _) eqn:He; zprop.
  - destruct (m !! k) as [a|] eqn:Hk.
    + by apply map_lookup_filter_Some_2.
    + apply map_lookup_filter_None. by left.
  - apply map_lookup_filter_None. right. intros a _. cbn. lia.
Qed.

(* ------------------------------------------------------------------ *)
(** ** Scripts as changes of the keys *)
(* ------------------------------------------------------------------ *)

Section Runs.
Context {R : Type} `{HL : !LuaNumbers, HR : !RedisServer R}.

Abbreviation script := (ST R string).

(** From any server with the keys [ks] at [t], [m] succeeds with a value in [P] and leaves the
    keys [ks']. *)
Definition runs {A} (m : script A) (ks : Keyspace) (t : Z) (P : A → Prop) (ks' : Keyspace) : Prop :=
  ∀ r, keyspace r = ks → clock r = t → ∃ a r', m r = (Ok a, r') ∧ keyspace r' = ks' ∧ clock r' = t ∧ P a.

Lemma runs_ret {A} (a : A) ks t (P : A → Prop) : P a → runs (mret a) ks t P ks.
Proof. intros HP r Hr Ht. by exists a, r. Qed.

Lemma runs_bind {A B} (m : script A) (k : A → script B) ks ks1 ks2 t P Q :
  runs m ks t P ks1 → (∀ a, P a → runs (k a) ks1 t Q ks2) → runs (m ≫= k) ks t Q ks2.
Proof.
  intros Hm Hk r Hr Ht. destruct (Hm r Hr Ht) as (a & r1 & Hm1 & Hr1 & Ht1 & Ha).
  rewrite (st_bind_ok _ _ _ _ _ Hm1). by apply (Hk a Ha).
Qed.

(** The value of the first computation is known. *)
Lemma runs_let {A B} (m : script A) (k : A → script B) a ks ks1 ks2 t Q :
  runs m ks t (eq a) ks1 → runs (k a) ks1 t Q ks2 → runs (m ≫= k) ks t Q ks2.
Proof. intros Hm Hk. eapply runs_bind; [exact Hm|]. by intros ? <-. Qed.

Lemma runs_weaken {A} (m : script A) ks ks' t (P Q : A → Prop) :
  (∀ a, P a → Q a) → runs m ks t P ks' → runs m ks t Q ks'.
Proof. intros H Hm r Hr Ht. destruct (Hm r Hr Ht) as (a & r' & ? & ? & ? & ?). exists a, r'. auto. Qed.

End Runs.

(** Run the first computation, whose value is known by the given lemma. *)
Ltac run_let tac := eapply runs_let; [tac|cbn beta iota].

(** Run the first computation, whose value is dropped. *)
Ltac run_seq tac := eapply runs_bind; [tac|intros _ _; cbn beta iota].

Section Commands.
Context {R : Type} `{HL : !LuaNumbers, HR : !RedisServer R}.

Lemma runs_exists k ks t :
  zsets ks !! k = None → runs (exists_key k) ks t (eq (if hashes ks !! k then 1 else 0)) ks.
Proof. intros Hk r <- <-. destruct (exists_law k r Hk) as (r' & ? & ? & ?). eauto 10. Qed.

Lemma runs_hget k f ks t :
  zsets ks !! k = None → runs (hget k f) ks t (eq (h ← hashes ks !! k; h !! f)) ks.
Proof. intros Hk r <- <-. destruct (hget_law k f r Hk) as (r' & ? & ? & ?). eauto 10. Qed.

Lemma runs_hset k fields ks t :
  zsets ks !! k = None → runs (hset k fields) ks t (λ _, True) (put_fields k fields ks).
Proof. intros Hk r <- <-. destruct (hset_law k fields r Hk) as (n & r' & ? & ? & ?). eauto 10. Qed.

Lemma runs_del k ks t : runs (del k) ks t (λ _, True) (remove_key k ks).
Proof. intros r <- <-. destruct (del_law k r) as (n & r' & ? & ? & ?). eauto 10. Qed.

Lemma runs_pexpire k n ks t :
  is_Some (hashes ks !! k) → 0 ≤ n → t + n ≤ I64_MAX →
  runs (pexpire k (show_u64 n)) ks t (λ _, True)
    (if n =? 0 then remove_key k ks else ks <| deadlines := <[k := t + n]> (deadlines ks) |>).
Proof. intros Hk Hn Ht r <- <-. destruct (pexpire_law k n r Hk Hn Ht) as (a & r' & ? & ? & ?). eauto 10. Qed.

Lemma runs_zadd k score x member ks t :
  hashes ks !! k = None → tonumber score = Some x →
  runs (zadd k score member) ks t (λ _, True) (put_zset k (<[member := x]> (zset_at ks k)) ks).
Proof. intros Hk Hx r <- <-. destruct (zadd_law k score x member r Hk Hx) as (n & r' & ? & ? & ?). eauto 10. Qed.

Lemma runs_zrem k member ks t :
  hashes ks !! k = None →
  runs (zrem k member) ks t (λ _, True) (put_zset k (delete member (zset_at ks k)) ks).
Proof. intros Hk r <- <-. destruct (zrem_law k member r Hk) as (n & r' & ? & ? & ?). eauto 10. Qed.

Lemma runs_number n ks t : runs (number (Some n)) ks t (eq n) ks.
Proof. by apply runs_ret. Qed.

Lemma runs_number_le a b ks t : runs (number_le (Some a) (Some b)) ks t (eq (a <=? b)) ks.
Proof. unfold number_le. do 2 run_let ltac:(apply runs_number). by apply runs_ret. Qed.

Lemma runs_hget_number k f ks t h n :
  zsets ks !! k = None → hashes ks !! k = Some h → h !! lit f = Some (show_u64 n) → 0 ≤ n ≤ EXACT_MAX →
  runs (hget_number k f) ks t (eq (Some n)) ks.
Proof.
  intros Hz Hh Hf Hn. unfold hget_number. run_let ltac:(by apply runs_hget). apply runs_ret.
  rewrite Hh. cbn. rewrite Hf. cbn. rewrite tonumber_decimal by (by apply exact_is_u64). by rewrite round53_exact by lia.
Qed.

End Commands.

(* ------------------------------------------------------------------ *)
(** ** A server that mirrors slots *)
(* ------------------------------------------------------------------ *)

(** The codec of records has no error. *)
Class EncodeTotal `{!Json} : Prop := encode_total s : ∃ bytes, to_vec s = Ok bytes.

Section Mirrors.
Context `{HJ : !Json, HT : !EncodeTotal}.
Context (p : str).

Abbreviation key := (session_key p).
Abbreviation zkey := (expiry_index_key p).

Definition payload_of (r : SessionRecord) : str :=
  match encode_session_record r with Ok b => b | _ => [] end.

Lemma encode_payload r : encode_session_record r = Ok (payload_of r).
Proof. unfold payload_of, encode_session_record. by destruct (encode_total (mkStoredSession SESSION_SCHEMA_VERSION r)) as [b ->]. Qed.

Lemma decode_payload r : decode_session_record (payload_of r) = Ok r.
Proof.
  pose proof (encode_payload r) as He. unfold encode_session_record in He. unfold decode_session_record.
  destruct (to_vec (mkStoredSession SESSION_SCHEMA_VERSION r)) as [b|e|] eqn:Hb; [|done..]. injection He as <-.
  apply to_vec_from_slice in Hb. by rewrite Hb.
Qed.

(** The fields of a session. *)
Record represents (h : gmap str str) (e : Entry) : Prop := {
  rep_version : h !! lit "version" = Some (show_u64 (version e));
  rep_expires : h !! lit "expires_at_ms" = Some (show_u64 (expires_at_ms e));
  rep_data : h !! lit "data" = Some (payload_of (record e));
  rep_version_exact : 0 ≤ version e ≤ EXACT_MAX;
  rep_expires_exact : 0 ≤ expires_at_ms e ≤ EXACT_MAX;
}.

(** The keys of the store hold nothing but what the store writes. *)
Record typed (ks : Keyspace) : Prop := {
  ty_index : hashes ks !! zkey = None;
  ty_keys c : zsets ks !! key c = None;
  ty_members m score : zset_at ks zkey !! m = Some score → ∃ c, is_u64 c ∧ m = show_u64 c;
}.

Definition slot_ok (ks : Keyspace) (c : Z) (o : option (Entry * Z)) : Prop :=
  match o with
  | None => hashes ks !! key c = None
  | Some (e, d) => (∃ h, hashes ks !! key c = Some h ∧ represents h e) ∧ deadlines ks !! key c = Some d
  end.

Record mirrors (ks : Keyspace) (M : slots) : Prop := {
  mir_typed : typed ks;
  mir_slot c : is_u64 c → slot_ok ks c (M c);
}.

Lemma zsets_remove k ks k' : zsets ks !! k' = None → zsets (remove_key k ks) !! k' = None.
Proof. intros H. cbn. destruct (decide (k = k')) as [->|Hk]; [apply lookup_delete_eq|by rewrite lookup_delete_ne]. Qed.

(** A change of one key and of the index. *)
Lemma mirrors_change ks ks' M c o :
  is_u64 c → mirrors ks M → slot_ok ks' c o →
  hashes ks' !! zkey = None → (∀ c', zsets ks' !! key c' = None) →
  (∀ m score, zset_at ks' zkey !! m = Some score → m = show_u64 c ∨ is_Some (zset_at ks zkey !! m)) →
  (∀ c', is_u64 c' → c' ≠ c → hashes ks' !! key c' = hashes ks !! key c' ∧ deadlines ks' !! key c' = deadlines ks !! key c') →
  mirrors ks' (set_slot c o M).
Proof.
  intros Hc [[Hi Hk Hm] Hs] Ho Hi' Hk' Hm' Hother. split.
  - split; [done|done|]. intros m score Hms. destruct (Hm' m score Hms) as [->|[x Hx]]; [by exists c|]. by eapply Hm.
  - intros c' Hc'. unfold set_slot. case_decide as Hd; [by subst c'|].
    destruct (Hother c' Hc' Hd) as [Hh Hdl]. specialize (Hs c' Hc'). unfold slot_ok in *.
    destruct (M c') as [[e d]|]; by rewrite ?Hh, ?Hdl.
Qed.

Lemma other_key c c' : is_u64 c → is_u64 c' → c' ≠ c → key c ≠ key c'.
Proof. intros [Hc _] [Hc' _] Hne He. apply Hne. symmetry. by eapply session_key_inj. Qed.

(** The keys after a session was dropped with its place in the index. *)
Definition dropped (c : Z) (ks : Keyspace) : Keyspace :=
  let ks := remove_key (key c) ks in put_zset zkey (delete (show_u64 c) (zset_at ks zkey)) ks.

Lemma mirrors_dropped c ks M : is_u64 c → mirrors ks M → mirrors (dropped c ks) (set_slot c None M).
Proof.
  intros Hc HM. pose proof (session_key_not_index p c) as Hki. pose proof HM as [[Hi Hk Hm] _].
  apply (mirrors_change ks); [done|done|..]; unfold dropped.
  - cbn. apply lookup_delete_eq.
  - cbn. by rewrite lookup_delete_ne.
  - intros c'. rewrite zsets_put_ne by (apply session_key_not_index). by apply zsets_remove.
  - intros m score. rewrite zset_at_put, decide_True by done. intros H. right.
    apply lookup_delete_Some in H as [_ H]. unfold zset_at in *. cbn in H. rewrite lookup_delete_ne in H by done. eauto.
  - intros c' Hc' Hne. pose proof (other_key c c' Hc Hc' Hne). cbn. by rewrite !lookup_delete_ne.
Qed.

(** The place of a session in the index is dropped. *)
Lemma mirrors_zrem c ks M :
  is_u64 c → mirrors ks M → M c = None → mirrors (put_zset zkey (delete (show_u64 c) (zset_at ks zkey)) ks) M.
Proof.
  intros Hc HM HMc. pose proof HM as [[Hi Hk Hm] Hs].
  assert (mirrors (put_zset zkey (delete (show_u64 c) (zset_at ks zkey)) ks) (set_slot c None M)) as H.
  { apply (mirrors_change ks); [done|done|..].
    - specialize (Hs c Hc). by rewrite HMc in Hs.
    - done.
    - intros c'. by rewrite zsets_put_ne by (apply session_key_not_index).
    - intros m score. rewrite zset_at_put, decide_True by done. intros [_ H]%lookup_delete_Some. eauto.
    - done. }
  destruct H as [Ht H]. split; [done|]. intros c' Hc'. specialize (H c' Hc'). unfold set_slot in H.
  case_decide; [subst c'; by rewrite HMc|done].
Qed.

(** The keys after the three writes of a session. *)
Definition written (c : Z) (payload : str) (next expires ttl t : Z) (ks : Keyspace) : Keyspace :=
  let ks := put_fields (key c) [(lit "version", show_u64 next); (lit "expires_at_ms", show_u64 expires); (lit "data", payload)] ks in
  let ks := if ttl =? 0 then remove_key (key c) ks else ks <| deadlines := <[key c := t + ttl]> (deadlines ks) |> in
  put_zset zkey (<[show_u64 c := expires]> (zset_at ks zkey)) ks.

(** The slot of a session just written: with no time to live it is gone at once. *)
Definition new_slot (e : Entry) (ttl t : Z) : option (Entry * Z) := if ttl =? 0 then None else Some (e, t + ttl).

Lemma put_fields_represents h e :
  0 ≤ version e ≤ EXACT_MAX → 0 ≤ expires_at_ms e ≤ EXACT_MAX →
  represents (foldl (λ h f, <[f.1 := f.2]> h) h
    [(lit "version", show_u64 (version e)); (lit "expires_at_ms", show_u64 (expires_at_ms e)); (lit "data", payload_of (record e))]) e.
Proof.
  intros Hv He. cbn [foldl fst snd]. split; [| | |done|done].
  - rewrite !lookup_insert_ne by done. apply lookup_insert_eq.
  - rewrite lookup_insert_ne by done. apply lookup_insert_eq.
  - apply lookup_insert_eq.
Qed.

Lemma mirrors_written c e ttl t ks M :
  is_u64 c → 0 ≤ version e ≤ EXACT_MAX → 0 ≤ expires_at_ms e ≤ EXACT_MAX → mirrors ks M →
  mirrors (written c (payload_of (record e)) (version e) (expires_at_ms e) ttl t ks) (set_slot c (new_slot e ttl t) M).
Proof.
  intros Hc Hv He HM. pose proof (session_key_not_index p c) as Hki. pose proof HM as [[Hi Hk Hm] _].
  apply (mirrors_change ks); [done|done|..]; unfold written, new_slot.
  - destruct (ttl =? 0); cbn; [apply lookup_delete_eq|]. split; [|apply lookup_insert_eq].
    eexists. rewrite lookup_insert_eq. split; [done|]. by apply put_fields_represents.
  - destruct (ttl =? 0); cbn; by rewrite ?lookup_delete_ne, lookup_insert_ne.
  - intros c'. rewrite zsets_put_ne by (apply session_key_not_index).
    destruct (ttl =? 0); [by apply zsets_remove|done].
  - intros m score. rewrite zset_at_put, decide_True by done. intros [[<- _]|[_ H]]%lookup_insert_Some; [by left|right].
    destruct (ttl =? 0); unfold zset_at in *; cbn in H; rewrite ?lookup_delete_ne in H by done; eauto.
  - intros c' Hc' Hne. pose proof (other_key c c' Hc Hc' Hne).
    destruct (ttl =? 0); cbn; by rewrite ?lookup_delete_ne, ?lookup_insert_ne.
Qed.

(** What time does to the keys. *)
Lemma mirrors_expire t ks M : mirrors ks M → mirrors (expire t ks) (evict t M).
Proof.
  intros [[Hi Hk Hm] Hs]. split.
  - split.
    + cbn. rewrite unexpired_lookup. by case_match.
    + intros c. cbn. rewrite unexpired_lookup. by case_match.
    + intros m score H. unfold zset_at in H. cbn in H. rewrite unexpired_lookup in H. case_match; [|done].
      by eapply Hm.
  - intros c Hc. specialize (Hs c Hc). unfold slot_ok, evict in *. cbn [expire hashes deadlines].
    rewrite !unexpired_lookup. destruct (M c) as [[e d]|]; cbn.
    + destruct Hs as [[h [Hh Hr]] ->]. cbn. destruct (t <=? d); [|done]. split; [by exists h|done].
    + rewrite Hs. by case_match.
Qed.

End Mirrors.

(* ------------------------------------------------------------------ *)
(** ** The scripts on a server that mirrors slots *)
(* ------------------------------------------------------------------ *)

Section Scripts.
Context {R : Type} `{HL : !LuaNumbers, HR : !RedisServer R, HJ : !Json, HT : !EncodeTotal}.
Context (p : str).

Abbreviation key := (session_key p).
Abbreviation zkey := (expiry_index_key p).

Implicit Types (ks : Keyspace) (M : slots) (c now t : Z).

Lemma tonumber_exact n : 0 ≤ n ≤ EXACT_MAX → tonumber (show_u64 n) = Some n.
Proof. intros Hn. rewrite tonumber_decimal by (by apply exact_is_u64). by rewrite round53_exact by lia. Qed.

(** Whether a session is there, and its fields. *)
Lemma runs_session_exists c ks t M :
  is_u64 c → mirrors p ks M → runs (exists_key (key c)) ks t (eq (if M c then 1 else 0)) ks.
Proof.
  intros Hc [Ht Hs]. specialize (Hs c Hc). pose proof (runs_exists (key c) ks t (ty_keys _ _ Ht c)) as H.
  unfold slot_ok in Hs. destruct (M c) as [[e d]|]; [destruct Hs as [[h [Hh _]] _]; by rewrite Hh in H|by rewrite Hs in H].
Qed.

Section Session.
Context (c : Z) (ks : Keyspace) (M : slots) (e : Entry) (d t : Z).
Context (Hc : is_u64 c) (HM : mirrors p ks M) (He : M c = Some (e, d)).

Lemma session_fields : ∃ h, hashes ks !! key c = Some h ∧ represents h e ∧ zsets ks !! key c = None.
Proof using All. destruct HM as [Ht Hs]. specialize (Hs c Hc). rewrite He in Hs. destruct Hs as [[h [Hh Hr]] _]. exists h. split_and!; [done|done|]. apply (ty_keys _ _ Ht). Qed.

Lemma runs_session_version : runs (hget_number (key c) "version") ks t (eq (Some (version e))) ks.
Proof using All. destruct session_fields as (h & Hh & [Hv Hx Hd Hv' Hx'] & Hz). by apply runs_hget_number with h. Qed.

Lemma runs_session_expires : runs (hget_number (key c) "expires_at_ms") ks t (eq (Some (expires_at_ms e))) ks.
Proof using All. destruct session_fields as (h & Hh & [Hv Hx Hd Hv' Hx'] & Hz). by apply runs_hget_number with h. Qed.

Lemma runs_session_data : runs (hget (key c) (lit "data")) ks t (eq (Some (payload_of (record e)))) ks.
Proof using All.
  destruct session_fields as (h & Hh & [Hv Hx Hd Hv' Hx'] & Hz). pose proof (runs_hget (key c) (lit "data") ks t Hz) as H.
  enough ((h ← hashes ks !! key c; h !! lit "data") = Some (payload_of (record e))) as <- by exact H. by rewrite Hh.
Qed.

Lemma session_exact : 0 ≤ version e ≤ EXACT_MAX ∧ 0 ≤ expires_at_ms e ≤ EXACT_MAX.
Proof using All. destruct session_fields as (h & Hh & [Hv Hx Hd Hv' Hx'] & Hz). done. Qed.

End Session.

Lemma runs_drop c ks t M :
  is_u64 c → mirrors p ks M → runs (drop_session (key c) zkey (show_u64 c)) ks t (eq ()) (dropped p c ks).
Proof.
  intros Hc [[Hi Hk Hm] _]. unfold drop_session, dropped. run_seq ltac:(apply runs_del).
  run_seq ltac:(apply runs_zrem). { cbn. by rewrite lookup_delete_ne by (apply session_key_not_index). }
  by apply runs_ret.
Qed.

Lemma prune_absent now c M : M c = None → ∀ x, prune now c M x = M x.
Proof. intros Hc x. unfold prune, live, set_slot. rewrite Hc. cbn. case_decide; congruence. Qed.

Lemma mirrors_ext ks M M' : (∀ x, M' x = M x) → mirrors p ks M → mirrors p ks M'.
Proof. intros HM [Ht Hs]. split; [done|]. intros c Hc. rewrite HM. by apply Hs. Qed.

Lemma current_version_runs c now ks t M :
  is_u64 c → mirrors p ks M → ∃ ks',
    runs (current_version (key c) zkey (show_u64 c) (Some now)) ks t
      (eq (match live M now c with Some e => (1, Some (version e)) | None => (0, None) end)) ks' ∧
    mirrors p ks' (prune now c M).
Proof.
  intros Hc HM. pose proof (runs_session_exists c ks t M Hc HM) as Hex. unfold current_version.
  destruct (M c) as [[e d]|] eqn:He.
  - pose proof (runs_session_expires c ks M e d t Hc HM He) as Hx. pose proof (runs_session_version c ks M e d t Hc HM He) as Hv.
    unfold live, prune. unfold live. rewrite He. cbn. destruct (now <? expires_at_ms e) eqn:Hl; zprop.
    + exists ks. split; [|done]. run_let ltac:(exact Hex). run_let ltac:(exact Hx). run_let ltac:(apply runs_number_le).
      zdec. run_let ltac:(exact Hv). by apply runs_ret.
    + exists (dropped p c ks). split; [|by apply mirrors_dropped]. run_let ltac:(exact Hex). run_let ltac:(exact Hx).
      run_let ltac:(apply runs_number_le). zdec. run_let ltac:(by eapply runs_drop). by apply runs_ret.
  - exists ks. split; [|eapply mirrors_ext, HM; by apply prune_absent]. unfold live. rewrite He. cbn.
    run_let ltac:(exact Hex). by apply runs_ret.
Qed.

Lemma load_script_runs c now ks t M :
  is_u64 c → 0 ≤ now ≤ EXACT_MAX → mirrors p ks M → ∃ ks',
    runs (load_script (key c) zkey (show_u64 c) (show_u64 now)) ks t
      (eq (VArray match live M now c with
                  | Some e => [VInt (version e); VInt (expires_at_ms e); VBulk (payload_of (record e))]
                  | None => []
                  end)) ks' ∧
    mirrors p ks' (prune now c M).
Proof.
  intros Hc Hn HM. pose proof (runs_session_exists c ks t M Hc HM) as Hex. unfold load_script. rewrite tonumber_exact by done.
  destruct (M c) as [[e d]|] eqn:He.
  - pose proof (runs_session_expires c ks M e d t Hc HM He) as Hx. pose proof (runs_session_version c ks M e d t Hc HM He) as Hv.
    pose proof (runs_session_data c ks M e d t Hc HM He) as Hd. destruct (session_exact c ks M e d t Hc HM He) as [Hve Hxe].
    unfold live, prune. unfold live. rewrite He. cbn. destruct (now <? expires_at_ms e) eqn:Hl; zprop.
    + exists ks. split; [|done]. run_let ltac:(exact Hex). run_let ltac:(exact Hx). run_let ltac:(apply runs_number_le).
      zdec. run_let ltac:(exact Hv). run_let ltac:(exact Hd). apply runs_ret. cbn. by rewrite !reply_integer_exact by lia.
    + exists (dropped p c ks). split; [|by apply mirrors_dropped]. run_let ltac:(exact Hex). run_let ltac:(exact Hx).
      run_let ltac:(apply runs_number_le). zdec. run_let ltac:(by eapply runs_drop). by apply runs_ret.
  - exists ks. split; [|eapply mirrors_ext, HM; by apply prune_absent]. unfold live. rewrite He. cbn.
    run_let ltac:(exact Hex). by apply runs_ret.
Qed.

(** A write that the numbers of Lua and of the server can carry. *)
Definition writable (e : Entry) (ttl t : Z) : Prop :=
  0 ≤ version e ≤ EXACT_MAX ∧ 0 ≤ expires_at_ms e ≤ EXACT_MAX ∧ 0 ≤ ttl ≤ EXACT_MAX ∧ t + ttl ≤ I64_MAX.

Lemma write_session_runs c e ttl t ks M :
  is_u64 c → writable e ttl t → mirrors p ks M →
  runs (write_session (key c) zkey (show_u64 c) (payload_of (record e)) (version e) (Some ttl) (Some (expires_at_ms e))) ks t
    (eq ()) (written p c (payload_of (record e)) (version e) (expires_at_ms e) ttl t ks).
Proof.
  intros Hc (Hv & Hx & Httl & Hmax) [[Hi Hk Hm] _]. pose proof (session_key_not_index p c) as Hki.
  unfold write_session, written. run_let ltac:(apply runs_number). rewrite !number_text_exact by done.
  run_seq ltac:(by apply runs_hset). run_let ltac:(apply runs_number). rewrite number_text_exact by done.
  run_seq ltac:(apply runs_pexpire). { cbn. rewrite lookup_insert_eq. by eexists. } { lia. } { done. }
  run_seq ltac:(eapply runs_zadd; [|by apply tonumber_exact]).
  { destruct (ttl =? 0); cbn; by rewrite ?lookup_delete_ne, lookup_insert_ne. }
  by apply runs_ret.
Qed.

Lemma set_slot_prune now c o M x : set_slot c o (prune now c M) x = set_slot c o M x.
Proof. unfold set_slot, prune, set_slot. case_decide as Hx; [done|]. destruct (live M now c); [done|]. by rewrite decide_False. Qed.

Lemma next_version_exact M now c ks :
  is_u64 c → mirrors p ks M → 0 ≤ default 0 (version <$> live M now c) ≤ EXACT_MAX.
Proof.
  intros Hc [_ Hs]. specialize (Hs c Hc). unfold live. destruct (M c) as [[e d]|]; [|done]. cbn.
  destruct Hs as [[h [_ [_ _ _ Hv _]]] _]. by destruct (now <? expires_at_ms e).
Qed.

(** The entry of a write. *)
Abbreviation entry_after cur r ttl now := (next_entry cur r ttl now).

Lemma next_entry_numbers cur r ttl now :
  0 ≤ default 0 cur < EXACT_MAX → 0 ≤ now → 0 ≤ ttl → now + ttl ≤ EXACT_MAX →
  version (entry_after cur r ttl now) = default 0 cur + 1 ∧ expires_at_ms (entry_after cur r ttl now) = now + ttl ∧
  sat_add U64_MAX now ttl = now + ttl.
Proof. unfold next_entry. cbn. unfold EXACT_MAX. ulia. Qed.

Lemma cas_script_runs c expected r ttl now ks t M :
  is_u64 c → 0 ≤ now → 0 ≤ ttl → now + ttl ≤ EXACT_MAX → t + ttl ≤ I64_MAX →
  (∀ v, expected = Some v → 0 ≤ v ≤ EXACT_MAX) → mirrors p ks M →
  let cur := version <$> live M now c in
  let e := next_entry cur r ttl now in
  default 0 cur < EXACT_MAX → ∃ ks',
    runs (cas_script (key c) zkey (show_u64 c) (expected_text expected) (payload_of r) (show_u64 now) (show_u64 ttl) (show_u64 (now + ttl))) ks t
      (eq (VArray (VInt <$> if decide (cur = expected) then [1; version e] else [0; default (-1) cur]))) ks' ∧
    mirrors p ks' (if decide (cur = expected) then set_slot c (new_slot e ttl t) M else prune now c M).
Proof.
  intros Hc Hn Httl Hx Ht Hexp HM cur e Hcur. pose proof (next_version_exact M now c ks Hc HM) as Hv. fold cur in Hv.
  destruct (next_entry_numbers cur r ttl now) as (Hev & Hex & _); [lia..|]. fold e in Hev, Hex.
  assert (record e = r) as Hre by done. clearbody e.
  destruct (current_version_runs c now ks t M Hc HM) as (ks1 & Hcv & HM1).
  unfold cas_script. rewrite !tonumber_exact by (unfold EXACT_MAX in *; lia).
  assert (∀ actual, lua_table [LNumber 0; LNumber actual] = [VInt (reply_integer 0); VInt (reply_integer actual)]) as Htab by done.
  pose proof (write_session_runs c e ttl t ks1 (prune now c M) Hc) as Hw. specialize (Hw ltac:(unfold writable, EXACT_MAX in *; lia) HM1).
  rewrite Hex, Hev, Hre in Hw.
  assert (mirrors p (written p c (payload_of r) (default 0 cur + 1) (now + ttl) ttl t ks1) (set_slot c (new_slot e ttl t) M)) as HM2.
  { eapply mirrors_ext; [by intros x; rewrite <- (set_slot_prune now)|]. rewrite <- Hex, <- Hev, <- Hre.
    apply mirrors_written; [done|unfold EXACT_MAX in *; lia..|done]. }
  case_decide as Hd.
  - eexists. split; [|exact HM2]. run_let ltac:(exact Hcv). rewrite <- Hd.
    assert (∀ cv, default 0 cv = default 0 cur → runs (write_session (key c) zkey (show_u64 c) (payload_of r) (round53 (default 0 cv + 1)) (Some ttl) (Some (now + ttl)) ;;
      mret (VArray (lua_table [LNumber 1; LNumber (round53 (default 0 cv + 1))]))) ks1 t (eq (VArray (VInt <$> [1; version e])))
      (written p c (payload_of r) (default 0 cur + 1) (now + ttl) ttl t ks1)) as Hwrite.
    { intros cv ->. rewrite round53_exact by lia. run_let ltac:(exact Hw). apply runs_ret. cbn. rewrite Hev.
      by rewrite !reply_integer_exact by (unfold EXACT_MAX in *; lia). }
    unfold cur in *. destruct (live M now c) as [e0|] eqn:Hlive; cbn [fmap option_fmap option_map from_option] in *; unfold id in *.
    + rewrite bool_decide_eq_false_2 by (apply show_u64_nonempty). cbn. rewrite tonumber_exact by lia.
      rewrite bool_decide_eq_true_2 by done. by apply (Hwrite (Some (version e0))).
    + cbn. by apply (Hwrite None).
  - eexists. split; [|exact HM1]. run_let ltac:(exact Hcv). unfold cur in *.
    destruct expected as [v|], (live M now c) as [e0|] eqn:Hlive; cbn [fmap option_fmap option_map from_option expected_text] in *; unfold id in *; try done.
    + rewrite bool_decide_eq_false_2 by (apply show_u64_nonempty). cbn. rewrite tonumber_exact by (by apply Hexp).
      rewrite bool_decide_eq_false_2 by done. apply runs_ret. by rewrite !reply_integer_exact by (unfold EXACT_MAX in *; lia).
    + rewrite bool_decide_eq_false_2 by (apply show_u64_nonempty). apply runs_ret. cbn. by rewrite !reply_integer_exact by (unfold EXACT_MAX; lia).
    + cbn. apply runs_ret. by rewrite !reply_integer_exact by (unfold EXACT_MAX in *; lia).
Qed.

(** The version an upsert starts from. *)
Lemma upsert_version_runs c now ks t M :
  is_u64 c → mirrors p ks M →
  runs (if (if M c then 1 else 0) =? 1
        then cur_expires ← hget_number (key c) "expires_at_ms"; expired ← number_le cur_expires (Some now);
             if negb expired then hget_number (key c) "version" else mret (Some 0)
        else mret (Some 0)) ks t (eq (Some (default 0 (version <$> live M now c)))) ks.
Proof.
  intros Hc HM. unfold live. destruct (M c) as [[e d]|] eqn:He; [|by apply runs_ret]. cbn [Z.eqb Pos.eqb].
  run_let ltac:(by eapply runs_session_expires). run_let ltac:(apply runs_number_le). cbn.
  destruct (now <? expires_at_ms e) eqn:Hl; zprop; zdec; cbn [negb]; [by eapply runs_session_version|by apply runs_ret].
Qed.

Lemma upsert_script_runs c r ttl now ks t M :
  is_u64 c → 0 ≤ now → 0 ≤ ttl → now + ttl ≤ EXACT_MAX → t + ttl ≤ I64_MAX → mirrors p ks M →
  let cur := version <$> live M now c in
  let e := next_entry cur r ttl now in
  default 0 cur < EXACT_MAX → ∃ ks',
    runs (upsert_script (key c) zkey (show_u64 c) (payload_of r) (show_u64 now) (show_u64 ttl) (show_u64 (now + ttl))) ks t
      (eq (VInt (version e))) ks' ∧
    mirrors p ks' (set_slot c (new_slot e ttl t) M).
Proof.
  intros Hc Hn Httl Hx Ht HM cur e Hcur. pose proof (next_version_exact M now c ks Hc HM) as Hv. fold cur in Hv.
  destruct (next_entry_numbers cur r ttl now) as (Hev & Hex & _); [lia..|]. fold e in Hev, Hex.
  assert (record e = r) as Hre by done. clearbody e.
  assert (writable e ttl t) as Hw by (unfold writable, EXACT_MAX in *; lia).
  pose proof (write_session_runs c e ttl t ks M Hc Hw HM) as Hrun. destruct Hw as (Hwv & Hwx & _ & _).
  pose proof (mirrors_written p c e ttl t ks M Hc Hwv Hwx HM) as HM'. rewrite Hex, Hev, Hre in *.
  eexists. split; [|exact HM']. unfold upsert_script. rewrite !tonumber_exact by (unfold EXACT_MAX in *; lia).
  run_let ltac:(by eapply runs_session_exists). run_let ltac:(by eapply upsert_version_runs).
  run_let ltac:(apply runs_number). fold cur. rewrite round53_exact by lia. run_let ltac:(exact Hrun).
  apply runs_ret. by rewrite reply_integer_exact by lia.
Qed.

(** The cleanup removes an expired session that is still there, and says so. *)
Lemma cleanup_script_runs c now ks t M :
  is_u64 c → 0 ≤ now ≤ EXACT_MAX → mirrors p ks M → ∃ ks',
    runs (cleanup_script (key c) zkey (show_u64 c) (show_u64 now)) ks t
      (eq (VInt (if decide (is_Some (M c) ∧ live M now c = None) then 1 else 0))) ks' ∧
    mirrors p ks' (prune now c M).
Proof.
  intros Hc Hn HM. pose proof (runs_session_exists c ks t M Hc HM) as Hex. unfold cleanup_script. rewrite tonumber_exact by done.
  destruct (M c) as [[e d]|] eqn:He.
  - pose proof (runs_session_expires c ks M e d t Hc HM He) as Hx.
    unfold live, prune. unfold live. rewrite He. cbn. destruct (now <? expires_at_ms e) eqn:Hl; zprop.
    + exists ks. split; [|done]. run_let ltac:(exact Hex). run_let ltac:(exact Hx). run_let ltac:(apply runs_number_le).
      zdec. rewrite decide_False by (by intros [_ ?]). apply runs_ret. by rewrite reply_integer_exact.
    + exists (dropped p c ks). split; [|by apply mirrors_dropped]. run_let ltac:(exact Hex). run_let ltac:(exact Hx).
      run_let ltac:(apply runs_number_le). zdec. run_let ltac:(by eapply runs_drop).
      rewrite decide_True by (split; [by eexists|done]). apply runs_ret. by rewrite reply_integer_exact.
  - eexists. split; [|eapply mirrors_ext; [by apply prune_absent|by apply mirrors_zrem]].
    run_let ltac:(exact Hex). cbn [Z.eqb]. run_seq ltac:(apply runs_zrem; apply (mir_typed _ _ _ HM)).
    rewrite decide_False by (by intros [[? ?] _]). apply runs_ret. by rewrite reply_integer_exact.
Qed.

End Scripts.
