(* ===== verification/RedisSteps.v ===== *)
(** * The calls of the Redis store

    A call of the store on a server that mirrors a map of sessions gives the answer of the map and
    changes it as the map changes; when the network fails under it, the call reports the failure
    and the server has done all of its work or nothing. *)

From S2P Require Import Prelude Bytes Text Store StoreSpec RedisServer Redis RedisLemmas.

Section Calls.
Context {R : Type} `{HL : !LuaNumbers, HR : !RedisServer R, HC : !RedisCrate, HJ : !Json, HT : !EncodeTotal}.
Context (net : nat → option NetFault).

Abbreviation store := (ST (RedisSessionStore R) StoreError).
Implicit Types (s : RedisSessionStore R) (M : slots).

(** Some call on the network fails, from the next one on. *)
Definition broken s : Prop := ∃ n, (net_calls s ≤ n)%nat ∧ net n ≠ None.

(** The server behind a store mirrors [M]. *)
Definition holds s M : Prop := mirrors (key_prefix s) (keyspace (server s)) M.

(** A call changes neither the prefix nor, by itself, the time. *)
Definition same_frame s s' : Prop :=
  key_prefix s' = key_prefix s ∧ clock (server s') = clock (server s) ∧ (net_calls s ≤ net_calls s')%nat.

#[global] Instance same_frame_preorder : PreOrder same_frame.
Proof. split; [by split|]. intros s1 s2 s3 (H1 & H2 & H3) (K1 & K2 & K3). split_and!; [congruence..|lia]. Qed.

Lemma broken_frame s s' : same_frame s s' → broken s' → broken s.
Proof. intros (_ & _ & Hn) (n & Hl & Hf). exists n. split; [lia|done]. Qed.

(** A call from [M] settles: it gives [answer] and the server goes on to [M'], or the network
    failed, the caller gets the failure, and the server is at [M] or at [M']. *)
Definition settles {A} s M (m : store A) (answer : outcome StoreError A) M' : Prop :=
  ∃ o s', m s = (o, s') ∧ same_frame s s' ∧
    ((o = answer ∧ holds s' M') ∨
     (broken s ∧ (∃ message, o = Err (Backend message)) ∧ (holds s' M ∨ holds s' M'))).

(** A request whose commands do [ks] to [ks'], where a part of them does it completely or not at
    all. *)
Lemma invoke_outcome {A} (m : ST R string A) s P ks' :
  runs m (keyspace (server s)) (clock (server s)) P ks' →
  ∃ o s', invoke net m s = (o, s') ∧ same_frame s s' ∧
    ((∃ a, o = Ok a ∧ P a ∧ keyspace (server s') = ks') ∨
     (broken s ∧ (∃ message, o = Err (Backend message)) ∧ (keyspace (server s') = keyspace (server s) ∨ keyspace (server s') = ks'))).
Proof.
  intros Hm. destruct (Hm (server s) eq_refl eq_refl) as (a & r & Hr & Hk & Ht & HP).
  unfold invoke, request, same_frame. destruct (net (net_calls s)) as [f|] eqn:Hf.
  - assert (broken s) by (exists (net_calls s); split; [lia|congruence]).
    eexists _, _. split; [done|]. split; [split|right; split; [done|split; [by eexists|]]].
    + done.
    + cbn. destruct (executed f) as [|n]; [split; [done|lia]|]. cbn. unfold mbind, ST_bind. rewrite Hr. cbn. split; [done|lia].
    + cbn. destruct (executed f) as [|n]; [by left|right]. cbn. unfold mbind, ST_bind. by rewrite Hr.
  - rewrite Hr. eexists _, _. split; [done|]. split; [split_and!; cbn; [done|done|lia]|]. left. by exists a.
Qed.

Lemma conn_outcome s : ∃ o s',
  conn net s = (o, s') ∧ same_frame s s' ∧ server s' = server s ∧
  (o = Ok () ∨ (broken s ∧ ∃ message, o = Err (Backend message))).
Proof.
  unfold conn, request, same_frame. destruct (net (net_calls s)) as [f|] eqn:Hf; eexists _, _; (split; [done|split; [split_and!; cbn; [done|done|lia]|split; [done|]]]).
  - right. split; [exists (net_calls s); split; [lia|congruence]|by eexists].
  - by left.
Qed.

Lemma holds_frame s s' M : same_frame s s' → keyspace (server s') = keyspace (server s) → holds s M → holds s' M.
Proof. unfold holds. intros (-> & _ & _) ->. done. Qed.

(** The shape of [load], [compare_and_swap] and [upsert]: one script, and what the store makes of
    its reply. *)
Lemma script_settles {B C} (f : str → ST R string value) (conv : value → outcome string B) (k : B → store C)
    s M M' v b answer :
  holds s M →
  (∃ ks', runs (f (key_prefix s)) (keyspace (server s)) (clock (server s)) (eq v) ks' ∧ mirrors (key_prefix s) ks' M') →
  conv v = Ok b → (∀ s', k b s' = (answer, s')) →
  settles s M (conn net ;; s1 ← st_get; b ← converted conv (invoke net (f (key_prefix s1))); k b) answer M'.
Proof.
  intros HM (ks' & Hrun & HM') Hconv Hk. unfold settles.
  destruct (conn_outcome s) as (o & s1 & Hc & Hf1 & Hs1 & Ho).
  unfold mbind at 1, ST_bind at 1. rewrite Hc. destruct Ho as [->|(Hb & msg & ->)].
  2:{ exists (Err (Backend msg)), s1. split; [done|]. split; [done|]. right. split; [done|]. split; [by eexists|].
      left. eapply holds_frame; [done| |done]. by rewrite Hs1. }
  unfold st_get, mbind at 1, ST_bind at 1. rewrite <- Hs1 in Hrun. rewrite <- (proj1 Hf1) in Hrun, HM'.
  destruct (invoke_outcome (f (key_prefix s1)) s1 (eq v) ks' Hrun) as (o & s2 & Hi & Hf2 & Ho).
  unfold converted, mbind, ST_bind. rewrite Hi. assert (same_frame s s2) as Hf by (by etrans).
  destruct Ho as [(a & -> & <- & Hks)|(Hb & (msg & ->) & Hks)].
  - unfold st_lift. rewrite Hconv. cbn. rewrite Hk. eexists _, s2. split; [done|]. split; [done|]. left. split; [done|].
    unfold holds. rewrite Hks, (proj1 Hf2). done.
  - exists (Err (Backend msg)), s2. split; [done|]. split; [done|]. right. split; [by apply (broken_frame s s1)|]. split; [by eexists|].
    destruct Hks as [Hks|Hks]; [left|right].
    + eapply holds_frame; [done| |done]. by rewrite Hks, Hs1.
    + unfold holds. rewrite Hks, (proj1 Hf2). done.
Qed.

Lemma exact_i64 n : n ≤ EXACT_MAX → n ≤ I64_MAX.
Proof. unfold EXACT_MAX, I64_MAX. lia. Qed.

Lemma live_exact s M now c e : is_u64 c → holds s M → live M now c = Some e → 0 ≤ version e ≤ EXACT_MAX ∧ 0 ≤ expires_at_ms e ≤ EXACT_MAX.
Proof.
  intros Hc [_ Hs] He. specialize (Hs c Hc). unfold live in He. destruct (M c) as [[e' d]|]; [|done]. cbn in He.
  destruct (now <? expires_at_ms e'); [|done]. injection He as ->. by destruct Hs as [(h & _ & [_ _ _ ? ?]) _].
Qed.

Lemma load_settles c now s M :
  is_u64 c → 0 ≤ now ≤ EXACT_MAX → holds s M →
  settles s M (redis_load net c now) (Ok (to_versioned <$> live M now c)) (prune now c M).
Proof.
  intros Hc Hn HM. unfold redis_load. cbv zeta.
  eapply (script_settles (λ p, load_script (session_key p c) (expiry_index_key p) (show_u64 c) (show_u64 now)) as_values);
    [exact HM|by apply load_script_runs|apply as_values_array|].
  intros s'. destruct (live M now c) as [e|] eqn:He; [|done].
  destruct (live_exact s M now c e Hc HM He) as [[Hv1 Hv2%exact_i64] [Hx1 Hx2%exact_i64]].
  unfold field_of, st_lift, mbind, ST_bind, mret, ST_ret. cbn. rewrite !as_u64_int, as_bytes_bulk by done. cbn.
  by rewrite decode_payload.
Qed.

(** A write the numbers of the scripts can carry, at the moment of a store. *)
Definition carried s M c ttl now : Prop :=
  is_u64 c ∧ 0 ≤ now ∧ 0 ≤ ttl ∧ now + ttl ≤ EXACT_MAX ∧ clock (server s) + ttl ≤ I64_MAX ∧
  default 0 (version <$> live M now c) < EXACT_MAX.

Lemma carried_numbers s M c ttl now r :
  holds s M → carried s M c ttl now →
  sat_add U64_MAX now ttl = now + ttl ∧
  let e := next_entry (version <$> live M now c) r ttl now in 0 ≤ version e ≤ EXACT_MAX ∧ expires_at_ms e = now + ttl.
Proof.
  intros HM (Hc & Hn & Httl & Hx & _ & Hv). pose proof (next_version_exact _ M now c _ Hc HM) as Hv'.
  destruct (next_entry_numbers (version <$> live M now c) r ttl now) as (H1 & H2 & H3); [lia..|].
  split; [done|]. cbn zeta. rewrite H1, H2. lia.
Qed.

Lemma cas_settles c expected r ttl now s M :
  carried s M c ttl now → (∀ v, expected = Some v → 0 ≤ v ≤ EXACT_MAX) → holds s M →
  let cur := version <$> live M now c in
  let e := next_entry cur r ttl now in
  settles s M (redis_compare_and_swap net c expected r ttl now)
    (if decide (cur = expected) then Ok (to_versioned e) else Err (CasConflict expected cur))
    (if decide (cur = expected) then set_slot c (new_slot e ttl (clock (server s))) M else prune now c M).
Proof.
  intros Hcar Hexp HM cur e. pose proof (carried_numbers s M c ttl now r HM Hcar) as (Hsat & Hve & Hxe).
  destruct Hcar as (Hc & Hn & Httl & Hx & Ht & Hv). fold cur in Hv, Hve, Hxe. fold e in Hve, Hxe.
  assert (∀ cv, cur = Some cv → 0 ≤ cv < EXACT_MAX) as Hcv.
  { intros cv Hcv. pose proof (next_version_exact _ M now c _ Hc HM) as H. fold cur in H. rewrite Hcv in H, Hv. cbn in H, Hv. lia. }
  unfold redis_compare_and_swap. rewrite encode_payload, Hsat. unfold st_lift, mbind at 1, ST_bind at 1.
  cbv zeta. eapply (script_settles (λ p, cas_script (session_key p c) (expiry_index_key p) (show_u64 c) (expected_text expected)
    (payload_of r) (show_u64 now) (show_u64 ttl) (show_u64 (now + ttl))) as_i64s);
    [exact HM|by apply cas_script_runs| |].
  - apply as_i64s_array. fold cur e. unfold EXACT_MAX, I64_MAX in *.
    case_decide; [|destruct cur as [cv|] eqn:Ecur; [specialize (Hcv cv eq_refl)|]]; (apply Forall_cons; split; [lia|]; apply Forall_cons; split; [first [lia|cbn; lia]|by apply Forall_nil]).
  - intros s'. fold cur e. unfold as_u64_of_i64, EXACT_MAX in *.
    assert (record e = r) as Hre by done. clearbody e. case_decide; cbn.
    + unfold mret, ST_ret, to_versioned. rewrite Hxe, Hre. unfold wrap64. rewrite Z.mod_small by ulia. done.
    + unfold st_throw. destruct cur as [cv|] eqn:Ecur; [|done]. specialize (Hcv cv eq_refl). cbn. zdec.
      unfold wrap64. by rewrite Z.mod_small by ulia.
Qed.

Lemma upsert_settles c r ttl now s M :
  carried s M c ttl now → holds s M →
  let e := next_entry (version <$> live M now c) r ttl now in
  settles s M (redis_upsert net c r ttl now) (Ok (to_versioned e)) (set_slot c (new_slot e ttl (clock (server s))) M).
Proof.
  intros Hcar HM e. pose proof (carried_numbers s M c ttl now r HM Hcar) as (Hsat & Hve & Hxe).
  destruct Hcar as (Hc & Hn & Httl & Hx & Ht & Hv). fold e in Hve, Hxe.
  unfold redis_upsert. rewrite encode_payload, Hsat. unfold st_lift, mbind at 1, ST_bind at 1.
  cbv zeta. eapply (script_settles (λ p, upsert_script (session_key p c) (expiry_index_key p) (show_u64 c)
    (payload_of r) (show_u64 now) (show_u64 ttl) (show_u64 (now + ttl))) as_u64);
    [exact HM|by apply upsert_script_runs| |].
  - apply as_u64_int. fold e. pose proof (exact_i64 (version e)). lia.
  - intros s'. unfold mret, ST_ret, to_versioned. fold e. by rewrite Hxe.
Qed.

(** The keys after the first command of the pipeline of [delete]. *)
Lemma mirrors_removed p c ks M : is_u64 c → mirrors p ks M → mirrors p (remove_key (session_key p c) ks) (set_slot c None M).
Proof.
  intros Hc HM. pose proof (session_key_not_index p c) as Hki. pose proof HM as [[Hi Hk Hm] _].
  apply (mirrors_change p ks); [done|done|..].
  - cbn. apply lookup_delete_eq.
  - cbn. by rewrite lookup_delete_ne.
  - intros c'. by apply zsets_remove.
  - intros m score H. right. unfold zset_at in *. cbn in H. rewrite lookup_delete_ne in H by done. eauto.
  - intros c' Hc' Hne. pose proof (other_key p c c' Hc Hc' Hne). cbn. by rewrite !lookup_delete_ne.
Qed.

Lemma delete_settles c s M :
  is_u64 c → holds s M → settles s M (redis_delete net c) (Ok ()) (set_slot c None M).
Proof.
  intros Hc HM. unfold redis_delete, settles. cbv zeta.
  destruct (conn_outcome s) as (o & s1 & Hco & Hf1 & Hs1 & Ho).
  unfold mbind at 1, ST_bind at 1. rewrite Hco. destruct Ho as [->|(Hb & msg & ->)].
  2:{ exists (Err (Backend msg)), s1. split; [done|]. split; [done|]. right. split; [done|]. split; [by eexists|].
      left. eapply holds_frame; [done| |done]. by rewrite Hs1. }
  unfold st_get, mbind at 1, ST_bind at 1, request. rewrite (proj1 Hf1), Hs1.
  destruct (del_law (session_key (key_prefix s) c) (server s)) as (n1 & r1 & Hd & Hk1 & Ht1).
  destruct (runs_drop (key_prefix s) c _ _ M Hc HM (server s) eq_refl eq_refl) as ([] & r2 & Hr & Hk2 & Ht2 & _).
  pose proof (mirrors_dropped _ c _ M Hc HM) as HM2. pose proof (mirrors_removed _ c _ M Hc HM) as HM1.
  destruct (net (net_calls s1)) as [f|] eqn:Hf.
  - eexists _, _. split; [done|]. assert (∃ r, (server s = r ∨ r1 = r ∨ r2 = r) ∧
      (st_when (0 <? executed f)%nat (del (session_key (key_prefix s) c) ;; mret ()) ;;
       st_when (1 <? executed f)%nat (zrem (expiry_index_key (key_prefix s)) (show_u64 c) ;; mret ())) (server s) = (Ok (), r)) as (r & Hr' & ->).
    { unfold st_when. destruct (executed f) as [|[|n]]; cbn; unfold mbind, ST_bind, mret, ST_ret; [by eauto|rewrite Hd; by eauto|].
      exists r2. split; [by eauto|]. unfold drop_session, mbind, ST_bind, mret, ST_ret in Hr. rewrite Hd in *. done. }
    destruct Hf1 as (Hp1 & Hc1 & Hn1).
    split; [|right; split; [exists (net_calls s1); split; [lia|congruence]|split; [by eexists|]]].
    + split_and!; cbn; [done|by destruct Hr' as [<-|[<-|<-]]|lia].
    + unfold holds. cbn. destruct Hr' as [<-|[<-|<-]]; [by left|right; by rewrite Hk1|right; by rewrite Hk2].
  - eexists _, _. rewrite Hr. split; [done|]. destruct Hf1 as (Hp1 & Hc1 & Hn1). split; [split_and!; cbn; [done|done|lia]|]. left.
    split; [done|]. unfold holds. cbn. by rewrite Hk2.
Qed.

(** A scan prunes some of the expired sessions. *)
Definition pruned (now : Z) M M' : Prop := ∀ c, M' c = M c ∨ (M' c = None ∧ live M now c = None).

#[global] Instance pruned_refl now : Reflexive (pruned now).
Proof. intros M c. by left. Qed.

Lemma pruned_trans now M1 M2 M3 : pruned now M1 M2 → pruned now M2 M3 → pruned now M1 M3.
Proof.
  intros H1 H2 c. destruct (H2 c) as [->|[-> Hl]]; [apply H1|right; split; [done|]].
  destruct (H1 c) as [He|[_ He]]; [|done]. unfold live in *. by rewrite <- He.
Qed.

Lemma pruned_prune now c M : pruned now M (prune now c M).
Proof.
  intros x. unfold prune. destruct (live M now c) eqn:Hl; [by left|]. unfold set_slot.
  destruct (decide (x = c)) as [->|Hx]; [by right|by left].
Qed.

(** What a scan may report. *)
Definition reported (now : Z) M (removed : list Z) : Prop :=
  NoDup removed ∧ ∀ c, c ∈ removed → is_Some (M c) ∧ live M now c = None.

(** The end of a scan from [M0]: it reports sessions it removed, or the network failed. *)
Definition scan_end s0 M0 now n (x : outcome StoreError (list Z) * RedisSessionStore R) : Prop :=
  same_frame s0 x.2 ∧ ∃ M', holds x.2 M' ∧ pruned now M0 M' ∧
    ((∃ removed, x.1 = Ok removed ∧ reported now M0 removed ∧ zlen removed ≤ n) ∨
     (broken s0 ∧ ∃ message, x.1 = Err (Backend message))).

(** One more member is cleaned up. *)
Lemma reported_next now c M0 M removed :
  pruned now M0 M → reported now M0 removed → (∀ c, c ∈ removed → M c = None) →
  let removed' := if (if decide (is_Some (M c) ∧ live M now c = None) then 1 else 0) =? 1 then removed ++ [c] else removed in
  reported now M0 removed' ∧ (∀ x, x ∈ removed' → prune now c M x = None) ∧ zlen removed' ≤ zlen removed + 1.
Proof.
  intros Hpr [Hnd Hrep] Hgone. assert (∀ x, M x = None → prune now c M x = None) as Hstay.
  { intros x Hx. unfold prune, set_slot. destruct (live M now c); [done|]. by case_decide. }
  destruct (decide (is_Some (M c) ∧ live M now c = None)) as [[Hs Hl]|Hno]; cbn [Z.eqb Pos.eqb].
  - split; [split|split].
    + apply NoDup_app. split; [done|]. split; [|apply NoDup_singleton]. intros x Hx ->%list_elem_of_singleton.
      rewrite (Hgone c Hx) in Hs. by destruct Hs.
    + intros x [Hx| ->%list_elem_of_singleton]%elem_of_app; [by apply Hrep|].
      destruct (Hpr c) as [He|[He _]]; [|rewrite He in Hs; by destruct Hs]. unfold live in *. by rewrite <- He.
    + intros x [Hx| ->%list_elem_of_singleton]%elem_of_app; [by apply Hstay, Hgone|].
      unfold prune, set_slot. rewrite Hl. by rewrite decide_True.
    + rewrite zlen_app, zlen_singleton. lia.
  - split; [done|]. split; [by auto|]. lia.
Qed.

Lemma cleanup_loop_end now s0 M0 n members : ∀ removed s M,
  Forall (λ m, ∃ c, is_u64 c ∧ m = show_u64 c) members → 0 ≤ now ≤ EXACT_MAX → same_frame s0 s →
  holds s M → pruned now M0 M → reported now M0 removed → (∀ c, c ∈ removed → M c = None) → zlen removed + zlen members ≤ n →
  scan_end s0 M0 now n (cleanup_loop net (key_prefix s0) now removed members s).
Proof.
  induction members as [|m members IH]; intros removed s M Hall Hn Hf HM Hpr Hrep Hgone Hlen.
  { split; [done|]. exists M. split; [done|]. split; [done|]. left. exists removed. split; [done|]. split; [done|].
    unfold zlen in *. cbn in Hlen. lia. }
  apply Forall_cons in Hall as [(c & Hc & ->) Hall]. rewrite zlen_cons in Hlen.
  cbn [cleanup_loop]. rewrite parse_u64_show by done. rewrite <- (proj1 Hf).
  destruct (cleanup_script_runs (key_prefix s) c now (keyspace (server s)) (clock (server s)) M Hc Hn HM) as (ks' & Hrun & HM').
  destruct (invoke_outcome _ s _ ks' Hrun) as (o & s1 & Hi & Hf1 & Ho).
  assert (pruned now M0 (prune now c M)) as Hpr' by (eapply pruned_trans, pruned_prune; done).
  assert (same_frame s0 s1) as Hf' by (by etrans).
  unfold converted. do 2 (unfold mbind at 1, ST_bind at 1). rewrite Hi. destruct Ho as [(a & -> & <- & Hks)|(Hb & (msg & ->) & Hks)].
  - unfold st_lift. rewrite as_i32_int by (case_decide; lia). cbn [map_err]. rewrite (proj1 Hf).
    destruct (reported_next now c M0 M removed Hpr Hrep Hgone) as (Hrep' & Hgone' & Hlen').
    eapply IH; [done|done|done| |exact Hpr'|exact Hrep'|exact Hgone'|lia]. unfold holds. by rewrite Hks, (proj1 Hf1).
  - split; [done|]. destruct Hks as [Hks|Hks]; [exists M|exists (prune now c M)].
    + split; [by apply (holds_frame s)|]. split; [done|]. right. apply (broken_frame s0) in Hb; [by eauto|done].
    + split; [unfold holds; cbn [snd]; by rewrite Hks, (proj1 Hf1)|]. split; [done|]. right. apply (broken_frame s0) in Hb; [by eauto|done].
Qed.

Lemma runs_zrange p now limit ks t M :
  0 ≤ now ≤ EXACT_MAX → 0 ≤ limit ≤ I64_MAX → mirrors p ks M →
  runs (found ← zrangebyscore (expiry_index_key p) (lit "-inf") (show_u64 now) (lit "0") (show_u64 limit); mret (VArray (VBulk <$> found)))
    ks t (λ v, ∃ l, v = VArray (VBulk <$> l) ∧ Forall (λ m, ∃ c, is_u64 c ∧ m = show_u64 c) l ∧ zlen l ≤ limit) ks.
Proof.
  intros Hn Hl [[Hi Hk Hm] _] r <- <-.
  destruct (zrangebyscore_law (expiry_index_key p) (show_u64 now) now limit r Hi (tonumber_exact _ Hn) Hl)
    as (l & r' & Hr & Hks & Ht & _ & Hlen & Hin & _).
  exists (VArray (VBulk <$> l)), r'. unfold mbind at 1, ST_bind at 1. rewrite Hr. split; [done|]. split; [done|]. split; [done|].
  exists l. split; [done|]. split; [|done]. apply Forall_forall. intros m Hml. destruct (Hin m Hml) as (x & Hx & _). by eapply Hm.
Qed.

Lemma scan_settles now limit s M :
  0 ≤ now ≤ EXACT_MAX → 0 ≤ limit ≤ I64_MAX → holds s M → scan_end s M now limit (redis_scan_expired net now limit s).
Proof.
  intros Hn Hl HM. unfold redis_scan_expired. cbv zeta.
  assert (∀ s', same_frame s s' → keyspace (server s') = keyspace (server s) → ∀ msg, broken s → scan_end s M now limit (Err (Backend msg), s')) as Herr.
  { intros s' Hf Hks msg Hb. split; [done|]. exists M. split; [by eapply holds_frame|]. split; [done|]. right. by eauto. }
  assert (reported now M []) as Hnil by (split; [constructor|set_solver]).
  destruct (limit =? 0) eqn:Hlim.
  { split; [done|]. exists M. split; [done|]. split; [done|]. left. exists []. split; [done|]. split; [done|]. unfold zlen. cbn. lia. }
  destruct (conn_outcome s) as (o & s1 & Hco & Hf1 & Hs1 & Ho).
  unfold mbind at 1, ST_bind at 1. rewrite Hco. destruct Ho as [->|(Hb & msg & ->)]; [|apply Herr; [done|by rewrite Hs1|done]].
  assert (holds s1 M) as HM1 by (eapply holds_frame; [done|by rewrite Hs1|done]).
  unfold st_get, mbind at 1, ST_bind at 1.
  destruct (invoke_outcome _ s1 _ _ (runs_zrange (key_prefix s1) now limit _ (clock (server s1)) M Hn Hl HM1)) as (o & s2 & Hi & Hf2 & Ho).
  assert (same_frame s s2) as Hf by (by etrans).
  unfold converted. do 2 (unfold mbind at 1, ST_bind at 1). rewrite Hi.
  destruct Ho as [(a & -> & (l & -> & Hall & Hlen) & Hks)|(Hb & (msg & ->) & Hks)].
  - unfold st_lift. rewrite as_strings_array.
    2:{ eapply Forall_impl; [exact Hall|]. intros m (c & [Hc _] & ->). rewrite printable_utf8 by (by apply show_u64_printable). by eexists. }
    cbn [map_err]. rewrite (proj1 Hf1). apply (cleanup_loop_end now s M limit l [] s2 M); [done|done|done| |done|done|set_solver|done].
    by apply (holds_frame s1).
  - apply Herr; [done|destruct Hks; congruence|by apply (broken_frame s s1)].
Qed.

End Calls.
