(* ===== verification/RedisSamples.v ===== *)
(** * A concrete server for the Redis store

    The server, the numbers of its scripts and the crate are parameters of the model of the Redis
    store; this file gives each one executable instance that satisfies its laws, for the
    witnesses. *)

From S2P Require Import Prelude Bytes Text Store RedisServer Redis RedisLemmas DiskLemmas DiskSamples.

#[export] Instance sample_encode_total : EncodeTotal.
Proof. intros s. apply to_vec_total. Qed.

(* ------------------------------------------------------------------ *)
(** ** Numbers *)
(* ------------------------------------------------------------------ *)

Definition sample_tonumber (s : str) : option Z :=
  match s with
  | [] => None
  | _ => round53 <$> digits_value 0 s
  end.

Lemma sample_tonumber_show n : 0 ≤ n → sample_tonumber (show_u64 n) = Some (round53 n).
Proof.
  intros Hn. pose proof (digits_value_show n Hn) as H. unfold sample_tonumber. pose proof (show_u64_nonempty n).
  destruct (show_u64 n); [done|]. by rewrite H.
Qed.

#[export] Instance sample_numbers : LuaNumbers.
Proof.
  refine {| tonumber := sample_tonumber; number_text := show_u64; reply_integer := id; type_error := "attempt to use nil" |}; try done.
  - intros n Hn. apply sample_tonumber_show. by destruct Hn.
  - intros n Hn He. by rewrite sample_tonumber_show, He.
Defined.

(** Rounding does not cross 2^63. *)
Lemma round53_i64 n : n ≤ 2 ^ 63 → round53 n ≤ 2 ^ 63.
Proof.
  intros Hn. unfold round53. destruct (n <=? EXACT_MAX) eqn:He; [lia|]. zprop.
  destruct (decide (n = 2 ^ 63)) as [->|Hne]; [by vm_compute|]. set (u := 2 ^ (Z.log2 n - 52)).
  assert (2 ^ 53 < n) as Hlow by (unfold EXACT_MAX in He; lia).
  assert (53 ≤ Z.log2 n) as Hl1 by (apply Z.log2_le_pow2; lia).
  assert (Z.log2 n < 63) as Hl2 by (apply Z.log2_lt_pow2; lia).
  assert (0 < u) as Hu by (apply Z.pow_pos_nonneg; lia).
  assert (2 ^ 53 * u = 2 ^ (Z.log2 n + 1)) as Hpow by (unfold u; rewrite <- Z.pow_add_r by lia; f_equal; lia).
  assert (2 ^ (Z.log2 n + 1) ≤ 2 ^ 63) as Hpow' by (apply Z.pow_le_mono_r; lia).
  assert (n < 2 ^ (Z.log2 n + 1)) as Hup by (apply Z.log2_spec; lia).
  assert (n / u < 2 ^ 53) as Hq by (apply Z.div_lt_upper_bound; lia).
  destruct (_ || _); nia.
Qed.

(* ------------------------------------------------------------------ *)
(** ** The server *)
(* ------------------------------------------------------------------ *)

(** The keys and the clock. *)
Definition SampleServer : Type := Keyspace * N.

Definition sample_keyspace (r : SampleServer) : Keyspace := r.1.
Definition sample_clock (r : SampleServer) : Z := Z.of_N r.2.

(** A command that changes the keys. *)
Definition changes {A} (a : A) (f : Keyspace → Keyspace) : ST SampleServer string A := λ r, (Ok a, (f r.1, r.2)).

Definition sample_pexpire (k text : str) : ST SampleServer string Z := λ r,
  match digits_value 0 text with
  | Some n =>
      if sample_clock r + n <=? I64_MAX then
        (Ok 1, (if n =? 0 then remove_key k r.1 else r.1 <| deadlines := <[k := sample_clock r + n]> (deadlines r.1) |>, r.2))
      else (Err "invalid expire time", r)
  | None => (Err "value is not an integer or out of range", r)
  end.

(** The members up to a score, the first [count] of them. *)
Definition members_upto (x : Z) (z : gmap str Z) : list str := (map_to_list (filter (λ kv, kv.2 ≤ x) z)).*1.

Definition sample_zrangebyscore (k low max offset count : str) : ST SampleServer string (list str) := λ r,
  let x := default 0 (sample_tonumber max) in
  let n := default 0 (digits_value 0 count) in
  (Ok (take (Z.to_nat n) (members_upto x (zset_at r.1 k))), r).

Lemma elem_of_members_upto x z m : m ∈ members_upto x z ↔ ∃ score, z !! m = Some score ∧ score ≤ x.
Proof.
  unfold members_upto. rewrite list_elem_of_fmap. split.
  - intros ([m' score] & -> & H%elem_of_map_to_list). apply map_lookup_filter_Some in H as [H Hx]. by exists score.
  - intros (score & H & Hx). exists (m, score). split; [done|]. apply elem_of_map_to_list. by apply map_lookup_filter_Some.
Qed.

Lemma zrangebyscore_sound k max x n r :
  sample_tonumber max = Some x → 0 ≤ n ≤ I64_MAX → ∃ l r',
    sample_zrangebyscore k (lit "-inf") max (lit "0") (show_u64 n) r = (Ok l, r') ∧
    sample_keyspace r' = sample_keyspace r ∧ sample_clock r' = sample_clock r ∧ NoDup l ∧ zlen l ≤ n ∧
    (∀ m, m ∈ l → ∃ score, zset_at (sample_keyspace r) k !! m = Some score ∧ score ≤ x) ∧
    (zlen l < n → ∀ m score, zset_at (sample_keyspace r) k !! m = Some score → score ≤ x → m ∈ l).
Proof.
  intros Hx Hn. unfold sample_zrangebyscore. rewrite Hx, digits_value_show by lia. cbn [default from_option]. unfold id.
  eexists _, _. split; [done|]. split; [done|]. split; [done|].
  assert (NoDup (members_upto x (zset_at r.1 k))) as Hnd by apply NoDup_fst_map_to_list.
  split_and!.
  - eapply sublist_NoDup; [done|apply sublist_take].
  - unfold zlen. rewrite length_take. lia.
  - intros m Hm. apply elem_of_members_upto. by eapply elem_of_take in Hm as (i & Hi & _); apply list_elem_of_lookup_2 in Hi.
  - unfold zlen. rewrite length_take. intros Hlen m score Hm Hs. rewrite take_ge by lia. apply elem_of_members_upto. by exists score.
Qed.

#[export] Instance sample_server : RedisServer SampleServer.
Proof.
  refine {|
    exists_key := λ k r, (Ok (if hashes r.1 !! k then 1 else if zsets r.1 !! k then 1 else 0), r);
    hget := λ k f r, (Ok (h ← hashes r.1 !! k; h !! f), r);
    hset := λ k fields, changes 1 (put_fields k fields);
    del := λ k, changes 1 (remove_key k);
    pexpire := sample_pexpire;
    zadd := λ k score member, changes 1 (λ ks, put_zset k (<[member := default 0 (sample_tonumber score)]> (zset_at ks k)) ks);
    zrem := λ k member, changes 1 (λ ks, put_zset k (delete member (zset_at ks k)) ks);
    zrangebyscore := sample_zrangebyscore;
    elapse := λ d r, (expire (sample_clock r + d) r.1, Z.to_N (sample_clock r + d));
    clock := sample_clock;
    keyspace := sample_keyspace;
  |}; unfold sample_keyspace, changes.
  - intros k r Hk. exists r. rewrite Hk. by destruct (hashes r.1 !! k).
  - intros k f r Hk. by exists r.
  - intros k fields r Hk. by eexists _, _.
  - intros k r. by eexists _, _.
  - intros k n r Hk Hn Hc. unfold sample_pexpire. rewrite digits_value_show, (proj2 (Z.leb_le _ _)) by done. by eexists _, _.
  - intros k text x r Hx Hlt. unfold sample_pexpire. cbn in Hx. unfold sample_tonumber in Hx. destruct text as [|b text]; [done|].
    destruct (digits_value 0 (b :: text)) as [n|] eqn:Hd; [|done]. injection Hx as <-.
    assert (2 ^ 63 < n) by (destruct (Z.le_gt_cases n (2 ^ 63)) as [Hle|]; [apply round53_i64 in Hle|]; lia).
    rewrite (proj2 (Z.leb_gt _ _)) by (unfold I64_MAX, sample_clock; lia). by eexists _, _.
  - intros k score x member r Hk Hx. cbn in Hx. rewrite Hx. by eexists _, _.
  - intros k member r Hk. by eexists _, _.
  - intros k max x n r Hk Hx Hn. by apply zrangebyscore_sound.
  - intros d r Hd. split; [done|]. unfold sample_clock. cbn. lia.
Defined.

(* ------------------------------------------------------------------ *)
(** ** The crate *)
(* ------------------------------------------------------------------ *)

(** The elements of an array, each converted. *)
Definition elements {A} (f : value → option A) (v : value) : outcome string (list A) :=
  match v with
  | VArray l => match mapM f l with Some l => Ok l | None => Err "incompatible element" end
  | _ => Err "not an array"
  end.

Definition int_of (v : value) : option Z := match v with VInt n => Some n | _ => None end.
Definition bulk_of (v : value) : option str := match v with VBulk b => Some b | _ => None end.

Lemma mapM_fmap {A B} (f : A → value) (g : value → option B) (h : A → B) l :
  (∀ a, g (f a) = Some (h a)) → mapM g (f <$> l) = Some (h <$> l).
Proof. intros Hg. induction l as [|a l IH]; [done|]. cbn. by rewrite Hg; cbn; rewrite IH. Qed.

#[export] Instance sample_crate : RedisCrate.
Proof.
  refine {|
    client_open := λ _, Ok ();
    as_values := elements Some;
    as_i64s := elements int_of;
    as_strings := elements bulk_of;
    as_u64 := λ v, ok_or (int_of v) "not an integer"%string;
    as_i32 := λ v, ok_or (int_of v) "not an integer"%string;
    as_bytes := λ v, ok_or (bulk_of v) "not a string"%string;
  |}; try done.
  - intros l. cbn. pose proof (mapM_fmap id Some id l ltac:(done)) as H. rewrite !list_fmap_id in H. by rewrite H.
  - intros l _. cbn. pose proof (mapM_fmap VInt int_of id l ltac:(done)) as H. rewrite list_fmap_id in H. by rewrite H.
  - intros l _. cbn. pose proof (mapM_fmap VBulk bulk_of id l ltac:(done)) as H. rewrite list_fmap_id in H. by rewrite H.
Defined.

(** A server that has run for a while and holds no keys. *)
Definition sample_redis : SampleServer := (mkKeyspace ∅ ∅ ∅, 1000000%N).
