(* ===== verification/RedisProps.v ===== *)
(** * Correctness of the Redis store

    While the clock of the server does not run ahead of the callers' clocks, the store answers as
    a map with expiry.  When the clocks agree, a scan reports a session only in the very
    millisecond it expires.  A reply that is lost
    hides a swap that was made, and a time to live the server refuses leaves half a write. *)

From S2P Require Import Prelude Bytes Text Store StoreSpec StoreProps RedisServer Redis RedisLemmas RedisSteps DiskSamples RedisSamples.

(* ------------------------------------------------------------------ *)
(** ** Runs in time *)
(* ------------------------------------------------------------------ *)

(** A request when the callers' clock shows [caller_ms], after the server's clock went on by
    [passed_ms]. *)
Record timed : Type := mkTimed { caller_ms : Z; passed_ms : Z; asked : store_request }.

Definition request_time (q : store_request) : option Z :=
  match q with
  | Load _ t | CompareAndSwap _ _ _ _ t | Upsert _ _ _ t | ScanExpired t _ => Some t
  | Delete _ => None
  end.

(** Numbers that the scripts carry exactly. *)
Definition carried_request (q : store_request) : Prop :=
  match q with
  | Load c now => is_u64 c ∧ 0 ≤ now ≤ EXACT_MAX
  | CompareAndSwap c expected _ ttl now =>
      is_u64 c ∧ 0 ≤ now ∧ 0 ≤ ttl ∧ now + ttl ≤ EXACT_MAX ∧ ∀ v, expected = Some v → 0 ≤ v ≤ EXACT_MAX
  | Upsert c _ ttl now => is_u64 c ∧ 0 ≤ now ∧ 0 ≤ ttl ∧ now + ttl ≤ EXACT_MAX
  | Delete c => is_u64 c
  | ScanExpired now limit => 0 ≤ now ≤ EXACT_MAX ∧ 0 ≤ limit ≤ I64_MAX
  end.

(** Requests under a callers' clock that does not run backwards, where [speed] relates the time
    that passed on the server to the time that passed for the callers. *)
Fixpoint timely (speed : Z → Z → Prop) (now : Z) (es : list timed) : Prop :=
  match es with
  | [] => True
  | e :: es' =>
      now ≤ caller_ms e ≤ EXACT_MAX ∧ 0 ≤ passed_ms e ∧ speed (passed_ms e) (caller_ms e - now) ∧
      (∀ t, request_time (asked e) = Some t → t = caller_ms e) ∧ carried_request (asked e) ∧
      timely speed (caller_ms e) es'
  end.

(** No key of the server starts with the prefix. *)
Definition unused (p : str) (ks : Keyspace) : Prop :=
  ∀ k, p `prefix_of` k → hashes ks !! k = None ∧ zsets ks !! k = None.

Section Redis.
Context {R : Type} `{HL : !LuaNumbers, HR : !RedisServer R, HC : !RedisCrate, HJ : !Json, HT : !EncodeTotal}.

Implicit Types (s : RedisSessionStore R) (M : slots) (m : entries) (q : store_request).

(** The answers of a run. *)
Fixpoint redis_run (net : nat → option NetFault) (es : list timed) s : list (outcome StoreError store_response) :=
  match es with
  | [] => []
  | e :: es' =>
      let s := s <| server := elapse (passed_ms e) (server s) |> in
      let '(o, s') := @serve _ (redis_store net) (asked e) s in
      o :: redis_run net es' s'
  end.

Lemma unused_mirrors p ks : unused p ks → mirrors p ks (λ _, None).
Proof.
  intros Hu. split; [split|].
  - apply Hu. by apply prefix_app_r.
  - intros c. apply Hu. by apply prefix_app_r.
  - intros m score. unfold zset_at. destruct (Hu (expiry_index_key p)) as [_ ->]; [by apply prefix_app_r|done].
  - intros c _. apply Hu. by apply prefix_app_r.
Qed.

(* ------------------------------------------------------------------ *)
(** ** One request on the slots *)
(* ------------------------------------------------------------------ *)

Definition slots_after q (t : Z) M M' : Prop :=
  match q with
  | Load c now => M' = prune now c M
  | CompareAndSwap c expected r ttl now =>
      let cur := version <$> live M now c in
      M' = if decide (cur = expected) then set_slot c (new_slot (next_entry cur r ttl now) ttl t) M else prune now c M
  | Upsert c r ttl now => M' = set_slot c (new_slot (next_entry (version <$> live M now c) r ttl now) ttl t) M
  | Delete c => M' = set_slot c None M
  | ScanExpired now _ => pruned now M M'
  end.

Definition slot_answer q M (o : outcome StoreError store_response) : Prop :=
  match q with
  | Load c now => o = Ok (Loaded (to_versioned <$> live M now c))
  | CompareAndSwap c expected r ttl now =>
      let cur := version <$> live M now c in
      o = if decide (cur = expected) then Ok (Written (to_versioned (next_entry cur r ttl now))) else Err (CasConflict expected cur)
  | Upsert c r ttl now => o = Ok (Written (to_versioned (next_entry (version <$> live M now c) r ttl now)))
  | Delete _ => o = Ok Deleted
  | ScanExpired now limit => ∃ removed, o = Ok (Removed removed) ∧ reported now M removed ∧ zlen removed ≤ limit
  end.

(** The versions so far leave room for one more, and the clock for any time to live. *)
Definition roomy s M : Prop :=
  clock (server s) ≤ 2 ^ 55 ∧ ∀ c e d, M c = Some (e, d) → version e < EXACT_MAX.

Lemma roomy_carried s M c ttl now :
  roomy s M → is_u64 c → 0 ≤ now → 0 ≤ ttl → now + ttl ≤ EXACT_MAX → carried s M c ttl now.
Proof.
  intros [Hc Hv] Hu Hn Ht Hx. split_and!; [done|done|done|done|unfold EXACT_MAX, I64_MAX in *; lia|].
  unfold live. destruct (M c) as [[e d]|] eqn:He; [|done]. cbn. specialize (Hv c e d He). by destruct (now <? expires_at_ms e).
Qed.

Lemma settled {A} s M (call : ST (RedisSessionStore R) StoreError A) answer M' net :
  ¬ broken net s → settles net s M call answer M' → ∃ s', call s = (answer, s') ∧ same_frame s s' ∧ holds s' M'.
Proof. intros Hb (o & s' & Hm & Hf & [[-> H]|[? _]]); [|done]. by exists s'. Qed.

(** No call on the network fails. *)
Definition healthy (net : nat → option NetFault) : Prop := ∀ n, net n = None.

Lemma healthy_not_broken net s : healthy net → ¬ broken net s.
Proof. intros Hh (n & _ & Hn). by rewrite Hh in Hn. Qed.

Lemma serve_slots net q s M :
  ¬ broken net s → holds s M → roomy s M → carried_request q → ∃ o s' M',
    @serve _ (redis_store net) q s = (o, s') ∧ same_frame s s' ∧ holds s' M' ∧
    slots_after q (clock (server s)) M M' ∧ slot_answer q M o.
Proof.
  intros Hb HM Hroom Hq. destruct q as [c now|c expected r ttl now|c r ttl now|c|now limit]; cbn [serve carried_request] in *;
    unfold respond, mbind, ST_bind, mret, ST_ret; cbn [redis_store load compare_and_swap upsert delete_session scan_expired].
  - destruct Hq as [Hc Hn]. destruct (settled _ _ _ _ _ _ Hb (load_settles net c now s M Hc Hn HM)) as (s' & -> & Hf & HM').
    by exists (Ok (Loaded (to_versioned <$> live M now c))), s', (prune now c M).
  - destruct Hq as (Hc & Hn & Httl & Hx & Hexp). pose proof (roomy_carried s M c ttl now Hroom Hc Hn Httl Hx) as Hcar.
    destruct (settled _ _ _ _ _ _ Hb (cas_settles net c expected r ttl now s M Hcar Hexp HM)) as (s' & -> & Hf & HM').
    cbn [slots_after slot_answer]. case_decide; by eexists _, s', _.
  - destruct Hq as (Hc & Hn & Httl & Hx). pose proof (roomy_carried s M c ttl now Hroom Hc Hn Httl Hx) as Hcar.
    destruct (settled _ _ _ _ _ _ Hb (upsert_settles net c r ttl now s M Hcar HM)) as (s' & -> & Hf & HM').
    by eexists _, s', _.
  - destruct (settled _ _ _ _ _ _ Hb (delete_settles net c s M Hq HM)) as (s' & -> & Hf & HM').
    by eexists _, s', _.
  - destruct Hq as [Hn Hl]. destruct (scan_settles net now limit s M Hn Hl HM) as (Hf & M' & HM' & Hp & Ho).
    destruct (redis_scan_expired net now limit s) as [o s']. cbn [fst snd] in *.
    destruct Ho as [(removed & -> & Hr & Hlen)|[? _]]; [|done].
    exists (Ok (Removed removed)), s', M'. split_and!; [done|done|done|done|]. by exists removed.
Qed.

(** Where a slot after a request comes from: it was there, or it was written with a time to live. *)
Lemma slots_after_origin q t M M' c e d :
  slots_after q t M M' → M' c = Some (e, d) →
  M c = Some (e, d) ∨
  ∃ r ttl now, request_time q = Some now ∧ ttl ≠ 0 ∧ d = t + ttl ∧ e = next_entry (version <$> live M now c) r ttl now ∧
    (carried_request q → 0 ≤ now ∧ 0 ≤ ttl ∧ now + ttl ≤ EXACT_MAX).
Proof.
  assert (∀ c0 e0 ttl, set_slot c0 (new_slot e0 ttl t) M c = Some (e, d) →
    M c = Some (e, d) ∨ (c = c0 ∧ ttl ≠ 0 ∧ d = t + ttl ∧ e = e0)) as Hw.
  { intros c0 e0 ttl. unfold set_slot, new_slot. case_decide as Hc; [|by left].
    destruct (ttl =? 0) eqn:Ht; [done|]. intros [= -> ->]. zprop. by right. }
  assert (∀ now c0, prune now c0 M c = Some (e, d) → M c = Some (e, d)) as Hp.
  { intros now c0. unfold prune, set_slot. destruct (live M now c0); [done|]. by case_decide. }
  destruct q as [c0 now|c0 expected r ttl now|c0 r ttl now|c0|now limit]; cbn; intros HM' He.
  - subst M'. left. by eapply Hp.
  - subst M'. case_decide as Hd; [|left; by eapply Hp]. apply Hw in He as [He|(-> & Ht & -> & ->)]; [by left|right]. exists r, ttl, now. split_and!; [done..|tauto].
  - subst M'. apply Hw in He as [He|(-> & Ht & -> & ->)]; [by left|right]. exists r, ttl, now. split_and!; [done..|tauto].
  - subst M'. left. unfold set_slot in He. by case_decide.
  - left. destruct (HM' c) as [Hc|[Hc _]]; congruence.
Qed.

(* ------------------------------------------------------------------ *)
(** ** The map with expiry *)
(* ------------------------------------------------------------------ *)

(** The slots hold what a caller can see of the map at [now], when the server's clock shows [t]:
    a session the server dropped has expired for the callers, too. *)
Definition agree m (now : Z) M (t : Z) : Prop :=
  ∀ c, match M c with
       | Some (e, d) => m c = Some e ∧ expires_at_ms e - now ≤ d - t
       | None => ∀ e, m c = Some e → expires_at_ms e ≤ now
       end.

Lemma agree_visible m now M t c : agree m now M t → visible m now c = live M now c.
Proof.
  intros Ha. specialize (Ha c). unfold visible, live. destruct (M c) as [[e d]|].
  - destruct Ha as [-> _]. done.
  - destruct (m c) as [e|]; [|done]. cbn. specialize (Ha e eq_refl). by zdec.
Qed.

Lemma agree_later m now M t later d :
  d ≤ later - now → 0 ≤ d → agree m now M t → agree m later (evict (t + d) M) (t + d).
Proof.
  intros Hd Hpos Ha c. specialize (Ha c). unfold evict. destruct (M c) as [[e dl]|]; cbn.
  - destruct Ha as [Hm Hx]. destruct (t + d <=? dl) eqn:Hl; zprop; [split; [done|lia]|].
    intros e' He'. rewrite Hm in He'. injection He' as <-. lia.
  - intros e He. specialize (Ha e He). lia.
Qed.

Lemma agree_prune m now M t c : agree m now M t → agree m now (prune now c M) t.
Proof.
  intros Ha x. unfold prune. destruct (live M now c) eqn:Hl; [apply Ha|]. unfold set_slot.
  case_decide as Hx; [subst x|apply Ha]. intros e He. rewrite <- (agree_visible m now M t c Ha) in Hl.
  unfold visible in Hl. rewrite He in Hl. cbn in Hl. destruct (now <? expires_at_ms e) eqn:Hn; [done|by zprop].
Qed.

Lemma agree_set m now M t c o o' :
  agree m now M t →
  match o with Some (e, d) => o' = Some e ∧ expires_at_ms e - now ≤ d - t | None => ∀ e, o' = Some e → expires_at_ms e ≤ now end →
  agree (set_entry c o' m) now (set_slot c o M) t.
Proof. intros Ha Ho x. unfold set_entry, set_slot. case_decide; [done|apply Ha]. Qed.

Lemma agree_write m now M t c e r cur ttl :
  e = next_entry cur r ttl now → 0 ≤ now → 0 ≤ ttl → now + ttl ≤ EXACT_MAX → agree m now M t →
  agree (set_entry c (Some e) m) now (set_slot c (new_slot e ttl t) M) t.
Proof.
  intros -> Hn Httl Hx Ha. apply agree_set; [done|]. unfold new_slot.
  assert (expires_at_ms (next_entry cur r ttl now) = now + ttl) as He by (cbn; unfold EXACT_MAX in *; ulia).
  destruct (ttl =? 0) eqn:Ht; zprop; [intros e [= <-]|split; [done|]]; rewrite He; lia.
Qed.

Lemma agree_after q m now M M' t :
  carried_request q → (∀ t', request_time q = Some t' → t' = now) → slots_after q t M M' →
  agree m now M t → agree (spec_state q m) now M' t.
Proof.
  destruct q as [c n|c expected r ttl n|c r ttl n|c|n limit]; cbn; intros Hq Hn HM' Ha; try specialize (Hn n eq_refl); try subst n.
  - subst M'. by apply agree_prune.
  - destruct Hq as (_ & Hn & Httl & Hx & _). subst M'. rewrite (agree_visible m now M t c Ha).
    case_decide; [by eapply agree_write|by apply agree_prune].
  - destruct Hq as (_ & Hn & Httl & Hx). subst M'. rewrite (agree_visible m now M t c Ha). by eapply agree_write.
  - subst M'. by apply agree_set.
  - intros c. destruct (HM' c) as [->|[-> Hl]]; [apply Ha|]. intros e He. rewrite <- (agree_visible m now M t c Ha) in Hl.
    unfold visible in Hl. rewrite He in Hl. cbn in Hl. destruct (now <? expires_at_ms e) eqn:Hx; [done|by zprop].
Qed.

Lemma answer_agrees q m now M t o :
  (∀ t', request_time q = Some t' → t' = now) → agree m now M t → slot_answer q M o → spec_answer q m o.
Proof.
  destruct q as [c n|c expected r ttl n|c r ttl n|c|n limit]; cbn; intros Hn Ha; try specialize (Hn n eq_refl); try subst n;
    rewrite ?(agree_visible m now M t _ Ha); try done.
  intros (removed & -> & [Hnd Hr] & Hlen). exists removed. split_and!; [done|done|done|].
  intros c Hc. rewrite (agree_visible m now M t c Ha). by apply Hr.
Qed.

Definition versions_below (k : Z) M : Prop := ∀ c e d, M c = Some (e, d) → version e ≤ k.

Lemma versions_after q t M M' k :
  0 ≤ k → versions_below k M → slots_after q t M M' → versions_below (k + 1) M'.
Proof.
  intros Hk Hv HM' c e d He. destruct (slots_after_origin q t M M' c e d HM' He) as [H|(r & ttl & now & _ & _ & _ & -> & _)].
  - specialize (Hv c e d H). lia.
  - cbn. unfold live. destruct (M c) as [[e' d']|] eqn:He'; cbn; [|ulia]. specialize (Hv c e' d' He').
    destruct (now <? expires_at_ms e'); cbn; ulia.
Qed.

(** The state of a run: the slots of the store, the entries of the map, and room for more. *)
Record in_step (now k : Z) m s M : Prop := {
  st_holds : holds s M;
  st_agree : agree m now M (clock (server s));
  st_versions : versions_below k M;
  st_clock : clock (server s) ≤ EXACT_MAX + now;
}.

Lemma in_step_elapse now k m s M later d :
  d ≤ later - now → 0 ≤ d → in_step now k m s M →
  in_step later k m (s <| server := elapse d (server s) |>) (evict (clock (server s) + d) M).
Proof.
  intros Hd Hpos [Hh Ha Hv Hc]. destruct (elapse_law d (server s) Hpos) as [Hks Hcl].
  split; cbn; rewrite ?Hcl.
  - unfold holds. cbn. rewrite Hks. by apply mirrors_expire.
  - by apply agree_later with now.
  - intros c e dl. unfold evict. destruct (M c) as [[e' d']|] eqn:He; [|done]. cbn.
    destruct (_ <=? d'); [|done]. intros [= <- <-]. by eapply Hv.
  - lia.
Qed.

Lemma in_step_serve net now k m s M q :
  ¬ broken net s → 0 ≤ k < EXACT_MAX → now ≤ EXACT_MAX → carried_request q → (∀ t, request_time q = Some t → t = now) →
  in_step now k m s M → ∃ o s' M',
    @serve _ (redis_store net) q s = (o, s') ∧ spec_answer q m o ∧ slot_answer q M o ∧
    slots_after q (clock (server s)) M M' ∧ clock (server s') = clock (server s) ∧ in_step now (k + 1) (spec_state q m) s' M'.
Proof.
  intros Hb Hk Hn Hq Ht [Hh Ha Hv Hc].
  destruct (serve_slots net q s M Hb Hh) as (o & s' & M' & Hs & (Hp & Hcl & _) & Hh' & HM' & Ho); [|done|].
  { split; [unfold EXACT_MAX in *; lia|]. intros c e d He. specialize (Hv c e d He). lia. }
  exists o, s', M'. split; [done|]. split; [by eapply answer_agrees|]. split; [done|]. split; [done|]. split; [done|].
  split; [done| |by eapply versions_after; [lia|..]|by rewrite Hcl].
  rewrite Hcl. by eapply agree_after.
Qed.


(** The state a run starts from. *)
Lemma in_step_new p r0 now m :
  unused p (keyspace r0) → 0 ≤ now → clock r0 ≤ EXACT_MAX → (∀ c, m c = None) →
  in_step now 0 m (mkRedisSessionStore p r0 0) (λ _, None).
Proof.
  intros Hu Hn Hc Hm. split; [by apply unused_mirrors| |done|cbn; lia]. intros c e He. by rewrite Hm in He.
Qed.


(** A session that is on the server has not expired for the callers, or expires just now. *)
Definition unexpired_slots (now : Z) M (t : Z) : Prop :=
  ∀ c e d, M c = Some (e, d) → t ≤ d ∧ d - t ≤ expires_at_ms e - now.

Lemma unexpired_elapse now M t d : unexpired_slots now M t → unexpired_slots (now + d) (evict (t + d) M) (t + d).
Proof.
  intros Hs c e dl. unfold evict. destruct (M c) as [[e' d']|] eqn:He; [|done]. cbn.
  destruct (t + d <=? d') eqn:Hl; [|done]. intros [= -> ->]. zprop. specialize (Hs c e dl He). lia.
Qed.

Lemma unexpired_after q now M M' t :
  carried_request q → (∀ t', request_time q = Some t' → t' = now) → slots_after q t M M' →
  unexpired_slots now M t → unexpired_slots now M' t.
Proof.
  intros Hq Hn HM' Hs c e d He.
  destruct (slots_after_origin q t M M' c e d HM' He) as [H|(r & ttl & n & Ht & Hne & -> & -> & Hb)]; [by eapply Hs|].
  specialize (Hn n Ht). subst n. specialize (Hb Hq). cbn. unfold EXACT_MAX in *. ulia.
Qed.

(** Every scan of a run succeeds, and [P] holds of its time, the map so far and its report. *)
Fixpoint every_scan (P : Z → entries → list Z → Prop) (es : list timed) m (os : list (outcome StoreError store_response)) : Prop :=
  match es, os with
  | [], [] => True
  | ev :: es', o :: os' =>
      match asked ev with
      | ScanExpired now _ => ∃ removed, o = Ok (Removed removed) ∧ P now m removed
      | _ => True
      end ∧ every_scan P es' (spec_state (asked ev) m) os'
  | _, _ => False
  end.

(** The reported sessions expire in this very millisecond. *)
Definition expiring_at (now : Z) m (removed : list Z) : Prop :=
  ∀ c, c ∈ removed → ∃ e, m c = Some e ∧ expires_at_ms e = now.

Lemma scan_finds_the_instant now limit m M t o :
  agree m now M t → unexpired_slots now M t → slot_answer (ScanExpired now limit) M o →
  ∃ removed, o = Ok (Removed removed) ∧ expiring_at now m removed.
Proof.
  intros Ha Hs (removed & -> & [_ Hr] & _). exists removed. split; [done|]. intros c Hc.
  destruct (Hr c Hc) as [[[e d] He] Hl]. specialize (Hs c e d He). specialize (Ha c). rewrite He in Ha. destruct Ha as [Hm _].
  exists e. split; [done|]. unfold live in Hl. rewrite He in Hl. cbn in Hl. destruct (now <? expires_at_ms e) eqn:Hx; [done|]. zprop. lia.
Qed.

Lemma redis_run_scans net es : ∀ now k m s M,
  healthy net → 0 ≤ k → k + zlen es ≤ EXACT_MAX → timely eq now es → in_step now k m s M → unexpired_slots now M (clock (server s)) →
  every_scan expiring_at es m (redis_run net es s).
Proof.
  induction es as [|ev es IH]; intros now k m s M Hb Hk Hlen Ht Hs Hu; [done|].
  destruct Ht as ((Hnow & Hmax) & Hpos & Hd & Hreq & Hq & Ht). rewrite zlen_cons in Hlen. pose proof (zlen_nonneg es).
  pose proof (in_step_elapse now k m s M (caller_ms ev) (passed_ms ev) ltac:(lia) Hpos Hs) as Hs1. cbn [redis_run].
  destruct (in_step_serve net _ k m _ _ (asked ev) (healthy_not_broken _ _ Hb) ltac:(lia) Hmax Hq Hreq Hs1)
    as (o & s' & M' & -> & _ & Ha & HM' & Hcl & Hs').
  pose proof (unexpired_elapse now M _ (passed_ms ev) Hu) as Hu1. replace (now + passed_ms ev) with (caller_ms ev) in Hu1 by lia.
  destruct (elapse_law (passed_ms ev) (server s) Hpos) as [_ Hcl1]. cbn in Hcl, HM'. rewrite Hcl1 in Hcl, HM'.
  cbn [every_scan]. split.
  - destruct (asked ev) as [| | | |n limit] eqn:Hask; try done. specialize (Hreq n eq_refl). subst n.
    pose proof (st_agree _ _ _ _ _ Hs1) as Hag. cbn in Hag. rewrite Hcl1 in Hag. by eapply scan_finds_the_instant.
  - eapply (IH (caller_ms ev) (k + 1)); [done|lia|lia|done|done|]. rewrite Hcl. by eapply unexpired_after.
Qed.

(** C31. The scan for expired sessions reports a session only in the very millisecond the session
    expires, when the clock of the server goes as the callers' clock (over a network that works,
    under an unused prefix, with times and versions up to 2^53): from the next millisecond on the
    server has dropped the session by itself, the scan finds its place in the index but no
    session, and never reports it.  (The map has the expired entry, and the other stores report
    it whenever they scan next.) *)
Theorem redis_scan_reports_only_the_instant net redis_url p r0 now es :
  healthy net → client_open redis_url = Ok () → unused p (keyspace r0) →
  0 ≤ now → clock r0 ≤ EXACT_MAX → zlen es ≤ EXACT_MAX → timely eq now es →
  ∃ s0, new redis_url p r0 = Ok s0 ∧ every_scan expiring_at es (λ _, None) (redis_run net es s0).
Proof.
  intros Hb Hopen Hu Hn Hc Hlen Ht. exists (mkRedisSessionStore p r0 0). unfold new. rewrite Hopen. split; [done|].
  eapply (redis_run_scans net es now 0 (λ _, None)); [done|done|lia|done|by apply in_step_new|done].
Qed.

(* ------------------------------------------------------------------ *)
(** ** Failures *)
(* ------------------------------------------------------------------ *)

(** The reply of a script is lost: the caller gets the failure, the script has run. *)
Lemma invoke_lost {A} net (call : ST R string A) s f P ks' :
  net (net_calls s) = Some f → executed f ≠ 0%nat → runs call (keyspace (server s)) (clock (server s)) P ks' →
  ∃ s', invoke net call s = (Err (Backend (fault_message f)), s') ∧ same_frame s s' ∧
    net_calls s' = S (net_calls s) ∧ keyspace (server s') = ks'.
Proof.
  intros Hf He Hm. destruct (Hm (server s) eq_refl eq_refl) as (a & r & Hr & Hk & Ht & _).
  unfold invoke, request, same_frame. rewrite Hf. rewrite (proj2 (Nat.eqb_neq _ _) He).
  eexists. split; [done|]. unfold mbind, ST_bind. rewrite Hr. cbn. split_and!; [done|done|lia|done|done].
Qed.

(** A swap whose reply is lost was made: the caller is told of a failure, and when it tries again
    the store refuses the swap with a conflict against the version the first try wrote. *)
Theorem lost_reply_hides_the_swap net c expected r ttl now s M f :
  holds s M → carried s M c ttl now → ttl ≠ 0 → (∀ v, expected = Some v → 0 ≤ v ≤ EXACT_MAX) →
  version <$> live M now c = expected → default 0 expected + 1 < EXACT_MAX →
  net (net_calls s) = None → net (S (net_calls s)) = Some f → executed f ≠ 0%nat →
  (∀ n, (S (net_calls s) < n)%nat → net n = None) →
  let e := next_entry expected r ttl now in
  let '(o, s1) := redis_compare_and_swap net c expected r ttl now s in
  o = Err (Backend (fault_message f)) ∧ holds s1 (set_slot c (new_slot e ttl (clock (server s))) M) ∧
  (redis_compare_and_swap net c expected r ttl now s1).1 = Err (CasConflict expected (Some (version e))).
Proof.
  intros HM Hcar Httl0 Hexp Hcur Hroom H0 H1 Hex Hrest e. pose proof (carried_numbers s M c ttl now r HM Hcar) as (Hsat & Hve & Hxe).
  pose proof Hcar as (Hc & Hn & Httl & Hx & Ht & Hv). rewrite Hcur in Hv, Hve, Hxe. fold e in Hve, Hxe.
  set (s0 := mkRedisSessionStore (key_prefix s) (server s) (S (net_calls s))).
  destruct (cas_script_runs (key_prefix s) c expected r ttl now (keyspace (server s)) (clock (server s)) M Hc Hn Httl Hx Ht Hexp HM)
    as (ks' & Hrun & HM'); [by rewrite Hcur|]. rewrite Hcur in Hrun, HM'.
  rewrite decide_True in Hrun by done. rewrite decide_True in HM' by done. fold e in Hrun, HM'.
  assert (version e = default 0 expected + 1) as Hve' by (unfold e, next_entry, EXACT_MAX in *; cbn; ulia). clearbody e.
  destruct (invoke_lost net _ s0 f _ ks' H1 Hex Hrun) as (s1 & Hi & (Hp1 & Hcl1 & _) & Hnc & Hks1).
  assert (redis_compare_and_swap net c expected r ttl now s = (Err (Backend (fault_message f)), s1)) as ->.
  { unfold redis_compare_and_swap. rewrite encode_payload, Hsat. cbv zeta. unfold st_lift at 1, mbind at 1, ST_bind at 1.
    unfold conn at 1, request at 1, mbind at 1, ST_bind at 1. rewrite H0. cbn [map_err mret ST_ret].
    unfold st_get, mbind at 1, ST_bind at 1. unfold converted, mbind, ST_bind. fold s0. cbn [key_prefix s0]. by rewrite Hi. }
  assert (holds s1 (set_slot c (new_slot e ttl (clock (server s))) M)) as HM1 by (unfold holds; rewrite Hp1, Hks1; exact HM').
  split; [done|]. split; [done|]. set (M1 := set_slot c _ M) in *.
  assert (live M1 now c = Some e) as Hlive.
  { unfold live, M1, set_slot, new_slot. rewrite decide_True by done. zdec. cbn. rewrite Hxe. zdec. done. }
  assert (carried s1 M1 c ttl now) as Hcar1.
  { split_and!; [done..|by rewrite Hcl1|]. rewrite Hlive. cbn. unfold EXACT_MAX in *. ulia. }
  assert (¬ broken net s1) as Hb1 by (intros (n & Hln & Hfn); apply Hfn, Hrest; rewrite Hnc in Hln; cbn in Hln; lia).
  destruct (settled _ _ _ _ _ _ Hb1 (cas_settles net c expected r ttl now s1 M1 Hcar1 Hexp HM1)) as (s2 & -> & _).
  rewrite Hlive. cbn [fmap option_fmap option_map fst]. rewrite decide_False; [done|]. intros He.
  rewrite <- He in Hve'. cbn in Hve'. lia.
Qed.

(** From any server with the keys [ks] at [t], [call] fails and leaves the keys [ks']. *)
Definition fails {A} (call : ST R string A) (ks : Keyspace) (t : Z) (ks' : Keyspace) : Prop :=
  ∀ r, keyspace r = ks → clock r = t → ∃ e r', call r = (Err e, r') ∧ keyspace r' = ks' ∧ clock r' = t.

Lemma fails_after {A B} (call : ST R string A) (k : A → ST R string B) ks ks1 ks2 t P :
  runs call ks t P ks1 → (∀ a, P a → fails (k a) ks1 t ks2) → fails (call ≫= k) ks t ks2.
Proof.
  intros Hm Hk r Hr Ht. destruct (Hm r Hr Ht) as (a & r1 & Hm1 & Hr1 & Ht1 & Ha).
  rewrite (st_bind_ok _ _ _ _ _ Hm1). by apply (Hk a Ha).
Qed.

Lemma fails_let {A B} (call : ST R string A) (k : A → ST R string B) a ks ks1 ks2 t :
  runs call ks t (eq a) ks1 → fails (k a) ks1 t ks2 → fails (call ≫= k) ks t ks2.
Proof. intros Hm Hk. eapply fails_after; [exact Hm|]. by intros ? <-. Qed.

Lemma fails_here {A B} (call : ST R string A) (k : A → ST R string B) ks ks1 t : fails call ks t ks1 → fails (call ≫= k) ks t ks1.
Proof.
  intros Hm r Hr Ht. destruct (Hm r Hr Ht) as (e & r1 & Hm1 & Hr1 & Ht1). exists e, r1. unfold mbind, ST_bind. by rewrite Hm1.
Qed.

(** The double of the largest [u64]. *)
Definition UNLIMITED : Z := 2 ^ 64.

Lemma round53_unlimited : round53 U64_MAX = UNLIMITED.
Proof. by vm_compute. Qed.

Lemma tonumber_unlimited : tonumber (show_u64 U64_MAX) = Some UNLIMITED.
Proof. rewrite tonumber_decimal by done. by rewrite round53_unlimited. Qed.

Lemma unlimited_text : tonumber (number_text UNLIMITED) = Some UNLIMITED.
Proof. by apply tonumber_number_text; vm_compute. Qed.

(** The fields of a session without a limit. *)
Definition unlimited_fields (v : Z) (r : SessionRecord) : list (str * str) :=
  [(lit "version", show_u64 v); (lit "expires_at_ms", number_text UNLIMITED); (lit "data", payload_of r)].

Lemma upsert_script_refused p c r now ks t M :
  is_u64 c → 0 ≤ now ≤ EXACT_MAX → mirrors p ks M →
  let v := default 0 (version <$> live M now c) + 1 in v ≤ EXACT_MAX →
  fails (upsert_script (session_key p c) (expiry_index_key p) (show_u64 c) (payload_of r) (show_u64 now) (show_u64 U64_MAX) (show_u64 U64_MAX)) ks t
    (put_fields (session_key p c) (unlimited_fields v r) ks).
Proof.
  intros Hc Hn HM v Hv. pose proof (next_version_exact p M now c ks Hc HM) as Hv0. pose proof HM as [[Hi Hk Hm] _].
  unfold upsert_script. rewrite tonumber_unlimited, (tonumber_exact now Hn).
  eapply fails_let; [by eapply runs_session_exists|]. eapply fails_let; [by eapply upsert_version_runs|].
  eapply fails_let; [apply runs_number|]. cbn beta. fold v. rewrite round53_exact by lia.
  apply fails_here. unfold write_session. eapply fails_let; [apply runs_number|]. cbn beta. rewrite (number_text_exact v) by lia.
  eapply fails_after; [by apply runs_hset|]. intros _ _. eapply fails_let; [apply runs_number|]. cbn beta.
  apply fails_here. intros r0 Hr0 Ht0. destruct (pexpire_range (session_key p c) (number_text UNLIMITED) UNLIMITED r0) as (e & r' & He & Hks & Hcl);
    [apply unlimited_text|done|]. exists e, r'. split; [done|]. split; [by rewrite Hks, Hr0|congruence].
Qed.

(** The conflict a caller meets at a session without a limit. *)
Lemma cas_script_unlimited p c h v payload now ttl expires ks t :
  zsets ks !! session_key p c = None → hashes ks !! session_key p c = Some h →
  h !! lit "version" = Some (show_u64 v) → h !! lit "expires_at_ms" = Some (number_text UNLIMITED) →
  0 ≤ v ≤ EXACT_MAX → 0 ≤ now ≤ EXACT_MAX →
  runs (cas_script (session_key p c) (expiry_index_key p) (show_u64 c) [] payload (show_u64 now) ttl expires) ks t
    (eq (VArray [VInt 0; VInt v])) ks.
Proof.
  intros Hz Hh Hv Hx Hve Hn. unfold cas_script. rewrite (tonumber_exact now Hn).
  assert (runs (current_version (session_key p c) (expiry_index_key p) (show_u64 c) (Some now)) ks t (eq (1, Some v)) ks) as Hcv.
  { unfold current_version. run_let ltac:(by apply runs_exists). rewrite Hh. cbn [Z.eqb Pos.eqb].
    eapply runs_let.
    { unfold hget_number. run_let ltac:(by apply runs_hget). apply runs_ret. rewrite Hh. cbn [mbind option_bind]. rewrite Hx. symmetry. apply unlimited_text. }
    cbn beta. run_let ltac:(apply runs_number_le). assert (UNLIMITED <=? now = false) as -> by (apply Z.leb_gt; unfold UNLIMITED, EXACT_MAX in *; lia).
    run_let ltac:(by apply runs_hget_number with h). by apply runs_ret. }
  run_let ltac:(exact Hcv). cbn. apply runs_ret. by rewrite !reply_integer_exact by (unfold EXACT_MAX in *; lia).
Qed.

(** A time to live the server refuses leaves half a write: an upsert with the largest [ttl_ms] is
    answered with an error of the backend (the in-memory store lets such a session live for
    ever), but its record is on the server under the next version, and whoever creates the
    session afterwards conflicts with it, at any time. *)
Theorem refused_ttl_leaves_a_write net c r now s M :
  healthy net → holds s M → is_u64 c → 0 ≤ now ≤ EXACT_MAX →
  let v := default 0 (version <$> live M now c) + 1 in v ≤ EXACT_MAX →
  let '(o, s1) := redis_upsert net c r U64_MAX now s in
  (∃ message, o = Err (Backend message)) ∧
  ∀ r' ttl' now', 0 ≤ now' ≤ EXACT_MAX →
    (redis_compare_and_swap net c None r' ttl' now' s1).1 = Err (CasConflict None (Some v)).
Proof.
  intros Hnet HM Hc Hn v Hv. set (p := key_prefix s).
  assert (0 ≤ v) as Hv0. { pose proof (next_version_exact p M now c _ Hc HM). lia. }
  destruct (upsert_script_refused p c r now _ (clock (server s)) M Hc Hn HM Hv (server s) eq_refl eq_refl) as (msg & r1 & Hr1 & Hk1 & Ht1).
  assert (sat_add U64_MAX now U64_MAX = U64_MAX) as Hsat by (unfold EXACT_MAX in *; ulia).
  assert (redis_upsert net c r U64_MAX now s = (Err (Backend msg), mkRedisSessionStore p r1 (S (S (net_calls s))))) as ->.
  { unfold redis_upsert. rewrite encode_payload, Hsat. unfold st_lift at 1, mbind at 1, ST_bind at 1.
    unfold conn, invoke, request, converted, st_get, mbind, ST_bind, mret, ST_ret. rewrite !Hnet. cbn [map_err key_prefix server net_calls]. rewrite ?Hnet. fold p. by rewrite Hr1. }
  split; [by eexists|]. intros r' ttl' now' Hn'.
  set (key := session_key p c). set (ks := keyspace (server s)).
  destruct (cas_script_unlimited p c (foldl (λ h f, <[f.1 := f.2]> h) (default ∅ (hashes ks !! key)) (unlimited_fields v r)) v
    (payload_of r') now' (show_u64 ttl') (show_u64 (sat_add U64_MAX now' ttl')) (keyspace r1) (clock r1)) with r1
    as (a & r2 & Hr2 & _ & _ & <-); [..|done|done|].
  - rewrite Hk1. apply (ty_keys _ _ (mir_typed _ _ _ HM)).
  - rewrite Hk1. apply lookup_insert_eq.
  - cbn [foldl unlimited_fields fst snd]. rewrite !lookup_insert_ne by done. apply lookup_insert_eq.
  - cbn [foldl unlimited_fields fst snd]. rewrite lookup_insert_ne by done. apply lookup_insert_eq.
  - done.
  - done.
  - unfold redis_compare_and_swap. rewrite encode_payload. unfold st_lift at 1, mbind at 1, ST_bind at 1.
    unfold conn, invoke, request, converted, st_get, mbind, ST_bind, mret, ST_ret, st_lift. rewrite !Hnet. cbn [map_err key_prefix server net_calls].
    rewrite ?Hnet. cbn [expected_text fmap option_fmap option_map from_option]. rewrite Hr2. cbn [map_err].
    rewrite (as_i64s_array [0; v]) by (unfold EXACT_MAX, I64_MAX in *; repeat (apply Forall_cons; split; [lia|]); by apply Forall_nil).
    cbn [map_err]. unfold as_u64_of_i64, wrap64, st_throw. cbn. zdec. rewrite Z.mod_small by (unfold EXACT_MAX in *; ulia). done.
Qed.

End Redis.

(* ------------------------------------------------------------------ *)
(** ** Witnesses *)
(* ------------------------------------------------------------------ *)

Definition sample_session : SessionRecord := mkSessionRecord 7 "peer" 15000 90000 10 12.

Definition no_net_fault : nat → option NetFault := λ _, None.

(** A session is created, renewed, and looked for after it expired. *)
Definition sample_requests : list timed := [
  mkTimed 100 0 (CompareAndSwap 7 None sample_session 50 100);
  mkTimed 120 20 (Upsert 7 sample_session 60 120);
  mkTimed 150 30 (Load 7 150);
  mkTimed 200 50 (ScanExpired 200 10);
  mkTimed 210 10 (Load 7 210)].


(** The Redis store does not report the session that expired before the scan, the in-memory store
    does; a scan in the millisecond of the expiry reports it. *)
Definition sample_instant : list timed := [
  mkTimed 120 20 (Upsert 7 sample_session 60 120);
  mkTimed 180 60 (ScanExpired 180 10)].

Lemma redis_scan_reports_only_the_instant_witness :
  (∃ s0, new [] (lit "v3") sample_redis = Ok s0 ∧
    every_scan expiring_at sample_requests (λ _, None) (redis_run no_net_fault sample_requests s0) ∧
    redis_run no_net_fault sample_requests s0 !! 3%nat = Some (Ok (Removed []))) ∧
  (@serve_all _ (in_memory_store map_to_list) (asked <$> sample_requests) (mkInMemory [∅])).1 !! 3%nat = Some (Ok (Removed [7])) ∧
  (∃ s0, new [] (lit "v3") sample_redis = Ok s0 ∧
    every_scan expiring_at sample_instant (λ _, None) (redis_run no_net_fault sample_instant s0) ∧
    redis_run no_net_fault sample_instant s0 !! 1%nat = Some (Ok (Removed [7]))).
Proof.
  split_and!; [|by vm_compute|].
  - destruct (redis_scan_reports_only_the_instant no_net_fault [] (lit "v3") sample_redis 100 sample_requests) as (s0 & Hs & Hrun);
      [done|done|done|done|done|done|cbn; repeat split; try done; by intros ? [= <-]|].
    exists s0. split; [exact Hs|]. split; [exact Hrun|]. vm_compute in Hs. injection Hs as <-. by vm_compute.
  - destruct (redis_scan_reports_only_the_instant no_net_fault [] (lit "v3") sample_redis 100 sample_instant) as (s0 & Hs & Hrun);
      [done|done|done|done|done|done|cbn; repeat split; try done; by intros ? [= <-]|].
    exists s0. split; [exact Hs|]. split; [exact Hrun|]. vm_compute in Hs. injection Hs as <-. by vm_compute.
Defined.

(** The reply of the second call on the network is lost. *)
Lemma lost_reply_hides_the_swap_witness :
  let net := λ n, if (n =? 1)%nat then Some (mkNetFault 1 "broken pipe") else None in
  let s := mkRedisSessionStore (lit "v3") sample_redis 0 in
  let '(o, s1) := redis_compare_and_swap net 7 None sample_session 50 100 s in
  o = Err (Backend "broken pipe") ∧
  (redis_compare_and_swap net 7 None sample_session 50 100 s1).1 = Err (CasConflict None (Some 1)).
Proof.
  intros net s.
  pose proof (lost_reply_hides_the_swap net 7 None sample_session 50 100 s (λ _, None) (mkNetFault 1 "broken pipe")
    ltac:(by apply unused_mirrors) ltac:(by repeat split) ltac:(done) ltac:(done) ltac:(done) ltac:(done) ltac:(done) ltac:(done) ltac:(done)) as H.
  cbv zeta in H. assert (∀ n, (1 < n)%nat → net n = None) as Hrest by (intros n Hn; unfold net; by rewrite (proj2 (Nat.eqb_neq _ _)) by lia).
  specialize (H Hrest). destruct (redis_compare_and_swap net 7 None sample_session 50 100 s) as [o s1].
  destruct H as (-> & _ & H). split; [done|exact H].
Defined.

Lemma refused_ttl_leaves_a_write_witness :
  let s := mkRedisSessionStore (lit "v3") sample_redis 0 in
  let '(o, s1) := redis_upsert no_net_fault 7 sample_session U64_MAX 100 s in
  is_err o = true ∧
  (redis_compare_and_swap no_net_fault 7 None sample_session 50 200 s1).1 = Err (CasConflict None (Some 1)).
Proof.
  intros s. pose proof (refused_ttl_leaves_a_write no_net_fault 7 sample_session 100 s (λ _, None)
    ltac:(done) ltac:(by apply unused_mirrors) ltac:(done) ltac:(done) ltac:(done)) as H. cbv zeta in H.
  destruct (redis_upsert no_net_fault 7 sample_session U64_MAX 100 s) as [o s1]. destruct H as ((msg & ->) & H).
  split; [done|]. by apply (H sample_session 50 200).
Defined.
