(* ===== verification/TimerQueue.v ===== *)
(** * The timer queue of a runtime

    Both runtimes keep the timers their machines asked for in a [BTreeMap] from deadlines to
    lists, and poll it: the due entries are collected first, in order and up to a limit, then
    taken out one at a time.  The queue is generic in its entries (a timer for the client, a
    connection and a timer for the server). *)

From S2P Require Import Prelude.

Section Queue.
Context {X : Type} `{!EqDecision X}.

Abbreviation queue := (gmap Z (list X)).

Implicit Types (q : queue) (x y : X).

(** [entry(deadline).or_default()]. *)
Definition slot (d : Z) q : list X := default [] (q !! d).

(** [.push(x)]. *)
Definition push_entry (d : Z) x q : queue := <[d := slot d q ++ [x]]> q.

(** The same unless the slot contains [x]. *)
Definition push_entry_once (d : Z) x q : queue :=
  <[d := if bool_decide (x ∈ slot d q) then slot d q else slot d q ++ [x]]> q.

(** The loop over one slot. *)
Fixpoint due_slot (limit d : Z) (due : list (Z * X)) (l : list X) : list (Z * X) :=
  match l with
  | [] => due
  | x :: l' => if limit <=? zlen due then due else due_slot limit d (due ++ [(d, x)]) l'
  end.

(** The loop over the slots. *)
Fixpoint due_loop (now_ms limit : Z) (due : list (Z * X)) (slots : list (Z * list X)) : list (Z * X) :=
  match slots with
  | [] => due
  | (d, l) :: slots' =>
      if (now_ms <? d) || (limit <=? zlen due) then due
      else due_loop now_ms limit (due_slot limit d due l) slots'
  end.

Definition collect_due (now_ms limit : Z) q : list (Z * X) := due_loop now_ms limit [] (bt_entries q).

(** [if let Some(pos) = list.iter().position(|v| *v == x) { list.remove(pos) }]. *)
Definition remove_first x (l : list X) : list X :=
  match list_find (λ y, y = x) l with
  | Some (pos, _) => delete pos l
  | None => l
  end.

(** Take one entry out; an empty slot goes. *)
Definition remove_entry (d : Z) x q : queue :=
  match q !! d with
  | None => q
  | Some l =>
      let l' := remove_first x l in
      if bool_decide (l' = []) then delete d q else <[d := l']> q
  end.

(* ------------------------------------------------------------------ *)
(** ** What is pending *)
(* ------------------------------------------------------------------ *)

Definition pending q (d : Z) x : Prop := x ∈ slot d q.

(** The entries of the slots that are due, in order. *)
Definition all_due (now_ms : Z) q : list (Z * X) :=
  filter (λ s, s.1 ≤ now_ms) (bt_entries q) ≫= λ s, pair s.1 <$> s.2.

Lemma slot_insert d d' l q : slot d' (<[d := l]> q) = if decide (d = d') then l else slot d' q.
Proof.
  unfold slot. case_decide as Hd; [subst; by rewrite lookup_insert_eq|by rewrite lookup_insert_ne].
Qed.

Lemma pending_push q d x d' y : pending (push_entry d x q) d' y ↔ (d = d' ∧ y = x) ∨ pending q d' y.
Proof.
  unfold pending, push_entry. rewrite slot_insert. case_decide as Hd; [subst d'|naive_solver].
  rewrite elem_of_app, list_elem_of_singleton. naive_solver.
Qed.

Lemma pending_push_once q d x d' y :
  pending (push_entry_once d x q) d' y ↔ (d = d' ∧ y = x) ∨ pending q d' y.
Proof.
  unfold pending, push_entry_once. rewrite slot_insert. case_decide as Hd; [subst d'|naive_solver].
  case_bool_decide; [naive_solver|]. rewrite elem_of_app, list_elem_of_singleton. naive_solver.
Qed.

Lemma remove_first_other x y l : y ≠ x → y ∈ l → y ∈ remove_first x l.
Proof.
  intros Hy Hin. unfold remove_first. destruct (list_find _ l) as [[pos z]|] eqn:Hf; [|done].
  apply list_find_Some in Hf as (Hpos & -> & _).
  rewrite (delete_take_drop l pos), elem_of_app.
  rewrite <-(take_drop_middle l pos x Hpos) in Hin. set_solver.
Qed.

Lemma remove_first_incl x y l : y ∈ remove_first x l → y ∈ l.
Proof.
  unfold remove_first. destruct (list_find _ l) as [[pos z]|]; [|done].
  intros Hin. eapply elem_of_sublist; [done|apply sublist_delete].
Qed.

Lemma slot_remove d x d' q :
  slot d' (remove_entry d x q) = if decide (d = d') then remove_first x (slot d q) else slot d' q.
Proof.
  unfold remove_entry. destruct (q !! d) as [l|] eqn:Hl.
  - assert (Hs : slot d q = l) by (unfold slot; by rewrite Hl). rewrite Hs.
    case_bool_decide as He.
    + case_decide as Hd; [subst d'|]; unfold slot; [by rewrite lookup_delete_eq|by rewrite lookup_delete_ne].
    + by rewrite slot_insert.
  - case_decide as Hd; [subst d'|done]. unfold slot. by rewrite Hl.
Qed.

(** Removing one entry leaves every other one pending. *)
Lemma pending_remove q d x d' y :
  (d', y) ≠ (d, x) → pending q d' y → pending (remove_entry d x q) d' y.
Proof.
  unfold pending. rewrite slot_remove. intros Hne Hin. case_decide as Hd; [subst d'|done].
  apply remove_first_other; congruence.
Qed.

Lemma pending_remove_incl q d x d' y : pending (remove_entry d x q) d' y → pending q d' y.
Proof.
  unfold pending. rewrite slot_remove. case_decide as Hd; [subst d'|done]. apply remove_first_incl.
Qed.

(* ------------------------------------------------------------------ *)
(** ** What a poll collects *)
(* ------------------------------------------------------------------ *)

Lemma due_slot_spec limit d due l :
  due_slot limit d due l = due ++ take (Z.to_nat (limit - zlen due)) (pair d <$> l).
Proof.
  revert due. induction l as [|x l IH]; intros due; cbn [due_slot fmap list_fmap].
  { by rewrite take_nil, app_nil_r. }
  destruct (limit <=? zlen due) eqn:Hl; zprop.
  { replace (Z.to_nat (limit - zlen due)) with 0%nat by lia. by rewrite take_0, app_nil_r. }
  rewrite IH. zlen_norm. replace (Z.to_nat (limit - zlen due)) with (S (Z.to_nat (limit - (zlen due + 1)))) by lia.
  cbn [take]. by rewrite <-app_assoc.
Qed.

(** What the slots of a sorted list give, as one list. *)
Definition due_of (now_ms : Z) (slots : list (Z * list X)) : list (Z * X) :=
  filter (λ s, s.1 ≤ now_ms) slots ≫= λ s, pair s.1 <$> s.2.

Lemma due_of_late now_ms slots : Forall (λ s, now_ms < s.1) slots → due_of now_ms slots = [].
Proof.
  induction 1 as [|s slots Hs _ IH]; [done|]. unfold due_of in *. by rewrite filter_cons_False by lia.
Qed.

Lemma due_loop_spec now_ms limit due slots :
  StronglySorted key_le slots → zlen due ≤ limit →
  due_loop now_ms limit due slots = due ++ take (Z.to_nat (limit - zlen due)) (due_of now_ms slots).
Proof.
  intros Hs. revert due. induction Hs as [|[d l] slots Hs IH Hd]; intros due Hle; cbn [due_loop].
  { unfold due_of. cbn. by rewrite take_nil, app_nil_r. }
  destruct (now_ms <? d) eqn:Hn; zprop; cbn [orb].
  { rewrite due_of_late; [by rewrite take_nil, app_nil_r|]. constructor; [done|].
    eapply Forall_impl; [exact Hd|]. intros [d' l'] Hk. unfold key_le in Hk. cbn in *. lia. }
  assert (Heq : due_of now_ms ((d, l) :: slots) = (pair d <$> l) ++ due_of now_ms slots)
    by (unfold due_of; rewrite filter_cons_True by done; done).
  rewrite Heq. destruct (limit <=? zlen due) eqn:Hl; zprop.
  { replace (Z.to_nat (limit - zlen due)) with 0%nat by lia. by rewrite take_0, app_nil_r. }
  rewrite due_slot_spec. set (n := Z.to_nat (limit - zlen due)).
  assert (Hz : zlen (due ++ take n (pair d <$> l)) = zlen due + Z.min (limit - zlen due) (zlen l)).
  { zlen_norm. unfold zlen, n. rewrite length_take, length_fmap. unfold zlen in *. lia. }
  rewrite IH, Hz, <-app_assoc by lia. f_equal. rewrite take_app. f_equal.
  rewrite length_fmap. f_equal. unfold n, zlen in *. lia.
Qed.

Lemma all_due_pending now_ms q d x : (d, x) ∈ all_due now_ms q ↔ pending q d x ∧ d ≤ now_ms.
Proof.
  unfold all_due, pending, slot. rewrite list_elem_of_bind.
  setoid_rewrite list_elem_of_filter. setoid_rewrite list_elem_of_fmap. split.
  - intros ([d' l] & (y & [= -> ->] & Hy) & Hd & Hin). apply elem_of_bt_entries in Hin. cbn in *.
    by rewrite Hin.
  - intros [Hx Hd]. destruct (q !! d) as [l|] eqn:Hq; [|by apply elem_of_nil in Hx].
    exists (d, l). rewrite elem_of_bt_entries. split; [by exists x|done].
Qed.

(** A poll with room for every due entry collects them all. *)
Lemma collect_due_pending now_ms limit q d x :
  pending q d x → d ≤ now_ms → zlen (all_due now_ms q) ≤ limit → (d, x) ∈ collect_due now_ms limit q.
Proof.
  intros Hp Hd Hroom. pose proof (zlen_nonneg (all_due now_ms q)).
  unfold collect_due. rewrite due_loop_spec; [|apply bt_entries_sorted|change (zlen []) with 0; lia].
  change (zlen []) with 0. rewrite Z.sub_0_r. cbn [app]. unfold due_of. fold (all_due now_ms q).
  rewrite take_ge by (unfold zlen in *; lia). by apply all_due_pending.
Qed.

(** A poll collects exactly the first [limit] due entries of the queue in the order of their
    deadlines, and within a deadline in the order in which they were scheduled; an entry is due
    exactly when it is pending at a deadline that passed. *)
Theorem poll_collects_due_in_order (now_ms limit : Z) q :
  0 ≤ limit →
  collect_due now_ms limit q = take (Z.to_nat limit) (all_due now_ms q) ∧
  (∀ d x, (d, x) ∈ all_due now_ms q ↔ pending q d x ∧ d ≤ now_ms) ∧
  StronglySorted Z.le (all_due now_ms q).*1.
Proof.
  intros Hl. split; [|split].
  - unfold collect_due. rewrite due_loop_spec; [|apply bt_entries_sorted|done].
    change (zlen []) with 0. by rewrite Z.sub_0_r.
  - intros d x. apply all_due_pending.
  - unfold all_due. pose proof (bt_entries_sorted q) as Hs.
    apply (StronglySorted_filter key_le (λ s, s.1 ≤ now_ms)) in Hs.
    induction Hs as [|[d l] slots Hs IH Hd]; [constructor|]. cbn [mbind list_bind fst snd].
    rewrite fmap_app. assert (Hrest : Forall (λ d', d ≤ d') (slots ≫= λ s, pair s.1 <$> s.2).*1).
    { apply Forall_forall. intros d' Hin. apply list_elem_of_fmap in Hin as ([d'' y] & -> & Hin).
      apply list_elem_of_bind in Hin as ([d3 l3] & Hin & Hsl). apply list_elem_of_fmap in Hin as (z & [= -> ->] & _).
      rewrite Forall_forall in Hd. by apply Hd in Hsl. }
    clear Hd. induction l as [|x l IHl]; [exact IH|]. cbn. constructor; [exact IHl|].
    apply Forall_app. split; [|done]. apply Forall_forall. intros d' Hin.
    apply list_elem_of_fmap in Hin as ([d'' y] & -> & Hin). apply list_elem_of_fmap in Hin as (z & [= -> ->] & _). done.
Qed.

End Queue.

Lemma poll_collects_due_in_order_witness :
  collect_due 20 3 (<[30 := [5; 6]]> (<[10 := [7; 8]]> (<[20 := [9; 4]]> (∅ : gmap Z (list Z))))) =
    [(10, 7); (10, 8); (20, 9)] ∧
  StronglySorted Z.le (all_due 20 (<[30 := [5; 6]]> (<[10 := [7; 8]]> (<[20 := [9; 4]]> (∅ : gmap Z (list Z)))))).*1.
Proof.
  split; [by vm_compute|].
  apply (poll_collects_due_in_order 20 3 (<[30 := [5; 6]]> (<[10 := [7; 8]]> (<[20 := [9; 4]]> (∅ : gmap Z (list Z)))))).
  lia.
Defined.
