(* ===== verification/ClientRuntime.v ===== *)
(** * The client runtime ([v3-client-runtime/src/lib.rs])

    The adapter around one client machine: it feeds the machine, queues the timers it asks for,
    polls them and counts what happens. *)

From S2P Require Import Prelude Bytes Text TimerQueue.
From S2P Require Wire Core Ice Turn Consent.

Inductive ClientRuntimeEvent : Type :=
| CoreEvent (event : Core.Event)
| NatPairNominated (local_index remote_index path_id : Z)
| TurnActionEvent (action : Turn.TurnAction)
| ConsentActionEvent (action : Consent.ConsentAction).

Record ClientRuntimeOutput : Type := mkClientRuntimeOutput {
  outbound_datagrams : list Core.OutboundDatagram;
  events : list ClientRuntimeEvent;
}.

Record ClientRuntimeMetrics : Type := mkClientRuntimeMetrics {
  handshake_started : Z;
  handshake_established : Z;
  reactivation_probe_sent : Z;
  reactivated : Z;
  disconnected : Z;
  msr_sent : Z;
  nat_pair_nominated : Z;
  turn_actions : Z;
  consent_actions : Z;
}.

#[global] Instance ClientRuntimeMetrics_eta : Eta ClientRuntimeMetrics := λ r,
  mkClientRuntimeMetrics (handshake_started r) (handshake_established r)
    (reactivation_probe_sent r) (reactivated r) (disconnected r) (msr_sent r)
    (nat_pair_nominated r) (turn_actions r) (consent_actions r).

Definition default_metrics : ClientRuntimeMetrics := mkClientRuntimeMetrics 0 0 0 0 0 0 0 0 0.

Record ClientRuntime : Type := mkClientRuntime {
  core : Core.CoreMachine;
  timers : gmap Z (list Core.TimerId);
  local_candidates : list Ice.IceCandidate;
  remote_candidates : list Ice.IceCandidate;
  metrics : ClientRuntimeMetrics;
}.

#[global] Instance ClientRuntime_eta : Eta ClientRuntime := λ r,
  mkClientRuntime (core r) (timers r) (local_candidates r) (remote_candidates r) (metrics r).

Inductive ClientRuntimeError : Type := CoreE (e : Core.CoreError) | InvalidCandidatePayload.

Abbreviation client := (ST ClientRuntime ClientRuntimeError).

Definition new (cid : Z) (cfg : Core.CoreConfig) : ClientRuntime :=
  mkClientRuntime (Core.new Core.Client cid cfg) ∅ [] [] default_metrics.

(** [n.saturating_add(1)] of a counter. *)
Definition bump (n : Z) : Z := sat_add U64_MAX n 1.

Definition observe_core_event (event : Core.Event) (m : ClientRuntimeMetrics) : ClientRuntimeMetrics :=
  match event with
  | Core.HandshakeStarted => m <| handshake_started := bump (handshake_started m) |>
  | Core.HandshakeEstablished => m <| handshake_established := bump (handshake_established m) |>
  | Core.ReactivationProbeSent => m <| reactivation_probe_sent := bump (reactivation_probe_sent m) |>
  | Core.Reactivated => m <| reactivated := bump (reactivated m) |>
  | Core.Disconnected => m <| disconnected := bump (disconnected m) |>
  | _ => m
  end.

Definition observe_datagram (d : Core.OutboundDatagram) (m : ClientRuntimeMetrics) : ClientRuntimeMetrics :=
  match Wire.decode (Core.bytes d) with
  | Ok frame =>
      if bool_decide (Wire.message_type frame = Wire.Msr) then m <| msr_sent := bump (msr_sent m) |> else m
  | _ => m
  end.

Definition ingest_timer (a : Core.TimerAction) (q : gmap Z (list Core.TimerId)) : gmap Z (list Core.TimerId) :=
  match a with Core.Schedule id deadline_ms => push_entry_once deadline_ms id q end.

(** [apply_core_output]. *)
Definition apply_core_output (out : Core.CoreOutput) (r : ClientRuntime) : ClientRuntimeOutput * ClientRuntime :=
  let m := foldl (λ m d, observe_datagram d m) (metrics r) (Core.outbound_datagrams out) in
  let m := foldl (λ m e, observe_core_event e m) m (Core.events out) in
  let q := foldl (λ q a, ingest_timer a q) (timers r) (Core.timer_actions out) in
  (mkClientRuntimeOutput (Core.outbound_datagrams out) (map CoreEvent (Core.events out)),
   r <| timers := q |> <| metrics := m |>).

(** [let core_out = self.core.call(..)?; Ok(self.apply_core_output(core_out))]: the machine keeps
    what it wrote before an error, the output is applied after a success only. *)
Definition with_core (call : Core.CoreMachine → outcome Core.CoreError Core.CoreOutput * Core.CoreMachine)
    : client ClientRuntimeOutput := λ r,
  let '(o, m) := call (core r) in
  let r := r <| core := m |> in
  match o with
  | Ok out => let '(res, r') := apply_core_output out r in (Ok res, r')
  | Err e => (Err (CoreE e), r)
  | Panic => (Panic, r)
  end.

Definition begin_handshake (now_ms : Z) : client ClientRuntimeOutput := with_core (Core.begin_handshake now_ms).

Definition on_datagram (now_ms src_path_id : Z) (bytes : list byte) : client ClientRuntimeOutput :=
  with_core (Core.on_datagram now_ms src_path_id bytes).

Definition send_message (payload : list byte) : client ClientRuntimeOutput := with_core (Core.on_api_send payload).

Definition close_session : client ClientRuntimeOutput := with_core Core.on_api_close.

Definition propose_timers (now_ms : Z) (proposal : Core.TimerProposal) : client ClientRuntimeOutput :=
  with_core (Core.on_api_propose_timers now_ms proposal).

Definition on_path_changed (path_id : Z) : client ClientRuntimeOutput :=
  with_core (Core.on_path_event (Core.PathChanged path_id)).

(** The loop of [poll_timers] over the due entries. *)
Fixpoint fire_timers (now_ms : Z) (output : ClientRuntimeOutput) (due : list (Z * Core.TimerId))
    : client ClientRuntimeOutput :=
  match due with
  | [] => mret output
  | (deadline, id) :: due' =>
      st_modify (λ r, r <| timers := remove_entry deadline id (timers r) |>) ;;
      partial ← with_core (Core.on_timer now_ms id);
      fire_timers now_ms
        (mkClientRuntimeOutput (outbound_datagrams output ++ outbound_datagrams partial)
           (events output ++ events partial)) due'
  end.

Definition poll_timers (now_ms limit : Z) : client ClientRuntimeOutput :=
  r ← st_get;
  fire_timers now_ms (mkClientRuntimeOutput [] []) (collect_due now_ms limit (timers r)).

Definition set_local_candidates (candidates : list Ice.IceCandidate) (r : ClientRuntime) : ClientRuntime :=
  r <| local_candidates := candidates |>.

Definition set_remote_candidates (candidates : list Ice.IceCandidate) (r : ClientRuntime) : ClientRuntime :=
  r <| remote_candidates := candidates |>.

(** The calls kept for compatibility do nothing. *)
Definition set_relay_policy (policy : Ice.RelayPolicy) (r : ClientRuntime) : ClientRuntime := r.
Definition run_ice_nomination : client ClientRuntimeOutput := mret (mkClientRuntimeOutput [] []).
Definition on_nat_tick (now_ms : Z) : ClientRuntimeOutput := mkClientRuntimeOutput [] [].

(* ------------------------------------------------------------------ *)
(** ** Candidates from discovery *)
(* ------------------------------------------------------------------ *)

Section Discovery.
(** The [FromStr] of [IpAddr]. *)
Context {V : Type} `{!JsonValue V} (parse_ip : string → option Ice.IpAddr).

Definition candidate_type (name : string) : Ice.CandidateType :=
  if String.eqb name "relay" then Ice.Relay
  else if String.eqb name "srflx" then Ice.Srflx
  else Ice.Host.

(** The body of the loop. *)
Definition parse_candidate (c : V) : outcome ClientRuntimeError Ice.IceCandidate :=
  address ← ok_or (get "address" c ≫= as_str) InvalidCandidatePayload;
  port ← ok_or (get "port" c ≫= as_u64) InvalidCandidatePayload;
  let typ := candidate_type (default "host"%string (get "type" c ≫= as_str)) in
  let foundation := default "remote"%string (get "foundation" c ≫= as_str) in
  let priority := as_u32 (default 100 (get "priority" c ≫= as_u64)) in
  address ← ok_or (parse_ip address) InvalidCandidatePayload;
  mret (Ice.mkIceCandidate foundation 1 "udp" priority address (as_u16 port) typ None None).

Fixpoint parse_candidates (parsed : list Ice.IceCandidate) (l : list V)
    : outcome ClientRuntimeError (list Ice.IceCandidate) :=
  match l with
  | [] => mret parsed
  | c :: l' => candidate ← parse_candidate c; parse_candidates (parsed ++ [candidate]) l'
  end.

Definition load_remote_candidates_from_discovery (payload : V) : client Z :=
  candidates ← st_lift (ok_or (get "candidates" payload ≫= as_array) InvalidCandidatePayload);
  parsed ← st_lift (parse_candidates [] candidates);
  st_modify (λ r, r <| remote_candidates := parsed |>) ;;
  r ← st_get;
  mret (zlen (remote_candidates r)).

End Discovery.

(* ------------------------------------------------------------------ *)
(** ** Runs *)
(* ------------------------------------------------------------------ *)

Inductive client_call : Type :=
| BeginHandshake (now_ms : Z)
| OnDatagram (now_ms src_path_id : Z) (bytes : list byte)
| SendMessage (payload : list byte)
| CloseSession
| ProposeTimers (now_ms : Z) (proposal : Core.TimerProposal)
| OnPathChanged (path_id : Z)
| PollTimers (now_ms limit : Z)
| SetLocalCandidates (candidates : list Ice.IceCandidate)
| SetRemoteCandidates (candidates : list Ice.IceCandidate).

Definition client_step (c : client_call) : client ClientRuntimeOutput :=
  match c with
  | BeginHandshake now => begin_handshake now
  | OnDatagram now path bs => on_datagram now path bs
  | SendMessage payload => send_message payload
  | CloseSession => close_session
  | ProposeTimers now p => propose_timers now p
  | OnPathChanged path => on_path_changed path
  | PollTimers now limit => poll_timers now limit
  | SetLocalCandidates l => st_modify (set_local_candidates l) ;; mret (mkClientRuntimeOutput [] [])
  | SetRemoteCandidates l => st_modify (set_remote_candidates l) ;; mret (mkClientRuntimeOutput [] [])
  end.

Fixpoint client_run (cs : list client_call) (r : ClientRuntime)
    : list (outcome ClientRuntimeError ClientRuntimeOutput) * ClientRuntime :=
  match cs with
  | [] => ([], r)
  | c :: cs' =>
      let '(o, r1) := client_step c r in
      let '(os, r2) := client_run cs' r1 in
      (o :: os, r2)
  end.
