(* ===== verification/ClientProps.v ===== *)
(** * Correctness of the client runtime

    The clock of a live client never stops, whatever the host does and whatever fails, and the
    candidates of a discovery are loaded all or not at all. *)

From S2P Require Import Prelude Bytes Text TimerQueue ClientRuntime.
From S2P Require Core CoreSpec CoreClock.

(** A live client has a probe timer in its queue. *)
Definition clock_inv (r : ClientRuntime) : Prop :=
  Core.role (core r) = Core.Client ∧ is_u64 (Core.cid (core r)) ∧
  (CoreClock.live (core r) → ∃ d, pending (timers r) d Core.ClientProbe).

Lemma client_pending_ingest actions q d id :
  pending (foldl (λ q a, ingest_timer a q) q actions) d id ↔ Core.Schedule id d ∈ actions ∨ pending q d id.
Proof.
  revert q. induction actions as [|[id' d'] actions IH]; intros q; cbn [foldl ingest_timer].
  { set_solver. }
  rewrite IH, pending_push_once, elem_of_cons. naive_solver.
Qed.

(** One call of the machine, from a queue in which the clock of a live machine may be missing
    only when the call fires it. *)
Lemma clock_with_core i r :
  Core.role (core r) = Core.Client → is_u64 (Core.cid (core r)) →
  (CoreClock.live (core r) → ¬ CoreClock.fires_clock i Core.Client → ∃ d, pending (timers r) d Core.ClientProbe) →
  clock_inv (with_core (CoreSpec.step i) r).2.
Proof.
  intros Hrole Hcid Hp. pose proof (CoreClock.step_clock i (core r) Hcid) as Hs. unfold with_core.
  destruct (CoreSpec.step i (core r)) as [o m]. destruct Hs as (Hr & Hc & Hl). rewrite Hrole in Hl.
  destruct o as [out|e|]; cbn; (split; [cbn; congruence|split; [cbn; congruence|]]); cbn; intros Hlive.
  - destruct (Hl Hlive) as [[Hlive0 Hf]|(out' & [= <-] & [d Hd])].
    + destruct (Hp Hlive0 Hf) as [d Hd]. exists d. apply client_pending_ingest. by right.
    + exists d. apply client_pending_ingest. by left.
  - destruct (Hl Hlive) as [[? ?]|(? & ? & _)]; [by apply Hp|done].
  - destruct (Hl Hlive) as [[? ?]|(? & ? & _)]; [by apply Hp|done].
Qed.

Lemma clock_call i r : clock_inv r → clock_inv (with_core (CoreSpec.step i) r).2.
Proof. intros (Hr & Hc & Hp). apply clock_with_core; auto. Qed.

Lemma clock_fire now d id r :
  clock_inv r → clock_inv (with_core (Core.on_timer now id) (r <| timers := remove_entry d id (timers r) |>)).2.
Proof.
  intros (Hr & Hc & Hp). apply (clock_with_core (CoreSpec.InTimer now id)); [done|done|].
  intros Hlive Hf. destruct (Hp Hlive) as [d' Hd']. exists d'. apply pending_remove; [|done].
  intros [= _ <-]. apply Hf. by exists now.
Qed.

Lemma clock_fire_all now due output r : clock_inv r → clock_inv (fire_timers now output due r).2.
Proof.
  revert output r. induction due as [|[d id] due IH]; intros output r Hr; [done|].
  cbn [fire_timers]. unfold st_modify, mbind, ST_bind. pose proof (clock_fire now d id r Hr) as Hf.
  destruct (with_core _ _) as [[partial|e|] r1]; cbn in Hf; [by apply IH|done|done].
Qed.

Lemma clock_step c r : clock_inv r → clock_inv (client_step c r).2.
Proof.
  intros Hr. destruct c as [now|now path bs|pl| |now p|path|now limit|l|l]; cbn [client_step].
  - apply (clock_call (CoreSpec.InHandshake now) r Hr).
  - apply (clock_call (CoreSpec.InDatagram now path bs) r Hr).
  - apply (clock_call (CoreSpec.InSend pl) r Hr).
  - apply (clock_call CoreSpec.InClose r Hr).
  - apply (clock_call (CoreSpec.InPropose now p) r Hr).
  - apply (clock_call (CoreSpec.InPath (Core.PathChanged path)) r Hr).
  - by apply clock_fire_all.
  - exact Hr.
  - exact Hr.
Qed.

Lemma clock_run cs r : clock_inv r → clock_inv (client_run cs r).2.
Proof.
  revert r. induction cs as [|c cs IH]; intros r Hr; [done|]. cbn [client_run].
  pose proof (clock_step c r Hr) as H. destruct (client_step c r) as [o r1]. cbn in H.
  specialize (IH r1 H). by destruct (client_run cs r1).
Qed.

(** A poll late enough and with room for every due timer fires the probe. *)
Definition probe_due (now limit : Z) (r : ClientRuntime) : Prop :=
  ∃ d, (d, Core.ClientProbe) ∈ collect_due now limit (timers r).

(** The clock of a client never stops: over any calls of its host (datagrams of any bytes,
    polls with any limit, errors in between), a client that is established or reactivating has a
    probe timer pending, so a poll at its deadline or later, with room for all due timers, fires
    it and the client notices a server gone silent. *)
Theorem client_clock_never_stops (cid : Z) (cfg : Core.CoreConfig) (cs : list client_call) :
  is_u64 cid →
  let r := (client_run cs (new cid cfg)).2 in
  CoreClock.live (core r) →
  ∃ d, pending (timers r) d Core.ClientProbe ∧
       ∀ now limit, d ≤ now → zlen (all_due now (timers r)) ≤ limit → probe_due now limit r.
Proof.
  intros Hcid r Hlive. assert (Hinv : clock_inv r).
  { apply clock_run. split; [done|]. split; [done|]. unfold CoreClock.live. cbn. by intros []. }
  destruct Hinv as (_ & _ & Hp). destruct (Hp Hlive) as [d Hd]. exists d. split; [done|].
  intros now limit Hle Hroom. exists d. by apply collect_due_pending.
Qed.

(* ------------------------------------------------------------------ *)
(** ** Candidates from discovery *)
(* ------------------------------------------------------------------ *)

Section Discovery.
Context {V : Type} `{!JsonValue V} (parse_ip : string → option Ice.IpAddr).

(** A JSON object that describes a candidate, and the candidate it describes. *)
Definition describes (c : V) (k : Ice.IceCandidate) : Prop :=
  (∃ text, (get "address" c ≫= as_str) = Some text ∧ parse_ip text = Some (Ice.address k)) ∧
  (∃ port, (get "port" c ≫= as_u64) = Some port ∧ Ice.port k = port mod 65536) ∧
  Ice.ic_priority k = default 100 (get "priority" c ≫= as_u64) mod 2 ^ 32 ∧
  Ice.foundation k = default "remote"%string (get "foundation" c ≫= as_str) ∧
  Ice.component k = 1 ∧ Ice.transport k = "udp"%string ∧
  Ice.related_address k = None ∧ Ice.related_port k = None ∧
  match Ice.typ k with
  | Ice.Relay => (get "type" c ≫= as_str) = Some "relay"%string
  | Ice.Srflx => (get "type" c ≫= as_str) = Some "srflx"%string
  | Ice.Host => (get "type" c ≫= as_str) ≠ Some "relay"%string ∧ (get "type" c ≫= as_str) ≠ Some "srflx"%string
  end.

Lemma parse_candidate_spec c :
  match parse_candidate parse_ip c with
  | Ok k => ∀ k', describes c k' ↔ k' = k
  | Err e => e = InvalidCandidatePayload ∧ ∀ k', ¬ describes c k'
  | Panic => False
  end.
Proof.
  unfold parse_candidate, describes.
  destruct (get "address" c ≫= as_str) as [text|]; cbn; [|split; [done|]; naive_solver].
  destruct (get "port" c ≫= as_u64) as [port|]; cbn; [|split; [done|]; naive_solver].
  destruct (parse_ip text) as [ip|] eqn:Hip; cbn; [|split; [done|]; naive_solver].
  set (t := get "type" c ≫= as_str). intros k'. split.
  - intros ((? & [= <-] & Ha) & (? & [= <-] & Hp) & Hpr & Hf & Hc & Ht & Hra & Hrp & Hty). destruct k'; cbn in *. subst.
    rewrite Hip in Ha. injection Ha as ->. f_equal. unfold candidate_type.
    destruct t as [n|]; cbn; [|by destruct typ; naive_solver].
    destruct (String.eqb_spec n "relay") as [->|H1]; [by destruct typ; naive_solver|].
    destruct (String.eqb_spec n "srflx") as [->|H2]; by destruct typ; naive_solver.
  - intros ->. cbn. split_and!; try done; [by eauto|by eauto|]. unfold candidate_type.
    destruct t as [n|]; cbn; [|done].
    destruct (String.eqb_spec n "relay") as [->|H1]; [done|].
    destruct (String.eqb_spec n "srflx") as [->|H2]; [done|]. split; congruence.
Qed.

Lemma parse_candidates_spec parsed l :
  match parse_candidates parse_ip parsed l with
  | Ok ks => ∃ ks', ks = parsed ++ ks' ∧ ∀ ks2, Forall2 describes l ks2 ↔ ks2 = ks'
  | Err e => e = InvalidCandidatePayload ∧ ∀ ks2, ¬ Forall2 describes l ks2
  | Panic => False
  end.
Proof.
  revert parsed. induction l as [|c l IH]; intros parsed; cbn.
  { exists []. rewrite app_nil_r. split; [done|]. intros ks2. split; [by inversion 1|by intros ->]. }
  pose proof (parse_candidate_spec c) as Hc. destruct (parse_candidate parse_ip c) as [k|e|]; cbn; [|destruct Hc as [-> Hc]|done].
  2: { split; [done|]. intros ks2 Hk. inversion Hk; subst. by eapply Hc. }
  specialize (IH (parsed ++ [k])). destruct (parse_candidates parse_ip _ l) as [ks|e|]; [|destruct IH as [-> IH]|done].
  - destruct IH as (ks' & -> & Hks). exists (k :: ks'). rewrite <-app_assoc. split; [done|]. intros ks2. split.
    + inversion 1; subst. f_equal; [by apply Hc|by apply Hks].
    + intros ->. constructor; [by apply Hc|by apply Hks].
  - split; [done|]. intros ks2 Hk. inversion Hk; subst. by eapply IH.
Qed.

(** C23. Loading candidates from discovery is all or nothing: it succeeds exactly when the
    payload has an array of candidates each of which is described (an address that parses and a
    numeric port), it then replaces the remote candidates by the described ones and returns
    their number, and otherwise it fails and changes nothing.  A port is taken modulo 65536. *)
Theorem discovery_loads_all_or_nothing (payload : V) (r : ClientRuntime) :
  let '(o, r') := load_remote_candidates_from_discovery parse_ip payload r in
  match o with
  | Ok n => ∃ l ks, (get "candidates" payload ≫= as_array) = Some l ∧ Forall2 describes l ks ∧
                    n = zlen ks ∧ r' = r <| remote_candidates := ks |>
  | Err e => e = InvalidCandidatePayload ∧ r' = r ∧
             ∀ l ks, (get "candidates" payload ≫= as_array) = Some l → ¬ Forall2 describes l ks
  | Panic => False
  end.
Proof.
  unfold load_remote_candidates_from_discovery, st_lift, st_modify, st_get, mbind, ST_bind, mret, ST_ret.
  fold (@mbind option _). change (option_bind _ _ as_array ?x) with (x ≫= as_array).
  destruct (get "candidates" payload ≫= as_array) as [l|] eqn:Hl; cbn [ok_or].
  - pose proof (parse_candidates_spec [] l) as Hp. destruct (parse_candidates parse_ip [] l) as [ks|e|]; [| |done].
    + destruct Hp as (ks' & -> & Hks). cbn. exists l, ks'. split_and!; [done|by apply Hks|done|done].
    + destruct Hp as [-> Hks]. split_and!; [done|done|]. by intros l' ks [= <-].
  - by split_and!.
Qed.

End Discovery.

(** A client that is established and then hears nothing. *)
Definition sample_client_calls : list client_call :=
  [BeginHandshake 0;
   OnDatagram 5 1 (default [] (match Core.encode_frame Wire.ServerHello 7 [] with Ok bs => Some bs | _ => None end));
   PollTimers 100000 10; PollTimers 100001 0].

Lemma client_clock_never_stops_witness :
  Core.state (core (client_run sample_client_calls (new 7 Core.CoreConfig_default)).2) = Core.Reactivating ∧
  ∃ d, pending (timers (client_run sample_client_calls (new 7 Core.CoreConfig_default)).2) d Core.ClientProbe.
Proof.
  split; [by vm_compute|].
  destruct (client_clock_never_stops 7 Core.CoreConfig_default sample_client_calls) as (d & Hd & _).
  - vm_compute. split; discriminate.
  - vm_compute. by right.
  - by exists d.
Defined.
