(* ===== verification/ServerRuntime.v ===== *)
(** * The server runtime ([v3-server-runtime/src/lib.rs])

    The adapter that routes datagrams to one machine per connection, polls their timers and
    persists a record per session through a session store. *)

From S2P Require Import Prelude Bytes TimerQueue.
From S2P Require Wire Core Ice Turn Store.

Inductive RuntimeEvent : Type :=
| ParseError
| CoreEvent (cid : Z) (event : Core.Event)
| NatPairNominated (cid local_index remote_index : Z)
| TurnActionEvent (cid : Z) (action : Turn.TurnAction)
| VhostPathBound (cid : Z) (vhost : string) (path_id : Z)
| MessageReceived (cid msg_id : Z) (payload_b64 : string).

Record ServerRuntimeOutput : Type := mkServerRuntimeOutput {
  outbound_datagrams : list Core.OutboundDatagram;
  events : list RuntimeEvent;
}.

Definition empty_output : ServerRuntimeOutput := mkServerRuntimeOutput [] [].

Record SessionRuntime : Type := mkSessionRuntime {
  core : Core.CoreMachine;
  peer_id : string;
  bound_vhost : option string;
  selected_path_id : option Z;
  sent_data_ids : gset Z;
}.

#[global] Instance SessionRuntime_eta : Eta SessionRuntime := λ r,
  mkSessionRuntime (core r) (peer_id r) (bound_vhost r) (selected_path_id r) (sent_data_ids r).

(** The counters; nothing counts the NAT and TURN actions. *)
Record ServerRuntimeMetrics : Type := mkServerRuntimeMetrics {
  parse_errors : Z;
  handshake_started : Z;
  handshake_established : Z;
  reactivated : Z;
  disconnected : Z;
  disconnect_reason_unknown : Z;
  msr_sent : Z;
  msr_probe_sent : Z;
  msr_missed_inferred : Z;
  request_range_sent : Z;
  data_sent : Z;
  data_retransmit_inferred : Z;
  ice_candidate_selected : Z;
  turn_actions : Z;
  turn_retry_actions : Z;
  turn_mark_failed_actions : Z;
  turn_alloc_actions : Z;
  turn_refresh_actions : Z;
  turn_permission_actions : Z;
  turn_channel_bind_actions : Z;
  store_load_calls : Z;
  store_load_failures : Z;
  store_load_latency_us_total : Z;
  store_upsert_calls : Z;
  store_upsert_failures : Z;
  store_upsert_latency_us_total : Z;
  store_delete_calls : Z;
  store_delete_failures : Z;
  peak_sessions : Z;
}.

#[global] Instance ServerRuntimeMetrics_eta : Eta ServerRuntimeMetrics := λ r,
  mkServerRuntimeMetrics (parse_errors r) (handshake_started r) (handshake_established r)
    (reactivated r) (disconnected r) (disconnect_reason_unknown r) (msr_sent r) (msr_probe_sent r)
    (msr_missed_inferred r) (request_range_sent r) (data_sent r) (data_retransmit_inferred r)
    (ice_candidate_selected r) (turn_actions r) (turn_retry_actions r) (turn_mark_failed_actions r)
    (turn_alloc_actions r) (turn_refresh_actions r) (turn_permission_actions r)
    (turn_channel_bind_actions r)
    (store_load_calls r) (store_load_failures r) (store_load_latency_us_total r)
    (store_upsert_calls r) (store_upsert_failures r) (store_upsert_latency_us_total r)
    (store_delete_calls r) (store_delete_failures r) (peak_sessions r).

Definition default_metrics : ServerRuntimeMetrics :=
  mkServerRuntimeMetrics 0 0 0 0 0 0 0 0 0 0 0 0 0 0 0 0 0 0 0 0 0 0 0 0 0 0 0 0 0.

Inductive ServerRuntimeError : Type :=
| WireE (e : Wire.WireError)
| CoreE (e : Core.CoreError)
| StoreE (e : Store.StoreError).

Section Runtime.
(** The store behind the trait object. *)
Context {St : Type} `{!Store.SessionStore St}.

Record ServerRuntime : Type := mkServerRuntime {
  cfg : Core.CoreConfig;
  store : St;
  sessions : gmap Z SessionRuntime;
  timers : gmap Z (list (Z * Core.TimerId));
  relay_policy : Ice.RelayPolicy;
  metrics : ServerRuntimeMetrics;
}.

#[global] Instance ServerRuntime_eta : Eta ServerRuntime := λ r,
  mkServerRuntime (cfg r) (store r) (sessions r) (timers r) (relay_policy r) (metrics r).

Abbreviation server := (ST ServerRuntime ServerRuntimeError).

Definition new_with_nat_policy (cfg : Core.CoreConfig) (store : St) (relay_policy : Ice.RelayPolicy)
    : ServerRuntime :=
  mkServerRuntime cfg store ∅ ∅ relay_policy default_metrics.

Definition new (cfg : Core.CoreConfig) (store : St) : ServerRuntime :=
  new_with_nat_policy cfg store Ice.PreferDirect.

Definition active_sessions (r : ServerRuntime) : Z := Z.of_nat (size (sessions r)).

Definition set_relay_policy (p : Ice.RelayPolicy) (r : ServerRuntime) : ServerRuntime :=
  r <| relay_policy := p |>.

Definition gather_local_candidates (sockets : list (Ice.IpAddr * Z)) (component : Z) : list Ice.IceCandidate :=
  Ice.gather_host_candidates sockets component "udp".

Definition bump (n : Z) : Z := sat_add U64_MAX n 1.

Definition count (f : ServerRuntimeMetrics → ServerRuntimeMetrics) : server () :=
  st_modify (λ r, r <| metrics := f (metrics r) |>).

(** A call on the store; what it changed stays when it fails. *)
Definition on_store {A} (call : ST St Store.StoreError A) : server (outcome Store.StoreError A) := λ r,
  let '(o, s) := call (store r) in (Ok o, r <| store := s |>).

(** The [base64] engine, and the stopwatch of the [n]-th timed store call. *)
Context (base64_encode : list byte → string) (elapsed_us : Z → Z).

Definition stopwatch (r : ServerRuntime) : Z :=
  elapsed_us (store_load_calls (metrics r) + store_upsert_calls (metrics r)).

(* ------------------------------------------------------------------ *)
(** ** Bookkeeping *)
(* ------------------------------------------------------------------ *)

Definition update_peak_sessions_metric : server () :=
  st_modify (λ r,
    let current := active_sessions r in
    if peak_sessions (metrics r) <? current then r <| metrics := metrics r <| peak_sessions := current |> |>
    else r).

Definition ingest_timer (cid : Z) (q : gmap Z (list (Z * Core.TimerId))) (a : Core.TimerAction)
    : gmap Z (list (Z * Core.TimerId)) :=
  match a with Core.Schedule id deadline_ms => push_entry deadline_ms (cid, id) q end.

Definition ingest_timers (cid : Z) (actions : list Core.TimerAction) : server () :=
  st_modify (λ r, r <| timers := foldl (ingest_timer cid) (timers r) actions |>).

Definition observe_core_event (event : Core.Event) : server () :=
  count (λ m,
    match event with
    | Core.HandshakeStarted => m <| handshake_started := bump (handshake_started m) |>
    | Core.HandshakeEstablished => m <| handshake_established := bump (handshake_established m) |>
    | Core.Reactivated => m <| reactivated := bump (reactivated m) |>
    | Core.ReactivationProbeSent =>
        m <| msr_probe_sent := bump (msr_probe_sent m) |>
          <| msr_missed_inferred := bump (msr_missed_inferred m) |>
    | Core.RequestRangeSent _ _ => m <| request_range_sent := bump (request_range_sent m) |>
    | Core.Disconnected =>
        m <| disconnected := bump (disconnected m) |>
          <| disconnect_reason_unknown := bump (disconnect_reason_unknown m) |>
    | _ => m
    end).

(** A data frame of a session: its message was sent before when the set holds it. *)
Definition note_data_sent (cid : Z) (payload : list byte) : server () :=
  count (λ m, m <| data_sent := bump (data_sent m) |>) ;;
  if 8 <=? zlen payload then
    let msg_id := be_value (take 8 payload) in
    r ← st_get;
    match sessions r !! cid with
    | None => mret ()
    | Some s =>
        st_modify (λ r, r <| sessions :=
          <[cid := s <| sent_data_ids := {[msg_id]} ∪ sent_data_ids s |>]> (sessions r) |>) ;;
        st_when (bool_decide (msg_id ∈ sent_data_ids s))
          (count (λ m, m <| data_retransmit_inferred := bump (data_retransmit_inferred m) |>))
    end
  else mret ().

Definition observe_datagram (cid : Z) (d : Core.OutboundDatagram) : server () :=
  match Wire.decode (Core.bytes d) with
  | Ok frame =>
      match Wire.message_type frame with
      | Wire.Msr => count (λ m, m <| msr_sent := bump (msr_sent m) |>)
      | Wire.Data => note_data_sent cid (Wire.payload frame)
      | _ => mret ()
      end
  | _ => mret ()
  end.

Definition observe_datagrams (cid : Z) (datagrams : list Core.OutboundDatagram) : server () :=
  st_for datagrams (observe_datagram cid).

(* ------------------------------------------------------------------ *)
(** ** Sessions *)
(* ------------------------------------------------------------------ *)

(** [format!("path:{src_path_id}")]. *)
Definition path_peer (src_path_id : Z) : string := String.append "path:" (pretty (Z.to_N src_path_id)).

Definition ensure_session_loaded (cid src_path_id now_ms : Z) : server () :=
  r ← st_get;
  if bool_decide (is_Some (sessions r !! cid)) then mret ()
  else
    count (λ m, m <| store_load_calls := bump (store_load_calls m) |>) ;;
    loaded ← on_store (Store.load cid now_ms);
    r ← st_get;
    let us := stopwatch r in
    count (λ m, m <| store_load_latency_us_total := sat_add U64_MAX (store_load_latency_us_total m) us |>) ;;
    st_when (is_err loaded) (count (λ m, m <| store_load_failures := bump (store_load_failures m) |>)) ;;
    loaded ← st_lift (map_err StoreE loaded);
    r ← st_get;
    let '(c, peer) :=
      match loaded with
      | Some v =>
          let rec := Store.vr_record v in
          (Core.mkCoreConfig (Store.negotiated_msr_interval_ms rec) (Core.miss_window_count (cfg r))
             (Store.disconnect_window_ms rec), Store.peer_id rec)
      | None => (cfg r, path_peer src_path_id)
      end in
    let '(o, m) := Core.on_path_event (Core.PathChanged src_path_id) (Core.new Core.Server cid c) in
    st_lift (map_err CoreE o) ;;
    st_modify (λ r, r <| sessions := <[cid := mkSessionRuntime m peer None None ∅]> (sessions r) |>) ;;
    update_peak_sessions_metric.

(** The events of the application for one event of a machine. *)
Definition runtime_events (cid : Z) (evt : Core.Event) : list RuntimeEvent :=
  CoreEvent cid evt ::
  match evt with
  | Core.MessageReceived msg_id payload => [MessageReceived cid msg_id (base64_encode payload)]
  | _ => []
  end.

(** The record of a session. *)
Definition session_record (cid : Z) (c : Core.CoreConfig) (s : SessionRuntime) : Store.SessionRecord :=
  Store.mkSessionRecord cid (peer_id s) (Core.msr_interval_ms c) (Core.disconnect_window_ms c)
    (Core.last_ordered_rx (core s)) 0.

(** The end of [apply_core_output]: a lost session is forgotten, any other one is stored. *)
Definition persist_session (cid now_ms : Z) : server () :=
  r ← st_get;
  match sessions r !! cid with
  | None => mret ()
  | Some s =>
      if bool_decide (Core.state (core s) = Core.Lost) then
        count (λ m, m <| store_delete_calls := bump (store_delete_calls m) |>) ;;
        delete_res ← on_store (Store.delete_session cid);
        st_when (is_err delete_res) (count (λ m, m <| store_delete_failures := bump (store_delete_failures m) |>)) ;;
        st_modify (λ r, r <| sessions := delete cid (sessions r) |>) ;;
        st_lift (map_err StoreE delete_res) ;;
        count (λ m, m <| disconnected := bump (disconnected m) |>
                      <| disconnect_reason_unknown := bump (disconnect_reason_unknown m) |>)
      else
        let record := session_record cid (cfg r) s in
        count (λ m, m <| store_upsert_calls := bump (store_upsert_calls m) |>) ;;
        upsert_res ← on_store (Store.upsert cid record (Core.disconnect_window_ms (cfg r)) now_ms);
        r ← st_get;
        let us := stopwatch r in
        count (λ m, m <| store_upsert_latency_us_total := sat_add U64_MAX (store_upsert_latency_us_total m) us |>) ;;
        st_when (is_err upsert_res) (count (λ m, m <| store_upsert_failures := bump (store_upsert_failures m) |>)) ;;
        st_lift (map_err StoreE upsert_res) ;;
        mret ()
  end.

(** [path_id: if d.path_id == 0 { src_path_id } else { d.path_id }]. *)
Definition route_datagram (src_path_id : Z) (d : Core.OutboundDatagram) : Core.OutboundDatagram :=
  Core.mkOutboundDatagram (if Core.path_id d =? 0 then src_path_id else Core.path_id d) (Core.bytes d).

Definition apply_core_output (cid src_path_id now_ms : Z) (out : Core.CoreOutput) : server ServerRuntimeOutput :=
  st_for (Core.events out) observe_core_event ;;
  ingest_timers cid (Core.timer_actions out) ;;
  let datagrams := map (route_datagram src_path_id) (Core.outbound_datagrams out) in
  observe_datagrams cid datagrams ;;
  persist_session cid now_ms ;;
  mret (mkServerRuntimeOutput datagrams (Core.events out ≫= runtime_events cid)).

(** A call on the machine of a session, which exists. *)
Definition with_session (cid : Z) (call : Core.CoreMachine → outcome Core.CoreError Core.CoreOutput * Core.CoreMachine)
    : server Core.CoreOutput :=
  r ← st_get;
  match sessions r !! cid with
  | None => st_panic
  | Some s =>
      let '(o, m) := call (core s) in
      st_modify (λ r, r <| sessions := <[cid := s <| core := m |>]> (sessions r) |>) ;;
      st_lift (map_err CoreE o)
  end.

(* ------------------------------------------------------------------ *)
(** ** The public methods *)
(* ------------------------------------------------------------------ *)

(** The events pushed in front: the session is bound to a host and to this path. *)
Definition bound_events (cid src_path_id : Z) (s : SessionRuntime) : list RuntimeEvent :=
  match bound_vhost s, selected_path_id s with
  | Some vhost, Some bound => if bound =? src_path_id then [VhostPathBound cid vhost src_path_id] else []
  | _, _ => []
  end.

Definition on_datagram (now_ms src_path_id : Z) (bytes : list byte) : server ServerRuntimeOutput :=
  match Wire.decode bytes with
  | Panic => st_panic
  | Err _ =>
      count (λ m, m <| parse_errors := bump (parse_errors m) |>) ;;
      mret (mkServerRuntimeOutput [] [ParseError])
  | Ok frame =>
      let cid := Wire.cid frame in
      ensure_session_loaded cid src_path_id now_ms ;;
      r ← st_get;
      let pre_events :=
        match sessions r !! cid with
        | Some s => bound_events cid src_path_id s
        | None => []
        end in
      out ← with_session cid (Core.on_datagram now_ms src_path_id bytes);
      res ← apply_core_output cid src_path_id now_ms out;
      mret (mkServerRuntimeOutput (outbound_datagrams res) (pre_events ++ events res))
  end.

(** The loop of [poll_timers] over the due entries. *)
Fixpoint fire_timers (now_ms : Z) (output : ServerRuntimeOutput) (due : list (Z * (Z * Core.TimerId)))
    : server ServerRuntimeOutput :=
  match due with
  | [] => mret output
  | (deadline, (cid, timer_id)) :: due' =>
      st_modify (λ r, r <| timers := remove_entry deadline (cid, timer_id) (timers r) |>) ;;
      r ← st_get;
      if bool_decide (is_Some (sessions r !! cid)) then
        core_out ← with_session cid (Core.on_timer now_ms timer_id);
        partial ← apply_core_output cid 0 now_ms core_out;
        fire_timers now_ms
          (mkServerRuntimeOutput (outbound_datagrams output ++ outbound_datagrams partial)
             (events output ++ events partial)) due'
      else fire_timers now_ms output due'
  end.

Definition poll_timers (now_ms limit : Z) : server ServerRuntimeOutput :=
  r ← st_get;
  fire_timers now_ms empty_output (collect_due now_ms limit (timers r)).

Definition on_nat_tick (now_ms : Z) : ServerRuntimeOutput := empty_output.

Definition send_message (cid : Z) (payload : list byte) (now_ms : Z) : server ServerRuntimeOutput :=
  r ← st_get;
  if bool_decide (is_Some (sessions r !! cid)) then
    out ← with_session cid (Core.on_api_send payload);
    apply_core_output cid 0 now_ms out
  else mret empty_output.

Definition on_ice_candidates (cid : Z) (vhost : string) (local remote : list Ice.IceCandidate)
    : server ServerRuntimeOutput := mret empty_output.

(* ------------------------------------------------------------------ *)
(** ** Runs *)
(* ------------------------------------------------------------------ *)

Inductive server_call : Type :=
| OnDatagram (now_ms src_path_id : Z) (bytes : list byte)
| PollTimers (now_ms limit : Z)
| SendMessage (cid : Z) (payload : list byte) (now_ms : Z).

Definition server_step (c : server_call) : server ServerRuntimeOutput :=
  match c with
  | OnDatagram now path bs => on_datagram now path bs
  | PollTimers now limit => poll_timers now limit
  | SendMessage cid payload now => send_message cid payload now
  end.

Fixpoint server_run (cs : list server_call) (r : ServerRuntime)
    : list (outcome ServerRuntimeError ServerRuntimeOutput) * ServerRuntime :=
  match cs with
  | [] => ([], r)
  | c :: cs' =>
      let '(o, r1) := server_step c r in
      let '(os, r2) := server_run cs' r1 in
      (o :: os, r2)
  end.

End Runtime.

Arguments ServerRuntime : clear implicits.
Arguments new {St} cfg store.
