(* ===== verification/ServerLemmas.v ===== *)
(** * Lemmas on the server runtime

    Bookkeeping leaves everything alone but the counters and the sets of sent messages, so a
    call is its machine call, the timers it schedules and the persistence of one session. *)

From S2P Require Import Prelude Bytes TimerQueue ServerRuntime.
From S2P Require Wire WireLemmas Core CoreSpec CoreClock Store.

Section Server.
Context {St : Type} {Hstore : Store.SessionStore St}.
Context (base64_encode : list byte → string) (elapsed_us : Z → Z).

Abbreviation server := (ST (ServerRuntime St) ServerRuntimeError).

Implicit Types (r : ServerRuntime St) (cid now : Z).

(** A session without its set of sent messages. *)
Definition essence (s : SessionRuntime) : SessionRuntime := s <| sent_data_ids := ∅ |>.

(** What the bookkeeping of a call for connection [cid] may change. *)
Record bookkept cid r r' : Prop := {
  bk_cfg : cfg r' = cfg r;
  bk_store : store r' = store r;
  bk_timers : timers r' = timers r;
  bk_policy : relay_policy r' = relay_policy r;
  bk_others c : c ≠ cid → sessions r' !! c = sessions r !! c;
  bk_session : essence <$> sessions r' !! cid = essence <$> sessions r !! cid;
}.

#[global] Instance bookkept_preorder cid : PreOrder (bookkept cid).
Proof.
  split; [by constructor|]. intros r1 r2 r3 [H1 H2 H3 H4 H5 H6] [K1 K2 K3 K4 K5 K6].
  constructor; [congruence..| |congruence]. intros c Hc. by rewrite K5, H5.
Qed.

Definition books cid (h : server ()) : Prop := ∀ r, wp h (λ o r', o = Ok () ∧ bookkept cid r r') r.

Lemma books_seq cid h k : books cid h → books cid k → books cid (h ;; k).
Proof.
  intros Hh Hk r. apply (wp_seq (bookkept cid r)); [apply Hh|]. intros r1 H1.
  eapply wp_mono, Hk. intros o r2 [-> H2]. split; [done|by etrans].
Qed.

Lemma wp_books {A} cid h (k : () → server A) Q r :
  books cid h → (∀ r', bookkept cid r r' → wp (k ()) Q r') → wp h (then_wp k Q) r.
Proof. intros Hh Hk. eapply wp_mono, Hh. intros o r' [-> Hb]. by apply Hk. Qed.

Lemma wp_assoc {A B C} (m : server A) (f : A → server B) (g : B → server C) Q r :
  wp (m ≫= f) (then_wp g Q) r → wp m (then_wp (λ a, f a ≫= g) Q) r.
Proof.
  unfold wp, then_wp, mbind, ST_bind. destruct (m r) as [[a|e|] r']; cbn; [|done..].
  unfold wp. by destruct (f a r') as [[b|e|] r2].
Qed.

Lemma books_ret cid : books cid (mret ()).
Proof. by intros r. Qed.

Lemma books_when cid b h : books cid h → books cid (st_when b h).
Proof. intros Hh r. destruct b; [apply Hh|done]. Qed.

Lemma books_for {A} cid (l : list A) body : (∀ x, books cid (body x)) → books cid (st_for l body).
Proof. intros Hb. induction l as [|x l IH]; [apply books_ret|]. by apply books_seq. Qed.

Lemma books_count cid f : books cid (count f).
Proof. intros r. apply wp_modify. by split. Qed.

Lemma books_peak cid : books cid update_peak_sessions_metric.
Proof. intros r. apply wp_modify. cbv zeta beta. by destruct (_ <? _). Qed.

Lemma books_note_data_sent cid payload : books cid (note_data_sent cid payload).
Proof.
  apply books_seq; [apply books_count|]. destruct (8 <=? zlen payload); [|apply books_ret].
  cbv zeta. intros r. wp_run. destruct (sessions r !! cid) as [s|] eqn:Hs; [|by apply wp_ret]. wp_run.
  eapply wp_mono, (books_when cid), books_count. intros o r' [-> H]. split; [done|].
  etrans; [|exact H]. split; try done; cbn; [|by rewrite lookup_insert_eq, Hs].
  intros c Hc. by rewrite lookup_insert_ne.
Qed.

Lemma books_observe_datagrams cid l : books cid (observe_datagrams cid l).
Proof.
  apply books_for. intros d. unfold observe_datagram.
  destruct (Wire.decode (Core.bytes d)) as [f|e|]; [|apply books_ret..].
  destruct (Wire.message_type f); first [apply books_count|apply books_note_data_sent|apply books_ret].
Qed.

Lemma books_observe_events cid l : books cid (st_for l observe_core_event).
Proof. apply books_for. intros e. apply books_count. Qed.

(** Where a bookkept runtime has a session. *)
Lemma bookkept_session cid r r' c s' :
  bookkept cid r r' → sessions r' !! c = Some s' → ∃ s, sessions r !! c = Some s ∧ essence s' = essence s.
Proof.
  intros [_ _ _ _ Ho H] Hs. destruct (decide (c = cid)) as [->|Hc]; [|rewrite Ho in Hs by done; by exists s'].
  rewrite Hs in H. cbn in H. destruct (sessions r !! cid) as [s|]; [|done]. injection H as H1 H2 H3 H4.
  exists s. split; [done|]. unfold essence, upd. congruence.
Qed.

Lemma essence_core s s' : essence s' = essence s → core s' = core s ∧ peer_id s' = peer_id s.
Proof. by intros [= -> -> _ _]. Qed.

(* ------------------------------------------------------------------ *)
(** ** The parts of a call *)
(* ------------------------------------------------------------------ *)

(** The timers after a call. *)
Definition scheduled cid (out : Core.CoreOutput) r : ServerRuntime St :=
  r <| timers := foldl (ingest_timer cid) (timers r) (Core.timer_actions out) |>.

Lemma pending_ingest cid actions q d c id :
  pending (foldl (ingest_timer cid) q actions) d (c, id) ↔
  (c = cid ∧ Core.Schedule id d ∈ actions) ∨ pending q d (c, id).
Proof.
  revert q. induction actions as [|[id' d'] actions IH]; intros q; cbn [foldl ingest_timer]; [set_solver|].
  rewrite IH, pending_push, elem_of_cons. naive_solver.
Qed.

(** [apply_core_output] is the persistence of the session after bookkeeping. *)
Lemma apply_output_wp cid path now out (Q : outcome ServerRuntimeError ServerRuntimeOutput → ServerRuntime St → Prop) r :
  (∀ r1, bookkept cid (scheduled cid out r) r1 →
     wp (persist_session elapsed_us cid now)
       (λ o r2, Q (_ ← o; mret (mkServerRuntimeOutput (map (route_datagram path) (Core.outbound_datagrams out))
                                  (Core.events out ≫= runtime_events base64_encode cid))) r2) r1) →
  wp (apply_core_output base64_encode elapsed_us cid path now out) Q r.
Proof.
  intros HQ. unfold apply_core_output. apply wp_bind.
  eapply wp_mono, (books_observe_events cid). intros o r1 [-> H1]. wp_run. unfold ingest_timers. wp_run.
  eapply wp_mono, books_observe_datagrams. intros o r2 [-> H2]. wp_run.
  eapply wp_mono; [|apply HQ].
  - intros o r3 H3. by destruct o as [[]|e|].
  - etrans; [|exact H2]. destruct H1 as [K1 K2 K3 K4 K5 K6]. split; cbn; first [done|congruence].
Qed.

(** The end of a call only touches the session it is about. *)
Definition persisted cid r r' : Prop :=
  cfg r' = cfg r ∧ timers r' = timers r ∧ relay_policy r' = relay_policy r ∧
  (∀ c, c ≠ cid → sessions r' !! c = sessions r !! c) ∧
  (sessions r' !! cid = sessions r !! cid ∨ sessions r' !! cid = None).

Lemma on_store_wp {A} (call : ST St Store.StoreError A) Q r :
  Q (Ok (call (store r)).1) (r <| store := (call (store r)).2 |>) → wp (on_store call) Q r.
Proof. unfold wp, on_store. by destruct (call (store r)). Qed.

Ltac persisted_by :=
  split_and!; try done; intros ?c ?Hc; cbn; by rewrite ?lookup_delete_ne by done.

Lemma persist_session_wp cid now r : wp (persist_session elapsed_us cid now) (λ _ r', persisted cid r r') r.
Proof.
  unfold persist_session. wp_run. destruct (sessions r !! cid) as [s|] eqn:Hs; [|apply wp_ret; rewrite ?Hs; split_and!; auto; by left].
  case_bool_decide; unfold count; wp_run; apply on_store_wp; wp_run.
  - destruct (Store.delete_session cid _) as [[[]|e|] st]; cbn; unfold count, st_when; cbn [is_err]; wp_run;
      (split_and!; try done; [intros c Hc; unfold upd; cbn; by rewrite lookup_delete_ne|right; unfold upd; cbn; by rewrite lookup_delete_eq]).
  - cbv zeta. wp_run. destruct (Store.upsert _ _ _ _ _) as [[v|e|] st]; cbn; unfold count, st_when; cbn [is_err]; wp_run;
      (split_and!; try done; by left).
Qed.

(** A session of the runtime runs its machine. *)
Lemma with_session_wp cid call Q r s :
  sessions r !! cid = Some s →
  (let '(o, m) := call (core s) in
   Q (map_err CoreE o) (r <| sessions := <[cid := s <| core := m |>]> (sessions r) |>)) →
  wp (with_session cid call) Q r.
Proof.
  intros Hs HQ. unfold with_session. wp_run. rewrite Hs. destruct (call (core s)) as [o m]. by wp_run.
Qed.

(** A session as [ensure_session_loaded] makes it. *)
Definition fresh_session (c : Core.CoreConfig) (loaded : option Store.VersionedRecord) cid (path : Z) : SessionRuntime :=
  let '(conf, peer) :=
    match loaded with
    | Some v =>
        let rec := Store.vr_record v in
        (Core.mkCoreConfig (Store.negotiated_msr_interval_ms rec) (Core.miss_window_count c)
           (Store.disconnect_window_ms rec), Store.peer_id rec)
    | None => (c, path_peer path)
    end in
  mkSessionRuntime (Core.new Core.Server cid conf <| Core.current_path_id := path |>) peer None None ∅.

Lemma ensure_loaded_wp cid path now (Q : outcome ServerRuntimeError () → ServerRuntime St → Prop) r :
  (is_Some (sessions r !! cid) → Q (Ok ()) r) →
  (sessions r !! cid = None →
    let '(o, st) := Store.load cid now (store r) in
    match o with
    | Ok loaded => ∀ r', bookkept cid (r <| store := st |> <| sessions := <[cid := fresh_session (cfg r) loaded cid path]> (sessions r) |>) r' → Q (Ok ()) r'
    | Err e => ∀ r', bookkept cid (r <| store := st |>) r' → Q (Err (StoreE e)) r'
    | Panic => ∀ r', bookkept cid (r <| store := st |>) r' → Q Panic r'
    end) →
  wp (ensure_session_loaded elapsed_us cid path now) Q r.
Proof.
  intros Hin Hout. unfold ensure_session_loaded. wp_run. case_bool_decide as Hs; [by apply wp_ret, Hin|].
  assert (Hn : sessions r !! cid = None) by by apply eq_None_not_Some. specialize (Hout Hn).
  wp_run. apply (wp_books cid); [apply books_count|]. intros r1 H1. wp_run. apply on_store_wp.
  rewrite (bk_store _ _ _ H1). wp_run. cbv zeta.
  wp_run. apply (wp_books cid); [apply books_count|]. intros r2 H2.
  wp_run. apply (wp_books cid); [apply (books_when cid), books_count|]. intros r3 H3.
  destruct (Store.load cid now (store r)) as [o st]. cbn [fst snd] in *.
  assert (H4 : bookkept cid (r <| store := st |>) r3).
  { etrans; [|exact H3]. etrans; [|exact H2]. destruct H1 as [K1 K2 K3 K4 K5 K6]. split; done. }
  destruct o as [loaded|e|]; cbn [map_err]; wp_run; [|by apply Hout..].
  destruct H4 as [K1 K2 K3 K4 K5 K6].
  assert (Hfresh : ∀ conf peer, wp (let '(o, m) := Core.on_path_event (Core.PathChanged path) (Core.new Core.Server cid conf) in
       st_lift (map_err CoreE o) ;;
       st_modify (λ r, r <| sessions := <[cid := mkSessionRuntime m peer None None ∅]> (sessions r) |>) ;;
       update_peak_sessions_metric) (λ o r', o = Ok () ∧ bookkept cid (r3 <| sessions := <[cid := mkSessionRuntime
         (Core.new Core.Server cid conf <| Core.current_path_id := path |>) peer None None ∅]> (sessions r3) |>) r') r3).
  { intros conf peer. cbn [Core.on_path_event]. unfold wp. exact (books_peak cid _). }
  destruct loaded as [v|]; (eapply wp_mono; [|apply Hfresh]); intros o r' [-> Hb]; apply Hout;
    (etrans; [|exact Hb]); (split; try done; cbn; [|by rewrite !lookup_insert_eq, ?K1]);
    intros c Hc; rewrite !lookup_insert_ne by done; by apply K5.
Qed.

End Server.
