(* ===== verification/ServerProps.v ===== *)
(** * Correctness of the server runtime

    The clock of every established session keeps running, a datagram runs the machine of its own
    connection and nothing else, and the store holds the record of every session that was served
    and of no session that was lost. *)

From S2P Require Import Prelude Bytes TimerQueue ServerRuntime ServerLemmas StoreSpec.
From S2P Require Wire WireLemmas Core CoreSpec CoreStep CoreRuns CoreClock Store StoreProps.

Section Server.
Context {St : Type} {Hstore : Store.SessionStore St}.
Context (base64_encode : list byte → string) (elapsed_us : Z → Z).

Abbreviation server := (ST (ServerRuntime St) ServerRuntimeError).

Implicit Types (r : ServerRuntime St) (cid now : Z).

(* ------------------------------------------------------------------ *)
(** ** Sessions and their clocks *)
(* ------------------------------------------------------------------ *)

(** Every session is a server of its connection, and a live one has its clock in the queue, or
    is one whose clock is still [owed]. *)
Definition clocked (owed : Z → Prop) r : Prop :=
  ∀ c s, sessions r !! c = Some s →
    Core.role (core s) = Core.Server ∧ Core.cid (core s) = c ∧ is_u64 c ∧
    (CoreClock.live (core s) → (∃ d, pending (timers r) d (c, Core.ServerMsr)) ∨ owed c).

Abbreviation clocks_run := (clocked (λ _, False)).

Lemma clocked_mono (P P' : Z → Prop) r : (∀ c, P c → P' c) → clocked P r → clocked P' r.
Proof. intros Hp Hr c s Hs. destruct (Hr c s Hs) as (? & ? & ? & Hl). split_and!; [done..|]. intros Hlive. destruct (Hl Hlive); auto. Qed.

Lemma clocked_bookkept P cid r r' : bookkept cid r r' → clocked P r → clocked P r'.
Proof.
  intros Hb Hr c s' Hs'. destruct (bookkept_session cid r r' c s' Hb Hs') as (s & Hs & He).
  apply essence_core in He as [-> _]. rewrite (bk_timers _ _ _ Hb). by apply Hr.
Qed.

Lemma clocked_persisted P cid r r' : persisted cid r r' → clocked P r → clocked P r'.
Proof.
  intros (_ & Ht & _ & Ho & Hc) Hr c s Hs. rewrite Ht. apply Hr.
  destruct (decide (c = cid)) as [->|]; [|by rewrite <-Ho].
  destruct Hc as [<-|Hn]; [done|by rewrite Hn in Hs].
Qed.

Lemma clocked_call i cid r :
  clocked (λ c, c = cid ∧ CoreClock.fires_clock i Core.Server) r →
  wp (with_session cid (CoreSpec.step i))
    (λ o r', match o with
             | Ok out => clocked (λ c, c = cid ∧ CoreClock.schedules out Core.ServerMsr) r'
             | _ => clocks_run r'
             end) r.
Proof.
  intros Hr. unfold with_session. wp_run. destruct (sessions r !! cid) as [s|] eqn:Hs.
  2: { unfold wp, st_panic. cbn. intros c s' Hs'. destruct (Hr c s' Hs') as (? & ? & ? & Hl).
       split_and!; [done..|]. intros Hlive. destruct (Hl Hlive) as [|[-> _]]; [by left|by rewrite Hs in Hs']. }
  destruct (Hr cid s Hs) as (Hrole & Hcid & Hu & Hl).
  pose proof (CoreClock.step_clock i (core s)) as Hstep. rewrite Hcid, Hrole in Hstep. specialize (Hstep Hu).
  destruct (CoreSpec.step i (core s)) as [o m]. destruct Hstep as (Hr' & Hc' & Hl').
  unfold wp, st_modify, st_lift, mbind, ST_bind. cbn [fst snd].
  assert (Hall : ∀ P : Z → Prop, (CoreClock.live m → (∃ d, pending (timers r) d (cid, Core.ServerMsr)) ∨ P cid) →
    clocked P (r <| sessions := <[cid := s <| core := m |>]> (sessions r) |>)).
  { intros P Hp c s' Hs'. cbn in Hs'. destruct (decide (c = cid)) as [->|Hne].
    - rewrite lookup_insert_eq in Hs'. injection Hs' as <-. split_and!; done.
    - rewrite lookup_insert_ne in Hs' by done. destruct (Hr c s' Hs') as (? & ? & ? & Hlc).
      split_and!; [done..|]. intros Hlive. destruct (Hlc Hlive) as [|[-> _]]; [by left|done]. }
  destruct o as [out|e|]; cbn [map_err]; apply Hall; intros Hlive; destruct (Hl' Hlive) as [[Hl0 Hf]|(out' & Ho & Hs')];
    try done; try (left; destruct (Hl Hl0) as [|[_ ?]]; [done|by destruct Hf]).
  right. injection Ho as <-. done.
Qed.

Lemma clocked_scheduled cid out r :
  clocked (λ c, c = cid ∧ CoreClock.schedules out Core.ServerMsr) r → clocks_run (scheduled cid out r).
Proof.
  intros Hr c s Hs. destruct (Hr c s Hs) as (? & ? & ? & Hl). split_and!; [done..|]. intros Hlive.
  left. destruct (Hl Hlive) as [[d Hd]|[-> [d Hd]]]; exists d; apply pending_ingest; auto.
Qed.

Lemma clocked_output cid path now out r :
  clocked (λ c, c = cid ∧ CoreClock.schedules out Core.ServerMsr) r →
  wp (apply_core_output base64_encode elapsed_us cid path now out) (λ _ r', clocks_run r') r.
Proof.
  intros Hr. apply apply_output_wp. intros r1 Hb.
  eapply wp_mono, persist_session_wp. intros o r2 Hp. apply (clocked_persisted _ cid r1 r2 Hp).
  apply (clocked_bookkept _ _ _ r1 Hb). by apply clocked_scheduled.
Qed.

(** A call on a machine and what follows it. *)
Lemma clocked_serve i cid path now r :
  clocked (λ c, c = cid ∧ CoreClock.fires_clock i Core.Server) r →
  wp (out ← with_session cid (CoreSpec.step i);
      apply_core_output base64_encode elapsed_us cid path now out) (λ _ r', clocks_run r') r.
Proof.
  intros Hr. apply wp_bind. eapply wp_mono; [|by apply clocked_call].
  intros [out|e|] r1 H1; cbn [then_wp]; [|done..]. by apply clocked_output.
Qed.

Lemma wp_then {A B} (m : server A) (k : A → server B) (P : ServerRuntime St → Prop) r :
  wp m (λ _ r', P r') r → (∀ a r', P r' → wp (k a) (λ _ r', P r') r') → wp (m ≫= k) (λ _ r', P r') r.
Proof. intros Hm Hk. apply wp_bind. eapply wp_mono, Hm. intros [a|e|] r'; cbn; auto. Qed.

Lemma clocked_load cid path now r :
  is_u64 cid → clocks_run r → wp (ensure_session_loaded elapsed_us cid path now) (λ _ r', clocks_run r') r.
Proof.
  intros Hu Hr. apply ensure_loaded_wp; [done|]. intros Hn.
  destruct (Store.load cid now (store r)) as [[loaded|e|] st]; intros r' Hb; (eapply clocked_bookkept; [done|]);
    try exact Hr. intros c s Hs. cbn in Hs. destruct (decide (c = cid)) as [->|].
  - rewrite lookup_insert_eq in Hs. injection Hs as <-. unfold fresh_session.
    destruct loaded as [v|]; cbn; split_and!; try done; unfold CoreClock.live; by cbn.
  - rewrite lookup_insert_ne in Hs by done. by apply Hr.
Qed.

Lemma clocked_datagram now path bs r :
  clocks_run r → wp (on_datagram base64_encode elapsed_us now path bs) (λ _ r', clocks_run r') r.
Proof.
  intros Hr. unfold on_datagram. destruct (Wire.decode bs) as [f|e|] eqn:Hf.
  - cbv zeta. apply WireLemmas.decode_iff in Hf as (Hok & _).
    apply wp_then; [by apply clocked_load; [apply Hok|]|]. intros _ r1 H1. wp_run.
    change (Core.on_datagram now path bs) with (CoreSpec.step (CoreSpec.InDatagram now path bs)).
    eapply wp_mono; [|apply (clocked_call _ _ _ (clocked_mono _ _ _ (λ c, False_ind _) H1))].
    intros [out|e|] r2 H2; cbn [then_wp]; [|done..].
    apply wp_then; [by apply clocked_output|]. intros res r3 H3. by apply wp_ret.
  - apply wp_then; [exact Hr|]. intros _ r1 H1. by apply wp_ret.
  - exact Hr.
Qed.

Lemma clocked_fire now due output r :
  clocks_run r → wp (fire_timers base64_encode elapsed_us now output due) (λ _ r', clocks_run r') r.
Proof.
  revert output r. induction due as [|[d [c id]] due IH]; intros output r Hr; [exact Hr|]. cbn [fire_timers].
  wp_run. set (r1 := r <| timers := _ |>).
  assert (H1 : clocked (λ c', c' = c ∧ id = Core.ServerMsr) r1).
  { intros c' s Hs. destruct (Hr c' s Hs) as (? & ? & ? & Hl). split_and!; [done..|]. intros Hlive.
    destruct (Hl Hlive) as [[d' Hd]|[]]. destruct (decide (c' = c ∧ id = Core.ServerMsr)) as [|Hne]; [by right|].
    left. exists d'. apply pending_remove; [|done]. intros [= _ <- <-]. by apply Hne. }
  case_bool_decide as Hs.
  - change (Core.on_timer now id) with (CoreSpec.step (CoreSpec.InTimer now id)).
    apply wp_bind. eapply wp_mono; [|apply clocked_call; eapply clocked_mono, H1].
    2: { intros c' [-> ->]. split; [done|]. by exists now. }
    intros [out|e|] r2 H2; cbn [then_wp]; [|done..].
    apply wp_then; [by apply clocked_output|]. intros partial r3 H3. by apply IH.
  - apply IH. intros c' s Hs'. destruct (H1 c' s Hs') as (? & ? & ? & Hl). split_and!; [done..|].
    intros Hlive. destruct (Hl Hlive) as [|[-> _]]; [by left|]. destruct Hs. by exists s.
Qed.

Lemma clocked_step c r :
  clocks_run r → clocks_run (server_step base64_encode elapsed_us c r).2.
Proof.
  intros Hr. destruct c as [now path bs|now limit|cid pl now]; cbn [server_step].
  - exact (clocked_datagram now path bs r Hr).
  - enough (Hw : wp (poll_timers base64_encode elapsed_us now limit) (λ _ r', clocks_run r') r) by exact Hw.
    unfold poll_timers. wp_run. by apply clocked_fire.
  - enough (Hw : wp (send_message base64_encode elapsed_us cid pl now) (λ _ r', clocks_run r') r) by exact Hw.
    unfold send_message. wp_run. case_bool_decide; [|by apply wp_ret].
    change (Core.on_api_send pl) with (CoreSpec.step (CoreSpec.InSend pl)).
    apply clocked_serve. by eapply clocked_mono, Hr.
Qed.

Lemma clocked_run cs r : clocks_run r → clocks_run (server_run base64_encode elapsed_us cs r).2.
Proof.
  revert r. induction cs as [|c cs IH]; intros r Hr; [done|]. cbn [server_run].
  pose proof (clocked_step c r Hr) as H1. destruct (server_step _ _ c r) as [o r1].
  specialize (IH r1 H1). by destruct (server_run _ _ cs r1).
Qed.

(** The clock of a session never stops: over any calls of the host, any datagrams and any
    store, failing calls included, every established session of the server has its MSR timer in
    the queue, so a poll at its deadline or later, with room for all due timers, fires it and
    the server notices a client gone silent. *)
Theorem server_clock_never_stops (conf : Core.CoreConfig) (st : St) (cs : list server_call) :
  let r := (server_run base64_encode elapsed_us cs (new conf st)).2 in
  ∀ cid s, sessions r !! cid = Some s → Core.state (core s) = Core.Established →
    ∃ d, pending (timers r) d (cid, Core.ServerMsr) ∧
         ∀ now limit, d ≤ now → zlen (all_due now (timers r)) ≤ limit →
           (d, (cid, Core.ServerMsr)) ∈ collect_due now limit (timers r).
Proof.
  intros r cid s Hs Hst. assert (Hr : clocks_run r).
  { apply clocked_run. intros c s' Hs'. unfold new, new_with_nat_policy in Hs'. cbn in Hs'. by rewrite lookup_empty in Hs'. }
  destruct (Hr cid s Hs) as (Hrole & _ & _ & Hl). unfold CoreClock.live in Hl. rewrite Hrole in Hl.
  destruct (Hl Hst) as [[d Hd]|[]]. exists d. split; [done|]. intros now limit. by apply collect_due_pending.
Qed.

(* ------------------------------------------------------------------ *)
(** ** One call over a store that keeps its contract *)
(* ------------------------------------------------------------------ *)

Context {Hlaw : LawfulStore St}.

(** The session a datagram of [cid] is for: the one in memory, or the one the store remembers. *)
Definition addressed r now cid path : SessionRuntime :=
  default (fresh_session (cfg r) (Store.to_versioned <$> visible (entry_of (store r)) now cid) cid path)
    (sessions r !! cid).

(** What is in the store for a session after it was served: nothing when it is lost. *)
Definition written r now cid (s : SessionRuntime) : option Store.Entry :=
  if decide (Core.state (core s) = Core.Lost) then None
  else Some (Store.next_entry (Store.version <$> visible (entry_of (store r)) now cid)
               (session_record cid (cfg r) s) (Core.disconnect_window_ms (cfg r)) now).

(** A call of the machine of session [s] gave [o] and left it as in [s']: the result of the
    runtime's call and the state after it. *)
Definition served cid path now (before : list RuntimeEvent) r (s' : SessionRuntime) (o : outcome Core.CoreError Core.CoreOutput)
    (res : outcome ServerRuntimeError ServerRuntimeOutput) r' : Prop :=
  cfg r' = cfg r ∧ store_ok (store r') ∧
  (∀ c, c ≠ cid → sessions r' !! c = sessions r !! c) ∧
  match o with
  | Ok out =>
      res = Ok (mkServerRuntimeOutput (map (route_datagram path) (Core.outbound_datagrams out))
                  (before ++ (Core.events out ≫= runtime_events base64_encode cid))) ∧
      essence <$> sessions r' !! cid =
        (if decide (Core.state (core s') = Core.Lost) then None else Some (essence s')) ∧
      same_from now (set_entry cid (written r now cid s') (entry_of (store r))) (entry_of (store r')) ∧
      timers r' = foldl (ingest_timer cid) (timers r) (Core.timer_actions out)
  | Err e =>
      res = Err (CoreE e) ∧ essence <$> sessions r' !! cid = Some (essence s') ∧
      same_from now (entry_of (store r)) (entry_of (store r')) ∧ timers r' = timers r
  | Panic => res = Panic
  end.

Lemma session_record_essence cid c s s' : essence s = essence s' → session_record cid c s = session_record cid c s'.
Proof. intros He. apply essence_core in He as [Hc Hp]. unfold session_record. by rewrite Hc, Hp. Qed.

Lemma written_ext r r' now cid s s' :
  cfg r = cfg r' → store r = store r' → essence s = essence s' → written r now cid s = written r' now cid s'.
Proof.
  intros Hc Hst He. unfold written. rewrite Hc, Hst, (session_record_essence cid _ s s' He).
  by apply essence_core in He as [-> _].
Qed.

Lemma persist_lawful cid now r s :
  store_ok (store r) → sessions r !! cid = Some s →
  wp (persist_session elapsed_us cid now)
    (λ o r', o = Ok () ∧ cfg r' = cfg r ∧ store_ok (store r') ∧
       (∀ c, c ≠ cid → sessions r' !! c = sessions r !! c) ∧
       essence <$> sessions r' !! cid = (if decide (Core.state (core s) = Core.Lost) then None else Some (essence s)) ∧
       same_from now (set_entry cid (written r now cid s) (entry_of (store r))) (entry_of (store r')) ∧
       timers r' = timers r) r.
Proof.
  intros Hok Hs. unfold persist_session, written. wp_run. rewrite Hs.
  case_bool_decide as Hl; [rewrite !decide_True by done|rewrite !decide_False by done]; wp_run;
    (apply (wp_books cid); [apply books_count|]); intros r1 [K1 K2 K3 K4 K5 K6]; wp_run; apply on_store_wp; rewrite K2.
  - destruct (delete_law (store r) cid Hok) as (st & -> & Hok' & Hsame). cbn [fst snd]. wp_run. unfold st_when. cbn [is_err]. wp_run.
    cbn [map_err]. wp_run. apply wp_modify.
    split_and!; [done|done|done| |cbn; by rewrite lookup_delete_eq|apply Hsame|done].
    intros c Hc. cbn. rewrite lookup_delete_ne by done. by apply K5.
  - destruct (upsert_law (store r) cid (session_record cid (cfg r) s) (Core.disconnect_window_ms (cfg r)) now Hok)
      as (st & -> & Hok' & Hsame). cbn [fst snd]. cbv zeta. wp_run.
    apply (wp_books cid); [apply books_count|]. intros r2 [L1 L2 L3 L4 L5 L6]. wp_run. unfold st_when. cbn [is_err]. wp_run. cbn [map_err]. wp_run.
    cbn [store cfg sessions timers upd] in *. rewrite Hs in K6.
    split_and!; [done|congruence|by rewrite L2| |by rewrite L6|by rewrite L2|congruence].
    intros c Hc. rewrite L5 by done. by apply K5.
Qed.

(** A machine call and what follows it, for a session in memory. *)
Lemma serve_session i cid path now r s :
  store_ok (store r) → sessions r !! cid = Some s →
  let '(o, m) := CoreSpec.step i (core s) in
  wp (out ← with_session cid (CoreSpec.step i);
      apply_core_output base64_encode elapsed_us cid path now out)
    (served cid path now [] r (s <| core := m |>) o) r.
Proof.
  intros Hok Hs. destruct (CoreSpec.step i (core s)) as [o m] eqn:Hstep.
  apply wp_bind. eapply with_session_wp; [exact Hs|]. rewrite Hstep.
  set (s' := s <| core := m |>). set (r1 := r <| sessions := _ |>).
  assert (Hs1 : sessions r1 !! cid = Some s') by apply lookup_insert_eq.
  assert (Ho1 : ∀ c, c ≠ cid → sessions r1 !! c = sessions r !! c)
    by (intros c Hc; unfold r1; cbn; by rewrite lookup_insert_ne).
  destruct o as [out|e|]; cbn [map_err then_wp]; unfold served; [|by rewrite Hs1|done].
  apply apply_output_wp. intros r2 [K1 K2 K3 K4 K5 K6].
  change (sessions (scheduled cid out r1)) with (sessions r1) in *. rewrite Hs1 in K6.
  destruct (sessions r2 !! cid) as [s2|] eqn:Hs2; [|done].
  assert (He : essence s2 = essence s') by (unfold fmap, option_fmap, option_map in K6; congruence).
  apply essence_core in He as Hcp. destruct Hcp as [Hcore _].
  eapply wp_mono; [|apply (persist_lawful cid now r2 s2); [by rewrite K2|done]].
  intros o r3 (-> & Hc3 & Hok3 & Ho3 & Hs3 & Hsame & Ht3). cbn [mbind outcome_bind].
  change (cfg (scheduled cid out r1)) with (cfg r) in K1. change (store (scheduled cid out r1)) with (store r) in K2.
  split_and!; [congruence|done|intros c Hc; by rewrite Ho3, K5, Ho1|done| | |].
  - by rewrite Hs3, He, Hcore.
  - rewrite K2 in Hsame. by rewrite (written_ext r2 r now cid s2 s') in Hsame.
  - by rewrite Ht3, K3.
Qed.

(** The same from another state with the same other sessions and the same visible entries. *)
Lemma served_from cid path now before r r1 s s1 o res r' :
  cfg r1 = cfg r → (∀ c, c ≠ cid → sessions r1 !! c = sessions r !! c) →
  same_from now (entry_of (store r)) (entry_of (store r1)) → timers r1 = timers r → essence s1 = essence s →
  served cid path now before r1 s1 o res r' → served cid path now before r s o res r'.
Proof.
  intros Hc Ho Hv Ht He (K1 & K2 & K3 & K4). unfold served. rewrite <-He, <-Hc, <-Ht.
  split_and!; [done|done|intros c Hne; by rewrite K3, Ho|].
  destruct o as [out|e|]; [|destruct K4 as (? & ? & Hs & ?); split_and!; [done..|by rewrite Hv|done]|done].
  destruct K4 as (? & ? & Hs & ?). apply essence_core in He as Hcp. destruct Hcp as [Hcore _]. rewrite <-Hcore.
  split_and!; [done..| |done]. rewrite Hv.
  assert (Hw : written r now cid s = written r1 now cid s1); [|by rewrite Hw].
  unfold written. rewrite Hc, Hcore, <-(session_record_essence cid (cfg r) s1 s He).
  by rewrite (Hv cid now) by lia.
Qed.

Lemma load_addressed cid path now r :
  store_ok (store r) →
  wp (ensure_session_loaded elapsed_us cid path now)
    (λ o r1, o = Ok () ∧ cfg r1 = cfg r ∧ store_ok (store r1) ∧
       (∀ c, c ≠ cid → sessions r1 !! c = sessions r !! c) ∧
       same_from now (entry_of (store r)) (entry_of (store r1)) ∧ timers r1 = timers r ∧
       ∃ s1, sessions r1 !! cid = Some s1 ∧ essence s1 = essence (addressed r now cid path)) r.
Proof.
  intros Hok. unfold addressed. apply ensure_loaded_wp.
  - intros [s Hs]. rewrite Hs. split_and!; try done. by exists s.
  - intros Hn. rewrite Hn. destruct (load_law (store r) cid now Hok) as (st & -> & Hok' & Hsame).
    intros r1 [K1 K2 K3 K4 K5 K6]. cbn [store cfg sessions upd] in *. rewrite lookup_insert_eq in K6.
    split_and!; [done|done|by rewrite K2|intros c Hc; by rewrite K5, lookup_insert_ne|by rewrite K2|done|].
    destruct (sessions r1 !! cid) as [s1|]; [|done]. exists s1. split; [done|].
    apply (inj Some). exact K6.
Qed.

(** One datagram, from the session it addresses. *)
Lemma datagram_served (now path : Z) (bs : list byte) (f : Wire.WireFrame) r :
  store_ok (store r) → Wire.decode bs = Ok f →
  let s := addressed r now (Wire.cid f) path in
  let '(o, m) := Core.on_datagram now path bs (core s) in
  let '(res, r') := on_datagram base64_encode elapsed_us now path bs r in
  served (Wire.cid f) path now (bound_events (Wire.cid f) path s) r (s <| core := m |>) o res r'.
Proof.
  intros Hok Hf s. destruct (Core.on_datagram now path bs (core s)) as [o m] eqn:Hstep.
  enough (Hw : wp (on_datagram base64_encode elapsed_us now path bs)
    (served (Wire.cid f) path now (bound_events (Wire.cid f) path s) r (s <| core := m |>) o) r)
    by (unfold wp in Hw; by destruct (on_datagram _ _ _ _ _ _)).
  unfold on_datagram. rewrite Hf. cbv zeta. apply wp_bind.
  eapply wp_mono; [|by apply load_addressed]. intros o1 r1 (-> & Hc1 & Hok1 & Ho1 & Hv1 & Ht1 & s1 & Hs1 & He).
  fold s in He. wp_run. rewrite Hs1.
  assert (Hb : bound_events (Wire.cid f) path s1 = bound_events (Wire.cid f) path s)
    by (injection He as _ _ Hb1 Hb2; unfold bound_events; by rewrite Hb1, Hb2).
  apply essence_core in He as Hcp. destruct Hcp as [Hcore Hpeer].
  pose proof (serve_session (CoreSpec.InDatagram now path bs) (Wire.cid f) path now r1 s1 Hok1 Hs1) as Hserve.
  cbn [CoreSpec.step] in Hserve. rewrite Hcore, Hstep in Hserve.
  apply wp_assoc. eapply wp_mono, Hserve. intros o2 r2 Hs2.
  apply (served_from _ _ _ [] r r1 (s <| core := m |>)) in Hs2; [|done..|].
  2: { injection He as _ H1 H2 H3. unfold essence, upd. cbn. congruence. }
  destruct Hs2 as (? & ? & ? & Hres). unfold served. rewrite Hb.
  destruct o as [out|e|]; [destruct Hres as (-> & ? & ? & ?); by split_and!|destruct Hres as (-> & ? & ? & ?); by split_and!|].
  by subst o2.
Qed.

(** C13. A datagram runs the machine of its own connection and nothing else, over any store that
    keeps the contract: the machine is the one in memory or a fresh one at the stored timer
    values; the runtime returns what the machine returns, datagrams without a path going back
    on the path of the datagram, and queues the timers it asks for; afterwards the session is in memory and its record is stored,
    or the session is lost and both are gone; an error of the machine writes nothing; and no
    other session, nor any entry another connection sees, changes. *)
Theorem datagram_serves_its_session (now path : Z) (bs : list byte) (f : Wire.WireFrame) r :
  store_ok (store r) → Wire.decode bs = Ok f →
  let s := addressed r now (Wire.cid f) path in
  let '(o, m) := Core.on_datagram now path bs (core s) in
  let '(res, r') := on_datagram base64_encode elapsed_us now path bs r in
  served (Wire.cid f) path now (bound_events (Wire.cid f) path s) r (s <| core := m |>) o res r'.
Proof. exact (datagram_served now path bs f r). Qed.

End Server.

(* ------------------------------------------------------------------ *)
(** ** A store that fails *)
(* ------------------------------------------------------------------ *)

Section Failure.
Context {St : Type} {Hstore : Store.SessionStore St}.
Context (base64_encode : list byte → string) (elapsed_us : Z → Z).

Lemma persist_failure cid now (r : ServerRuntime St) s e st :
  sessions r !! cid = Some s → Core.state (core s) ≠ Core.Lost →
  Store.upsert cid (session_record cid (cfg r) s) (Core.disconnect_window_ms (cfg r)) now (store r) = (Err e, st) →
  wp (persist_session elapsed_us cid now)
    (λ o r', o = Err (StoreE e) ∧ essence <$> sessions r' !! cid = Some (essence s)) r.
Proof.
  intros Hs Hl Hup. unfold persist_session. wp_run. rewrite Hs. rewrite bool_decide_eq_false_2 by done.
  wp_run. apply (wp_books cid); [apply books_count|]. intros r1 [K1 K2 K3 K4 K5 K6]. wp_run. apply on_store_wp.
  rewrite K2, Hup. cbn [fst snd]. cbv zeta. wp_run. apply (wp_books cid); [apply books_count|]. intros r2 H2.
  wp_run. apply (wp_books cid); [apply (books_when cid), books_count|]. intros r3 H3. cbn [map_err]. wp_run.
  split; [done|]. rewrite (bk_session _ _ _ H3), (bk_session _ _ _ H2). cbn. by rewrite K6, Hs.
Qed.

(** C28. When the store refuses the record of a session, the call fails but the machine keeps
    what it did: the datagrams it wanted sent and the messages it handed over are dropped with
    the output, and whatever the machine is fed from then on, it never hands over those messages
    again. *)
Theorem failed_write_drops_output (now path : Z) (bs : list byte) (f : Wire.WireFrame)
    (r : ServerRuntime St) (s : SessionRuntime) (out : Core.CoreOutput) (m : Core.CoreMachine)
    (e : Store.StoreError) (st : St) (n : Z) :
  Wire.decode bs = Ok f → sessions r !! Wire.cid f = Some s →
  CoreSpec.machine_inv CoreRuns.any_msg CoreRuns.any_piece n (core s) →
  Core.on_datagram now path bs (core s) = (Ok out, m) → Core.state m ≠ Core.Lost →
  Store.upsert (Wire.cid f) (session_record (Wire.cid f) (cfg r) (s <| core := m |>))
    (Core.disconnect_window_ms (cfg r)) now (store r) = (Err e, st) →
  let '(res, r') := on_datagram base64_encode elapsed_us now path bs r in
  res = Err (StoreE e) ∧ core <$> sessions r' !! Wire.cid f = Some m ∧
  ∀ l os m', n + 1 + zlen l < U64_MAX → CoreSpec.run_inputs l m = (os, m') →
    ∀ id, id ∈ (CoreSpec.received (Core.events out)).*1 → id ∉ (CoreSpec.run_received os).*1.
Proof.
  intros Hf Hs Hm Hstep Hl Hup. set (cid := Wire.cid f) in *.
  assert (Honce : ∀ l os m', n + 1 + zlen l < U64_MAX → CoreSpec.run_inputs l m = (os, m') →
    ∀ id, id ∈ (CoreSpec.received (Core.events out)).*1 → id ∉ (CoreSpec.run_received os).*1).
  { intros l os m' Hn Hrun id. pose proof (CoreRuns.received_once n (core s) [CoreSpec.InDatagram now path bs] [Ok out] m l os m' id Hm Hn) as H.
    cbn [CoreSpec.run_inputs CoreSpec.step] in H. rewrite Hstep in H. specialize (H eq_refl Hrun).
    unfold CoreSpec.run_received in H at 1. cbn in H. by rewrite app_nil_r in H. }
  enough (Hw : wp (on_datagram base64_encode elapsed_us now path bs)
    (λ o r', o = Err (StoreE e) ∧ core <$> sessions r' !! cid = Some m) r)
    by (unfold wp in Hw; destruct (on_datagram _ _ _ _ _ _); by destruct Hw).
  unfold on_datagram. rewrite Hf. cbv zeta. fold cid. apply wp_bind, ensure_loaded_wp; [intros _|by rewrite Hs].
  wp_run. rewrite Hs. eapply with_session_wp; [exact Hs|]. rewrite Hstep. cbn [map_err then_wp]. wp_run.
  set (s' := s <| core := m |>). set (r1 := r <| sessions := _ |>).
  apply apply_output_wp. intros r2 [K1 K2 K3 K4 K5 K6].
  change (sessions (scheduled cid out r1)) with (<[cid := s']> (sessions r)) in K6. rewrite lookup_insert_eq in K6.
  destruct (sessions r2 !! cid) as [s2|] eqn:Hs2; [|done].
  assert (He : essence s2 = essence s') by (apply (inj Some); exact K6).
  apply essence_core in He as Hcp. destruct Hcp as [Hcore _].
  eapply wp_mono; [|apply (persist_failure cid now r2 s2 e st Hs2)].
  - intros o r3 [-> H3]. split; [done|]. destruct (sessions r3 !! cid) as [s3|]; [|done].
    assert (He3 : essence s3 = essence s2) by (apply (inj Some); exact H3).
    apply essence_core in He3 as [He3 _]. cbn. by rewrite He3, Hcore.
  - by rewrite Hcore.
  - rewrite K1, K2, (session_record_essence cid _ s2 s' He). exact Hup.
Qed.

End Failure.

(* ------------------------------------------------------------------ *)
(** ** Witnesses *)
(* ------------------------------------------------------------------ *)

Definition frame_bytes (t : Wire.MessageType) (cid : Z) (payload : list byte) : list byte :=
  match Core.encode_frame t cid payload with Ok bs => bs | _ => [] end.

(** A client that says hello and is never heard of again. *)
Definition sample_server_calls : list server_call :=
  [OnDatagram 5 1 (frame_bytes Wire.ClientHello 7 []); PollTimers 15005 10; SendMessage 7 [x01] 15006;
   PollTimers 31000 1].

Definition sample_server : ServerRuntime Store.InMemorySessionStore :=
  new Core.CoreConfig_default (Store.mkInMemory [∅; ∅]).

Definition sample_run : ServerRuntime Store.InMemorySessionStore :=
  (@server_run _ (Store.in_memory_store map_to_list) (λ _, "") (λ _, 0) sample_server_calls sample_server).2.

Lemma server_clock_never_stops_witness :
  ∃ s d, sessions sample_run !! 7 = Some s ∧ Core.state (core s) = Core.Established ∧
    pending (timers sample_run) d (7, Core.ServerMsr).
Proof.
  destruct (sessions sample_run !! 7) as [s|] eqn:Hs; [|by vm_compute in Hs].
  assert (Hst : Core.state (core s) = Core.Established) by (vm_compute in Hs; by injection Hs as <-).
  destruct (@server_clock_never_stops _ (Store.in_memory_store map_to_list) (λ _, "") (λ _, 0)
    Core.CoreConfig_default (Store.mkInMemory [∅; ∅]) sample_server_calls 7 s Hs Hst) as (d & Hd & Hpoll).
  exists s, d. split; [reflexivity|split; [exact Hst|exact Hd]].
Defined.

#[local] Instance sample_store : Store.SessionStore Store.InMemorySessionStore := Store.in_memory_store map_to_list.

#[local] Instance sample_lawful : LawfulStore Store.InMemorySessionStore :=
  StoreProps.in_memory_lawful map_to_list (λ m, reflexivity _).

Definition sample_hello : Wire.WireFrame := Wire.new Wire.ClientHello x00 7 [] [].

Lemma sample_server_ok : store_ok (store sample_server).
Proof. split; [done|]. intros [|[|i]] m c Hi [e He]; simplify_eq/=; by rewrite lookup_empty in He. Qed.

Lemma datagram_serves_its_session_witness :
  Wire.decode (frame_bytes Wire.ClientHello 7 []) = Ok sample_hello ∧
  let s := addressed sample_server 5 7 1 in
  let '(o, m) := Core.on_datagram 5 1 (frame_bytes Wire.ClientHello 7 []) (core s) in
  let '(res, r') := on_datagram (λ _, ""%string) (λ _, 0) 5 1 (frame_bytes Wire.ClientHello 7 []) sample_server in
  served (λ _, ""%string) 7 1 5 [] sample_server (s <| core := m |>) o res r'.
Proof.
  split; [by vm_compute|].
  exact (datagram_serves_its_session (λ _, ""%string) (λ _, 0) 5 1 (frame_bytes Wire.ClientHello 7 []) sample_hello
    sample_server sample_server_ok ltac:(by vm_compute)).
Defined.

(** A store on a full disk. *)
#[local] Instance full_disk : Store.SessionStore () := {|
  Store.load := λ _ _, mret None;
  Store.compare_and_swap := λ _ _ _ _ _, st_throw (Store.Io "no space left on device");
  Store.upsert := λ _ _ _ _, st_throw (Store.Io "no space left on device");
  Store.delete_session := λ _, st_throw (Store.Io "no space left on device");
  Store.scan_expired := λ _ _, mret [];
|}.

(** A server whose session 7 was established, and the first message of its peer. *)
Definition full_disk_server : ServerRuntime () :=
  (on_datagram (λ _, ""%string) (λ _, 0) 5 1 (frame_bytes Wire.ClientHello 7 [])
    (new Core.CoreConfig_default ())).2.

Definition first_message : list byte := frame_bytes Wire.Data 7 (u64_be 1 ++ [xaa]).

(** The message is dropped, its repetition is answered without an event, and nothing the machine
    is fed later brings it back. *)
Lemma failed_write_drops_output_witness :
  let '(res, r') := on_datagram (λ _, ""%string) (λ _, 0) 6 1 first_message full_disk_server in
  res = Err (StoreE (Store.Io "no space left on device")) ∧
  (λ s, (Core.on_datagram 7 1 first_message (core s)).1) <$> sessions r' !! 7 = Some (Ok Core.CoreOutput_default) ∧
  ∃ m, core <$> sessions r' !! 7 = Some m ∧
    ∀ l os m', 2 + zlen l < U64_MAX → CoreSpec.run_inputs l m = (os, m') → 1 ∉ (CoreSpec.run_received os).*1.
Proof.
  assert (Hs : ∃ s, sessions full_disk_server !! 7 = Some s) by (eexists; vm_compute; reflexivity).
  destruct Hs as [s Hs].
  assert (Hinv : CoreSpec.machine_inv CoreRuns.any_msg CoreRuns.any_piece 1 (core s)).
  { destruct (CoreRuns.run_summary CoreRuns.any_msg CoreRuns.any_piece ltac:(done) 0
      [CoreSpec.InDatagram 5 1 (frame_bytes Wire.ClientHello 7 [])] (Core.new Core.Server 7 Core.CoreConfig_default)
      (CoreSpec.run_inputs [CoreSpec.InDatagram 5 1 (frame_bytes Wire.ClientHello 7 [])] (Core.new Core.Server 7 Core.CoreConfig_default)).1
      (core s)) as [Hm _]; [by apply CoreStep.new_inv|done|apply Forall_true, CoreRuns.any_input_ok| |exact Hm].
    vm_compute in Hs. injection Hs as <-. by vm_compute. }
  pose proof (failed_write_drops_output (λ _, ""%string) (λ _, 0) 6 1 first_message
    (Wire.new Wire.Data x00 7 (u64_be 1 ++ [xaa]) []) full_disk_server s) as H.
  destruct (Core.on_datagram 6 1 first_message (core s)) as [o m] eqn:Hstep.
  assert (Hm : o = Ok (Core.mkCoreOutput [] [Core.MessageDelivered 1; Core.MessageReceived 1 [xaa]] []) ∧
    Core.state m = Core.Established ∧ (Core.on_datagram 7 1 first_message m).1 = Ok Core.CoreOutput_default).
  { vm_compute in Hs. injection Hs as <-. vm_compute in Hstep. injection Hstep as <- <-. split_and!; by vm_compute. }
  destruct Hm as (-> & Hst & Hrep).
  specialize (H _ m (Store.Io "no space left on device") () 1 ltac:(by vm_compute) Hs Hinv eq_refl ltac:(by rewrite Hst) eq_refl).
  destruct (on_datagram _ _ 6 1 first_message full_disk_server) as [res r']. destruct H as (-> & Hc & Honce).
  split; [done|]. change (Wire.cid _) with 7 in Hc. destruct (sessions r' !! 7) as [s'|]; [|done].
  injection Hc as Hc. cbn. rewrite Hc, Hrep. split; [done|]. exists m. split; [done|].
  intros l os m' Hn Hrun. apply (Honce l os m'); [lia|done|]. vm_compute. by left.
Defined.

(** A session that ends leaves its clock in the queue, and a client that comes back under the
    same connection before that clock fires gets a second one: the server then ticks twice per
    interval, and gives the client up after half the silence. *)
Lemma reconnect_doubles_clock :
  let calls := [OnDatagram 0 1 (frame_bytes Wire.ClientHello 7 []); OnDatagram 1 1 (frame_bytes Wire.Close 7 []);
                OnDatagram 2 1 (frame_bytes Wire.ClientHello 7 []); PollTimers 15002 10] in
  let r := (server_run (λ _, ""%string) (λ _, 0) calls sample_server).2 in
  filter (λ e, e.2 = (7, Core.ServerMsr)) (all_due 100000 (timers r)) =
    [(30002, (7, Core.ServerMsr)); (30002, (7, Core.ServerMsr))].
Proof. by vm_compute. Qed.
