(* ===== verification/ServerSilence.v ===== *)
(** * The end of a silent session

    A session whose client is never heard of again is given up by the server and forgotten, in
    memory and in the store, after a number of polls known in advance. *)

From S2P Require Import Prelude Bytes TimerQueue ServerRuntime ServerLemmas StoreSpec ServerProps.
From S2P Require Wire Core CoreSpec CoreClock Store StoreProps.

Section Silence.
Context {St : Type} {Hstore : Store.SessionStore St} {Hlaw : LawfulStore St}.
Context (base64_encode : list byte → string) (elapsed_us : Z → Z).

Abbreviation server := (ST (ServerRuntime St) ServerRuntimeError).
Implicit Types (r : ServerRuntime St) (now : Z).

(** The store works and every session is a server's. *)
Definition sound r : Prop := store_ok (store r) ∧ clocked (λ _, True) r.

(** One firing of a timer. *)
Definition fire now c id : server ServerRuntimeOutput :=
  out ← with_session c (Core.on_timer now id); apply_core_output base64_encode elapsed_us c 0 now out.

(** A firing always succeeds, for a session whose machine it runs. *)
Lemma fire_session now c id r s :
  sound r → sessions r !! c = Some s →
  ∃ out m res r', Core.on_timer now id (core s) = (Ok out, m) ∧ fire now c id r = (Ok res, r') ∧ sound r' ∧
    (Core.state m = Core.Lost ∨ CoreClock.ticked now id (core s) m out) ∧
    timers r' = foldl (ingest_timer c) (timers r) (Core.timer_actions out) ∧
    (∀ c', c' ≠ c → sessions r' !! c' = sessions r !! c') ∧
    core <$> sessions r' !! c = (if decide (Core.state m = Core.Lost) then None else Some m) ∧
    same_from now (set_entry c (written r now c (s <| core := m |>)) (entry_of (store r))) (entry_of (store r')).
Proof.
  intros [Hok Hr] Hs. destruct (Hr c s Hs) as (Hrole & Hcid & Hu & _).
  destruct (CoreClock.server_timer now id (core s)) as (out & m & Hstep & Hrole' & Hcid' & Htick); [by rewrite Hcid|done|].
  pose proof (serve_session base64_encode elapsed_us (CoreSpec.InTimer now id) c 0 now r s Hok Hs) as Hserve.
  cbn [CoreSpec.step] in Hserve. rewrite Hstep in Hserve. fold (fire now c id) in Hserve.
  unfold wp in Hserve. destruct (fire now c id r) as [o r'] eqn:Hf. cbn [fst snd] in Hserve.
  destruct Hserve as (_ & Hok' & Ho & -> & Hess & Hsame & Ht).
  assert (Hcore : core <$> sessions r' !! c = if decide (Core.state m = Core.Lost) then None else Some m).
  { destruct (sessions r' !! c) as [s'|]; cbn in Hess |- *; destruct (decide (Core.state m = Core.Lost)); try done.
    assert (He : essence s' = essence (s <| core := m |>)) by (apply (inj Some); exact Hess).
    by apply essence_core in He as [-> _]. }
  exists out, m. eexists. exists r'. split; [done|]. split; [reflexivity|]. split.
  - split; [done|]. intros c' s' Hs'. destruct (decide (c' = c)) as [->|Hne].
    + rewrite Hs' in Hcore. cbn in Hcore. destruct (decide (Core.state m = Core.Lost)); [done|]. injection Hcore as ->.
      split_and!; [done|congruence|done|by right].
    + rewrite Ho in Hs' by done. destruct (Hr c' s' Hs') as (? & ? & ? & _). split_and!; [done..|by right].
  - by split_and!.
Qed.

(* ------------------------------------------------------------------ *)
(** ** What a silent session goes through *)
(* ------------------------------------------------------------------ *)

Section Session.
Context (cid interval : Z).

(** The session, while it is there, has counted a silence of at least [k] ticks. *)
Definition quiet (k : Z) r : Prop :=
  ∀ s, sessions r !! cid = Some s →
    Core.state (core s) = Core.Established ∧ Core.msr_interval_ms (Core.cfg (core s)) = interval ∧
    k ≤ CoreClock.silence (core s) ≤ 8.

(** Its next tick is due by [t], and once it is gone its record is gone. *)
Definition armed (t : Z) r : Prop :=
  is_Some (sessions r !! cid) → ∃ d, d ≤ t ∧ pending (timers r) d (cid, Core.ServerMsr).

Definition forgotten now r : Prop :=
  sessions r !! cid = None → ∀ later, now ≤ later → visible (entry_of (store r)) later cid = None.

Lemma quiet_weaken k k' r : k' ≤ k → quiet k r → quiet k' r.
Proof. intros Hk Hq s Hs. destruct (Hq s Hs) as (? & ? & ?). split_and!; [done..|lia|lia]. Qed.

(** One firing in a queue from which its entry was removed. *)
Lemma fire_progress now c id r s k :
  sound r → sessions r !! c = Some s → 0 ≤ k → quiet k r → forgotten now r →
  ∃ res r', fire now c id r = (Ok res, r') ∧ sound r' ∧ quiet k r' ∧ forgotten now r' ∧
    (∀ d x, pending (timers r) d x → pending (timers r') d x) ∧
    (is_Some (sessions r' !! cid) → is_Some (sessions r !! cid)) ∧
    ((c, id) = (cid, Core.ServerMsr) → quiet (k + 1) r' ∧ armed (add64 now interval) r').
Proof.
  intros Hsound Hs Hk Hq Hfor.
  destruct (fire_session now c id r s Hsound Hs) as (out & m & res & r' & Hstep & Hf & Hsound' & Htick & Ht & Ho & Hc & Hsame).
  assert (Hpend : ∀ d x, pending (timers r) d x → pending (timers r') d x)
    by (intros d [c0 id0] Hp; rewrite Ht, (pending_ingest elapsed_us); by right).
  exists res, r'. split; [done|]. split; [done|]. destruct (decide (c = cid)) as [->|Hne].
  2: { assert (Heq : sessions r' !! cid = sessions r !! cid) by by apply Ho.
       split; [intros s'; rewrite Heq; apply Hq|]. split.
       - intros Hn later Hl. rewrite <-(Hsame cid later Hl). rewrite Heq in Hn.
         unfold visible, set_entry. rewrite decide_False by done. by apply Hfor.
       - split; [exact Hpend|]. rewrite Heq. split; [done|].
         by intros [= -> _]. }
  destruct (Hq s Hs) as (Hst & Hint & Hsil).
  assert (Hnext : ∀ s', sessions r' !! cid = Some s' → core s' = m ∧ CoreClock.ticked now id (core s) m out).
  { intros s' Hs'. rewrite Hs' in Hc. cbn in Hc. destruct (decide (Core.state m = Core.Lost)); [done|].
    injection Hc as ->. by destruct Htick. }
  assert (Hcount : ∀ s', sessions r' !! cid = Some s' → Core.state (core s') = Core.Established ∧
    Core.msr_interval_ms (Core.cfg (core s')) = interval ∧
    (if decide (id = Core.ServerMsr) then k + 1 else k) ≤ CoreClock.silence (core s') ≤ 8).
  { intros s' Hs'. destruct (Hnext s' Hs') as [-> (H1 & H2 & H3)]. rewrite H1, H2. split; [done|]. split; [done|].
    destruct (decide (id = Core.ServerMsr)) as [->|Hid].
    - rewrite decide_True in H3 by done. destruct H3 as (H3 & H4 & _). rewrite H3 in *. unfold sat_add, U32_MAX in *. lia.
    - rewrite decide_False in H3 by naive_solver. lia. }
  split.
  { intros s' Hs'. destruct (Hcount s' Hs') as (? & ? & Hk'). destruct (decide (id = Core.ServerMsr)); split_and!; first [done|lia]. }
  split.
  { intros Hn later Hl. rewrite <-(Hsame cid later Hl). unfold visible, set_entry. rewrite decide_True by done.
    unfold written. cbn [core upd]. destruct (decide (Core.state m = Core.Lost)) as [|Hl']; [done|].
    by rewrite Hn in Hc. }
  split; [exact Hpend|]. split; [by exists s|].
  intros [= ->]. rewrite decide_True in Hcount by done. split; [exact Hcount|].
  intros [s' Hs']. destruct (Hnext s' Hs') as [_ (_ & _ & Hsch)]. rewrite decide_True in Hsch by done.
  exists (add64 now interval). split; [done|]. rewrite Ht, (pending_ingest elapsed_us). left. split; [done|].
  rewrite <-Hint. apply Hsch.
Qed.

(** The loop of a poll, one entry at a time. *)
Lemma fire_timers_step now output d c id due r :
  let r1 := r <| timers := remove_entry d (c, id) (timers r) |> in
  match sessions r !! c with
  | Some _ => ∀ res r2, fire now c id r1 = (Ok res, r2) →
      fire_timers base64_encode elapsed_us now output ((d, (c, id)) :: due) r =
      fire_timers base64_encode elapsed_us now
        (mkServerRuntimeOutput (outbound_datagrams output ++ outbound_datagrams res) (events output ++ events res)) due r2
  | None =>
      fire_timers base64_encode elapsed_us now output ((d, (c, id)) :: due) r =
      fire_timers base64_encode elapsed_us now output due r1
  end.
Proof.
  intros r1. cbn [fire_timers]. unfold fire, st_modify, st_get, mbind, ST_bind. fold r1.
  change (sessions r1) with (sessions r). destruct (sessions r !! c) as [s|] eqn:Hs.
  - intros res r2 Hf. rewrite bool_decide_eq_true_2 by done.
    destruct (with_session c _ r1) as [[o|e|] r3]; [|done..]. by rewrite Hf.
  - by rewrite bool_decide_eq_false_2 by (by intros [? ?]).
Qed.

Lemma sound_removed r q : sound r → sound (r <| timers := q |>).
Proof. intros [Hok Hr]. split; [done|]. intros c s Hs. destruct (Hr c s Hs) as (? & ? & ? & _). split_and!; [done..|by right]. Qed.

(** Once the session has ticked, the rest of the poll keeps it ticked and armed. *)
Lemma fire_rest now due output r k :
  sound r → 0 ≤ k → quiet k r → forgotten now r → armed (add64 now interval) r →
  ∃ res r', fire_timers base64_encode elapsed_us now output due r = (Ok res, r') ∧
    sound r' ∧ quiet k r' ∧ forgotten now r' ∧ armed (add64 now interval) r'.
Proof.
  revert output r. induction due as [|[d [c id]] due IH]; intros output r Hsound Hk Hq Hfor Harm; [by exists output, r|].
  pose proof (fire_timers_step now output d c id due r) as Hstep. cbv zeta in Hstep.
  set (r1 := r <| timers := remove_entry d (c, id) (timers r) |>) in *.
  destruct (sessions r !! c) as [s|] eqn:Hs.
  - destruct (fire_progress now c id r1 s k) as (res & r2 & Hf & Hsound2 & Hq2 & Hfor2 & Hpend & Hin & Htick);
      [by apply sound_removed|done..|].
    rewrite (Hstep res r2 Hf). apply IH; [done..|].
    destruct (decide ((c, id) = (cid, Core.ServerMsr))) as [He|Hne]; [by apply Htick|].
    intros Hc. destruct (Harm (Hin Hc)) as (d' & Hle & Hp). exists d'. split; [done|].
    apply Hpend, pending_remove; [congruence|done].
  - rewrite Hstep. apply IH; [by apply sound_removed|done..|].
    intros Hc. destruct (Harm Hc) as (d' & Hle & Hp). exists d'. split; [done|]. apply pending_remove; [|done].
    intros [= _ He _]. destruct Hc as [s Hc]. change (sessions r !! cid = Some s) in Hc. by rewrite He, Hs in Hc.
Qed.

(** A poll that fires the session's tick, or one of a session that is gone. *)
Lemma fire_due now due output r k :
  sound r → 0 ≤ k → quiet k r → forgotten now r →
  (sessions r !! cid = None ∨ ∃ d, (d, (cid, Core.ServerMsr)) ∈ due) →
  ∃ res r', fire_timers base64_encode elapsed_us now output due r = (Ok res, r') ∧
    sound r' ∧ quiet (k + 1) r' ∧ forgotten now r' ∧ armed (add64 now interval) r'.
Proof.
  revert output r. induction due as [|[d [c id]] due IH]; intros output r Hsound Hk Hq Hfor Hdue.
  { destruct Hdue as [Hn|[d Hd]]; [|by apply elem_of_nil in Hd]. exists output, r. split; [done|]. split; [done|].
    split; [intros s Hs; by rewrite Hn in Hs|]. split; [done|]. intros [s Hs]. by rewrite Hn in Hs. }
  destruct Hdue as [Hn|[d' Hd]].
  { apply fire_rest; [done|lia| |done|]; [intros s Hs|intros [s Hs]]; by rewrite Hn in Hs. }
  pose proof (fire_timers_step now output d c id due r) as Hstep. cbv zeta in Hstep.
  set (r1 := r <| timers := remove_entry d (c, id) (timers r) |>) in *.
  destruct (decide ((c, id) = (cid, Core.ServerMsr))) as [He|Hne].
  - injection He as -> ->. destruct (sessions r !! cid) as [s|] eqn:Hs.
    + destruct (fire_progress now cid Core.ServerMsr r1 s k) as (res & r2 & Hf & Hsound2 & _ & Hfor2 & _ & _ & Htick);
        [by apply sound_removed|done..|].
      rewrite (Hstep res r2 Hf). destruct (Htick eq_refl). apply fire_rest; [done|lia|done..].
    + rewrite Hstep. apply fire_rest; [by apply sound_removed|lia| |done|];
        [intros s Hs'|intros [s Hs']]; cbn in Hs'; by rewrite Hs in Hs'.
  - assert (Hdue : ∃ d, (d, (cid, Core.ServerMsr)) ∈ due).
    { apply elem_of_cons in Hd as [Hd|Hd]; [|by exists d']. congruence. }
    destruct (sessions r !! c) as [s|] eqn:Hs.
    + destruct (fire_progress now c id r1 s k) as (res & r2 & Hf & Hsound2 & Hq2 & Hfor2 & _ & _ & _);
        [by apply sound_removed|done..|].
      rewrite (Hstep res r2 Hf). apply IH; [done..|by right].
    + rewrite Hstep. apply IH; [by apply sound_removed|done..|by right].
Qed.

(** Polls of a host that comes by: the first not before [t], each later one not before an
    interval has passed, all with room for every due timer. *)
Fixpoint regular (t : Z) (polls : list (Z * Z)) r : Prop :=
  match polls with
  | [] => True
  | (now, limit) :: polls =>
      t ≤ now ∧ now + interval ≤ U64_MAX ∧ zlen (all_due now (timers r)) ≤ limit ∧
      regular (now + interval) polls (poll_timers base64_encode elapsed_us now limit r).2
  end.

(** The time of the last poll. *)
Definition last_poll (t : Z) (polls : list (Z * Z)) : Z := foldl (λ _ p, p.1) t polls.

Definition polling (polls : list (Z * Z)) : list server_call := map (λ p, PollTimers p.1 p.2) polls.

Lemma poll_progress now limit r k t :
  sound r → 0 ≤ k → quiet k r → forgotten now r → armed t r → t ≤ now → 0 ≤ now → 0 ≤ interval →
  now + interval ≤ U64_MAX → zlen (all_due now (timers r)) ≤ limit →
  ∃ res r', poll_timers base64_encode elapsed_us now limit r = (Ok res, r') ∧
    sound r' ∧ quiet (k + 1) r' ∧ forgotten now r' ∧ armed (now + interval) r'.
Proof.
  intros Hsound Hk Hq Hfor Harm Hle Hnow Hint Hmax Hroom.
  assert (Hadd : add64 now interval = now + interval)
    by (unfold add64, wrap64; apply Z.mod_small; unfold U64_MAX in *; lia).
  rewrite <-Hadd. unfold poll_timers, st_get, mbind, ST_bind. apply fire_due; [done..|].
  destruct (sessions r !! cid) as [s|] eqn:Hs; [right|by left].
  destruct Harm as (d & Hd & Hp); [by exists s|]. exists d. apply collect_due_pending; [done|lia|done].
Qed.

Lemma polls_progress polls r k u t :
  sound r → 0 ≤ k → quiet k r → forgotten u r → armed t r → u ≤ t → 0 ≤ t → 0 ≤ interval → regular t polls r →
  let '(os, r') := server_run base64_encode elapsed_us (polling polls) r in
  Forall (λ o, is_ok o = true) os ∧ quiet (k + zlen polls) r' ∧ forgotten (last_poll u polls) r'.
Proof.
  revert r k u t. induction polls as [|[now limit] polls IH]; intros r k u t Hsound Hk Hq Hfor Harm Hu Ht Hint Hreg.
  { cbn. split; [constructor|]. split; [by rewrite Z.add_0_r|done]. }
  destruct Hreg as (Hle & Hmax & Hroom & Hreg). unfold polling in *. cbn [map server_run server_step fst snd].
  assert (Hfor' : forgotten now r) by (intros Hn later Hl; apply Hfor; [done|lia]).
  destruct (poll_progress now limit r k t) as (res & r1 & Hpoll & Hsound1 & Hq1 & Hfor1 & Harm1); [done|done|done|done|done|done|lia..|].
  rewrite Hpoll in Hreg |- *. cbn [snd] in Hreg.
  specialize (IH r1 (k + 1) now (now + interval) Hsound1 ltac:(lia) Hq1 Hfor1 Harm1 ltac:(lia) ltac:(lia) Hint Hreg).
  destruct (server_run _ _ _ r1) as [os r2]. destruct IH as (Hos & Hq2 & Hlast). rewrite zlen_cons.
  split; [by constructor|]. split; [|exact Hlast]. by replace (k + (1 + zlen polls)) with (k + 1 + zlen polls) by lia.
Qed.

End Session.

(** C14. A silent session ends: when the server hears nothing more of the client of an established
    session and its host polls an MSR interval apart, with room for the due timers, every poll
    succeeds, and once the ticks since the client was heard of reach nine the session is gone from
    memory, and the store gives no record of it from the time of the last poll on, however long
    the record's own time to live was.  Nine polls are enough, whatever the other sessions do. *)
Theorem silent_session_ends r cid (s : SessionRuntime) (d : Z) (polls : list (Z * Z)) :
  store_ok (store r) → clocked (λ _, True) r →
  sessions r !! cid = Some s → Core.state (core s) = Core.Established → 0 ≤ CoreClock.silence (core s) ≤ 8 →
  0 ≤ d → pending (timers r) d (cid, Core.ServerMsr) →
  0 ≤ Core.msr_interval_ms (Core.cfg (core s)) →
  regular (Core.msr_interval_ms (Core.cfg (core s))) d polls r →
  9 - CoreClock.silence (core s) ≤ zlen polls →
  let '(os, r') := server_run base64_encode elapsed_us (polling polls) r in
  Forall (λ o, is_ok o = true) os ∧ sessions r' !! cid = None ∧
  ∀ later, last_poll d polls ≤ later → visible (entry_of (store r')) later cid = None.
Proof.
  intros Hok Hr Hs Hst Hsil Hd Hp Hint Hreg Hn.
  pose proof (polls_progress cid (Core.msr_interval_ms (Core.cfg (core s))) polls r (CoreClock.silence (core s)) d d
    (conj Hok Hr) ltac:(lia)) as Hprog.
  destruct (server_run _ _ (polling polls) r) as [os r'].
  destruct Hprog as (Hos & Hq & Hfor); [|intros Hgone; by rewrite Hs in Hgone|by intros _; exists d|done..|].
  - intros s' Hs'. rewrite Hs in Hs'. injection Hs' as <-. split_and!; [done..|lia|lia].
  - assert (Hgone : sessions r' !! cid = None).
    { destruct (sessions r' !! cid) as [s'|] eqn:Hs'; [|done]. destruct (Hq s' Hs') as (_ & _ & ?). lia. }
    split; [done|]. split; [done|]. by apply Hfor.
Qed.

End Silence.

(** A session established at 5, polled once per interval. *)
Definition silent_server : ServerRuntime Store.InMemorySessionStore :=
  (@server_run _ (Store.in_memory_store map_to_list) (λ _, ""%string) (λ _, 0)
    [OnDatagram 5 1 (frame_bytes Wire.ClientHello 7 [])] sample_server).2.

Definition sample_polls : list (Z * Z) := (λ i, (15000 * i + 10, 8)) <$> seqZ 1 9.

#[local] Instance silence_store : Store.SessionStore Store.InMemorySessionStore := Store.in_memory_store map_to_list.

#[local] Instance silence_lawful : LawfulStore Store.InMemorySessionStore :=
  StoreProps.in_memory_lawful map_to_list (λ m, reflexivity _).

Lemma silent_server_clocked : clocked (λ _, True) silent_server.
Proof.
  apply (clocked_mono (λ _, False)); [by intros c []|]. unfold silent_server. apply clocked_run.
  intros c s Hs. cbn in Hs. by rewrite lookup_empty in Hs.
Qed.

Lemma silent_server_ok : store_ok (store silent_server).
Proof.
  pose proof (datagram_served (λ _, ""%string) (λ _, 0) 5 1 (frame_bytes Wire.ClientHello 7 []) sample_hello
    sample_server sample_server_ok ltac:(by vm_compute)) as H. cbv zeta in H.
  destruct (Core.on_datagram _ _ _ _) as [o m]. unfold silent_server. cbn [server_run server_step].
  destruct (on_datagram _ _ 5 1 _ sample_server) as [res r']. cbn [snd]. apply H.
Qed.

Lemma sample_polls_regular : regular (λ _, ""%string) (λ _, 0) 15000 15005 sample_polls silent_server.
Proof. vm_compute. repeat (split; try congruence). Qed.

Lemma sample_tick_pending : pending (timers silent_server) 15005 (7, Core.ServerMsr).
Proof. vm_compute. by left. Qed.

(** After eight polls the store still has a record that lives beyond the ninth. *)
Lemma silent_session_ends_witness :
  is_Some (sessions silent_server !! 7) ∧
  is_Some (visible (entry_of (store (server_run (λ _, ""%string) (λ _, 0) (polling (take 8 sample_polls)) silent_server).2)) 135010 7) ∧
  sessions (server_run (λ _, ""%string) (λ _, 0) (polling sample_polls) silent_server).2 !! 7 = None ∧
  ∀ later, 135010 ≤ later →
    visible (entry_of (store (server_run (λ _, ""%string) (λ _, 0) (polling sample_polls) silent_server).2)) later 7 = None.
Proof.
  assert (Hs : ∃ s, sessions silent_server !! 7 = Some s) by (eexists; vm_compute; reflexivity).
  destruct Hs as [s Hs]. split; [by exists s|]. split; [vm_compute; by eexists|].
  assert (Hc : Core.state (core s) = Core.Established ∧ CoreClock.silence (core s) = 0 ∧
    Core.msr_interval_ms (Core.cfg (core s)) = 15000)
    by (vm_compute in Hs; injection Hs as <-; split; [reflexivity|split; reflexivity]).
  destruct Hc as (Hst & Hsil & Hint).
  pose proof (silent_session_ends (λ _, ""%string) (λ _, 0) silent_server 7 s 15005 sample_polls
    silent_server_ok silent_server_clocked Hs Hst) as H.
  rewrite Hsil, Hint in H.
  specialize (H ltac:(lia) ltac:(lia) sample_tick_pending ltac:(lia) sample_polls_regular ltac:(by rewrite Z.sub_0_r)).
  destruct (server_run _ _ (polling sample_polls) silent_server) as [os r']. cbn [snd]. exact (proj2 H).
Defined.
