(* ===== verification/ServerRestart.v ===== *)
(** * A server that restarts

    The session store outlives a server.  This file follows a session whose server starts again on
    the store it left: the client knows nothing of the restart and goes on as before.  The fresh
    machine waits for a hello that an established client has no reason to send, so the session is
    not taken up again; and the first datagram overwrites what the store remembered of it. *)

From S2P Require Import Prelude Bytes TimerQueue ServerRuntime ServerLemmas StoreSpec ServerProps ServerSilence.
From S2P Require Wire WireLemmas Core CoreSpec CoreLemmas CoreHandlers Store StoreProps.

(* ------------------------------------------------------------------ *)
(** ** A client that is not answered *)
(* ------------------------------------------------------------------ *)

(** What a host does with a client nothing arrives at: its timers fire, its application sends,
    its path changes.  (Closing, proposing timers and a second handshake are left out: they are
    what a host can do about it.) *)
Definition unanswered (i : CoreSpec.input) : Prop :=
  match i with CoreSpec.InTimer _ _ | CoreSpec.InSend _ | CoreSpec.InPath _ => True | _ => False end.

Section Probes.
Context (c : Z).
Context (Hc : is_u64 c).

(** A bare MSR frame of the connection. *)
Definition probe (d : Core.OutboundDatagram) : Prop :=
  ∃ a b, Wire.decode (Core.bytes d) = Ok (Wire.new Wire.Msr x00 c (Core.encode_msr_payload a b) []).

Implicit Types (p : Core.CoreMachine * Core.CoreOutput) (h k : Core.method ()).

Definition probing_at p : Prop := Core.cid p.1 = c ∧ Forall probe (Core.outbound_datagrams p.2).

(** A method that sends nothing else. *)
Definition probing h : Prop := ∀ p, probing_at p → wp h (λ _ p', probing_at p') p.

Lemma probing_seq h k : probing h → probing k → probing (h ;; k).
Proof.
  intros Hh Hk p Hp. apply wp_bind. eapply wp_mono, (Hh p Hp). intros [[]|e|] q Hq; cbn; [|done..]. by apply Hk.
Qed.

Lemma probing_self (f : Core.CoreMachine → Core.method ()) :
  (∀ m, Core.cid m = c → probing (f m)) → probing (m ← Core.self; f m).
Proof. intros Hf p Hp. apply wp_bind, CoreLemmas.wp_self. cbn. apply Hf; [apply Hp|done]. Qed.

Lemma probing_modify f : (∀ m, Core.cid (f m) = Core.cid m) → probing (Core.modify_self f).
Proof. intros Hf p [Hp Hd]. apply CoreLemmas.wp_modify_self. split; [|done]. cbn. by rewrite Hf. Qed.

Lemma probing_event e : probing (Core.push_event e).
Proof. by intros p Hp. Qed.

Lemma probing_timer i t : probing (Core.push_timer i t).
Proof. by intros p Hp. Qed.

Lemma probing_ret : probing (mret ()).
Proof. by intros p Hp. Qed.

Lemma probing_when b h : probing h → probing (st_when b h).
Proof. destruct b; [done|intros; apply probing_ret]. Qed.

Lemma probing_send path a b :
  probing (Core.send_frame path (Core.encode_frame Wire.Msr c (Core.encode_msr_payload a b))).
Proof.
  intros p [Hp Hd]. rewrite CoreLemmas.encode_frame_eq.
  apply CoreLemmas.wp_send_frame; [done|unfold Core.encode_msr_payload; zlen_norm; ulia|apply CoreLemmas.small_tlvs_nil|].
  intros bs Hbs. split; [done|]. cbn. apply Forall_app. split; [done|]. constructor; [|done]. by exists a, b.
Qed.

(** Walk through a method body. *)
Ltac probing_auto :=
  repeat (lazymatch goal with
  | |- probing (mbind _ Core.self) => apply probing_self; intros ??
  | |- probing (mbind (λ _, _) _) => apply probing_seq
  | |- probing (st_when _ _) => apply probing_when
  | |- probing (match ?x with _ => _ end) => destruct x
  | |- probing (Core.modify_self _) => by apply probing_modify
  | |- probing (Core.set_state _) => by apply probing_modify
  | |- probing (Core.touch_disconnect_deadline _) => by apply probing_modify
  | |- probing (Core.push_event _) => apply probing_event
  | |- probing (Core.push_timer _ _) => apply probing_timer
  | |- probing (mret _) => apply probing_ret
  | H : Core.cid ?m = c |- probing (Core.send_frame _ (Core.encode_frame _ (Core.cid ?m) _)) =>
      rewrite H; apply probing_send
  | |- _ => fail
  end; cbn beta iota zeta).

Lemma probing_step i m :
  unanswered i → Core.cid m = c →
  let '(o, m') := CoreSpec.step i m in Core.cid m' = c ∧ Forall probe (CoreSpec.datagrams_of o).
Proof.
  intros Hi Hm. assert (Hp : probing_at (m, Core.CoreOutput_default)) by done.
  assert (Hbody : ∀ h, probing h → let '(o, m') := Core.run h m in Core.cid m' = c ∧ Forall probe (CoreSpec.datagrams_of o)).
  { intros h Hh. specialize (Hh _ Hp). unfold wp in Hh. unfold Core.run.
    destruct (h (m, Core.CoreOutput_default)) as [[[]|e|] [m' out]]; destruct Hh; by split; try constructor. }
  destruct i as [| |now id|payload| | |e]; try done; apply Hbody.
  - unfold Core.on_timer_body. probing_auto.
  - unfold Core.on_api_send_body. probing_auto.
  - unfold Core.on_path_event_body. probing_auto.
Qed.

Lemma probing_run calls m :
  Forall unanswered calls → Core.cid m = c → Forall probe (CoreSpec.run_datagrams (CoreSpec.run_inputs calls m).1).
Proof.
  intros His. revert m. induction His as [|i calls Hi _ IH]; intros m Hm; [constructor|]. cbn [CoreSpec.run_inputs].
  pose proof (probing_step i m Hi Hm) as Hs. destruct (CoreSpec.step i m) as [o m1]. destruct Hs as [Hm1 Ho].
  specialize (IH m1 Hm1). destruct (CoreSpec.run_inputs calls m1) as [os m2].
  unfold CoreSpec.run_datagrams in *. cbn. by apply Forall_app.
Qed.

(* ------------------------------------------------------------------ *)
(** ** A machine that waits for a hello *)
(* ------------------------------------------------------------------ *)

Definition asleep (m : Core.CoreMachine) : Prop :=
  Core.role m = Core.Server ∧ Core.state m = Core.PreHandshake ∧ Core.last_ordered_rx m = 0.

Lemma asleep_hears now path bs a b m :
  Wire.decode bs = Ok (Wire.new Wire.Msr x00 c (Core.encode_msr_payload a b) []) → asleep m → Core.cid m = c →
  ∃ m', Core.on_datagram now path bs m = (Ok Core.CoreOutput_default, m') ∧ asleep m' ∧ Core.cid m' = c.
Proof.
  intros Hbs (Hr & Hs & Hl) Hm. unfold Core.on_datagram, Core.run, Core.on_datagram_body. rewrite Hbs.
  unfold Core.on_frame. rewrite (st_bind_ok Core.self _ (m, _) m (m, _)) by done. cbn [Wire.new Wire.cid]. rewrite Hm, Z.eqb_refl, andb_false_r.
  destruct m as [r c0 st]. cbn in Hr, Hs, Hl, Hm. subst r c0 st. eexists. split; [reflexivity|]. by split_and!.
Qed.

Lemma asleep_sends payload m :
  asleep m → ∃ m', Core.on_api_send payload m = (Ok Core.CoreOutput_default, m') ∧ asleep m' ∧ Core.cid m' = Core.cid m.
Proof.
  destruct m as [r c0 st]. intros (Hr & Hs & Hl). cbn in Hr, Hs, Hl. subst r st. eexists. split; [reflexivity|]. by split_and!.
Qed.

End Probes.

(* ------------------------------------------------------------------ *)
(** ** The server after its restart *)
(* ------------------------------------------------------------------ *)

(** The last message the store remembers as received on a connection. *)
Definition remembered {St} `{Hst : Store.SessionStore St} {Hlaw : LawfulStore St} (now cid : Z) (st : St) : option Z :=
  Store.last_ordered_rx <$> (Store.record <$> visible (entry_of st) now cid).

Definition call_time (k : server_call) : Z :=
  match k with OnDatagram now _ _ | PollTimers now _ | SendMessage _ _ now => now end.

(** The datagrams of a call come from the pool [ds]: lost, repeated and reordered as it may be. *)
Definition draws (ds : list Core.OutboundDatagram) (k : server_call) : Prop :=
  match k with OnDatagram _ _ bs => bs ∈ map Core.bytes ds | _ => True end.

Definition is_datagram (k : server_call) : bool := match k with OnDatagram _ _ _ => true | _ => false end.

Section Server.
Context {St : Type} {Hstore : Store.SessionStore St} {Hlaw : LawfulStore St}.
Context (base64_encode : list byte → string) (elapsed_us : Z → Z).
Context (c : Z).
Context (Hc : is_u64 c).

Implicit Types (r : ServerRuntime St) (k : server_call) (now t : Z).

(** A session that waits for its hello. *)
Definition sleeping (cid : Z) (s : SessionRuntime) : Prop :=
  asleep (core s) ∧ Core.cid (core s) = cid ∧ bound_vhost s = None.

Record waiting r : Prop := mkWaiting {
  wt_store : store_ok (store r);
  wt_timers : timers r = ∅;
  wt_sessions : map_Forall sleeping (sessions r);
}.

(** Nothing is remembered of the connection any more, from [now] on. *)
Definition erased now (st : St) : Prop := ∀ t, now ≤ t → default 0 (remembered t c st) = 0.

Lemma sleeping_essence cid s s' : essence s = essence s' → sleeping cid s → sleeping cid s'.
Proof. intros [= He1 He2 He3 He4]. unfold sleeping. by rewrite He1, He3. Qed.

Lemma sleeping_addressed r now cid path : waiting r → sleeping cid (addressed r now cid path).
Proof.
  intros [_ _ Hs]. unfold addressed. destruct (sessions r !! cid) as [s|] eqn:Hl; [by apply Hs|].
  unfold fresh_session. by destruct (_ <$> _).
Qed.

(** A call whose machine stays asleep and puts nothing out. *)
Lemma waiting_served cid path now r s res r' :
  waiting r → sleeping cid s → served base64_encode cid path now [] r s (Ok Core.CoreOutput_default) res r' →
  res = Ok empty_output ∧ waiting r' ∧
  ∀ t, now ≤ t → default 0 (remembered t c (store r')) = 0 ∨
                 (c ≠ cid ∧ remembered t c (store r') = remembered t c (store r)).
Proof.
  intros Hw Hs (_ & Hok & Ho & -> & He & Hsame & Ht). assert (Hs' := Hs). destruct Hs' as ((Hr & Hst & Hl) & Hcid & Hv).
  rewrite decide_False in He by by rewrite Hst. split; [done|]. split.
  - split; [done|by rewrite Ht; apply Hw|]. intros c' s' Hs'. destruct (decide (c' = cid)) as [->|Hne].
    + rewrite Hs' in He. apply (sleeping_essence cid s); [|done]. symmetry. by apply (inj Some).
    + rewrite Ho in Hs' by done. by apply (wt_sessions r Hw).
  - intros t Hnt. unfold remembered. rewrite <-(Hsame c t Hnt). unfold visible, set_entry.
    case_decide as Hcid'; [left|by right]. unfold written. rewrite decide_False by by rewrite Hst. cbn.
    by destruct (_ <? _).
Qed.

Lemma asleep_datagram now path bs a b r :
  waiting r → Wire.decode bs = Ok (Wire.new Wire.Msr x00 c (Core.encode_msr_payload a b) []) →
  let '(o, r') := on_datagram base64_encode elapsed_us now path bs r in
  o = Ok empty_output ∧ waiting r' ∧ erased now (store r').
Proof.
  intros Hw Hbs. pose proof (datagram_served base64_encode elapsed_us now path bs _ r (wt_store r Hw) Hbs) as H.
  cbv zeta in H. cbn [Wire.new Wire.cid] in H. destruct (sleeping_addressed r now c path Hw) as (Ha & Hcid & Hv).
  destruct (asleep_hears c now path bs a b _ Hbs Ha Hcid) as (m & Hstep & Hm & Hcm).
  rewrite Hstep in H. destruct (on_datagram _ _ _ _ _ r) as [o r'].
  assert (Hb : bound_events c path (addressed r now c path) = []) by (unfold bound_events; by rewrite Hv).
  rewrite Hb in H. apply waiting_served in H as (-> & Hw' & Herased); [|done|by split_and!].
  split_and!; [done|done|]. intros t Ht. by destruct (Herased t Ht) as [|[? _]].
Qed.

Lemma waiting_send cid pl now r :
  waiting r →
  let '(o, r') := send_message base64_encode elapsed_us cid pl now r in
  o = Ok empty_output ∧ waiting r' ∧ ∀ t, now ≤ t → erased t (store r) → erased t (store r').
Proof.
  intros Hw. unfold send_message. rewrite (st_bind_ok st_get _ r r r) by done.
  case_bool_decide as Hs; [|by split_and!]. destruct Hs as [s Hs].
  pose proof (serve_session base64_encode elapsed_us (CoreSpec.InSend pl) cid 0 now r s (wt_store r Hw) Hs) as H.
  cbn [CoreSpec.step] in H. destruct (wt_sessions r Hw cid s Hs) as (Ha & Hcid & Hv).
  destruct (asleep_sends pl (core s) Ha) as (m & Hstep & Hm & Hcm). rewrite Hstep in H. unfold wp in H.
  lazymatch goal with |- match ?e with _ => _ end => destruct e as [o r'] end. cbn [fst snd] in H.
  apply waiting_served in H as (-> & Hw' & Herased); [|done|split_and!; [done|cbn; congruence|done]].
  split_and!; [done|done|]. intros t Ht He t' Ht'. destruct (Herased t' ltac:(lia)) as [|[_ ->]]; [done|by apply He].
Qed.

Lemma waiting_step ds k r :
  waiting r → Forall (probe c) ds → draws ds k →
  let '(o, r') := server_step base64_encode elapsed_us k r in
  o = Ok empty_output ∧ waiting r' ∧
  ∀ t, call_time k ≤ t → is_datagram k = true ∨ erased t (store r) → erased t (store r').
Proof.
  intros Hw Hds Hk. destruct k as [now path bs|now limit|cid pl now]; cbn [server_step is_datagram call_time].
  - apply list_elem_of_fmap in Hk as (d & -> & Hd). rewrite Forall_forall in Hds. destruct (Hds d Hd) as (a & b & Hbs).
    pose proof (asleep_datagram now path _ a b r Hw Hbs) as H. destruct (on_datagram _ _ _ _ _ r) as [o r'].
    destruct H as (-> & Hw' & He). split_and!; [done|done|]. intros t Ht _ t' Ht'. apply He. lia.
  - unfold poll_timers. rewrite (st_bind_ok st_get _ r r r) by done. rewrite (wt_timers r Hw).
    change (collect_due now limit ∅) with (@nil (Z * (Z * Core.TimerId))). cbn [fire_timers].
    split_and!; [done|done|]. by intros t _ [?|].
  - pose proof (waiting_send cid pl now r Hw) as H. destruct (send_message _ _ _ _ _ r) as [o r'].
    destruct H as (-> & Hw' & He). split_and!; [done|done|]. intros t Ht [?|?]; [done|by apply He].
Qed.

Lemma waiting_run ds calls r :
  waiting r → Forall (probe c) ds → Forall (draws ds) calls →
  let '(os, r') := server_run base64_encode elapsed_us calls r in
  Forall (λ o, o = Ok empty_output) os ∧
  ∀ t, Forall (λ k, call_time k ≤ t) calls → existsb is_datagram calls = true ∨ erased t (store r) → erased t (store r').
Proof.
  intros Hw Hds Hcalls. revert r Hw. induction Hcalls as [|k calls Hk _ IH]; intros r Hw; cbn [server_run existsb].
  { split; [done|]. by intros t _ [?|]. }
  pose proof (waiting_step ds k r Hw Hds Hk) as H. destruct (server_step _ _ k r) as [o r1]. destruct H as (-> & Hw1 & H1).
  specialize (IH r1 Hw1). destruct (server_run _ _ calls r1) as [os r2]. destruct IH as [Hos H2].
  split; [by constructor|]. intros t Ht Hor. inversion_clear Ht as [|? ? Ht1 Ht2]. apply (H2 t Ht2).
  rewrite orb_true_iff in Hor. destruct Hor as [[?|?]|?]; [right|by left|right]; apply H1; auto.
Qed.

Lemma waiting_new conf (st : St) : store_ok st → waiting (new conf st).
Proof. intros Hst. split; [done|done|]. apply map_Forall_empty. Qed.

(** C26. A server does not take up the sessions its store kept for it: after a restart, whatever the
    store holds, if all that a client of the connection does from then on is to let its timers
    fire, to send messages of its application and to move to other paths (it neither says hello
    again nor closes nor proposes timers), however the network loses, repeats and reorders its
    datagrams, and whatever the server's own host asks for, every call of the server succeeds and puts
    out nothing, neither a datagram nor an event; and after the first datagram the store no
    longer remembers which messages of the client the application has had. *)
Theorem restarted_server_stays_silent (conf : Core.CoreConfig) (st : St) (client : Core.CoreMachine)
    (inputs : list CoreSpec.input) (calls : list server_call) :
  Core.cid client = c → Forall unanswered inputs → store_ok st →
  Forall (draws (CoreSpec.run_datagrams (CoreSpec.run_inputs inputs client).1)) calls →
  let '(os, r) := server_run base64_encode elapsed_us calls (new conf st) in
  Forall (λ o, o = Ok empty_output) os ∧
  (existsb is_datagram calls = true →
   ∀ now, Forall (λ k, call_time k ≤ now) calls → default 0 (remembered now c (store r)) = 0).
Proof.
  intros Hcid Hin Hst Hcalls.
  pose proof (waiting_run _ calls _ (waiting_new conf st Hst) (probing_run c Hc inputs client Hin Hcid) Hcalls) as H.
  destruct (server_run _ _ calls _) as [os r]. destruct H as [Hos He]. split; [done|].
  intros Hd now Hnow. apply (He now Hnow); [by left|lia].
Qed.

End Server.

(* ------------------------------------------------------------------ *)
(** ** Witness *)
(* ------------------------------------------------------------------ *)

#[local] Instance restart_store : Store.SessionStore Store.InMemorySessionStore := Store.in_memory_store map_to_list.

#[local] Instance restart_lawful : LawfulStore Store.InMemorySessionStore :=
  StoreProps.in_memory_lawful map_to_list (λ m, reflexivity _).

(** What a server leaves in the store that was given a first message. *)
Definition old_store : Store.InMemorySessionStore :=
  store (on_datagram (λ _, ""%string) (λ _, 0) 6 1 first_message silent_server).2.

Lemma old_store_ok : store_ok old_store.
Proof.
  pose proof (datagram_served (λ _, ""%string) (λ _, 0) 6 1 first_message (Wire.new Wire.Data x00 7 (u64_be 1 ++ [xaa]) [])
    silent_server silent_server_ok ltac:(by vm_compute)) as H. cbv zeta in H.
  destruct (Core.on_datagram _ _ _ _) as [o m]. unfold old_store.
  destruct (on_datagram _ _ 6 1 _ silent_server) as [res r']. cbn [snd]. apply H.
Qed.

(** The client that goes on: it says something, and probes after a long silence. *)
Definition old_client : Core.CoreMachine :=
  (Core.on_datagram 5 1 (frame_bytes Wire.ServerHello 7 []) (Core.new Core.Client 7 Core.CoreConfig_default)).2.

Definition old_client_inputs : list CoreSpec.input :=
  [CoreSpec.InSend [x61]; CoreSpec.InPath (Core.PathChanged 3); CoreSpec.InTimer 200000 Core.ClientProbe].

Definition old_client_sends : list Core.OutboundDatagram :=
  CoreSpec.run_datagrams (CoreSpec.run_inputs old_client_inputs old_client).1.

(** Its datagrams arrive in the wrong order and more than once. *)
Definition restart_calls : list server_call :=
  [PollTimers 210000 8] ++
  imap (λ i d, OnDatagram (210001 + Z.of_nat i) (Core.path_id d) (Core.bytes d)) (reverse old_client_sends ++ old_client_sends) ++
  [SendMessage 7 [x62] 210010].

Lemma old_client_unanswered : Forall unanswered old_client_inputs.
Proof. unfold old_client_inputs. repeat constructor. Qed.

Lemma restart_calls_drawn :
  Forall (draws (CoreSpec.run_datagrams (CoreSpec.run_inputs old_client_inputs old_client).1)) restart_calls.
Proof. vm_compute. repeat constructor. Qed.

Lemma restarted_server_stays_silent_witness :
  Core.state old_client = Core.Established ∧ remembered 1000 7 old_store = Some 1 ∧ length old_client_sends = 2%nat ∧
  let '(os, r) := server_run (λ _, ""%string) (λ _, 0) restart_calls (new Core.CoreConfig_default old_store) in
  Forall (λ o, o = Ok empty_output) os ∧ default 0 (remembered 210010 7 (store r)) = 0.
Proof.
  pose proof (restarted_server_stays_silent (λ _, ""%string) (λ _, 0) 7 ltac:(done) Core.CoreConfig_default old_store
    old_client old_client_inputs restart_calls ltac:(by vm_compute) old_client_unanswered old_store_ok restart_calls_drawn) as H.
  split; [by vm_compute|]. split; [by vm_compute|]. split; [by vm_compute|].
  destruct (server_run _ _ restart_calls _) as [os r]. destruct H as [Hos He]. split; [exact Hos|].
  apply He; [by vm_compute|]. apply (bool_decide_unpack _). by vm_compute.
Defined.
