(* ===== verification/Ffi.v ===== *)
(** * The C interface ([v3-ffi/src/lib.rs], first part)

    The table of engines behind opaque handles, one definition per exported function.  A call
    finds its engine, runs it, and leaves what it produced in the output buffer of the handle,
    which the host reads back piece by piece. *)

From S2P Require Import Prelude Bytes Text.
From S2P Require Replay Dtls Ice Turn Consent Core Store ClientRuntime ServerRuntime.

Definition V3_FFI_ABI_VERSION : Z := 1.

(* ------------------------------------------------------------------ *)
(** ** Data *)
(* ------------------------------------------------------------------ *)

Inductive EngineKind : Type :=
| ClientEngine (runtime : ClientRuntime.ClientRuntime)
| ServerEngine (runtime : ServerRuntime.ServerRuntime Store.InMemorySessionStore).

(** What the events of the host say, before they are written as JSON. *)
Inductive HostEvent : Type :=
| ClientDeliver (msg_id : Z) (payload_b64 : string)
| ClientCore (event : Core.Event)
| ClientCoreWrapped (event : ClientRuntime.ClientRuntimeEvent)
| ClientNatNomination (local_index remote_index path_id : Z)
| ClientTurn (action : Turn.TurnAction)
| ClientConsent (action : Consent.ConsentAction)
| ClientTls (event : string)
| ServerParseError
| ServerCore (cid : Z) (event : Core.Event)
| ServerNatNomination (cid local_index remote_index : Z)
| ServerTurn (cid : Z) (action : Turn.TurnAction)
| ServerVhostPath (cid : Z) (vhost : string) (path_id : Z)
| ServerDeliver (cid msg_id : Z) (payload_b64 : string)
| ServerTls (event : string) (path_id : Z)
| NatConfig (relay_policy : string) (stun_uri turn_uri turn_realm turn_username : str) (turn_password_set : bool).

(** The texts the interface makes with [serde_json], [Debug] and [Display]. *)
Class Texts : Type := {
  event_json : HostEvent → str;
  client_error_text : ClientRuntime.ClientRuntimeError → str;
  server_error_text : ServerRuntime.ServerRuntimeError → str;
  crypto_error_text : Replay.CryptoError → str;
  utf8_error_text : list byte → str;
}.

Record OutputBuffer : Type := mkOutputBuffer { datagrams : list (Z * list byte); events : list str }.

#[global] Instance OutputBuffer_eta : Eta OutputBuffer := λ r, mkOutputBuffer (datagrams r) (events r).

(** [OutputBuffer::default]. *)
Definition empty_buffer : OutputBuffer := mkOutputBuffer [] [].

(** [bytes_from_ptr]: a null pointer is no bytes, another one the memory of the caller. *)
Definition bytes_from_ptr (ptr : option (list byte)) (len : Z) : list byte :=
  match ptr with
  | Some memory => if len =? 0 then [] else take (Z.to_nat len) memory
  | None => []
  end.

Definition is_dtls_packet (bytes : list byte) : bool := bool_decide (lit "DTLS_" `prefix_of` bytes).

Definition build_client_tls_cfg (expected_server_name : str) : outcome str Dtls.HandshakeConfig :=
  reject (is_blank expected_server_name) (lit "expected_server_name is required for TLS") ;;
  mret (Dtls.mkHandshakeConfig Dtls.ServerAuth Dtls.default_cipher_policy (Dtls.mkTrustConfig [] true)
          None (Some expected_server_name)).

Definition build_server_tls_cfg (path_exists : str → bool) (server_name cert_path key_path : str)
    : outcome str Dtls.HandshakeConfig :=
  reject (is_blank server_name) (lit "server_name is required for TLS") ;;
  reject (is_blank cert_path || is_blank key_path) (lit "server TLS cert/key paths are required") ;;
  reject (negb (path_exists cert_path)) (lit "server cert path does not exist: " ++ cert_path) ;;
  reject (negb (path_exists key_path)) (lit "server key path does not exist: " ++ key_path) ;;
  mret (Dtls.mkHandshakeConfig Dtls.ServerAuth Dtls.default_cipher_policy (Dtls.mkTrustConfig [] false)
          (Some (Dtls.mkClientIdentityRef (trim key_path) [trim cert_path])) (Some server_name)).

Section Ffi.
Context `{ossl : !Dtls.Openssl, texts : !Texts}.
(** The parameters of the server runtime: base64, the stopwatch, the order of hash maps. *)
Context (base64_encode : list byte → string) (elapsed_us : Z → Z) (iter : gmap Z Store.Entry → list (Z * Store.Entry)).

#[local] Instance handle_store : Store.SessionStore Store.InMemorySessionStore := Store.in_memory_store iter.

Record ClientTlsState : Type := mkClientTlsState {
  adapter : Dtls.OpenSslDtlsAdapter;
  tls_cfg : Dtls.HandshakeConfig;
  established : bool;
  core_started : bool;
}.

#[global] Instance ClientTlsState_eta : Eta ClientTlsState := λ r,
  mkClientTlsState (adapter r) (tls_cfg r) (established r) (core_started r).

Record ServerPathTlsState : Type := mkServerPathTlsState {
  path_adapter : Dtls.OpenSslDtlsAdapter;
  path_established : bool;
}.

#[global] Instance ServerPathTlsState_eta : Eta ServerPathTlsState := λ r,
  mkServerPathTlsState (path_adapter r) (path_established r).

Record ServerTlsState : Type := mkServerTlsState {
  server_name : str;
  cert_path : str;
  key_path : str;
  sessions_by_path : gmap Z ServerPathTlsState;
}.

#[global] Instance ServerTlsState_eta : Eta ServerTlsState := λ r,
  mkServerTlsState (server_name r) (cert_path r) (key_path r) (sessions_by_path r).

Inductive TlsMode : Type :=
| TlsDisabled
| TlsClient (state : ClientTlsState)
| TlsServer (state : ServerTlsState).

Record EngineHandle : Type := mkEngineHandle {
  kind : EngineKind;
  tls : TlsMode;
  output : OutputBuffer;
  last_error : option str;
}.

#[global] Instance EngineHandle_eta : Eta EngineHandle := λ r,
  mkEngineHandle (kind r) (tls r) (output r) (last_error r).

(** The registry and the counter of handles. *)
Record Registry : Type := mkRegistry { handles : gmap Z EngineHandle; next_handle : Z }.

#[global] Instance Registry_eta : Eta Registry := λ r, mkRegistry (handles r) (next_handle r).

Definition initial_registry : Registry := mkRegistry ∅ 1.

(** The functions have no error type: they return codes, or panic. *)
Abbreviation ffi := (ST Registry Empty_set).
Abbreviation method := (ST EngineHandle Empty_set).

Definition set_error (err : str) : method Z :=
  st_modify (λ h, h <| last_error := Some err |>) ;;
  mret (-1).

Definition set_kind (k : EngineKind) : method () := st_modify (λ h, h <| kind := k |>).
Definition set_tls (t : TlsMode) : method () := st_modify (λ h, h <| tls := t |>).
Definition set_output (b : OutputBuffer) : method () := st_modify (λ h, h <| output := b |>).

(** [let Some(handle) = reg.handles.get_mut(&handle_id) else { return absent }]. *)
Definition with_handle {A} (handle_id : Z) (absent : A) (body : method A) : ffi A := λ reg,
  match handles reg !! handle_id with
  | None => (Ok absent, reg)
  | Some h => let '(o, h') := body h in (o, reg <| handles := <[handle_id := h']> (handles reg) |>)
  end.

(* ------------------------------------------------------------------ *)
(** ** Outputs of the runtimes *)
(* ------------------------------------------------------------------ *)

Definition buffered (d : Core.OutboundDatagram) : Z * list byte := (Core.path_id d, Core.bytes d).

Definition client_host_event (e : ClientRuntime.ClientRuntimeEvent) : HostEvent :=
  match e with
  | ClientRuntime.CoreEvent (Core.MessageReceived msg_id payload) => ClientDeliver msg_id (base64_encode payload)
  | ClientRuntime.CoreEvent inner => ClientCore inner
  | ClientRuntime.NatPairNominated l r path => ClientNatNomination l r path
  | ClientRuntime.TurnActionEvent action => ClientTurn action
  | ClientRuntime.ConsentActionEvent action => ClientConsent action
  end.

Definition normalize_client_output (out : ClientRuntime.ClientRuntimeOutput) : OutputBuffer :=
  mkOutputBuffer (map buffered (ClientRuntime.outbound_datagrams out))
    (map (λ e, event_json (client_host_event e)) (ClientRuntime.events out)).

Definition server_host_event (e : ServerRuntime.RuntimeEvent) : HostEvent :=
  match e with
  | ServerRuntime.ParseError => ServerParseError
  | ServerRuntime.CoreEvent cid event => ServerCore cid event
  | ServerRuntime.NatPairNominated cid l r => ServerNatNomination cid l r
  | ServerRuntime.TurnActionEvent cid action => ServerTurn cid action
  | ServerRuntime.VhostPathBound cid vhost path => ServerVhostPath cid vhost path
  | ServerRuntime.MessageReceived cid msg_id payload_b64 => ServerDeliver cid msg_id payload_b64
  end.

Definition normalize_server_output (out : ServerRuntime.ServerRuntimeOutput) : OutputBuffer :=
  mkOutputBuffer (map buffered (ServerRuntime.outbound_datagrams out))
    (map (λ e, event_json (server_host_event e)) (ServerRuntime.events out)).

(** [match runtime.call(..) { Ok(out) => { normalize(out); 0 } Err(e) => set_error(..) }]. *)
Definition run_client (call : ST ClientRuntime.ClientRuntime ClientRuntime.ClientRuntimeError ClientRuntime.ClientRuntimeOutput)
    (runtime : ClientRuntime.ClientRuntime) : method Z :=
  let '(o, runtime) := call runtime in
  set_kind (ClientEngine runtime) ;;
  match o with
  | Ok out => set_output (normalize_client_output out) ;; mret 0
  | Err e => set_error (client_error_text e)
  | Panic => st_panic
  end.

Definition run_server (call : ST (ServerRuntime.ServerRuntime Store.InMemorySessionStore) ServerRuntime.ServerRuntimeError ServerRuntime.ServerRuntimeOutput)
    (runtime : ServerRuntime.ServerRuntime Store.InMemorySessionStore) : method Z :=
  let '(o, runtime) := call runtime in
  set_kind (ServerEngine runtime) ;;
  match o with
  | Ok out => set_output (normalize_server_output out) ;; mret 0
  | Err e => set_error (server_error_text e)
  | Panic => st_panic
  end.

(* ------------------------------------------------------------------ *)
(** ** Handles *)
(* ------------------------------------------------------------------ *)

Definition v3_ffi_abi_version : Z := V3_FFI_ABI_VERSION.

Definition add_handle (k : EngineKind) : ffi Z :=
  r ← st_get;
  let id := next_handle r in
  st_modify (λ r, r <| next_handle := add64 (next_handle r) 1 |>
                    <| handles := <[id := mkEngineHandle k TlsDisabled empty_buffer None]> (handles r) |>) ;;
  mret id.

Definition v3_ffi_new_client (cid msr_interval_ms miss_window_count disconnect_window_ms : Z) : ffi Z :=
  add_handle (ClientEngine (ClientRuntime.new cid
    (Core.mkCoreConfig msr_interval_ms miss_window_count disconnect_window_ms))).

Definition v3_ffi_new_server (msr_interval_ms miss_window_count disconnect_window_ms : Z) : ffi Z :=
  match Store.with_default_shards with
  | Ok store =>
      add_handle (ServerEngine (ServerRuntime.new
        (Core.mkCoreConfig msr_interval_ms miss_window_count disconnect_window_ms) store))
  | _ => st_panic
  end.

Definition v3_ffi_free (handle_id : Z) : ffi () :=
  st_modify (λ r, r <| handles := delete handle_id (handles r) |>).

(* ------------------------------------------------------------------ *)
(** ** Calls on an engine *)
(* ------------------------------------------------------------------ *)

Definition v3_ffi_begin_handshake (handle_id now_ms : Z) : ffi Z :=
  with_handle handle_id (-1) (
    h ← st_get;
    match kind h with
    | ClientEngine runtime =>
        match tls h with
        | TlsClient t =>
            if negb (established t) then
              let '(o, a) := Dtls.start_client (tls_cfg t) (adapter t) in
              set_tls (TlsClient (t <| adapter := a |>)) ;;
              match o with
              | Ok hs =>
                  set_output (mkOutputBuffer (map (pair 0) (Dtls.outbound_datagrams hs))
                    [event_json (ClientTls "handshake_started")]) ;;
                  mret 0
              | Err e => set_error (lit "tls start failed: " ++ crypto_error_text e)
              | Panic => st_panic
              end
            else run_client (ClientRuntime.begin_handshake now_ms) runtime
        | _ => run_client (ClientRuntime.begin_handshake now_ms) runtime
        end
    | ServerEngine _ => mret 0
    end).

(** The client's [begin_handshake] inside [on_datagram], once TLS is established. *)
Definition start_core (now_ms : Z) (runtime : ClientRuntime.ClientRuntime) (b : OutputBuffer) : method Z :=
  let '(o, runtime) := ClientRuntime.begin_handshake now_ms runtime in
  set_kind (ClientEngine runtime) ;;
  match o with
  | Ok out =>
      set_output (mkOutputBuffer (datagrams b ++ map buffered (ClientRuntime.outbound_datagrams out))
        (events b ++ map (λ e, event_json (ClientCoreWrapped e)) (ClientRuntime.events out))) ;;
      mret 0
  | Err e => set_output b ;; set_error (client_error_text e)
  | Panic => st_panic
  end.

(** A datagram of a client whose TLS handshake is under way. *)
Definition client_tls_datagram (now_ms path_id : Z) (bytes : list byte) (runtime : ClientRuntime.ClientRuntime)
    (t : ClientTlsState) : method Z :=
  let '(o, a) := Dtls.on_datagram bytes (adapter t) in
  let t := t <| adapter := a |> in
  set_tls (TlsClient t) ;;
  match o with
  | Ok out =>
      let b := mkOutputBuffer (map (pair path_id) (Dtls.outbound_datagrams out)) [] in
      if Dtls.established out then
        let t := t <| established := true |> in
        let b := b <| events := [event_json (ClientTls "handshake_established")] |> in
        if negb (core_started t) then
          set_tls (TlsClient (t <| core_started := true |>)) ;;
          start_core now_ms runtime b
        else set_tls (TlsClient t) ;; set_output b ;; mret 0
      else set_output b ;; mret 0
  | Err e => set_error (lit "tls datagram failed: " ++ crypto_error_text e)
  | Panic => st_panic
  end.

(** [sessions_by_path.entry(path_id).or_insert_with(..)]. *)
Definition path_session (path_exists : str → bool) (path_id : Z) (t : ServerTlsState) : option ServerPathTlsState :=
  match sessions_by_path t !! path_id with
  | Some s => Some s
  | None =>
      match build_server_tls_cfg path_exists (server_name t) (cert_path t) (key_path t) with
      | Ok cfg => Some (mkServerPathTlsState (Dtls.start_server cfg Dtls.new_openssl).2 false)
      | _ => None
      end
  end.

Definition v3_ffi_on_datagram (path_exists : str → bool) (handle_id now_ms path_id : Z)
    (data_ptr : option (list byte)) (data_len : Z) : ffi Z :=
  with_handle handle_id (-1) (
    let bytes := bytes_from_ptr data_ptr data_len in
    h ← st_get;
    match kind h with
    | ClientEngine runtime =>
        match tls h with
        | TlsClient t =>
            if negb (established t) then client_tls_datagram now_ms path_id bytes runtime t
            else if is_dtls_packet bytes then set_output empty_buffer ;; mret 0
            else run_client (ClientRuntime.on_datagram now_ms path_id bytes) runtime
        | _ => run_client (ClientRuntime.on_datagram now_ms path_id bytes) runtime
        end
    | ServerEngine runtime =>
        match tls h with
        | TlsServer t =>
            match path_session path_exists path_id t with
            | None => st_panic
            | Some s =>
                let put s := set_tls (TlsServer (t <| sessions_by_path := <[path_id := s]> (sessions_by_path t) |>)) in
                put s ;;
                if is_dtls_packet bytes then
                  let '(o, a) := Dtls.on_datagram bytes (path_adapter s) in
                  let s := s <| path_adapter := a |> in
                  match o with
                  | Ok out =>
                      let s := if Dtls.established out then s <| path_established := true |> else s in
                      put s ;;
                      set_output (mkOutputBuffer (map (pair path_id) (Dtls.outbound_datagrams out))
                        (if Dtls.established out then [event_json (ServerTls "handshake_established" path_id)] else [])) ;;
                      mret 0
                  | Err e =>
                      put s ;;
                      set_error (lit "server tls datagram failed: " ++ crypto_error_text e)
                  | Panic => st_panic
                  end
                else if negb (path_established s) then set_output empty_buffer ;; mret 0
                else run_server (ServerRuntime.on_datagram base64_encode elapsed_us now_ms path_id bytes) runtime
            end
        | _ => run_server (ServerRuntime.on_datagram base64_encode elapsed_us now_ms path_id bytes) runtime
        end
    end).

Definition v3_ffi_send_message (handle_id : Z) (data_ptr : option (list byte)) (data_len : Z) : ffi Z :=
  with_handle handle_id (-1) (
    h ← st_get;
    match kind h with
    | ClientEngine runtime => run_client (ClientRuntime.send_message (bytes_from_ptr data_ptr data_len)) runtime
    | ServerEngine _ => mret (-1)
    end).

Definition v3_ffi_close_session (handle_id : Z) : ffi Z :=
  with_handle handle_id (-1) (
    h ← st_get;
    match kind h with
    | ClientEngine runtime => run_client ClientRuntime.close_session runtime
    | ServerEngine _ => mret (-1)
    end).

Definition v3_ffi_server_send_message (handle_id cid : Z) (data_ptr : option (list byte)) (data_len now_ms : Z) : ffi Z :=
  with_handle handle_id (-1) (
    h ← st_get;
    match kind h with
    | ClientEngine _ => mret (-1)
    | ServerEngine runtime =>
        run_server (ServerRuntime.send_message base64_encode elapsed_us cid (bytes_from_ptr data_ptr data_len) now_ms) runtime
    end).

Definition v3_ffi_poll_timers (handle_id now_ms limit : Z) : ffi Z :=
  with_handle handle_id (-1) (
    h ← st_get;
    match kind h with
    | ClientEngine runtime => run_client (ClientRuntime.poll_timers now_ms limit) runtime
    | ServerEngine runtime => run_server (ServerRuntime.poll_timers base64_encode elapsed_us now_ms limit) runtime
    end).

Definition v3_ffi_poll_nat (handle_id now_ms : Z) : ffi Z :=
  with_handle handle_id (-1) (
    h ← st_get;
    match kind h with
    | ClientEngine _ => set_output (normalize_client_output (ClientRuntime.on_nat_tick now_ms)) ;; mret 0
    | ServerEngine _ => set_output (normalize_server_output (ServerRuntime.on_nat_tick now_ms)) ;; mret 0
    end).

(* ------------------------------------------------------------------ *)
(** ** Configuration *)
(* ------------------------------------------------------------------ *)

(** [from_utf8(bytes)], an error setting the error text and leaving with [-1]. *)
Definition with_text (what : string) (bytes : list byte) (k : str → method Z) : method Z :=
  match utf8 bytes with
  | Some _ => k bytes
  | None => set_error (lit "invalid " ++ lit what ++ lit " utf8: " ++ utf8_error_text bytes)
  end.

Definition v3_ffi_configure_nat (handle_id relay_policy : Z)
    (stun_uri turn_uri turn_realm turn_username turn_password : option (list byte) * Z) : ffi Z :=
  with_handle handle_id (-1) (
    let text p := bytes_from_ptr p.1 p.2 in
    with_text "stun_uri" (text stun_uri) (λ stun_uri,
    with_text "turn_uri" (text turn_uri) (λ turn_uri,
    with_text "turn_realm" (text turn_realm) (λ turn_realm,
    with_text "turn_username" (text turn_username) (λ turn_username,
    with_text "turn_password" (text turn_password) (λ turn_password,
      let policy := if relay_policy =? 1 then Ice.RelayOnly else Ice.PreferDirect in
      h ← st_get;
      match kind h with
      | ClientEngine runtime => set_kind (ClientEngine (ClientRuntime.set_relay_policy policy runtime))
      | ServerEngine runtime => set_kind (ServerEngine (ServerRuntime.set_relay_policy policy runtime))
      end ;;
      set_output (mkOutputBuffer []
        [event_json (NatConfig (if relay_policy =? 1 then "relay_only" else "prefer_direct")
           stun_uri turn_uri turn_realm turn_username (negb (bool_decide (turn_password = []))))]) ;;
      mret 0)))))).

Definition v3_ffi_configure_client_tls (handle_id : Z) (expected_server_name : option (list byte) * Z) : ffi Z :=
  with_handle handle_id (-1) (
    with_text "expected_server_name" (bytes_from_ptr expected_server_name.1 expected_server_name.2) (λ expected,
      match build_client_tls_cfg expected with
      | Ok cfg =>
          h ← st_get;
          match kind h with
          | ClientEngine _ => set_tls (TlsClient (mkClientTlsState Dtls.new_openssl cfg false false)) ;; mret 0
          | ServerEngine _ => set_error (lit "client tls can only be configured on client handle")
          end
      | Err e => set_error e
      | Panic => st_panic
      end)).

(** The trust anchors of a client before its handshake, or why they cannot change. *)
Definition change_anchors (f : list (list byte) → list (list byte)) : method Z :=
  h ← st_get;
  match tls h with
  | TlsClient t =>
      if established t || core_started t then
        set_error (lit "trust anchors can only be changed before handshake start")
      else
        let cfg := tls_cfg t in
        let trust := Dtls.trust cfg in
        set_tls (TlsClient (t <| tls_cfg :=
          Dtls.mkHandshakeConfig (Dtls.profile cfg) (Dtls.cipher_policy cfg)
            (Dtls.mkTrustConfig (f (Dtls.trust_anchor_pems trust)) (Dtls.require_hostname_verification trust))
            (Dtls.client_identity cfg) (Dtls.expected_server_name cfg) |>)) ;;
        mret 0
  | TlsDisabled => set_error (lit "client tls must be configured before setting trust anchors")
  | TlsServer _ => set_error (lit "trust anchors can only be changed on client tls")
  end.

Definition v3_ffi_tls_clear_anchors (handle_id : Z) : ffi Z :=
  with_handle handle_id (-1) (change_anchors (λ _, [])).

Definition v3_ffi_tls_add_anchor_pem (handle_id : Z) (pem : option (list byte) * Z) : ffi Z :=
  with_handle handle_id (-1) (
    let pem := bytes_from_ptr pem.1 pem.2 in
    if bool_decide (pem = []) then set_error (lit "trust anchor pem bytes are empty")
    else change_anchors (λ l, l ++ [pem])).

Definition v3_ffi_configure_server_tls (path_exists : str → bool) (handle_id : Z)
    (server_name cert_path key_path : option (list byte) * Z) : ffi Z :=
  with_handle handle_id (-1) (
    with_text "server_name" (bytes_from_ptr server_name.1 server_name.2) (λ server_name,
    with_text "cert_path" (bytes_from_ptr cert_path.1 cert_path.2) (λ cert_path,
    with_text "key_path" (bytes_from_ptr key_path.1 key_path.2) (λ key_path,
      match build_server_tls_cfg path_exists server_name cert_path key_path with
      | Ok _ =>
          h ← st_get;
          match kind h with
          | ServerEngine _ => set_tls (TlsServer (mkServerTlsState server_name cert_path key_path ∅)) ;; mret 0
          | ClientEngine _ => set_error (lit "server tls can only be configured on server handle")
          end
      | Err e => set_error e
      | Panic => st_panic
      end)))).

(* ------------------------------------------------------------------ *)
(** ** Reading the output *)
(* ------------------------------------------------------------------ *)

Definition v3_ffi_clear_output (handle_id : Z) : ffi () := with_handle handle_id () (set_output empty_buffer).

(** [reg.handles.get(&handle_id).map(f)]. *)
Definition read_handle {A} (handle_id : Z) (f : EngineHandle → option A) (reg : Registry) : option A :=
  handles reg !! handle_id ≫= f.

Definition the_datagram (handle_id index : Z) (reg : Registry) : option (Z * list byte) :=
  read_handle handle_id (λ h, datagrams (output h) !! Z.to_nat index) reg.

Definition the_event (handle_id index : Z) (reg : Registry) : option str :=
  read_handle handle_id (λ h, events (output h) !! Z.to_nat index) reg.

Definition the_error (handle_id : Z) (reg : Registry) : option str := read_handle handle_id last_error reg.

(** The end of the copying functions: how many bytes were copied into a buffer of [out_len] bytes,
    which is null or its content before, and its content afterwards. *)
Definition copy_out (data : option (list byte)) (out_ptr : option (list byte)) (out_len : Z) : Z * option (list byte) :=
  match out_ptr with
  | None => (0, None)
  | Some buffer =>
      if out_len =? 0 then (0, Some buffer)
      else
        match data with
        | None => (0, Some buffer)
        | Some data =>
            let n := Z.min (zlen data) out_len in
            (n, Some (take (Z.to_nat n) data ++ drop (Z.to_nat n) buffer))
        end
  end.

Definition v3_ffi_out_datagram_count (handle_id : Z) (reg : Registry) : Z :=
  default 0 (read_handle handle_id (λ h, Some (zlen (datagrams (output h)))) reg).

Definition v3_ffi_out_datagram_len (handle_id index : Z) (reg : Registry) : Z :=
  default 0 ((λ d, zlen d.2) <$> the_datagram handle_id index reg).

Definition v3_ffi_out_datagram_path_id (handle_id index : Z) (reg : Registry) : Z :=
  default 0 (fst <$> the_datagram handle_id index reg).

Definition v3_ffi_out_datagram_copy (handle_id index : Z) (out_ptr : option (list byte)) (out_len : Z) (reg : Registry)
    : Z * option (list byte) :=
  copy_out (snd <$> the_datagram handle_id index reg) out_ptr out_len.

Definition v3_ffi_out_event_count (handle_id : Z) (reg : Registry) : Z :=
  default 0 (read_handle handle_id (λ h, Some (zlen (events (output h)))) reg).

Definition v3_ffi_out_event_len (handle_id index : Z) (reg : Registry) : Z :=
  default 0 (zlen <$> the_event handle_id index reg).

Definition v3_ffi_out_event_copy (handle_id index : Z) (out_ptr : option (list byte)) (out_len : Z) (reg : Registry)
    : Z * option (list byte) :=
  copy_out (the_event handle_id index reg) out_ptr out_len.

Definition v3_ffi_last_error_len (handle_id : Z) (reg : Registry) : Z :=
  default 0 (zlen <$> the_error handle_id reg).

Definition v3_ffi_last_error_copy (handle_id : Z) (out_ptr : option (list byte)) (out_len : Z) (reg : Registry)
    : Z * option (list byte) :=
  copy_out (the_error handle_id reg) out_ptr out_len.

End Ffi.
