(* ===== verification/PacketLog.v ===== *)
(** * The packet log ([v3-ffi/src/lib.rs], third part)

    When an environment variable switches it on, the interface writes a line to the error stream
    for every datagram it receives or sends, with a note on its repetitions.  The log has a state
    of its own, which nothing else reads: whether it is on (decided once), the table of the
    packets already noted, and what was written.  The hash function of the standard library and
    the environment are parameters. *)

From S2P Require Import Prelude Bytes Text.
From S2P Require Wire Ffi.

(* ------------------------------------------------------------------ *)
(** ** Texts *)
(* ------------------------------------------------------------------ *)

(** A digit of [{:x}]. *)
Definition hex_digit (d : Z) : byte := byte_of_Z (if d <? 10 then 0x30 + d else 0x57 + d).

Definition hex_byte (b : byte) : str := [hex_digit (byte_to_Z b / 16); hex_digit (byte_to_Z b mod 16)].

(** [{:016x}] of a [u64]: the digits of its bytes, the highest first. *)
Definition hex_016 (n : Z) : str := concat (hex_byte <$> u64_be n).

(** [{:#x}] of a [u8]: no leading zero. *)
Definition hex_u8 (b : byte) : str :=
  lit "0x" ++ (if byte_to_Z b <? 16 then [hex_digit (byte_to_Z b)] else hex_byte b).

(** [{:?}] of a message type. *)
Definition message_type_debug (t : Wire.MessageType) : str :=
  lit match t with
      | Wire.ClientHello => "ClientHello"
      | Wire.ServerHello => "ServerHello"
      | Wire.HelloAck => "HelloAck"
      | Wire.Msr => "Msr"
      | Wire.RequestRange => "RequestRange"
      | Wire.Data => "Data"
      | Wire.Fragment => "Fragment"
      | Wire.Error => "Error"
      | Wire.Close => "Close"
      end.

(** [{}] of a [WireError]. *)
Definition wire_error_text (e : Wire.WireError) : str :=
  match e with
  | Wire.Truncated => lit "input is truncated"
  | Wire.UnsupportedVersion v => lit "unsupported version: " ++ hex_u8 v
  | Wire.UnknownMessageType v => lit "unknown message type: " ++ hex_u8 v
  | Wire.PayloadTooLarge n => lit "payload too large: " ++ show_u64 n
  | Wire.TooManyTlvs n => lit "too many TLVs: " ++ show_u64 n
  | Wire.TlvTooLarge n => lit "TLV too large: " ++ show_u64 n
  | Wire.TlvBlockTooLarge n => lit "TLV block too large: " ++ show_u64 n
  | Wire.MalformedTlv => lit "malformed TLV"
  | Wire.LengthMismatch r e =>
      lit "length mismatch (remaining=" ++ show_u64 r ++ lit ", expected=" ++ show_u64 e ++ lit ")"
  end.

(** [to_ascii_lowercase]. *)
Definition to_ascii_lowercase (s : str) : str :=
  (λ b, if (0x41 <=? byte_to_Z b) && (byte_to_Z b <=? 0x5A) then byte_of_Z (byte_to_Z b + 0x20) else b) <$> s.

(* ------------------------------------------------------------------ *)
(** ** State *)
(* ------------------------------------------------------------------ *)

(** The table gives the time of the last note of a packet and the number of its notes. *)
Record PacketLog : Type := mkPacketLog {
  enabled_once : option bool;
  packet_dedup : gmap str (Z * Z);
  stderr : list str;
}.

#[global] Instance PacketLog_eta : Eta PacketLog := λ r, mkPacketLog (enabled_once r) (packet_dedup r) (stderr r).

Definition initial_log : PacketLog := mkPacketLog None ∅ [].

Abbreviation logging := (ST PacketLog Empty_set).

Section Log.
Context (hash64 : list byte → Z) (env : string → option str).

Definition packet_hash64 (bytes : list byte) : Z := hash64 bytes.

Definition parse_bool_env (name : string) : option bool :=
  (λ v, bool_decide (to_ascii_lowercase (trim v) ∈ [lit "1"; lit "true"; lit "yes"; lit "on"])) <$> env name.

(** The first of the variables that is set decides; the answer is kept. *)
Definition proto_log_enabled : logging bool :=
  l ← st_get;
  match enabled_once l with
  | Some b => mret b
  | None =>
      let b := default false
        (match parse_bool_env "TODERO_V3_PROTO_ENABLED" with
         | Some b => Some b
         | None =>
             match parse_bool_env "TODERO_V3_PROTO_DEBUG" with
             | Some b => Some b
             | None => parse_bool_env "V3PROTO_ENABLED"
             end
         end) in
      st_modify (λ l, l <| enabled_once := Some b |>) ;;
      mret b
  end.

Definition packet_key (side dir : string) (path_id : Z) (kind : str) (cid : Z) (bytes : list byte) : str :=
  lit side ++ lit "|" ++ lit dir ++ lit "|" ++ show_u64 path_id ++ lit "|" ++ kind ++ lit "|" ++
  show_u64 cid ++ lit "|" ++ hex_016 (packet_hash64 bytes).

(** The text of a note: the number of notes and the time since the last one of a repetition. *)
Definition dup_text (repetition : option (Z * Z)) : str :=
  match repetition with
  | None => lit "dup=false"
  | Some (count, delta) =>
      lit "dup=true dup_count=" ++ show_u64 count ++ lit " dup_delta_ms=" ++ show_u64 delta
  end.

(** The entry of a packet after a note at [ts]. *)
Definition noted_entry (ts : Z) (e : option (Z * Z)) : Z * Z :=
  match e with
  | Some (_, count) => (ts, sat_add U32_MAX count 1)
  | None => (ts, 1)
  end.

(** What is said of a packet whose entry was [e]. *)
Definition repetition_of (ts : Z) (e : option (Z * Z)) : option (Z * Z) :=
  (λ '(last_ts, count), (sat_add U32_MAX count 1, sat_sub ts last_ts)) <$> e.

Definition dedup_note (side dir : string) (path_id : Z) (kind : str) (cid : Z) (bytes : list byte) (ts : Z)
    : logging str :=
  let key := packet_key side dir path_id kind cid bytes in
  l ← st_get;
  let e := packet_dedup l !! key in
  st_modify (λ l, l <| packet_dedup := <[key := noted_entry ts e]> (packet_dedup l) |>) ;;
  l ← st_get;
  st_when (20000 <? Z.of_nat (size (packet_dedup l)))
    (let cutoff := sat_sub ts 60000 in
     st_modify (λ l, l <| packet_dedup := filter (λ '(_, (last_ts, _)), cutoff ≤ last_ts) (packet_dedup l) |>)) ;;
  mret (dup_text (repetition_of ts e)).

(** [eprintln!]. *)
Definition eprintln (line : str) : logging () := st_modify (λ l, l <| stderr := stderr l ++ [line] |>).

(** The start every line has. *)
Definition line_head (side dir : string) (path_id ts : Z) : str :=
  lit "[V3PROTO] ts_ms=" ++ show_u64 ts ++ lit " side=" ++ lit side ++ lit " dir=" ++ lit dir ++
  lit " path=" ++ show_u64 path_id ++ lit " type=".

Definition log_proto_packet (side dir : string) (path_id : Z) (bytes : list byte) (now_ms : Z) : logging () :=
  enabled ← proto_log_enabled;
  if negb enabled then mret ()
  else
    let ts := now_ms in
    if Ffi.is_dtls_packet bytes then
      note ← dedup_note side dir path_id (lit "DTLS") 0 bytes ts;
      eprintln (line_head side dir path_id ts ++ lit "DTLS len=" ++ show_u64 (zlen bytes) ++ lit " " ++ note)
    else
      match Wire.decode bytes with
      | Ok frame =>
          let kind := message_type_debug (Wire.message_type frame) in
          note ← dedup_note side dir path_id kind (Wire.cid frame) bytes ts;
          eprintln (line_head side dir path_id ts ++ kind ++ lit " cid=" ++ show_u64 (Wire.cid frame) ++
            lit " payload_len=" ++ show_u64 (zlen (Wire.payload frame)) ++
            lit " tlv_count=" ++ show_u64 (zlen (Wire.tlvs frame)) ++ lit " " ++ note)
      | Err err =>
          note ← dedup_note side dir path_id (lit "UNKNOWN") 0 bytes ts;
          eprintln (line_head side dir path_id ts ++ lit "UNKNOWN len=" ++ show_u64 (zlen bytes) ++
            lit " err=" ++ wire_error_text err ++ lit " " ++ note)
      | Panic => st_panic
      end.

End Log.
