(* ===== verification/PacketLogProps.v ===== *)
(** * Correctness of the packet log

    The keys of the table identify a packet up to the hash of its bytes, a repetition is reported
    with its number and the time since the last one as long as nothing was forgotten, only packets
    of more than a minute ago are forgotten, and a log that is off writes nothing. *)

From S2P Require Import Prelude Bytes Text PacketLog.
From S2P Require Wire WireLemmas Ffi.

(* ------------------------------------------------------------------ *)
(** ** Keys *)
(* ------------------------------------------------------------------ *)

Definition separator : byte := x7c.

(** A field that cannot be confused with the end of it. *)
Definition plain (s : str) : Prop := separator ∉ s.

Lemma plain_prefix a a' r r' :
  plain a → plain a' → a ++ separator :: r = a' ++ separator :: r' → a = a' ∧ r = r'.
Proof.
  unfold plain. revert a'. induction a as [|x a IH]; intros [|x' a'] Ha Ha' He; cbn in He; simplify_eq; try done.
  - by rewrite elem_of_cons in Ha'; destruct Ha'; left.
  - by rewrite elem_of_cons in Ha; destruct Ha; left.
  - rewrite elem_of_cons in Ha, Ha'. destruct (IH a' ltac:(tauto) ltac:(tauto) H0) as [-> ->]. done.
Qed.

Lemma plain_pretty_go x s : plain (lit s) → plain (lit (pretty_N_go x s)).
Proof.
  revert s. induction (N.lt_wf_0 x) as [x _ IH]; intros s Hs.
  destruct (decide (0 < x)%N) as [Hx|Hx].
  - rewrite pretty_N_go_step by done. apply IH; [by apply N.div_lt|].
    unfold plain. rewrite lit_cons, elem_of_cons. intros [He|He]; [|done]. revert He.
    unfold pretty_N_char. by repeat case_match.
  - replace x with 0%N by lia. by rewrite pretty_N_go_0.
Qed.

Lemma plain_show n : plain (show_u64 n).
Proof.
  unfold show_u64, pretty, pretty_N. case_decide.
  - unfold plain. cbn. set_solver.
  - apply plain_pretty_go. unfold plain. cbn. set_solver.
Qed.

(** The value of a digit. *)
Definition unhex (c : byte) : Z := if byte_to_Z c <? 0x3A then byte_to_Z c - 0x30 else byte_to_Z c - 0x57.

Definition unhex_byte (s : str) : byte :=
  match s with
  | [a; b] => byte_of_Z (unhex a * 16 + unhex b)
  | _ => x00
  end.

Lemma unhex_hex_byte b : unhex_byte (hex_byte b) = b.
Proof. by destruct b. Qed.

#[global] Instance hex_byte_inj : Inj (=) (=) hex_byte.
Proof. intros b b' He. by rewrite <- (unhex_hex_byte b), He, unhex_hex_byte. Qed.

Lemma hex_016_inj n m : is_u64 n → is_u64 m → hex_016 n = hex_016 m → n = m.
Proof.
  intros Hn Hm He. rewrite <- (be_value_u64 n), <- (be_value_u64 m) by done. f_equal.
  unfold hex_016 in He. assert (length (u64_be n) = length (u64_be m)) as Hl by done. revert Hl He.
  generalize (u64_be m). induction (u64_be n) as [|b l IH]; intros [|b' l'] Hl He; try done.
  cbn -[hex_byte] in He. apply app_inj_1 in He as [He%(inj hex_byte) He']; [|done].
  f_equal; [done|]. apply IH; [by injection Hl|done].
Qed.

(* ------------------------------------------------------------------ *)
(** ** Notes *)
(* ------------------------------------------------------------------ *)

Section Log.
Context (hash64 : list byte → Z).
Context (Hhash : ∀ bytes, is_u64 (hash64 bytes)).

(** One call of [dedup_note]. *)
Record note : Type := mkNote {
  n_side : string; n_dir : string; n_path : Z; n_kind : str; n_cid : Z; n_bytes : list byte; n_ts : Z
}.

Definition key_of (n : note) : str :=
  packet_key hash64 (n_side n) (n_dir n) (n_path n) (n_kind n) (n_cid n) (n_bytes n).

Definition note_one (n : note) : logging str :=
  dedup_note hash64 (n_side n) (n_dir n) (n_path n) (n_kind n) (n_cid n) (n_bytes n) (n_ts n).

Definition proper (n : note) : Prop :=
  plain (lit (n_side n)) ∧ plain (lit (n_dir n)) ∧ plain (n_kind n) ∧ 0 ≤ n_path n ∧ 0 ≤ n_cid n ∧ 0 ≤ n_ts n.

(** The packets the log takes for the same. *)
Definition same_packet (a b : note) : Prop :=
  n_side a = n_side b ∧ n_dir a = n_dir b ∧ n_path a = n_path b ∧ n_kind a = n_kind b ∧
  n_cid a = n_cid b ∧ hash64 (n_bytes a) = hash64 (n_bytes b).

#[global] Instance same_packet_dec a b : Decision (same_packet a b).
Proof. unfold same_packet. apply _. Defined.

Lemma key_of_inj a b : proper a → proper b → key_of a = key_of b ↔ same_packet a b.
Proof using Hhash.
  intros (Hs & Hd & Hk & Hp & Hc & _) (Hs' & Hd' & Hk' & Hp' & Hc' & _).
  unfold key_of, packet_key, packet_hash64, same_packet. change (lit "|") with [separator]. split.
  - intros He. cbn [app] in He.
    apply plain_prefix in He as [He1%lit_inj He]; [|done..].
    apply plain_prefix in He as [He2%lit_inj He]; [|done..].
    apply plain_prefix in He as [He3%show_u64_inj He]; [|auto using plain_show..].
    apply plain_prefix in He as [He4 He]; [|done..].
    apply plain_prefix in He as [He5%show_u64_inj He]; [|auto using plain_show..].
    apply hex_016_inj in He; [|auto..]. done.
  - by intros (-> & -> & -> & -> & -> & ->).
Qed.

(** The times at which a key was noted, the oldest first. *)
Definition times (k : str) (ns : list note) : list Z := n_ts <$> filter (λ n, key_of n = k) ns.

Lemma times_snoc k ns n :
  times k (ns ++ [n]) = times k ns ++ (if decide (key_of n = k) then [n_ts n] else []).
Proof.
  unfold times. rewrite filter_app, fmap_app. f_equal. rewrite filter_cons, filter_nil. by case_decide.
Qed.

(** The count after so many notes. *)
Definition count_of (l : list Z) : Z := Z.min U32_MAX (zlen l).

(** What the table says after the notes [ns], the last of them at [now]: entries tell the truth,
    packets of the last minute have one, and up to 20000 notes nothing was forgotten. *)
Record table_inv (ns : list note) (now : Z) (t : gmap str (Z * Z)) : Prop := {
  ti_true k last_ts c : t !! k = Some (last_ts, c) → last (times k ns) = Some last_ts ∧ 1 ≤ c ≤ count_of (times k ns);
  ti_recent k last_ts : last (times k ns) = Some last_ts → now - 60000 ≤ last_ts → is_Some (t !! k);
  ti_size : Z.of_nat (size t) ≤ zlen ns;
  ti_exact : zlen ns ≤ 20000 → ∀ k, t !! k = (., count_of (times k ns)) <$> last (times k ns);
  ti_bound : 20000 < Z.of_nat (size t) → ∀ k e, t !! k = Some e → now - 60000 ≤ e.1;
}.

(** The table after a note. *)
Definition noted (n : note) (t : gmap str (Z * Z)) : gmap str (Z * Z) :=
  let t := <[key_of n := noted_entry (n_ts n) (t !! key_of n)]> t in
  if 20000 <? Z.of_nat (size t) then filter (λ '(_, (last_ts, _)), sat_sub (n_ts n) 60000 ≤ last_ts) t else t.

Lemma note_one_run n l :
  note_one n l = (Ok (dup_text (repetition_of (n_ts n) (packet_dedup l !! key_of n))), l <| packet_dedup := noted n (packet_dedup l) |>).
Proof.
  unfold note_one, dedup_note, noted, key_of. unfold st_get, st_modify, st_when, mbind, ST_bind, mret, ST_ret. cbn.
  by destruct (20000 <? _).
Qed.

Lemma noted_lookup n t k e :
  noted n t !! k = Some e ↔
  <[key_of n := noted_entry (n_ts n) (t !! key_of n)]> t !! k = Some e ∧
  (20000 < Z.of_nat (size (<[key_of n := noted_entry (n_ts n) (t !! key_of n)]> t)) → sat_sub (n_ts n) 60000 ≤ e.1).
Proof.
  unfold noted. destruct (Z.ltb_spec 20000 (Z.of_nat (size (<[key_of n := noted_entry (n_ts n) (t !! key_of n)]> t)))) as [H|H].
  - rewrite map_lookup_filter_Some. destruct e. naive_solver.
  - naive_solver lia.
Qed.

Lemma size_insert_le (t : gmap str (Z * Z)) k e : (size (<[k := e]> t) ≤ S (size t))%nat.
Proof. destruct (t !! k) eqn:H; [rewrite map_size_insert_Some by eauto; lia|by rewrite map_size_insert_None]. Qed.

Lemma size_noted n t : (size (noted n t) ≤ S (size t))%nat.
Proof.
  unfold noted. pose proof (size_insert_le t (key_of n) (noted_entry (n_ts n) (t !! key_of n))).
  case_match; [|done]. etrans; [|done]. apply map_subseteq_size, map_filter_subseteq.
Qed.

Lemma count_snoc l x : count_of (l ++ [x]) = sat_add U32_MAX (count_of l) 1.
Proof. unfold count_of. rewrite zlen_app. change (zlen [x]) with 1. ulia. Qed.

Lemma times_nonneg ns k last_ts : Forall proper ns → last (times k ns) = Some last_ts → 0 ≤ last_ts.
Proof.
  intros Hp Hl%last_Some_elem_of. unfold times in Hl. apply list_elem_of_fmap in Hl as (n & -> & [_ Hn]%list_elem_of_filter).
  rewrite Forall_forall in Hp. by apply Hp.
Qed.

(** The entry of the packet just noted. *)
Lemma noted_entry_true n ns now t :
  table_inv ns now t →
  (noted_entry (n_ts n) (t !! key_of n)).1 = n_ts n ∧
  1 ≤ (noted_entry (n_ts n) (t !! key_of n)).2 ≤ count_of (times (key_of n) (ns ++ [n])) ∧
  (zlen ns ≤ 20000 → (noted_entry (n_ts n) (t !! key_of n)).2 = count_of (times (key_of n) (ns ++ [n]))).
Proof.
  intros Ht. rewrite times_snoc, decide_True, count_snoc by done. split; [by destruct (t !! key_of n) as [[]|]|].
  assert (0 ≤ count_of (times (key_of n) ns)) by (unfold count_of; ulia). split.
  - destruct (t !! key_of n) as [[l c]|] eqn:He; cbn; [|ulia]. apply (ti_true _ _ _ Ht) in He as [_ Hc].
    unfold count_of in *. ulia.
  - intros Hl. rewrite (ti_exact _ _ _ Ht Hl). destruct (last (times (key_of n) ns)) as [l|] eqn:He; [done|].
    apply last_None in He. by rewrite He.
Qed.

Lemma noted_true n ns now t k last_ts c :
  table_inv ns now t → noted n t !! k = Some (last_ts, c) →
  last (times k (ns ++ [n])) = Some last_ts ∧ 1 ≤ c ≤ count_of (times k (ns ++ [n])).
Proof.
  intros Ht [He _]%noted_lookup. pose proof (noted_entry_true n ns now t Ht) as (Hl & Hc & _).
  destruct (decide (key_of n = k)) as [Hk|Hk].
  - subst k. rewrite lookup_insert_eq in He. injection He as He. rewrite He in Hl, Hc. cbn in Hl, Hc. subst last_ts.
    split; [|done]. by rewrite times_snoc, decide_True, last_snoc.
  - rewrite lookup_insert_ne in He by done. apply (ti_true _ _ _ Ht) in He.
    by rewrite times_snoc, decide_False, app_nil_r.
Qed.

Lemma noted_recent n ns now t k last_ts :
  Forall proper ns → proper n → now ≤ n_ts n → table_inv ns now t →
  last (times k (ns ++ [n])) = Some last_ts → n_ts n - 60000 ≤ last_ts → is_Some (noted n t !! k).
Proof.
  intros Hp (_ & _ & _ & _ & _ & Hn) Hnow Ht Hl Hr. rewrite times_snoc in Hl.
  destruct (decide (key_of n = k)) as [Hk|Hk].
  - eexists. apply noted_lookup. rewrite <-Hk, lookup_insert_eq. split; [done|].
    intros _. rewrite (proj1 (noted_entry_true n ns now t Ht)). unfold sat_sub. lia.
  - rewrite app_nil_r in Hl. destruct (ti_recent _ _ _ Ht k last_ts) as [[l c] He]; [done|lia|].
    pose proof (times_nonneg _ _ _ Hp Hl). pose proof (proj1 (ti_true _ _ _ Ht _ _ _ He)).
    exists (l, c). apply noted_lookup. rewrite lookup_insert_ne by done. split; [done|].
    intros _. simplify_eq/=. unfold sat_sub. lia.
Qed.

Lemma noted_exact n ns now t k :
  table_inv ns now t → zlen (ns ++ [n]) ≤ 20000 →
  noted n t !! k = (., count_of (times k (ns ++ [n]))) <$> last (times k (ns ++ [n])).
Proof.
  intros Ht Hl. rewrite zlen_app in Hl. change (zlen [n]) with 1 in Hl. pose proof (ti_size _ _ _ Ht).
  pose proof (size_insert_le t (key_of n) (noted_entry (n_ts n) (t !! key_of n))).
  unfold noted. rewrite (proj2 (Z.ltb_ge _ _)) by lia.
  destruct (noted_entry_true n ns now t Ht) as (Hts & _ & Hc). rewrite times_snoc.
  destruct (decide (key_of n = k)) as [Hk|Hk].
  - subst k. rewrite lookup_insert_eq, last_snoc. cbn. specialize (Hc ltac:(lia)).
    rewrite times_snoc, decide_True in Hc by done. destruct (noted_entry _ _) as [a b].
    cbn in Hts, Hc. by rewrite Hts, Hc.
  - rewrite lookup_insert_ne, app_nil_r by done. apply (ti_exact _ _ _ Ht). lia.
Qed.

Lemma noted_bound n t k e :
  20000 < Z.of_nat (size (noted n t)) → noted n t !! k = Some e → n_ts n - 60000 ≤ e.1.
Proof.
  intros Hs [_ He]%noted_lookup. enough (sat_sub (n_ts n) 60000 ≤ e.1) by (unfold sat_sub in *; lia).
  apply He. unfold noted in Hs. case_match; [|lia].
  eapply Z.lt_le_trans; [exact Hs|]. apply Nat2Z.inj_le, map_size_filter.
Qed.

Lemma noted_inv n ns now t :
  Forall proper ns → proper n → now ≤ n_ts n → table_inv ns now t → table_inv (ns ++ [n]) (n_ts n) (noted n t).
Proof.
  intros Hp Hn Hnow Ht. split.
  - intros k l c. by apply noted_true with now.
  - intros k l. by apply noted_recent with now.
  - rewrite zlen_app. change (zlen [n]) with 1. pose proof (size_noted n t). pose proof (ti_size _ _ _ Ht). lia.
  - intros Hl k. by apply noted_exact with now.
  - intros Hs k e. by apply noted_bound.
Qed.

(** *** Whole runs *)

(** The log after some notes. *)
Definition note_all (ns : list note) : PacketLog := foldl (λ l n, (note_one n l).2) initial_log ns.

Definition in_order (ns : list note) : Prop := StronglySorted (λ a b, n_ts a ≤ n_ts b) ns.

Lemma in_order_snoc ns n : in_order (ns ++ [n]) → in_order ns ∧ ∀ a, a ∈ ns → n_ts a ≤ n_ts n.
Proof.
  unfold in_order. induction ns as [|a ns IH]; cbn; intros Hs; [split; [constructor|set_solver]|].
  apply StronglySorted_inv in Hs as [Hs Ha]. destruct (IH Hs) as [Hs' Hle].
  rewrite Forall_app, Forall_singleton in Ha. destruct Ha as [Ha Han].
  split; [by constructor|]. intros b [->|Hb]%elem_of_cons; auto.
Qed.

Lemma times_same_packet n ns :
  Forall proper ns → proper n → times (key_of n) ns = n_ts <$> filter (same_packet n) ns.
Proof using Hhash.
  intros Hns Hn. unfold times. f_equal. induction Hns as [|a ns Ha _ IH]; [done|].
  pose proof (key_of_inj n a Hn Ha) as Hk. rewrite !filter_cons, IH.
  destruct (decide (key_of a = key_of n)) as [He|He], (decide (same_packet n a)) as [Hs|Hs]; try done; exfalso.
  - by apply Hs, Hk.
  - by apply He; symmetry; apply Hk.
Qed.

Lemma initial_inv : table_inv [] 0 ∅.
Proof. by split; intros; cbn in *; rewrite ?lookup_empty in *. Qed.

Lemma note_all_inv ns :
  Forall proper ns → in_order ns →
  table_inv ns (default 0 (n_ts <$> last ns)) (packet_dedup (note_all ns)).
Proof.
  induction ns as [|n ns IH] using rev_ind; intros Hp Ho; [exact initial_inv|].
  apply Forall_app in Hp as [Hp Hn]. rewrite Forall_singleton in Hn. apply in_order_snoc in Ho as [Ho Hle].
  rewrite last_snoc. unfold note_all. rewrite foldl_app. cbn. fold (note_all ns). rewrite note_one_run. cbn.
  eapply noted_inv; [done|done| |by apply IH].
  destruct (last ns) as [a|] eqn:Ha; cbn; [by apply Hle, last_Some_elem_of|by apply Hn].
Qed.

(** After any notes in the order of time, a packet is reported as a repetition with its number and
    the time since the last one; a packet reported as new was not noted in the last minute, and
    was never noted before when there were at most 20000 notes. *)
Theorem notes_report_repetitions ns n :
  Forall proper (ns ++ [n]) → in_order (ns ++ [n]) →
  ∃ repetition, (note_one n (note_all ns)).1 = Ok (dup_text repetition) ∧
    let before := n_ts <$> filter (same_packet n) ns in
    match repetition with
    | None => (∀ t, last before = Some t → t < n_ts n - 60000) ∧ (zlen ns ≤ 20000 → before = [])
    | Some (count, delta) =>
        ∃ t, last before = Some t ∧ delta = n_ts n - t ∧ 2 ≤ count ≤ Z.min U32_MAX (zlen before + 1) ∧
             (zlen ns ≤ 20000 → count = Z.min U32_MAX (zlen before + 1))
    end.
Proof using Hhash.
  intros [Hp Hn]%Forall_app Ho. rewrite Forall_singleton in Hn. apply in_order_snoc in Ho as [Ho Hle].
  pose proof (note_all_inv ns Hp Ho) as Ht. rewrite note_one_run. eexists. split; [done|]. cbn zeta.
  rewrite <- times_same_packet by done. destruct (packet_dedup (note_all ns) !! key_of n) as [[t c]|] eqn:He; cbn.
  - destruct (ti_true _ _ _ Ht _ _ _ He) as [Hl Hc]. exists t. split; [done|].
    assert (t ≤ n_ts n).
    { apply last_Some_elem_of in Hl. unfold times in Hl. apply list_elem_of_fmap in Hl as (a & -> & [_ Ha]%list_elem_of_filter). auto. }
    unfold count_of in Hc. split; [ulia|]. split; [ulia|]. intros Hlen.
    rewrite (ti_exact _ _ _ Ht Hlen), Hl in He. injection He as <-. unfold count_of. ulia.
  - split.
    + intros t Hl. destruct (decide (t < n_ts n - 60000)) as [|Hge]; [done|]. exfalso.
      assert (default 0 (n_ts <$> last ns) ≤ n_ts n).
      { destruct (last ns) as [a|] eqn:Ha; cbn; [by apply Hle, last_Some_elem_of|by apply Hn]. }
      destruct (ti_recent _ _ _ Ht _ _ Hl) as [e He']; [lia|]. congruence.
    + intros Hlen. rewrite (ti_exact _ _ _ Ht Hlen) in He.
      destruct (last (times (key_of n) ns)) as [t|] eqn:Hl; [done|]. by apply last_None.
Qed.

(** Between notes the table holds at most 20000 packets, or the packets of the last minute only. *)
Theorem table_is_bounded ns n :
  Forall proper (ns ++ [n]) → in_order (ns ++ [n]) →
  let t := packet_dedup (note_all (ns ++ [n])) in
  Z.of_nat (size t) ≤ 20000 ∨ ∀ k e, t !! k = Some e → n_ts n - 60000 ≤ e.1.
Proof.
  intros Hp Ho t. pose proof (note_all_inv _ Hp Ho) as Ht. rewrite last_snoc in Ht. cbn in Ht.
  destruct (decide (20000 < Z.of_nat (size t))) as [Hs|Hs]; [right|left; lia].
  by apply (ti_bound _ _ _ Ht).
Qed.

End Log.

(** *** Lines *)

Section Lines.
Context (hash64 : list byte → Z) (env : string → option str).

(** Whether the log is on is decided by the first call, whatever the environment says later. *)
Theorem switch_is_read_once env' l b l' :
  proto_log_enabled env l = (Ok b, l') → proto_log_enabled env' l' = (Ok b, l').
Proof.
  unfold proto_log_enabled, st_get, st_modify, mbind, ST_bind, mret, ST_ret. cbn.
  destruct (enabled_once l) as [b'|] eqn:He; intros [= <- <-]; cbn; by rewrite ?He.
Qed.

(** A call never fails; it writes one line when the log is on, and nothing when it is off. *)
Theorem one_line_per_packet side dir path_id bytes now_ms l :
  ∃ l', log_proto_packet hash64 env side dir path_id bytes now_ms l = (Ok (), l') ∧
    ∃ b, (proto_log_enabled env l).1 = Ok b ∧ enabled_once l' = Some b ∧
      if b then ∃ line, stderr l' = stderr l ++ [line] else stderr l' = stderr l ∧ packet_dedup l' = packet_dedup l.
Proof.
  assert (∃ b l1, proto_log_enabled env l = (Ok b, l1) ∧ enabled_once l1 = Some b ∧
    stderr l1 = stderr l ∧ packet_dedup l1 = packet_dedup l) as (b & l1 & He & Hb & Hs & Hd).
  { unfold proto_log_enabled, st_get, st_modify, mbind, ST_bind, mret, ST_ret. cbn.
    destruct (enabled_once l) as [b|] eqn:He; cbn; eauto 10. }
  unfold log_proto_packet. unfold mbind at 1, ST_bind at 1. rewrite He. cbn [fst].
  destruct b; cbn [negb]; [|by eauto 10].
  assert (∀ kind cid tail, ∃ l', (note ← dedup_note hash64 side dir path_id kind cid bytes now_ms; eprintln (tail note)) l1 = (Ok (), l') ∧
    enabled_once l' = Some true ∧ ∃ line, stderr l' = stderr l ++ [line]) as Hnote.
  { intros kind cid tail. pose proof (note_one_run hash64 (mkNote side dir path_id kind cid bytes now_ms) l1) as Hr.
    unfold note_one in Hr. cbn [n_side n_dir n_path n_kind n_cid n_bytes n_ts] in Hr.
    unfold mbind at 1, ST_bind at 1. rewrite Hr. unfold eprintln, st_modify. cbn. rewrite Hs. eauto. }
  destruct (Ffi.is_dtls_packet bytes).
  { destruct (Hnote (lit "DTLS") 0 (λ note, line_head side dir path_id now_ms ++ lit "DTLS len=" ++ show_u64 (zlen bytes) ++ lit " " ++ note)) as (l' & Hl & ? & ?). eauto 10. }
  pose proof (WireLemmas.decode_total bytes) as Htot. destruct (Wire.decode bytes) as [f|e|]; [| |done].
  all: match goal with |- ∃ l', (note ← dedup_note _ _ _ _ ?k ?c _ _; eprintln (@?t note)) _ = _ ∧ _ =>
    destruct (Hnote k c t) as (l' & Hl & ? & ?) end; eauto 10.
Qed.

End Lines.
