(* ===== verification/Jni.v ===== *)
(** * The Java interface ([v3-ffi/src/lib.rs], second part)

    The JNI functions: each refuses negative arguments, converts its arrays, calls the C function
    of the same name and casts the result.  A [JByteArray] argument is what its conversion gives
    ([None] when the JVM refuses it), an output array is its content. *)

From S2P Require Import Prelude Bytes Text Ffi.
From S2P Require Dtls Store.

(** [as jlong] of a [u64] and [as jint] of a [usize], [u32] or [i32]. *)
Definition as_jlong (z : Z) : Z := (z + 2 ^ 63) mod 2 ^ 64 - 2 ^ 63.
Definition as_jint (z : Z) : Z := (z + 2 ^ 31) mod 2 ^ 32 - 2 ^ 31.

Arguments as_jlong : simpl never.
Arguments as_jint : simpl never.

Section Jni.
Context `{ossl : !Dtls.Openssl, texts : !Texts}.
Context (base64_encode : list byte → string) (elapsed_us : Z → Z) (iter : gmap Z Store.Entry → list (Z * Store.Entry)).

Abbreviation ffi := (ST Registry Empty_set).

(** [let Some(bytes) = jbyte_array_to_vec(env, arr) else { return -1 }]. *)
Definition jbyte_array_to_vec (arr : option (list byte)) (k : list byte → ffi Z) : ffi Z :=
  match arr with
  | Some bytes => k bytes
  | None => mret (-1)
  end.

(** [bytes.as_ptr(), bytes.len()]. *)
Definition ptr_len (bytes : list byte) : option (list byte) * Z := (Some bytes, zlen bytes).

(** [set_byte_array_region]: the JVM refuses a region past the end of the array. *)
Definition copy_bytes_to_jbyte_array (out bytes : list byte) : Z * list byte :=
  if zlen bytes <=? zlen out then (as_jint (zlen bytes), bytes ++ drop (length bytes) out) else (-1, out).

Definition Java_io_todero_v3jni_V3NativeBindings_v3FfiAbiVersion : Z := as_jint v3_ffi_abi_version.

Definition Java_io_todero_v3jni_V3NativeBindings_v3FfiNewClient
    (cid msr_interval_ms miss_window_count disconnect_window_ms : Z) : ffi Z :=
  if (cid <? 0) || (msr_interval_ms <? 0) || (miss_window_count <? 0) || (disconnect_window_ms <? 0) then mret 0
  else id ← v3_ffi_new_client cid msr_interval_ms miss_window_count disconnect_window_ms; mret (as_jlong id).

Definition Java_io_todero_v3jni_V3NativeBindings_v3FfiNewServer
    (msr_interval_ms miss_window_count disconnect_window_ms : Z) : ffi Z :=
  if (msr_interval_ms <? 0) || (miss_window_count <? 0) || (disconnect_window_ms <? 0) then mret 0
  else id ← v3_ffi_new_server msr_interval_ms miss_window_count disconnect_window_ms; mret (as_jlong id).

Definition Java_io_todero_v3jni_V3NativeBindings_v3FfiFree (handle : Z) : ffi () :=
  st_when (0 <=? handle) (v3_ffi_free handle).

Definition Java_io_todero_v3jni_V3NativeBindings_v3FfiBeginHandshake (handle now_ms : Z) : ffi Z :=
  if (handle <? 0) || (now_ms <? 0) then mret (-1) else v3_ffi_begin_handshake base64_encode handle now_ms.

Definition Java_io_todero_v3jni_V3NativeBindings_v3FfiOnDatagram (path_exists : str → bool)
    (handle now_ms path_id : Z) (data : option (list byte)) : ffi Z :=
  if (handle <? 0) || (now_ms <? 0) || (path_id <? 0) then mret (-1)
  else jbyte_array_to_vec data (λ bytes,
    v3_ffi_on_datagram base64_encode elapsed_us iter path_exists handle now_ms path_id (ptr_len bytes).1 (ptr_len bytes).2).

Definition Java_io_todero_v3jni_V3NativeBindings_v3FfiSendMessage (handle : Z) (data : option (list byte)) : ffi Z :=
  if handle <? 0 then mret (-1)
  else jbyte_array_to_vec data (λ bytes, v3_ffi_send_message base64_encode handle (ptr_len bytes).1 (ptr_len bytes).2).

Definition Java_io_todero_v3jni_V3NativeBindings_v3FfiCloseSession (handle : Z) : ffi Z :=
  if handle <? 0 then mret (-1) else v3_ffi_close_session base64_encode handle.

Definition Java_io_todero_v3jni_V3NativeBindings_v3FfiConfigureNat (handle relay_policy : Z)
    (stun_uri turn_uri turn_realm turn_username turn_password : option (list byte)) : ffi Z :=
  if handle <? 0 then mret (-1)
  else
    jbyte_array_to_vec stun_uri (λ stun,
    jbyte_array_to_vec turn_uri (λ turn,
    jbyte_array_to_vec turn_realm (λ realm,
    jbyte_array_to_vec turn_username (λ user,
    jbyte_array_to_vec turn_password (λ pass,
      v3_ffi_configure_nat handle relay_policy (ptr_len stun) (ptr_len turn) (ptr_len realm) (ptr_len user) (ptr_len pass)))))).

Definition Java_io_todero_v3jni_V3NativeBindings_v3FfiConfigureClientTls (handle : Z)
    (expected_server_name : option (list byte)) : ffi Z :=
  if handle <? 0 then mret (-1)
  else jbyte_array_to_vec expected_server_name (λ expected, v3_ffi_configure_client_tls handle (ptr_len expected)).

Definition Java_io_todero_v3jni_V3NativeBindings_v3FfiTlsClearAnchors (handle : Z) : ffi Z :=
  if handle <? 0 then mret (-1) else v3_ffi_tls_clear_anchors handle.

Definition Java_io_todero_v3jni_V3NativeBindings_v3FfiTlsAddAnchorPem (handle : Z) (pem_bytes : option (list byte)) : ffi Z :=
  if handle <? 0 then mret (-1)
  else jbyte_array_to_vec pem_bytes (λ pem, v3_ffi_tls_add_anchor_pem handle (ptr_len pem)).

Definition Java_io_todero_v3jni_V3NativeBindings_v3FfiConfigureServerTls (path_exists : str → bool) (handle : Z)
    (server_name cert_path key_path : option (list byte)) : ffi Z :=
  if handle <? 0 then mret (-1)
  else
    jbyte_array_to_vec server_name (λ server_name,
    jbyte_array_to_vec cert_path (λ cert_path,
    jbyte_array_to_vec key_path (λ key_path,
      v3_ffi_configure_server_tls path_exists handle (ptr_len server_name) (ptr_len cert_path) (ptr_len key_path)))).

Definition Java_io_todero_v3jni_V3NativeBindings_v3FfiServerSendMessage (handle cid : Z)
    (data : option (list byte)) (now_ms : Z) : ffi Z :=
  if (handle <? 0) || (cid <? 0) || (now_ms <? 0) then mret (-1)
  else jbyte_array_to_vec data (λ bytes,
    v3_ffi_server_send_message base64_encode elapsed_us iter handle cid (ptr_len bytes).1 (ptr_len bytes).2 now_ms).

Definition Java_io_todero_v3jni_V3NativeBindings_v3FfiPollTimers (handle now_ms limit : Z) : ffi Z :=
  if (handle <? 0) || (now_ms <? 0) || (limit <? 0) then mret (-1)
  else v3_ffi_poll_timers base64_encode elapsed_us iter handle now_ms limit.

Definition Java_io_todero_v3jni_V3NativeBindings_v3FfiPollNat (handle now_ms : Z) : ffi Z :=
  if (handle <? 0) || (now_ms <? 0) then mret (-1) else v3_ffi_poll_nat base64_encode handle now_ms.

Definition Java_io_todero_v3jni_V3NativeBindings_v3FfiClearOutput (handle : Z) : ffi () :=
  st_when (0 <=? handle) (v3_ffi_clear_output handle).

(* ------------------------------------------------------------------ *)
(** ** Reading the output *)
(* ------------------------------------------------------------------ *)

Definition Java_io_todero_v3jni_V3NativeBindings_v3FfiOutDatagramCount (handle : Z) (reg : Registry) : Z :=
  if handle <? 0 then 0 else as_jint (v3_ffi_out_datagram_count handle reg).

Definition Java_io_todero_v3jni_V3NativeBindings_v3FfiOutDatagramLen (handle index : Z) (reg : Registry) : Z :=
  if (handle <? 0) || (index <? 0) then 0 else as_jint (v3_ffi_out_datagram_len handle index reg).

Definition Java_io_todero_v3jni_V3NativeBindings_v3FfiOutDatagramPathId (handle index : Z) (reg : Registry) : Z :=
  if (handle <? 0) || (index <? 0) then 0 else as_jint (v3_ffi_out_datagram_path_id handle index reg).

(** The body of the copying functions: a native buffer of the length is filled, then copied. *)
Definition copy_to_java (len : Z) (copy : option (list byte) → Z → Z * option (list byte)) (out : list byte)
    : Z * list byte :=
  if len =? 0 then (0, out)
  else
    let '(copied, bytes) := copy (Some (replicate (Z.to_nat len) x00)) len in
    if copied =? 0 then (0, out)
    else copy_bytes_to_jbyte_array out (take (Z.to_nat copied) (default [] bytes)).

Definition Java_io_todero_v3jni_V3NativeBindings_v3FfiOutDatagramCopy (handle index : Z) (out : list byte) (reg : Registry)
    : Z * list byte :=
  if (handle <? 0) || (index <? 0) then (-1, out)
  else copy_to_java (v3_ffi_out_datagram_len handle index reg)
         (λ ptr len, v3_ffi_out_datagram_copy handle index ptr len reg) out.

Definition Java_io_todero_v3jni_V3NativeBindings_v3FfiOutEventCount (handle : Z) (reg : Registry) : Z :=
  if handle <? 0 then 0 else as_jint (v3_ffi_out_event_count handle reg).

Definition Java_io_todero_v3jni_V3NativeBindings_v3FfiOutEventLen (handle index : Z) (reg : Registry) : Z :=
  if (handle <? 0) || (index <? 0) then 0 else as_jint (v3_ffi_out_event_len handle index reg).

Definition Java_io_todero_v3jni_V3NativeBindings_v3FfiOutEventCopy (handle index : Z) (out : list byte) (reg : Registry)
    : Z * list byte :=
  if (handle <? 0) || (index <? 0) then (-1, out)
  else copy_to_java (v3_ffi_out_event_len handle index reg)
         (λ ptr len, v3_ffi_out_event_copy handle index ptr len reg) out.

Definition Java_io_todero_v3jni_V3NativeBindings_v3FfiLastErrorLen (handle : Z) (reg : Registry) : Z :=
  if handle <? 0 then 0 else as_jint (v3_ffi_last_error_len handle reg).

Definition Java_io_todero_v3jni_V3NativeBindings_v3FfiLastErrorCopy (handle : Z) (out : list byte) (reg : Registry)
    : Z * list byte :=
  if handle <? 0 then (-1, out)
  else copy_to_java (v3_ffi_last_error_len handle reg)
         (λ ptr len, v3_ffi_last_error_copy handle ptr len reg) out.

End Jni.
