(* ===== verification/FfiProps.v ===== *)
(** * Correctness of the C interface

    Whatever a host calls, each handle keeps an engine and a TLS mode of the same side and a
    runtime whose clocks run, and a datagram reaches an engine behind TLS only after its
    handshake. *)

From S2P Require Import Prelude Bytes Text TimerQueue Ffi Jni.
From S2P Require Core CoreSpec CoreClock Dtls DtlsProps Store StoreProps StoreSpec ClientRuntime ClientProps ServerRuntime ServerProps.

Section Ffi.
Context `{ossl : !Dtls.Openssl, texts : !Texts}.
Context (base64_encode : list byte → string) (elapsed_us : Z → Z) (iter : gmap Z Store.Entry → list (Z * Store.Entry)).

#[local] Instance runtime_store : Store.SessionStore Store.InMemorySessionStore := Store.in_memory_store iter.

Abbreviation ffi := (ST Registry Empty_set).
Abbreviation method := (ST EngineHandle Empty_set).

(* ------------------------------------------------------------------ *)
(** ** Runs of calls *)
(* ------------------------------------------------------------------ *)

(** The calls that change the registry, with what the file system says at that moment. *)
Inductive ffi_call : Type :=
| NewClient (cid msr_interval_ms miss_window_count disconnect_window_ms : Z)
| NewServer (msr_interval_ms miss_window_count disconnect_window_ms : Z)
| FreeHandle (handle_id : Z)
| BeginHandshake (handle_id now_ms : Z)
| OnDatagram (path_exists : str → bool) (handle_id now_ms path_id : Z) (data_ptr : option (list byte)) (data_len : Z)
| SendMessage (handle_id : Z) (data_ptr : option (list byte)) (data_len : Z)
| CloseSession (handle_id : Z)
| ServerSendMessage (handle_id cid : Z) (data_ptr : option (list byte)) (data_len now_ms : Z)
| PollTimers (handle_id now_ms limit : Z)
| PollNat (handle_id now_ms : Z)
| ConfigureNat (handle_id relay_policy : Z) (stun_uri turn_uri turn_realm turn_username turn_password : option (list byte) * Z)
| ConfigureClientTls (handle_id : Z) (expected_server_name : option (list byte) * Z)
| ClearAnchors (handle_id : Z)
| AddAnchorPem (handle_id : Z) (pem : option (list byte) * Z)
| ConfigureServerTls (path_exists : str → bool) (handle_id : Z) (server_name cert_path key_path : option (list byte) * Z)
| ClearOutput (handle_id : Z).

Definition ffi_step (c : ffi_call) : ffi Z :=
  match c with
  | NewClient cid a b d => v3_ffi_new_client cid a b d
  | NewServer a b d => v3_ffi_new_server a b d
  | FreeHandle id => v3_ffi_free id ;; mret 0
  | BeginHandshake id now => v3_ffi_begin_handshake base64_encode id now
  | OnDatagram fs id now path ptr len => v3_ffi_on_datagram base64_encode elapsed_us iter fs id now path ptr len
  | SendMessage id ptr len => v3_ffi_send_message base64_encode id ptr len
  | CloseSession id => v3_ffi_close_session base64_encode id
  | ServerSendMessage id cid ptr len now => v3_ffi_server_send_message base64_encode elapsed_us iter id cid ptr len now
  | PollTimers id now limit => v3_ffi_poll_timers base64_encode elapsed_us iter id now limit
  | PollNat id now => v3_ffi_poll_nat base64_encode id now
  | ConfigureNat id relay a b c d e => v3_ffi_configure_nat id relay a b c d e
  | ConfigureClientTls id name => v3_ffi_configure_client_tls id name
  | ClearAnchors id => v3_ffi_tls_clear_anchors id
  | AddAnchorPem id pem => v3_ffi_tls_add_anchor_pem id pem
  | ConfigureServerTls fs id a b c => v3_ffi_configure_server_tls fs id a b c
  | ClearOutput id => v3_ffi_clear_output id ;; mret 0
  end.

Fixpoint ffi_run (cs : list ffi_call) (reg : Registry) : list (outcome Empty_set Z) * Registry :=
  match cs with
  | [] => ([], reg)
  | c :: cs' =>
      let '(o, reg1) := ffi_step c reg in
      let '(os, reg2) := ffi_run cs' reg1 in
      (o :: os, reg2)
  end.

(** The host passes a [u64] for the connection of a client. *)
Definition call_typed (c : ffi_call) : Prop :=
  match c with NewClient cid _ _ _ => is_u64 cid | _ => True end.

(* ------------------------------------------------------------------ *)
(** ** The invariant of a handle *)
(* ------------------------------------------------------------------ *)

(** The TLS mode is of the side of the engine, and the machine of a client was started exactly
    when its TLS was established. *)
Definition tls_fits (k : EngineKind) (t : TlsMode) : Prop :=
  match k, t with
  | ClientEngine _, TlsClient t => core_started t = established t
  | ServerEngine _, TlsClient _ | ClientEngine _, TlsServer _ => False
  | _, _ => True
  end.

Definition clocks_run (k : EngineKind) : Prop :=
  match k with
  | ClientEngine runtime => ClientProps.clock_inv runtime
  | ServerEngine runtime => ServerProps.clocked (λ _, False) runtime
  end.

Definition handle_ok (h : EngineHandle) : Prop := tls_fits (kind h) (tls h) ∧ clocks_run (kind h).

Definition registry_ok (reg : Registry) : Prop :=
  1 ≤ next_handle reg ∧ ∀ id h, handles reg !! id = Some h → 1 ≤ id < next_handle reg ∧ handle_ok h.

(** A body keeps the invariant from the handle [h]. *)
Definition keeps_ok {A} (body : method A) (h : EngineHandle) : Prop := wp body (λ _ h', handle_ok h') h.

Lemma wp_with_handle {A} id (absent : A) (body : method A) (Q : outcome Empty_set A → Registry → Prop) reg :
  (handles reg !! id = None → Q (Ok absent) reg) →
  (∀ h, handles reg !! id = Some h → wp body (λ o h', Q o (reg <| handles := <[id := h']> (handles reg) |>)) h) →
  wp (with_handle id absent body) Q reg.
Proof.
  intros Hn Hs. unfold wp, with_handle. destruct (handles reg !! id) as [h|]; [|by apply Hn].
  specialize (Hs h eq_refl). unfold wp in Hs. by destruct (body h).
Qed.

Definition bounded_step (reg reg' : Registry) : Prop :=
  next_handle reg ≤ next_handle reg' ≤ next_handle reg + 1.

Lemma ok_with_handle {A} id (absent : A) body reg :
  (∀ h, handle_ok h → keeps_ok body h) → registry_ok reg →
  wp (with_handle id absent body) (λ _ reg', registry_ok reg' ∧ bounded_step reg reg') reg.
Proof.
  intros Hb [Hn Hreg]. unfold bounded_step. apply wp_with_handle; [intros _; split; [by split|lia]|].
  intros h Hh. destruct (Hreg id h Hh) as [Hid Hok]. eapply wp_mono, Hb, Hok. intros o h' Hok'. cbn.
  split; [|lia]. split; [done|]. intros id' h2 H2. cbn in *. destruct (decide (id' = id)) as [->|].
  - rewrite lookup_insert_eq in H2. by simplify_eq.
  - rewrite lookup_insert_ne in H2 by done. by apply Hreg.
Qed.

(** The runtimes keep their clocks. *)
Definition client_keeps (call : ST ClientRuntime.ClientRuntime ClientRuntime.ClientRuntimeError ClientRuntime.ClientRuntimeOutput) : Prop :=
  ∀ r, ClientProps.clock_inv r → ClientProps.clock_inv (call r).2.

Definition server_keeps (call : ST (ServerRuntime.ServerRuntime Store.InMemorySessionStore) ServerRuntime.ServerRuntimeError ServerRuntime.ServerRuntimeOutput) : Prop :=
  ∀ r, ServerProps.clocked (λ _, False) r → ServerProps.clocked (λ _, False) (call r).2.

Lemma client_step_keeps c : client_keeps (ClientRuntime.client_step c).
Proof. intros r. apply ClientProps.clock_step. Qed.

Lemma server_step_keeps c : server_keeps (ServerRuntime.server_step base64_encode elapsed_us c).
Proof. intros r. apply ServerProps.clocked_step. Qed.

Lemma ok_run_client call runtime h :
  client_keeps call → handle_ok h → kind h = ClientEngine runtime → keeps_ok (run_client base64_encode call runtime) h.
Proof.
  intros Hc [Ht Hk] Hkind. rewrite Hkind in Ht, Hk. specialize (Hc runtime Hk).
  unfold keeps_ok, run_client. destruct (call runtime) as [o r']. unfold handle_ok.
  by destruct o as [out|e|].
Qed.

Lemma ok_run_server call runtime h :
  server_keeps call → handle_ok h → kind h = ServerEngine runtime → keeps_ok (run_server call runtime) h.
Proof.
  intros Hc [Ht Hk] Hkind. rewrite Hkind in Ht, Hk. specialize (Hc runtime Hk).
  unfold keeps_ok, run_server. destruct (call runtime) as [o r']. unfold handle_ok.
  by destruct o as [out|e|].
Qed.
(** Execute a body that writes the handle field by field. *)
Ltac run_body :=
  unfold keeps_ok, wp, handle_ok, set_tls, set_output, set_error, set_kind, st_modify, st_get, st_panic,
    mbind, ST_bind, mret, ST_ret; cbn.

(** Methods that only write the output or the error keep a handle as it is. *)
Lemma ok_set_error e h : handle_ok h → keeps_ok (set_error e) h.
Proof. by intros H. Qed.

Lemma ok_set_output b h : handle_ok h → keeps_ok (set_output b) h.
Proof. by intros H. Qed.

Lemma ok_begin_handshake id now reg :
  registry_ok reg →
  wp (v3_ffi_begin_handshake base64_encode id now) (λ _ reg', registry_ok reg' ∧ bounded_step reg reg') reg.
Proof.
  apply ok_with_handle. intros h Hok. unfold keeps_ok. wp_run.
  destruct (kind h) as [runtime|runtime] eqn:Hk; [|by apply wp_ret].
  pose proof (ok_run_client _ runtime h (client_step_keeps (ClientRuntime.BeginHandshake now)) Hok Hk) as Hrun.
  destruct (tls h) as [|t|t] eqn:Ht; [exact Hrun| |exact Hrun].
  destruct (negb (established t)); [|exact Hrun].
  destruct (Dtls.start_client _ _) as [o a]. destruct Hok as [Hf Hc]. rewrite Hk, Ht in Hf. rewrite Hk in Hc.
  destruct o as [hs|e|]; run_body; rewrite ?Hk; by split.
Qed.

Lemma ok_client_tls_datagram now path bs runtime t h :
  handle_ok h → kind h = ClientEngine runtime → tls h = TlsClient t → established t = false →
  keeps_ok (client_tls_datagram now path bs runtime t) h.
Proof.
  intros [Hf Hc] Hk Ht He. rewrite Hk, Ht in Hf. rewrite Hk in Hc.
  assert (Hs : core_started t = false) by congruence.
  unfold client_tls_datagram.
  destruct (Dtls.on_datagram bs (adapter t)) as [[out|e|] a]; run_body; rewrite ?Hk; [|by split..].
  destruct (Dtls.established out); cbn; rewrite ?Hk; [|by split].
  rewrite Hs. cbn. unfold start_core, set_output, set_error, set_kind, st_modify, st_panic, mbind, ST_bind, mret, ST_ret. cbn.
  pose proof (client_step_keeps (ClientRuntime.BeginHandshake now) runtime Hc) as Hr. cbn in Hr.
  destruct (ClientRuntime.begin_handshake now runtime) as [[out'|e|] r']; cbn; by split.
Qed.

Lemma ok_on_datagram fs id now path ptr len reg :
  registry_ok reg →
  wp (v3_ffi_on_datagram base64_encode elapsed_us iter fs id now path ptr len)
    (λ _ reg', registry_ok reg' ∧ bounded_step reg reg') reg.
Proof.
  apply ok_with_handle. intros h Hok. unfold keeps_ok. cbv zeta. wp_run.
  set (bs := bytes_from_ptr ptr len). destruct (kind h) as [runtime|runtime] eqn:Hk.
  - pose proof (ok_run_client _ runtime h (client_step_keeps (ClientRuntime.OnDatagram now path bs)) Hok Hk) as Hrun.
    destruct (tls h) as [|t|t] eqn:Ht; [exact Hrun| |exact Hrun].
    destruct (established t) eqn:He; cbn [negb]; [|by apply ok_client_tls_datagram].
    destruct (is_dtls_packet bs); [by apply ok_set_output|exact Hrun].
  - assert (Hrun : ∀ h', handle_ok h' → kind h' = ServerEngine runtime →
      keeps_ok (run_server (ServerRuntime.on_datagram base64_encode elapsed_us now path bs) runtime) h')
      by (intros h' Hok' Hk'; exact (ok_run_server _ runtime h' (server_step_keeps (ServerRuntime.OnDatagram now path bs)) Hok' Hk')).
    destruct (tls h) as [|t|t] eqn:Ht; [by apply Hrun|by apply Hrun|].
    destruct (path_session fs path t) as [s|]; [|exact Hok]. cbv zeta. destruct Hok as [_ Hc]. rewrite Hk in Hc.
    destruct (is_dtls_packet bs); [|destruct (path_established s)].
    + destruct (Dtls.on_datagram bs (path_adapter s)) as [o a].
      destruct o as [out|e|]; run_body; rewrite ?Hk; by split.
    + apply wp_bind. unfold wp. cbn [set_tls st_modify then_wp negb]. apply Hrun; [|done]. by split; cbn; rewrite ?Hk.
    + run_body. rewrite ?Hk. by split.
Qed.

(** A client call and a server call of the host, on an engine of that side. *)
Lemma ok_client_call id (absent : Z) call reg :
  client_keeps call → registry_ok reg →
  wp (with_handle id absent (
        h ← st_get;
        match kind h with
        | ClientEngine runtime => run_client base64_encode call runtime
        | ServerEngine _ => mret (-1)
        end)) (λ _ reg', registry_ok reg' ∧ bounded_step reg reg') reg.
Proof.
  intros Hc. apply ok_with_handle. intros h Hok. unfold keeps_ok. wp_run.
  destruct (kind h) as [runtime|runtime] eqn:Hk; [by apply ok_run_client|by apply wp_ret].
Qed.

Lemma ok_server_send id cid ptr len now reg :
  registry_ok reg →
  wp (v3_ffi_server_send_message base64_encode elapsed_us iter id cid ptr len now)
    (λ _ reg', registry_ok reg' ∧ bounded_step reg reg') reg.
Proof.
  apply ok_with_handle. intros h Hok. unfold keeps_ok. wp_run.
  destruct (kind h) as [runtime|runtime] eqn:Hk; [by apply wp_ret|].
  exact (ok_run_server _ runtime h (server_step_keeps (ServerRuntime.SendMessage cid (bytes_from_ptr ptr len) now)) Hok Hk).
Qed.

Lemma ok_poll_timers id now limit reg :
  registry_ok reg →
  wp (v3_ffi_poll_timers base64_encode elapsed_us iter id now limit)
    (λ _ reg', registry_ok reg' ∧ bounded_step reg reg') reg.
Proof.
  apply ok_with_handle. intros h Hok. unfold keeps_ok. wp_run.
  destruct (kind h) as [runtime|runtime] eqn:Hk.
  - exact (ok_run_client _ runtime h (client_step_keeps (ClientRuntime.PollTimers now limit)) Hok Hk).
  - exact (ok_run_server _ runtime h (server_step_keeps (ServerRuntime.PollTimers now limit)) Hok Hk).
Qed.

Lemma ok_with_text what bs (k : str → method Z) h :
  handle_ok h → (∀ text, keeps_ok (k text) h) → keeps_ok (with_text what bs k) h.
Proof. intros Hok Hk. unfold with_text. destruct (utf8 bs); [apply Hk|by apply ok_set_error]. Qed.

Lemma ok_configure_nat id relay a b c d e reg :
  registry_ok reg →
  wp (v3_ffi_configure_nat id relay a b c d e) (λ _ reg', registry_ok reg' ∧ bounded_step reg reg') reg.
Proof.
  apply ok_with_handle. intros h Hok. cbv zeta. do 5 (apply ok_with_text; [done|]; intros ?).
  destruct Hok as [Hf Hc]. run_body. destruct (kind h) as [runtime|runtime] eqn:Hk; cbn; by split.
Qed.

Lemma ok_configure_client_tls id name reg :
  registry_ok reg →
  wp (v3_ffi_configure_client_tls id name) (λ _ reg', registry_ok reg' ∧ bounded_step reg reg') reg.
Proof.
  apply ok_with_handle. intros h Hok. apply ok_with_text; [done|]. intros text.
  destruct (build_client_tls_cfg text) as [conf|e|]; [|by apply ok_set_error|exact Hok].
  run_body. destruct Hok as [Hf Hc]. destruct (kind h) as [runtime|runtime] eqn:Hk; cbn; rewrite ?Hk; by split.
Qed.

Lemma ok_change_anchors f h : handle_ok h → keeps_ok (change_anchors f) h.
Proof.
  intros Hok. unfold change_anchors. run_body. destruct (tls h) as [|t|t] eqn:Ht; cbn; [exact Hok| |exact Hok].
  destruct (_ || _) eqn:He; cbn; [exact Hok|]. destruct Hok as [Hf Hc]. rewrite Ht in Hf.
  destruct (kind h) eqn:Hk; by split.
Qed.

Lemma ok_configure_server_tls fs id a b c reg :
  registry_ok reg →
  wp (v3_ffi_configure_server_tls fs id a b c) (λ _ reg', registry_ok reg' ∧ bounded_step reg reg') reg.
Proof.
  apply ok_with_handle. intros h Hok. do 3 (apply ok_with_text; [done|]; intros ?).
  destruct (build_server_tls_cfg _ _ _ _) as [conf|e|]; [|by apply ok_set_error|exact Hok].
  run_body. destruct Hok as [Hf Hc]. destruct (kind h) as [runtime|runtime] eqn:Hk; cbn; rewrite ?Hk; by split.
Qed.

Lemma ok_add_handle k reg :
  clocks_run k → next_handle reg < U64_MAX → registry_ok reg →
  wp (add_handle k) (λ _ reg', registry_ok reg' ∧ bounded_step reg reg') reg.
Proof.
  intros Hk Hroom [Hn Hreg]. unfold add_handle, bounded_step. wp_run. cbn.
  assert (Hnext : add64 (next_handle reg) 1 = next_handle reg + 1)
    by (unfold add64, wrap64; rewrite Z.mod_small; [done|]; unfold U64_MAX in *; lia).
  rewrite Hnext. split; [|lia]. split; [cbn; lia|]. intros id h Hh. cbn in *.
  destruct (decide (id = next_handle reg)) as [->|Hne].
  - rewrite lookup_insert_eq in Hh. injection Hh as <-. split; [lia|]. split; [by destruct k|done].
  - rewrite lookup_insert_ne in Hh by done. destruct (Hreg id h Hh). split; [lia|done].
Qed.

Lemma ok_new_server a b d reg :
  next_handle reg < U64_MAX → registry_ok reg →
  wp (v3_ffi_new_server a b d) (λ _ reg', registry_ok reg' ∧ bounded_step reg reg') reg.
Proof.
  intros Hroom Hreg. unfold v3_ffi_new_server. destruct Store.with_default_shards as [st|e|].
  - apply ok_add_handle; [|done..]. intros c s Hs. cbn in Hs. by rewrite lookup_empty in Hs.
  - split; [done|]. unfold bounded_step. cbn. lia.
  - split; [done|]. unfold bounded_step. cbn. lia.
Qed.

(** A call whose result is not looked at. *)
Lemma wp_then_zero (m : ffi ()) (Q : Registry → Prop) reg :
  wp m (λ _ reg', Q reg') reg → wp (m ;; mret 0) (λ _ reg', Q reg') reg.
Proof. unfold wp, mbind, ST_bind. by destruct (m reg) as [[[]|e|] reg']. Qed.

Lemma ok_step c reg :
  call_typed c → next_handle reg < U64_MAX → registry_ok reg →
  wp (ffi_step c) (λ _ reg', registry_ok reg' ∧ bounded_step reg reg') reg.
Proof.
  intros Ht Hroom Hreg. destruct c; cbn [ffi_step].
  - apply ok_add_handle; [|done..]. split; [done|]. split; [exact Ht|]. unfold CoreClock.live. cbn. by intros [].
  - by apply ok_new_server.
  - apply wp_then_zero, wp_modify. destruct Hreg as [Hn Hreg]. split; [|unfold bounded_step; cbn; lia].
    split; [done|]. intros id h Hh. cbn in *. apply Hreg. by apply lookup_delete_Some in Hh as [_ Hh].
  - by apply ok_begin_handshake.
  - by apply ok_on_datagram.
  - by apply ok_client_call; [exact (client_step_keeps (ClientRuntime.SendMessage _))|].
  - by apply ok_client_call; [exact (client_step_keeps ClientRuntime.CloseSession)|].
  - by apply ok_server_send.
  - by apply ok_poll_timers.
  - apply ok_with_handle; [|done]. intros h Hok. unfold keeps_ok. wp_run. destruct (kind h); by apply wp_bind.
  - by apply ok_configure_nat.
  - by apply ok_configure_client_tls.
  - apply ok_with_handle; [|done]. intros h. apply ok_change_anchors.
  - apply ok_with_handle; [|done]. intros h Hok. cbv zeta. case_bool_decide; [by apply ok_set_error|by apply ok_change_anchors].
  - by apply ok_configure_server_tls.
  - apply wp_then_zero, ok_with_handle; [|done]. intros h. apply ok_set_output.
Qed.

Lemma ok_run cs reg :
  Forall call_typed cs → next_handle reg + zlen cs ≤ U64_MAX → registry_ok reg →
  let reg' := (ffi_run cs reg).2 in registry_ok reg' ∧ next_handle reg' ≤ next_handle reg + zlen cs.
Proof.
  intros Hcs. revert reg. induction Hcs as [|c cs Hc _ IH]; intros reg Hroom Hreg; cbn [ffi_run snd].
  { split; [done|]. change (zlen (@nil ffi_call)) with 0. lia. }
  rewrite zlen_cons in *. pose proof (zlen_nonneg cs).
  pose proof (ok_step c reg Hc ltac:(lia) Hreg) as [Hreg1 Hb]. unfold bounded_step in Hb.
  destruct (ffi_step c reg) as [o reg1]. cbn in Hreg1, Hb. specialize (IH reg1 ltac:(lia) Hreg1).
  destruct (ffi_run cs reg1) as [os reg2]. cbn in *. destruct IH as [? ?]. split; [done|lia].
Qed.

Lemma initial_registry_ok : registry_ok initial_registry.
Proof. split; [done|]. intros id h Hh. cbn in Hh. by rewrite lookup_empty in Hh. Qed.

(** C24. Behind the interface no clock stops: over any calls of its hosts on any handles, every
    client that is established or reactivating has its probe timer in the queue of its handle,
    and every established session of a server its MSR timer, whatever TLS, errors and other
    handles do in between. *)
Theorem clocks_run_behind_the_interface (cs : list ffi_call) :
  Forall call_typed cs → zlen cs < U64_MAX →
  ∀ id h, handles (ffi_run cs initial_registry).2 !! id = Some h →
  match kind h with
  | ClientEngine r =>
      CoreClock.live (ClientRuntime.core r) → ∃ d, pending (ClientRuntime.timers r) d Core.ClientProbe
  | ServerEngine r =>
      ∀ cid s, ServerRuntime.sessions r !! cid = Some s → Core.state (ServerRuntime.core s) = Core.Established →
        ∃ d, pending (ServerRuntime.timers r) d (cid, Core.ServerMsr)
  end.
Proof.
  intros Hcs Hlen id h Hh. destruct (ok_run cs initial_registry Hcs) as [[_ Hreg] _]; [change (next_handle initial_registry) with 1; lia|exact initial_registry_ok|].
  apply Hreg in Hh as (_ & _ & Hc). destruct (kind h) as [r|r]; [by apply Hc|].
  intros cid s Hs Hst. destruct (Hc cid s Hs) as (Hrole & _ & _ & Hl).
  destruct Hl as [Hd|[]]; [|exact Hd]. unfold CoreClock.live. by rewrite Hrole.
Qed.

(* ------------------------------------------------------------------ *)
(** ** The gate in front of an engine *)
(* ------------------------------------------------------------------ *)

(** The datagram completes the handshake of the adapter. *)
Definition completes (bs : list byte) (a : Dtls.OpenSslDtlsAdapter) : bool :=
  match (Dtls.on_datagram bs a).1 with Ok out => Dtls.established out | _ => false end.

(** TLS is configured and its handshake, on that path for a server, has not completed. *)
Definition tls_pending (path : Z) (h : EngineHandle) : Prop :=
  match kind h, tls h with
  | ClientEngine _, TlsClient t => established t = false
  | ServerEngine _, TlsServer t => ∀ s, sessions_by_path t !! path = Some s → path_established s = false
  | _, _ => False
  end.

(** What a datagram may do to a handle behind the gate: only the handshake of its adapter decides
    whether the path opens; a client's machine is then started, a server's never runs. *)
Definition gated (fs : str → bool) (now path : Z) (bs : list byte) (h h' : EngineHandle) : Prop :=
  match kind h, tls h, tls h' with
  | ClientEngine r, TlsClient t, TlsClient t' =>
      established t' = completes bs (adapter t) ∧
      kind h' = if completes bs (adapter t) then ClientEngine (ClientRuntime.begin_handshake now r).2 else kind h
  | ServerEngine _, TlsServer t, TlsServer t' =>
      kind h' = kind h ∧
      (∀ p, p ≠ path → sessions_by_path t' !! p = sessions_by_path t !! p) ∧
      path_established <$> sessions_by_path t' !! path =
        ((λ s, is_dtls_packet bs && completes bs (path_adapter s)) <$> path_session fs path t)
  | _, _, _ => False
  end.

Lemma path_session_closed fs path t s :
  (∀ s, sessions_by_path t !! path = Some s → path_established s = false) →
  path_session fs path t = Some s → path_established s = false.
Proof.
  intros Hc. unfold path_session. destruct (sessions_by_path t !! path) as [s0|]; [intros [= <-]; by apply Hc|].
  destruct (build_server_tls_cfg _ _ _ _); [|done..]. by intros [= <-].
Qed.

Lemma client_gate now path bs r t h :
  kind h = ClientEngine r → tls h = TlsClient t → established t = false → core_started t = false →
  wp (client_tls_datagram now path bs r t) (λ _ h', gated (λ _, false) now path bs h h') h.
Proof.
  intros Hk Ht He Hs. unfold client_tls_datagram, gated, completes. rewrite Hk, Ht.
  destruct (Dtls.on_datagram bs (adapter t)) as [[out|e|] a]; run_body; rewrite ?He, ?Hk; [|by split..].
  destruct (Dtls.established out); cbn; rewrite ?Hk; [|by split].
  rewrite Hs. unfold start_core. run_body.
  by destruct (ClientRuntime.begin_handshake now r) as [[out'|e|] r'].
Qed.

(** No session can be made for the path of a server: its TLS files are gone. *)
Definition no_path_session (fs : str → bool) (path : Z) (h : EngineHandle) : Prop :=
  match tls h with TlsServer t => path_session fs path t = None | _ => False end.

(** The datagram that completes the TLS of a client starts its machine. *)
Lemma completing_datagram_starts fs id now path ptr len reg h r t :
  handles reg !! id = Some h → kind h = ClientEngine r → tls h = TlsClient t →
  core_started t = false → established t = false → completes (bytes_from_ptr ptr len) (adapter t) = true →
  kind <$> handles (v3_ffi_on_datagram base64_encode elapsed_us iter fs id now path ptr len reg).2 !! id =
    Some (ClientEngine (ClientRuntime.begin_handshake now r).2).
Proof.
  intros Hh Hk Ht Hs He Hcomp.
  apply (wp_with_handle id (-1) _ (λ _ reg', kind <$> handles reg' !! id = Some (ClientEngine (ClientRuntime.begin_handshake now r).2)));
    [by rewrite Hh|]. rewrite Hh. intros ? [= <-]. cbv zeta. wp_run. rewrite Hk, Ht, He. cbn [negb].
  eapply wp_mono; [|apply (client_gate now path (bytes_from_ptr ptr len) r t h); congruence].
  intros o h' Hg. unfold gated in Hg. rewrite Hk, Ht, Hcomp in Hg. cbn. rewrite lookup_insert_eq. cbn.
  destruct (tls h'); [done| |done]. by destruct Hg as [_ ->].
Qed.

(** C16. The registry stays well typed over any calls of its hosts, on any handles, failing and
    panicking calls included: every handle in it was handed out and is not handed out again, the
    TLS mode of a handle is of the side of its engine, and the two flags of a client's TLS mode,
    [established] and [core_started], agree, so that the datagram that completes the TLS of a
    client always runs [begin_handshake] on its machine.  (The flags say nothing of a machine that
    was started before its TLS was configured.) *)
Theorem registry_well_typed (cs : list ffi_call) :
  Forall call_typed cs → zlen cs < U64_MAX →
  let reg := (ffi_run cs initial_registry).2 in
  handles reg !! next_handle reg = None ∧
  ∀ id h, handles reg !! id = Some h →
    1 ≤ id < next_handle reg ∧ tls_fits (kind h) (tls h) ∧
    ∀ r t fs now path ptr len,
      kind h = ClientEngine r → tls h = TlsClient t → established t = false →
      completes (bytes_from_ptr ptr len) (adapter t) = true →
      kind <$> handles (v3_ffi_on_datagram base64_encode elapsed_us iter fs id now path ptr len reg).2 !! id =
        Some (ClientEngine (ClientRuntime.begin_handshake now r).2).
Proof.
  intros Hcs Hlen reg. destruct (ok_run cs initial_registry Hcs) as [[_ Hreg] _]; [change (next_handle initial_registry) with 1; lia|exact initial_registry_ok|].
  fold reg in Hreg. split.
  - destruct (handles reg !! next_handle reg) as [h|] eqn:Hh; [|done]. apply Hreg in Hh as [? _]. lia.
  - intros id h Hh. destruct (Hreg id h Hh) as (Hid & Hfit & _). split; [done|]. split; [done|].
    intros r t fs now path ptr len Hk Ht He Hcomp. apply (completing_datagram_starts fs id now path ptr len reg h r t); try done.
    rewrite Hk, Ht in Hfit. cbn in Hfit. congruence.
Qed.

(** C15. TLS gates the engine: while the handshake of a handle with TLS configured has not
    completed (for a server: on the path of the datagram), a datagram of any bytes leaves the
    runtime as it is, and opens the path exactly when the TLS adapter completes its handshake
    with it; a client's machine then starts its own handshake in the same call, and the other
    paths of a server stay as they are.  The call aborts, with the registry as it was, only on a
    new path of a server whose TLS files are no longer valid. *)
Theorem tls_gates_the_engine (fs : str → bool) (id now path : Z) (ptr : option (list byte)) (len : Z) reg h :
  handles reg !! id = Some h → tls_fits (kind h) (tls h) → tls_pending path h →
  let '(o, reg') := v3_ffi_on_datagram base64_encode elapsed_us iter fs id now path ptr len reg in
  no_path_session fs path h ∧ o = Panic ∧ reg' = reg ∨
  ∃ h', handles reg' = <[id := h']> (handles reg) ∧ gated fs now path (bytes_from_ptr ptr len) h h'.
Proof.
  intros Hh Hf Hp. set (bs := bytes_from_ptr ptr len).
  assert (Hself : reg <| handles := <[id := h]> (handles reg) |> = reg)
    by (destruct reg as [hs n]; unfold upd; cbn in *; by rewrite insert_id).
  enough (Hw : wp (v3_ffi_on_datagram base64_encode elapsed_us iter fs id now path ptr len)
    (λ o reg', no_path_session fs path h ∧ o = Panic ∧ reg' = reg ∨ ∃ h', handles reg' = <[id := h']> (handles reg) ∧ gated fs now path bs h h') reg)
    by (unfold wp in Hw; by destruct (v3_ffi_on_datagram _ _ _ _ _ _ _ _ _ _)).
  apply wp_with_handle; [by rewrite Hh|]. rewrite Hh. intros ? [= <-]. cbv zeta. fold bs. wp_run.
  unfold tls_fits, tls_pending in *. destruct (kind h) as [r|r] eqn:Hk, (tls h) as [|t|t] eqn:Ht; try done.
  - rewrite Hp. cbn [negb]. eapply wp_mono; [|apply (client_gate now path bs r t h); congruence].
    intros o h' Hg. right. exists h'. split; [done|]. unfold gated in *. by rewrite Hk, Ht in *.
  - destruct (path_session fs path t) as [s|] eqn:Hs; [|left; unfold wp, st_panic, no_path_session; rewrite Ht; exact (conj Hs (conj eq_refl Hself))]. cbv zeta.
    pose proof (path_session_closed fs path t s Hp Hs) as Hcl. unfold gated. rewrite Hk, Ht, Hs.
    assert (Hput : ∀ s', (∀ p, p ≠ path → <[path := s']> (sessions_by_path t) !! p = sessions_by_path t !! p) ∧
        <[path := s']> (sessions_by_path t) !! path = Some s')
      by (intros s'; split; [intros p Hne; by rewrite lookup_insert_ne|by rewrite lookup_insert_eq]).
    destruct (is_dtls_packet bs); [|rewrite Hcl].
    + pose proof (eq_refl (completes bs (path_adapter s))) as Hcomp. unfold completes in Hcomp at 2.
      destruct (Dtls.on_datagram bs (path_adapter s)) as [[out|e|] a]; cbn [fst] in Hcomp; run_body; right; eexists;
        (split; [reflexivity|]); cbn; rewrite ?Hk; (split; [done|]); split; try apply Hput;
        rewrite (proj2 (Hput _)); cbn; rewrite Hcomp;
        [by destruct (Dtls.established out); cbn; rewrite ?Hcl|by rewrite ?Hcl..].
    + run_body. right. eexists. split; [reflexivity|]. cbn. rewrite Hk. split; [done|]. split; [apply Hput|].
      rewrite (proj2 (Hput _)). cbn. by rewrite Hcl.
Qed.

End Ffi.

(* ------------------------------------------------------------------ *)
(** ** Witnesses *)
(* ------------------------------------------------------------------ *)

#[local] Existing Instance DtlsProps.permissive_openssl.

(** Texts that only say which kind they are. *)
#[local] Instance sample_texts : Texts := {|
  event_json := λ _, lit "event"; client_error_text := λ _, lit "client error"; server_error_text := λ _, lit "server error";
  crypto_error_text := λ _, lit "crypto error"; utf8_error_text := λ _, lit "utf8 error";
|}.

Definition pass (s : str) : option (list byte) * Z := (Some s, zlen s).

(** A client host and a server host as they set themselves up. *)
Definition sample_calls_run (cs : list ffi_call) : Registry :=
  (ffi_run (λ _, ""%string) (λ _, 0) map_to_list cs initial_registry).2.

Definition sample_client : Registry :=
  sample_calls_run [NewClient 7 15000 3 180000; ConfigureClientTls 1 (pass (lit "peer.example")); AddAnchorPem 1 (pass (lit "PEM"))].

Definition sample_server : Registry :=
  sample_calls_run [NewServer 15000 3 180000;
                    ConfigureServerTls (λ _, true) 1 (pass (lit "peer.example")) (pass (lit "/cert")) (pass (lit "/key"))].

(** Two engines in one registry, one of them behind TLS. *)
Definition sample_calls : list ffi_call :=
  [NewClient 7 15000 3 180000; NewServer 15000 3 180000; BeginHandshake 1 0;
   OnDatagram (λ _, true) 2 5 1 (Some (ServerProps.frame_bytes Wire.ClientHello 7 [])) 15;
   OnDatagram (λ _, true) 1 6 1 (Some (ServerProps.frame_bytes Wire.ServerHello 7 [])) 15;
   ConfigureClientTls 1 (pass (lit "peer.example")); PollTimers 1 20000 10; FreeHandle 9; SendMessage 2 None 0].

Lemma sample_calls_typed : Forall call_typed sample_calls.
Proof. repeat constructor; vm_compute; congruence. Qed.

(** A client behind TLS that waits for the answer of its server. *)
Definition sample_waiting : list ffi_call :=
  [NewClient 7 15000 3 180000; ConfigureClientTls 1 (pass (lit "peer.example")); AddAnchorPem 1 (pass (lit "PEM"));
   BeginHandshake 1 0].

Definition tls_answer : list byte := lit "DTLS_SERVER_HELLO|sni=peer.example".

Lemma registry_well_typed_witness :
  next_handle (sample_calls_run sample_calls) = 3 ∧ handles (sample_calls_run sample_calls) !! 3 = None ∧
  ∃ r, kind <$> handles (sample_calls_run sample_waiting) !! 1 = Some (ClientEngine r) ∧
    kind <$> handles (v3_ffi_on_datagram (λ _, ""%string) (λ _, 0) map_to_list (λ _, true) 1 5 1
      (Some tls_answer) (zlen tls_answer) (sample_calls_run sample_waiting)).2 !! 1 =
      Some (ClientEngine (ClientRuntime.begin_handshake 5 r).2).
Proof.
  assert (Hn : next_handle (sample_calls_run sample_calls) = 3) by (vm_compute; reflexivity).
  split; [exact Hn|]. split.
  { rewrite <-Hn.
    exact (proj1 (registry_well_typed (λ _, ""%string) (λ _, 0) map_to_list sample_calls sample_calls_typed ltac:(by vm_compute))). }
  assert (Hw : Forall call_typed sample_waiting) by (repeat constructor; vm_compute; congruence).
  destruct (registry_well_typed (λ _, ""%string) (λ _, 0) map_to_list sample_waiting Hw ltac:(by vm_compute)) as [_ H].
  assert (Hh : ∃ h r t, handles (sample_calls_run sample_waiting) !! 1 = Some h ∧ kind h = ClientEngine r ∧
    tls h = TlsClient t ∧ established t = false ∧ completes (bytes_from_ptr (Some tls_answer) (zlen tls_answer)) (adapter t) = true).
  { do 3 eexists. split; [vm_compute; reflexivity|]. split; [reflexivity|]. split; [reflexivity|]. split; by vm_compute. }
  destruct Hh as (h & r & t & Hh & Hk & Ht & He & Hc). destruct (H 1 h Hh) as (_ & _ & Hstart).
  exists r. split; [by rewrite Hh; cbn; rewrite Hk|]. by apply (Hstart r t (λ _, true) 5 1 (Some tls_answer) (zlen tls_answer)).
Defined.

Lemma clocks_run_behind_the_interface_witness :
  ∃ h r, handles (sample_calls_run sample_calls) !! 1 = Some h ∧ kind h = ClientEngine r ∧
    Core.state (ClientRuntime.core r) = Core.Established ∧ ∃ d, pending (ClientRuntime.timers r) d Core.ClientProbe.
Proof.
  assert (Hh : ∃ h, handles (sample_calls_run sample_calls) !! 1 = Some h) by (eexists; vm_compute; reflexivity).
  destruct Hh as [h Hh].
  pose proof (clocks_run_behind_the_interface (λ _, ""%string) (λ _, 0) map_to_list sample_calls sample_calls_typed
    ltac:(by vm_compute) 1 h Hh) as H.
  vm_compute in Hh. injection Hh as <-. eexists. eexists. split; [vm_compute; reflexivity|].
  split; [reflexivity|]. split; [reflexivity|]. apply H. by left.
Defined.

(** A frame for a client whose TLS handshake is under way. *)
Lemma tls_gates_the_engine_witness :
  ∃ h h', handles sample_client !! 1 = Some h ∧
    handles (v3_ffi_on_datagram (λ _, ""%string) (λ _, 0) map_to_list (λ _, true) 1 5 1
      (Some (ServerProps.frame_bytes Wire.ServerHello 7 [])) 15 sample_client).2 = <[1 := h']> (handles sample_client) ∧
    gated (λ _, true) 5 1 (ServerProps.frame_bytes Wire.ServerHello 7 []) h h'.
Proof.
  assert (Hh : ∃ h, handles sample_client !! 1 = Some h) by (eexists; vm_compute; reflexivity).
  destruct Hh as [h Hh]. exists h.
  assert (Hok : tls_fits (kind h) (tls h) ∧ tls_pending 1 h)
    by (vm_compute in Hh; injection Hh as <-; by split).
  pose proof (tls_gates_the_engine (λ _, ""%string) (λ _, 0) map_to_list (λ _, true) 1 5 1
    (Some (ServerProps.frame_bytes Wire.ServerHello 7 [])) 15 sample_client h Hh (proj1 Hok) (proj2 Hok)) as H.
  destruct (v3_ffi_on_datagram _ _ _ _ _ _ _ _ _ sample_client) as [o reg'] eqn:Hrun.
  destruct H as [(_ & Ho & _)|[h' H]].
  - exfalso. apply (f_equal fst) in Hrun. rewrite Ho in Hrun. by vm_compute in Hrun.
  - exists h'. split; [exact Hh|]. exact H.
Defined.
