(* ===== verification/JniProps.v ===== *)
(** * Correctness of the Java interface

    What a Java host reads back piece by piece is what its engine sent. *)

From S2P Require Import Prelude Bytes Text Ffi Jni FfiProps.
From S2P Require Wire Core Dtls DtlsProps Store ClientRuntime ServerProps.

Section Jni.
Context `{ossl : !Dtls.Openssl, texts : !Texts}.
Context (base64_encode : list byte → string) (elapsed_us : Z → Z) (iter : gmap Z Store.Entry → list (Z * Store.Entry)).

Implicit Types (reg : Registry) (h : EngineHandle).

(** A value that survives the cast to [jint]. *)
Definition is_jint (z : Z) : Prop := 0 ≤ z < 2 ^ 31.

Lemma as_jint_id z : is_jint z → as_jint z = z.
Proof. intros [? ?]. unfold as_jint. rewrite Z.mod_small; lia. Qed.

(** A buffer whose counts, lengths and path ids are [jint]s. *)
Definition fits_java (b : OutputBuffer) : Prop :=
  is_jint (zlen (datagrams b)) ∧ Forall (λ d, is_jint d.1 ∧ is_jint (zlen d.2)) (datagrams b) ∧
  is_jint (zlen (events b)) ∧ Forall (λ e, is_jint (zlen e)) (events b).

(** A host that asks for the count, then for each piece its length, and for a copy into an array
    of that length. *)
Definition java_read {A} (count : Z) (piece : Z → A) : list A := piece <$> seqZ 0 count.

Definition new_array (len : Z) : list byte := replicate (Z.to_nat len) x00.

Definition java_datagrams (id : Z) reg : list (Z * list byte) :=
  java_read (Java_io_todero_v3jni_V3NativeBindings_v3FfiOutDatagramCount id reg) (λ i,
    (Java_io_todero_v3jni_V3NativeBindings_v3FfiOutDatagramPathId id i reg,
     (Java_io_todero_v3jni_V3NativeBindings_v3FfiOutDatagramCopy id i
        (new_array (Java_io_todero_v3jni_V3NativeBindings_v3FfiOutDatagramLen id i reg)) reg).2)).

Definition java_events (id : Z) reg : list (list byte) :=
  java_read (Java_io_todero_v3jni_V3NativeBindings_v3FfiOutEventCount id reg) (λ i,
    (Java_io_todero_v3jni_V3NativeBindings_v3FfiOutEventCopy id i
       (new_array (Java_io_todero_v3jni_V3NativeBindings_v3FfiOutEventLen id i reg)) reg).2).

Definition java_error (id : Z) reg : list byte :=
  (Java_io_todero_v3jni_V3NativeBindings_v3FfiLastErrorCopy id
     (new_array (Java_io_todero_v3jni_V3NativeBindings_v3FfiLastErrorLen id reg)) reg).2.

Lemma java_read_all {A} (l : list A) piece :
  (∀ i x, l !! i = Some x → piece (Z.of_nat i) = x) → java_read (zlen l) piece = l.
Proof.
  intros Hp. apply list_eq. intros i. unfold java_read. rewrite list_lookup_fmap.
  destruct (l !! i) as [x|] eqn:Hx.
  - pose proof (lookup_lt_Some l i x Hx) as Hi. rewrite lookup_seqZ_lt by (unfold zlen; lia). cbn.
    by rewrite Z.add_0_l, (Hp i x Hx).
  - apply lookup_ge_None in Hx. rewrite lookup_seqZ_ge by (unfold zlen; lia). done.
Qed.

(** The C copy fills a buffer of the length of the data with the data. *)
Lemma copy_out_all data buffer :
  zlen buffer = zlen data → data ≠ [] → copy_out (Some data) (Some buffer) (zlen data) = (zlen data, Some data).
Proof.
  intros Hl Hd. unfold copy_out. assert (0 < zlen data) by (destruct data; [done|rewrite zlen_cons; pose proof (zlen_nonneg data); lia]).
  replace (zlen data =? 0) with false by lia. rewrite Z.min_id. f_equal. f_equal.
  rewrite take_ge, drop_ge by (unfold zlen in *; lia). by rewrite app_nil_r.
Qed.

(** The Java copy into an array of that length. *)
Lemma copy_to_java_all data copy :
  is_jint (zlen data) → (∀ ptr len, copy ptr len = copy_out (Some data) ptr len) →
  (copy_to_java (zlen data) copy (new_array (zlen data))).2 = data.
Proof.
  intros Hj Hcopy. unfold copy_to_java, new_array. destruct (zlen data =? 0) eqn:H0.
  { apply Z.eqb_eq in H0. destruct data; [done|]. rewrite zlen_cons in H0. pose proof (zlen_nonneg data). lia. }
  assert (Hz : zlen (replicate (Z.to_nat (zlen data)) x00) = zlen data)
    by (unfold zlen; rewrite length_replicate; lia).
  rewrite Hcopy, copy_out_all by (done || (intros ->; done)). rewrite H0. change (default [] (Some data)) with data.
  rewrite take_ge by (unfold zlen; lia). unfold copy_bytes_to_jbyte_array. rewrite Hz, Z.leb_refl. cbn [snd].
  rewrite drop_ge by (unfold zlen in *; rewrite length_replicate; lia). apply app_nil_r.
Qed.

Section Handle.
Context (id : Z) (reg : Registry) (h : EngineHandle).
Context (Hh : handles reg !! id = Some h) (Hid : 0 ≤ id) (Hfits : fits_java (output h)).

Lemma java_reads_datagrams : java_datagrams id reg = datagrams (output h).
Proof.
  destruct Hfits as (Hn & Hd & _). unfold java_datagrams, Java_io_todero_v3jni_V3NativeBindings_v3FfiOutDatagramCount,
    v3_ffi_out_datagram_count, read_handle. rewrite Hh. cbn [mbind option_bind default].
  replace (id <? 0) with false by lia. rewrite as_jint_id by done. apply java_read_all. intros i [path bs] Hi.
  unfold Java_io_todero_v3jni_V3NativeBindings_v3FfiOutDatagramPathId, Java_io_todero_v3jni_V3NativeBindings_v3FfiOutDatagramCopy,
    Java_io_todero_v3jni_V3NativeBindings_v3FfiOutDatagramLen.
  replace (id <? 0) with false by lia. rewrite (proj2 (Z.ltb_ge (Z.of_nat i) 0)) by lia. cbn [orb].
  assert (Hthe : the_datagram id (Z.of_nat i) reg = Some (path, bs))
    by (unfold the_datagram, read_handle; rewrite Hh; cbn; by rewrite Nat2Z.id).
  unfold v3_ffi_out_datagram_path_id, v3_ffi_out_datagram_len, v3_ffi_out_datagram_copy. rewrite Hthe. cbn.
  rewrite Forall_forall in Hd. destruct (Hd (path, bs)) as [Hpath Hlen]; [by eapply list_elem_of_lookup_2|]. cbn in Hpath, Hlen.
  rewrite !as_jint_id by done. f_equal. by apply copy_to_java_all.
Qed.

Lemma java_reads_events : java_events id reg = events (output h).
Proof.
  destruct Hfits as (_ & _ & Hn & He). unfold java_events, Java_io_todero_v3jni_V3NativeBindings_v3FfiOutEventCount,
    v3_ffi_out_event_count, read_handle. rewrite Hh. cbn [mbind option_bind default].
  replace (id <? 0) with false by lia. rewrite as_jint_id by done. apply java_read_all. intros i e Hi.
  unfold Java_io_todero_v3jni_V3NativeBindings_v3FfiOutEventCopy, Java_io_todero_v3jni_V3NativeBindings_v3FfiOutEventLen.
  replace (id <? 0) with false by lia. rewrite (proj2 (Z.ltb_ge (Z.of_nat i) 0)) by lia. cbn [orb].
  assert (Hthe : the_event id (Z.of_nat i) reg = Some e)
    by (unfold the_event, read_handle; rewrite Hh; cbn; by rewrite Nat2Z.id).
  unfold v3_ffi_out_event_len, v3_ffi_out_event_copy. rewrite Hthe. cbn.
  rewrite Forall_forall in He. assert (is_jint (zlen e)) by (apply He; by eapply list_elem_of_lookup_2).
  rewrite !as_jint_id by done. by apply copy_to_java_all.
Qed.

Lemma java_reads_error text : last_error h = Some text → is_jint (zlen text) → java_error id reg = text.
Proof.
  intros Ht Hj. unfold java_error, Java_io_todero_v3jni_V3NativeBindings_v3FfiLastErrorCopy, Java_io_todero_v3jni_V3NativeBindings_v3FfiLastErrorLen.
  replace (id <? 0) with false by lia.
  assert (Hthe : the_error id reg = Some text) by (unfold the_error, read_handle; by rewrite Hh).
  unfold v3_ffi_last_error_len, v3_ffi_last_error_copy. rewrite Hthe. cbn. rewrite as_jint_id by done.
  by apply copy_to_java_all.
Qed.

End Handle.

(** C25. A Java host that hands a datagram to a client without TLS and reads the output back piece
    by piece gets exactly what the runtime sent and said, whatever the datagram is; when the
    runtime refuses the datagram it gets [-1] and the text of the error, and the output it reads
    is still that of the call before. *)
Theorem java_host_reads_its_client (fs : str → bool) (id now path : Z) (bs : list byte) reg h r :
  0 ≤ id → 0 ≤ now → 0 ≤ path → handles reg !! id = Some h → kind h = ClientEngine r → tls h = TlsDisabled →
  let '(code, reg') := Java_io_todero_v3jni_V3NativeBindings_v3FfiOnDatagram base64_encode elapsed_us iter fs
                         id now path (Some bs) reg in
  match ClientRuntime.on_datagram now path bs r with
  | (Ok out, r') =>
      code = Ok 0 ∧
      (fits_java (normalize_client_output base64_encode out) →
       java_datagrams id reg' = map buffered (ClientRuntime.outbound_datagrams out) ∧
       java_events id reg' = map (λ e, event_json (client_host_event base64_encode e)) (ClientRuntime.events out))
  | (Err e, r') =>
      code = Ok (-1) ∧
      (is_jint (zlen (client_error_text e)) → java_error id reg' = client_error_text e) ∧
      (fits_java (output h) → java_datagrams id reg' = datagrams (output h) ∧ java_events id reg' = events (output h))
  | (Panic, _) => code = Panic
  end.
Proof.
  intros Hid Hnow Hpath Hh Hk Ht.
  unfold Java_io_todero_v3jni_V3NativeBindings_v3FfiOnDatagram.
  replace (id <? 0) with false by lia. replace (now <? 0) with false by lia. replace (path <? 0) with false by lia.
  cbn [orb jbyte_array_to_vec ptr_len fst snd]. unfold v3_ffi_on_datagram, with_handle. rewrite Hh.
  assert (Hbs : bytes_from_ptr (Some bs) (zlen bs) = bs).
  { unfold bytes_from_ptr. rewrite take_ge by (unfold zlen; lia). by destruct bs. }
  cbv zeta. rewrite Hbs. unfold st_get, mbind at 1, ST_bind at 1. rewrite Hk, Ht. unfold run_client.
  destruct (ClientRuntime.on_datagram now path bs r) as [[out|e|] r'].
  - unfold set_kind, set_output, st_modify, mbind, ST_bind, mret, ST_ret. split; [done|]. intros Hfits.
    set (h' := h <| kind := ClientEngine r' |> <| output := normalize_client_output base64_encode out |>). split.
    + exact (java_reads_datagrams id _ h' (lookup_insert_eq _ _ _) Hid Hfits).
    + exact (java_reads_events id _ h' (lookup_insert_eq _ _ _) Hid Hfits).
  - unfold set_kind, set_error, st_modify, mbind, ST_bind, mret, ST_ret.
    set (h' := h <| kind := ClientEngine r' |> <| last_error := Some (client_error_text e) |>). split; [done|]. split.
    + intros Hj. exact (java_reads_error id _ h' (lookup_insert_eq _ _ _) Hid _ eq_refl Hj).
    + intros Hfits. split.
      * exact (java_reads_datagrams id _ h' (lookup_insert_eq _ _ _) Hid Hfits).
      * exact (java_reads_events id _ h' (lookup_insert_eq _ _ _) Hid Hfits).
  - unfold set_kind, st_panic, st_modify, mbind, ST_bind. done.
Qed.

End Jni.

#[local] Existing Instance DtlsProps.permissive_openssl.
#[local] Existing Instance sample_texts.

(** A client that waits for the server's hello, and a datagram for another connection. *)
Definition greeting : list byte := ServerProps.frame_bytes Wire.ServerHello 7 [].

Definition sample_java : Registry := sample_calls_run [NewClient 7 15000 3 180000; BeginHandshake 1 0].

Lemma java_host_reads_its_client_witness :
  let '(code, reg') := Java_io_todero_v3jni_V3NativeBindings_v3FfiOnDatagram (λ _, ""%string) (λ _, 0) map_to_list
                         (λ _, true) 1 5 3 (Some greeting) sample_java in
  code = Ok 0 ∧ java_datagrams 1 reg' = [(3, ServerProps.frame_bytes Wire.HelloAck 7 [])].
Proof.
  assert (Hh : ∃ h, handles sample_java !! 1 = Some h) by (eexists; vm_compute; reflexivity).
  destruct Hh as [h Hh].
  assert (Hr : ∃ r, kind h = ClientEngine r ∧ tls h = TlsDisabled ∧
    ∃ out r', ClientRuntime.on_datagram 5 3 greeting r = (Ok out, r') ∧
      fits_java (normalize_client_output (λ _, ""%string) out) ∧
      map buffered (ClientRuntime.outbound_datagrams out) = [(3, ServerProps.frame_bytes Wire.HelloAck 7 [])]).
  { vm_compute in Hh. injection Hh as <-. eexists. split; [reflexivity|]. split; [reflexivity|].
    eexists. eexists. split; [vm_compute; reflexivity|]. split; [|by vm_compute].
    unfold fits_java. cbn. repeat (split || constructor); vm_compute; congruence. }
  destruct Hr as (r & Hk & Ht & out & r' & Hon & Hfits & Hds).
  pose proof (java_host_reads_its_client (λ _, ""%string) (λ _, 0) map_to_list (λ _, true) 1 5 3 greeting sample_java h r
    ltac:(lia) ltac:(lia) ltac:(lia) Hh Hk Ht) as H.
  destruct (Java_io_todero_v3jni_V3NativeBindings_v3FfiOnDatagram _ _ _ _ _ _ _ _ sample_java) as [code reg'].
  rewrite Hon in H. destruct H as [Hcode H]. split; [exact Hcode|]. destruct (H Hfits) as [Hd _]. by rewrite Hd.
Defined.
