(* ===== verification/FfiSession.v ===== *)
(** * Two hosts

    A host with a client and a host with a server, both with TLS, that carry each other's
    datagrams: the handshake of the adapters, the handshake of the machines and the session in
    the store, composed through the interface. *)

From S2P Require Import Prelude Bytes Text Ffi FfiProps.
From S2P Require Wire WireLemmas Core CoreSpec CoreTransfer CoreSession Dtls DtlsProps Store StoreProps StoreSpec ClientRuntime ServerRuntime ServerLemmas ServerProps.

Section Hosts.
Context `{ossl : !Dtls.Openssl, texts : !Texts}.
Context (base64_encode : list byte → string) (elapsed_us : Z → Z) (iter : gmap Z Store.Entry → list (Z * Store.Entry)).
Context (Hiter : ∀ m, iter m ≡ₚ map_to_list m) (fs : str → bool).

#[local] Instance session_store : Store.SessionStore Store.InMemorySessionStore := Store.in_memory_store iter.
#[local] Instance session_lawful : StoreSpec.LawfulStore Store.InMemorySessionStore := StoreProps.in_memory_lawful iter Hiter.

(* ------------------------------------------------------------------ *)
(** ** Hosts that carry datagrams *)
(* ------------------------------------------------------------------ *)

(** What the host of a handle finds in its output, and the datagrams in there. *)
Definition found (id : Z) (reg : Registry) : OutputBuffer := default empty_buffer (output <$> handles reg !! id).

Definition payloads (os : list OutputBuffer) : list (list byte) := os ≫= λ b, map snd (datagrams b).

(** The host of a handle hands it datagrams, and takes its output after each. *)
Fixpoint receive_all (id now path : Z) (ds : list (list byte)) (reg : Registry) : list OutputBuffer * Registry :=
  match ds with
  | [] => ([], reg)
  | bs :: ds =>
      let reg := (v3_ffi_on_datagram base64_encode elapsed_us iter fs id now path (Some bs) (zlen bs) reg).2 in
      let '(os, reg') := receive_all id now path ds reg in
      (found id reg :: os, reg')
  end.

Definition deliver (id now path : Z) (ds : list (list byte)) (reg : Registry) : list (list byte) * Registry :=
  let '(os, reg) := receive_all id now path ds reg in (payloads os, reg).

(** The datagrams of the client go to the server, and its answers to the client, once for every
    pair of times. *)
Fixpoint rounds (times : list (Z * Z)) (client server path_c path_s : Z) (ds : list (list byte)) (c s : Registry)
    : list (list byte) * Registry * Registry :=
  match times with
  | [] => (ds, c, s)
  | (t, u) :: times =>
      let '(answers, s) := deliver server t path_s ds s in
      let '(ds, c) := deliver client u path_c answers c in
      rounds times client server path_c path_s ds c s
  end.

(** The client's host starts, then both carry datagrams. *)
Definition converse (t0 : Z) (times : list (Z * Z)) (client server path_c path_s : Z) (c s : Registry)
    : list (list byte) * Registry * Registry :=
  let c := (v3_ffi_begin_handshake base64_encode client t0 c).2 in
  rounds times client server path_c path_s (payloads [found client c]) c s.

(* ------------------------------------------------------------------ *)
(** ** One datagram *)
(* ------------------------------------------------------------------ *)

Lemma bytes_whole bs : bytes_from_ptr (Some bs) (zlen bs) = bs.
Proof. unfold bytes_from_ptr. rewrite take_ge by (unfold zlen; lia). by destruct bs. Qed.

Lemma payloads_one b : payloads [b] = map snd (datagrams b).
Proof. apply app_nil_r. Qed.

Lemma payloads_app os os' : payloads (os ++ os') = payloads os ++ payloads os'.
Proof. apply bind_app. Qed.

(** What a host gets from one call that leaves the handle as [h']. *)
Lemma receive_one id now path bs reg h' o :
  v3_ffi_on_datagram base64_encode elapsed_us iter fs id now path (Some bs) (zlen bs) reg =
    (o, reg <| handles := <[id := h']> (handles reg) |>) →
  ∃ reg', receive_all id now path [bs] reg = ([output h'], reg') ∧ handles reg' !! id = Some h'.
Proof.
  intros H. eexists. cbn [receive_all]. rewrite H. cbv zeta. cbn [snd]. unfold found.
  cbn [handles upd]. rewrite lookup_insert_eq. split; [reflexivity|apply lookup_insert_eq].
Qed.

Lemma delivered id now path bs reg h' o :
  v3_ffi_on_datagram base64_encode elapsed_us iter fs id now path (Some bs) (zlen bs) reg =
    (o, reg <| handles := <[id := h']> (handles reg) |>) →
  ∃ reg', deliver id now path [bs] reg = (map snd (datagrams (output h')), reg') ∧ handles reg' !! id = Some h'.
Proof.
  intros H. destruct (receive_one id now path bs reg h' o H) as (reg' & Hr & Hh). exists reg'.
  unfold deliver. rewrite Hr. by rewrite payloads_one.
Qed.

Lemma receive_cons id now path bs ds reg :
  receive_all id now path (bs :: ds) reg =
    (let '(os, reg) := receive_all id now path [bs] reg in
     let '(os', reg) := receive_all id now path ds reg in (os ++ os', reg)).
Proof. cbn [receive_all]. cbv zeta. by destruct (receive_all id now path ds _). Qed.

(** Execute one call on a known handle, up to its case distinctions. *)
Ltac run_call Hh :=
  unfold v3_ffi_on_datagram, v3_ffi_begin_handshake, with_handle;
  rewrite Hh; cbv zeta; rewrite ?bytes_whole; unfold st_get, mbind at 1, ST_bind at 1.

Ltac run_rest :=
  unfold set_tls, set_output, set_kind, st_modify, mbind, ST_bind, mret, ST_ret.

Lemma client_starts id now reg h r t out a :
  handles reg !! id = Some h → kind h = ClientEngine r → tls h = TlsClient t → established t = false →
  Dtls.start_client (tls_cfg t) (adapter t) = (Ok out, a) →
  ∃ reg' h', v3_ffi_begin_handshake base64_encode id now reg = (Ok 0, reg') ∧
    payloads [found id reg'] = Dtls.outbound_datagrams out ∧
    handles reg' !! id = Some h' ∧ kind h' = kind h ∧ tls h' = TlsClient (t <| adapter := a |>).
Proof.
  intros Hh Hk Ht He Hs. run_call Hh. rewrite Hk, Ht, He, Hs. cbn [negb]. run_rest.
  do 2 eexists. split; [reflexivity|]. rewrite payloads_one. unfold found. cbn [handles upd].
  split; [|split; [apply lookup_insert_eq|done]]. rewrite lookup_insert_eq. cbn. rewrite map_map. cbn. apply map_id.
Qed.

Lemma client_tls_step id now path bs reg h r t out a :
  handles reg !! id = Some h → kind h = ClientEngine r → tls h = TlsClient t → established t = false →
  Dtls.on_datagram bs (adapter t) = (Ok out, a) → Dtls.established out = false →
  ∃ reg' h', deliver id now path [bs] reg = (Dtls.outbound_datagrams out, reg') ∧
    handles reg' !! id = Some h' ∧ kind h' = kind h ∧ tls h' = TlsClient (t <| adapter := a |>).
Proof.
  intros Hh Hk Ht He Hs Ho.
  set (h' := h <| tls := TlsClient (t <| adapter := a |>) |>
               <| output := mkOutputBuffer (map (pair path) (Dtls.outbound_datagrams out)) [] |>).
  destruct (delivered id now path bs reg h' (Ok 0)) as (reg' & -> & Hh').
  { run_call Hh. rewrite Hk, Ht, He. cbn [negb]. unfold client_tls_datagram. by rewrite Hs, Ho. }
  exists reg', h'. split; [|done]. f_equal. cbn. rewrite map_map. apply map_id.
Qed.

(** The datagram that completes the client's TLS starts its machine. *)
Lemma client_tls_done id now path bs reg h r t out a hello r' :
  handles reg !! id = Some h → kind h = ClientEngine r → tls h = TlsClient t →
  established t = false → core_started t = false →
  Dtls.on_datagram bs (adapter t) = (Ok out, a) → Dtls.established out = true →
  ClientRuntime.begin_handshake now r = (Ok hello, r') →
  ∃ reg' h' t', deliver id now path [bs] reg =
      (Dtls.outbound_datagrams out ++ map Core.bytes (ClientRuntime.outbound_datagrams hello), reg') ∧
    handles reg' !! id = Some h' ∧ kind h' = ClientEngine r' ∧ tls h' = TlsClient t' ∧ established t' = true.
Proof.
  intros Hh Hk Ht He Hc Hs Ho Hb.
  set (t' := t <| adapter := a |> <| established := true |> <| core_started := true |>).
  set (h' := h <| tls := TlsClient t' |> <| kind := ClientEngine r' |> <| output :=
    mkOutputBuffer (map (pair path) (Dtls.outbound_datagrams out) ++ map buffered (ClientRuntime.outbound_datagrams hello))
      ([event_json (ClientTls "handshake_established")] ++
       map (λ e, event_json (ClientCoreWrapped e)) (ClientRuntime.events hello)) |>).
  destruct (delivered id now path bs reg h' (Ok 0)) as (reg' & -> & Hh').
  { run_call Hh. rewrite Hk, Ht, He. cbn [negb]. unfold client_tls_datagram. rewrite Hs, Ho. run_rest.
    cbn [core_started upd]. rewrite Hc. cbn [negb]. unfold start_core. by rewrite Hb. }
  exists reg', h', t'. split; [|done]. f_equal. cbn. by rewrite map_app, !map_map, map_id.
Qed.

(** A frame for a client behind completed TLS goes to its runtime. *)
Lemma client_frame id now path bs reg h r t out r' :
  handles reg !! id = Some h → kind h = ClientEngine r → tls h = TlsClient t → established t = true →
  is_dtls_packet bs = false → ClientRuntime.on_datagram now path bs r = (Ok out, r') →
  ∃ reg' h', receive_all id now path [bs] reg = ([normalize_client_output base64_encode out], reg') ∧
    handles reg' !! id = Some h' ∧ kind h' = ClientEngine r' ∧ tls h' = TlsClient t.
Proof.
  intros Hh Hk Ht He Hd Hr.
  set (h' := h <| kind := ClientEngine r' |> <| output := normalize_client_output base64_encode out |>).
  destruct (receive_one id now path bs reg h' (Ok 0)) as (reg' & -> & Hh').
  { run_call Hh. rewrite Hk, Ht, He, Hd. cbn [negb]. unfold run_client. by rewrite Hr. }
  by exists reg', h'.
Qed.

(** A handshake message for a server, on the path of one of its sessions or a new one. *)
Lemma server_tls_step id now path bs reg h r t s out a :
  handles reg !! id = Some h → kind h = ServerEngine r → tls h = TlsServer t →
  path_session fs path t = Some s → is_dtls_packet bs = true →
  Dtls.on_datagram bs (path_adapter s) = (Ok out, a) →
  ∃ reg' h' t', deliver id now path [bs] reg = (Dtls.outbound_datagrams out, reg') ∧
    handles reg' !! id = Some h' ∧ kind h' = kind h ∧ tls h' = TlsServer t' ∧
    path_session fs path t' =
      Some (mkServerPathTlsState a (if Dtls.established out then true else path_established s)).
Proof.
  intros Hh Hk Ht Hp Hd Hs.
  set (s' := mkServerPathTlsState a (if Dtls.established out then true else path_established s)).
  set (t' := t <| sessions_by_path := <[path := s']> (sessions_by_path t) |>).
  set (h' := h <| tls := TlsServer t' |> <| output := mkOutputBuffer (map (pair path) (Dtls.outbound_datagrams out))
    (if Dtls.established out then [event_json (ServerTls "handshake_established" path)] else []) |>).
  destruct (delivered id now path bs reg h' (Ok 0)) as (reg' & -> & Hh').
  { run_call Hh. rewrite Hk, Ht, Hp, Hd, Hs. unfold h', t', s'. run_rest. by destruct (Dtls.established out). }
  exists reg', h', t'. split; [f_equal; cbn; rewrite map_map; apply map_id|]. split; [done|]. split; [done|].
  split; [done|]. unfold path_session. cbn. by rewrite lookup_insert_eq.
Qed.

(** A frame for a server on a path whose handshake is complete goes to its runtime. *)
Lemma server_frame id now path bs reg h r t s out r' :
  handles reg !! id = Some h → kind h = ServerEngine r → tls h = TlsServer t →
  path_session fs path t = Some s → path_established s = true → is_dtls_packet bs = false →
  ServerRuntime.on_datagram base64_encode elapsed_us now path bs r = (Ok out, r') →
  ∃ reg' h' t', receive_all id now path [bs] reg = ([normalize_server_output out], reg') ∧
    handles reg' !! id = Some h' ∧ kind h' = ServerEngine r' ∧ tls h' = TlsServer t' ∧ path_session fs path t' = Some s.
Proof.
  intros Hh Hk Ht Hp He Hd Hr.
  set (t' := t <| sessions_by_path := <[path := s]> (sessions_by_path t) |>).
  set (h' := h <| tls := TlsServer t' |> <| kind := ServerEngine r' |> <| output := normalize_server_output out |>).
  destruct (receive_one id now path bs reg h' (Ok 0)) as (reg' & -> & Hh').
  { run_call Hh. rewrite Hk, Ht, Hp, Hd, He. cbn [negb]. unfold run_server. run_rest. unfold handle_store. unfold session_store in Hr. by rewrite Hr. }
  exists reg', h', t'. split; [done|]. split; [done|]. split; [done|].
  split; [done|]. unfold path_session. cbn. by rewrite lookup_insert_eq.
Qed.

(** A frame is not taken for a handshake message. *)
Lemma frame_is_not_dtls bs f : Wire.decode bs = Ok f → is_dtls_packet bs = false.
Proof.
  intros (Hok & _ & ->)%WireLemmas.decode_iff. unfold is_dtls_packet. apply bool_decide_eq_false_2.
  unfold Wire.frame_layout. destruct Hok as [-> _ _ _ _]. intros [k Hk].
  change (lit "DTLS_") with (x44 :: lit "TLS_") in Hk. discriminate Hk.
Qed.

(* ------------------------------------------------------------------ *)
(** ** The machines behind the runtimes *)
(* ------------------------------------------------------------------ *)

Abbreviation plain := CoreSession.plain.

Abbreviation server_runtime := (ServerRuntime.ServerRuntime Store.InMemorySessionStore).

(** The server has connection [c] in memory, with this machine. *)
Definition server_has (c : Z) (m : Core.CoreMachine) (r : server_runtime) : Prop :=
  StoreSpec.store_ok (ServerRuntime.store r) ∧ ∃ s, ServerRuntime.sessions r !! c = Some s ∧ ServerRuntime.core s = m.

(** A machine call of a session that is not lost by it. *)
Lemma served_kept c path now before (r : server_runtime) s' out res r' :
  ServerProps.served base64_encode c path now before r s' (Ok out) res r' →
  Core.state (ServerRuntime.core s') ≠ Core.Lost →
  server_has c (ServerRuntime.core s') r' ∧ ∃ o, res = Ok o ∧
    map Core.bytes (ServerRuntime.outbound_datagrams o) = map Core.bytes (Core.outbound_datagrams out) ∧
    ServerRuntime.events o = before ++ (Core.events out ≫= ServerRuntime.runtime_events base64_encode c).
Proof.
  intros (_ & Hok & _ & -> & Hs & _) Hst. rewrite decide_False in Hs by congruence.
  destruct (ServerRuntime.sessions r' !! c) as [s|] eqn:Hs'; [|done].
  assert (He : ServerLemmas.essence s = ServerLemmas.essence s') by (apply (inj Some); exact Hs).
  apply ServerLemmas.essence_core in He as [He _]. split; [split; [done|]; by exists s|].
  eexists. split; [reflexivity|]. split; [|done]. cbn. rewrite map_map. by apply map_ext.
Qed.

(** A frame for the connection runs its machine. *)
Lemma server_takes_frame now path bs f c (r : server_runtime) out m :
  StoreSpec.store_ok (ServerRuntime.store r) → Wire.decode bs = Ok f → Wire.cid f = c →
  Core.on_datagram now path bs (ServerRuntime.core (ServerProps.addressed r now c path)) = (Ok out, m) →
  Core.state m ≠ Core.Lost →
  ∃ o r', ServerRuntime.on_datagram base64_encode elapsed_us now path bs r = (Ok o, r') ∧ server_has c m r' ∧
    map Core.bytes (ServerRuntime.outbound_datagrams o) = map Core.bytes (Core.outbound_datagrams out) ∧
    ServerRuntime.events o = ServerRuntime.bound_events c path (ServerProps.addressed r now c path) ++
      (Core.events out ≫= ServerRuntime.runtime_events base64_encode c).
Proof.
  intros Hok Hd <- Hstep Hst. pose proof (ServerProps.datagram_served base64_encode elapsed_us now path bs f r Hok Hd) as Hserved.
  cbv zeta in Hserved. rewrite Hstep in Hserved. destruct (ServerRuntime.on_datagram _ _ _ _ _ r) as [res r'].
  apply served_kept in Hserved as (Hhas & o & -> & Hb & Hev); [|done]. by exists o, r'.
Qed.

Lemma addressed_has (r : server_runtime) now c path m :
  server_has c m r → ServerRuntime.core (ServerProps.addressed r now c path) = m.
Proof. intros (_ & s & Hs & <-). unfold ServerProps.addressed. by rewrite Hs. Qed.

Lemma addressed_fresh (r : server_runtime) now c path :
  ServerRuntime.sessions r !! c = None →
  CoreSpec.unmoved (Core.new Core.Server c Core.CoreConfig_default) (ServerRuntime.core (ServerProps.addressed r now c path)).
Proof.
  intros Hn. unfold ServerProps.addressed, ServerLemmas.fresh_session. rewrite Hn. cbn [default].
  by destruct (_ <$> _) as [v|].
Qed.

Lemma client_says_hello now c r :
  is_u64 c → (∃ conf, ClientRuntime.core r = Core.new Core.Client c conf) →
  ∃ out r' hello, ClientRuntime.begin_handshake now r = (Ok out, r') ∧
    map Core.bytes (ClientRuntime.outbound_datagrams out) = [hello] ∧
    Wire.decode hello = Ok (plain Wire.ClientHello c) ∧ ClientRuntime.core r' = ClientRuntime.core r.
Proof.
  intros Hc [conf Hcore]. destruct (CoreTransfer.hello_starts now c conf Hc) as (out & m' & Hs & (bs & Ho & _ & Hd) & ->).
  unfold ClientRuntime.begin_handshake, ClientRuntime.with_core. rewrite Hcore, Hs.
  do 3 eexists. split; [reflexivity|]. cbn. rewrite Ho. cbn. by split.
Qed.

(** A client's runtime runs its machine. *)
Lemma client_takes_frame now path bs (r : ClientRuntime.ClientRuntime) out m :
  Core.on_datagram now path bs (ClientRuntime.core r) = (Ok out, m) →
  ∃ o r', ClientRuntime.on_datagram now path bs r = (Ok o, r') ∧ ClientRuntime.core r' = m ∧
    ClientRuntime.outbound_datagrams o = Core.outbound_datagrams out ∧
    ClientRuntime.events o = map ClientRuntime.CoreEvent (Core.events out).
Proof.
  intros Hstep. unfold ClientRuntime.on_datagram, ClientRuntime.with_core. rewrite Hstep.
  do 2 eexists. split; [reflexivity|]. done.
Qed.

(* ------------------------------------------------------------------ *)
(** ** The conversation *)
(* ------------------------------------------------------------------ *)

Section Conversation.
Context (client server path_c path_s c : Z) (cc sc : Dtls.HandshakeConfig) (name cert key : str).

(** A client that is configured for TLS, and a server. *)
Record client_ready (reg : Registry) : Prop := {
  client_engine : ∃ h r, handles reg !! client = Some h ∧ kind h = ClientEngine r ∧
    tls h = TlsClient (mkClientTlsState Dtls.new_openssl cc false false) ∧
    ∃ conf, ClientRuntime.core r = Core.new Core.Client c conf;
  client_tls_starts : is_ok (Dtls.start_client cc Dtls.new_openssl).1 = true;
  client_name_text : is_Some (utf8 (Dtls.server_name cc));
}.

Record server_ready (reg : Registry) : Prop := {
  server_engine : ∃ h r, handles reg !! server = Some h ∧ kind h = ServerEngine r ∧
    tls h = TlsServer (mkServerTlsState name cert key ∅) ∧
    StoreSpec.store_ok (ServerRuntime.store r) ∧ ServerRuntime.sessions r !! c = None;
  server_tls_cfg : build_server_tls_cfg fs name cert key = Ok sc;
  server_tls_starts : is_ok (Dtls.start_server sc Dtls.new_openssl).1 = true;
  server_name_text : is_Some (utf8 name);
}.

(** Behind completed TLS the client runs this machine, and the server has it for the connection. *)
Definition client_runs (m : Core.CoreMachine) (reg : Registry) : Prop :=
  ∃ h r t, handles reg !! client = Some h ∧ kind h = ClientEngine r ∧ tls h = TlsClient t ∧ established t = true ∧
    ClientRuntime.core r = m.

Definition server_runs (m : Core.CoreMachine) (reg : Registry) : Prop :=
  ∃ h r t s, handles reg !! server = Some h ∧ kind h = ServerEngine r ∧ tls h = TlsServer t ∧
    path_session fs path_s t = Some s ∧ path_established s = true ∧ server_has c m r.

(** The hosts share an established session in which nothing is left to tell: the client was
    given [i - 1] messages so far and the server [j - 1]. *)
Definition linked (n i j : Z) (rc rs : Registry) : Prop :=
  ∃ a b, client_runs a rc ∧ server_runs b rs ∧ CoreSession.synced n a b ∧ Core.role a = Core.Client ∧ Core.cid a = c ∧
    Core.next_outbound_id a = i ∧ Core.next_outbound_id b = j.

(** The parties after the handshake of their adapters, with the first frame of the client. *)
Definition tls_done (hello : list byte) (rc rs : Registry) : Prop :=
  Wire.decode hello = Ok (plain Wire.ClientHello c) ∧
  (∃ h r t, handles rc !! client = Some h ∧ kind h = ClientEngine r ∧ tls h = TlsClient t ∧ established t = true ∧
     ∃ conf, ClientRuntime.core r = Core.new Core.Client c conf) ∧
  (∃ h r t s, handles rs !! server = Some h ∧ kind h = ServerEngine r ∧ tls h = TlsServer t ∧
     path_session fs path_s t = Some s ∧ path_established s = true ∧
     StoreSpec.store_ok (ServerRuntime.store r) ∧ ServerRuntime.sessions r !! c = None).

Lemma server_name_built : build_server_tls_cfg fs name cert key = Ok sc → Dtls.server_name sc = name.
Proof.
  unfold build_server_tls_cfg. intros H. do 4 (apply reject_ok in H as [_ H]). by injection H as <-.
Qed.

Lemma ok_inv {E A S} (x : outcome E A * S) : is_ok x.1 = true → ∃ a s, x = (Ok a, s).
Proof. destruct x as [[a|e|] s]; [|done..]. by exists a, s. Qed.

Lemma tls_is_dtls n : is_dtls_packet (DtlsProps.hello_message n) = true.
Proof. apply bool_decide_eq_true_2. by exists (lit "CLIENT_HELLO|sni=" ++ n). Qed.

(** The adapters, in two rounds. *)
Lemma adapters_meet t0 t1 u1 t2 u2 rc rs :
  is_u64 c → client_ready rc → server_ready rs →
  (Dtls.require_hostname_verification (Dtls.trust cc) = true → name = default [] (Dtls.expected_server_name cc)) →
  ∃ hello rc' rs', tls_done hello rc' rs' ∧ ∀ times,
    converse t0 ((t1, u1) :: (t2, u2) :: times) client server path_c path_s rc rs =
    rounds times client server path_c path_s [hello] rc' rs'.
Proof.
  intros Hc [(hc & r & Hhc & Hkc & Htc & Hcore) Hstart Hsni] [(hs & q & Hhs & Hks & Hts & Hok & Hn) Hcfg Hlisten Hname] Hreq.
  apply ok_inv in Hstart as (outc & a0 & Hstart). apply ok_inv in Hlisten as (outs & b0 & Hlisten).
  pose proof (DtlsProps.start_waiting_client _ _ _ _ Hstart) as (Ha0 & -> & _).
  pose proof (DtlsProps.start_waiting_server _ _ _ _ Hlisten) as (Hb0 & _ & _).
  destruct (DtlsProps.server_hello_step sc b0 (Dtls.server_name cc) Hb0 Hsni) as (b1 & Hb1 & Hw1 & Hcookie).
  destruct (DtlsProps.client_verify_step cc a0 Ha0) as (a1 & Ha1 & Hwa1).
  set (t := mkClientTlsState Dtls.new_openssl cc false false) in *.
  destruct (client_starts client t0 rc hc r t _ a0 Hhc Hkc Htc eq_refl Hstart) as (rc1 & hc1 & E1 & Hsent & Hhc1 & Hkc1 & Htc1).
  assert (Hps : path_session fs path_s (mkServerTlsState name cert key ∅) = Some (mkServerPathTlsState b0 false)).
  { unfold path_session. cbn [sessions_by_path Ffi.server_name cert_path key_path]. rewrite lookup_empty, Hcfg. by rewrite Hlisten. }
  destruct (server_tls_step server t1 path_s (DtlsProps.hello_message (Dtls.server_name cc)) rs hs q _ _ _ b1
    Hhs Hks Hts Hps (tls_is_dtls _) Hb1) as (rs1 & hs1 & ts1 & E2 & Hhs1 & Hks1 & Hts1 & Hps1).
  rewrite Hkc in Hkc1. rewrite Hks in Hks1.
  destruct (client_tls_step client u1 path_c DtlsProps.verify_message rc1 hc1 r _ _ a1 Hhc1 Hkc1 Htc1 eq_refl Ha1 eq_refl)
    as (rc2 & hc2 & E3 & Hhc2 & Hkc2 & Htc2). rewrite Hkc1 in Hkc2.
  pose proof (DtlsProps.server_cookie_step sc b1 _ _ Hw1 DtlsProps.echo_parse) as Hb2.
  rewrite DtlsProps.kv_value_head, Hcookie, decide_True in Hb2 by done.
  destruct (server_tls_step server t2 path_s DtlsProps.echo_message rs1 hs1 q _ _ _ _ Hhs1 Hks1 Hts1 Hps1 eq_refl Hb2)
    as (rs2 & hs2 & ts2 & E4 & Hhs2 & Hks2 & Hts2 & Hps2). rewrite Hks1 in Hks2.
  pose proof (DtlsProps.client_answer_step cc a1 name Hwa1 Hname Hreq) as Ha2.
  destruct (client_says_hello u2 c r Hc Hcore) as (out & r' & hello & Hb & Hbytes & Hd & Hcore').
  destruct (client_tls_done client u2 path_c (DtlsProps.answer_message name) rc2 hc2 r _ _ _ _ r' Hhc2 Hkc2 Htc2
    eq_refl eq_refl Ha2 eq_refl Hb) as (rc3 & hc3 & t3 & E5 & Hhc3 & Hkc3 & Htc3 & He3).
  exists hello, rc3, rs2. split.
  - split; [done|]. split; [exists hc3, r', t3; rewrite Hcore'; by split_and!|].
    exists hs2, q, ts2. eexists. by split_and!.
  - intros times. unfold converse. rewrite E1. cbn [snd]. rewrite Hsent. cbn [Dtls.outbound_datagrams Dtls.plain_output rounds].
    rewrite E2. cbn [Dtls.outbound_datagrams Dtls.plain_output]. rewrite E3. cbn [Dtls.outbound_datagrams Dtls.plain_output].
    rewrite E4. rewrite (server_name_built Hcfg). cbn [Dtls.outbound_datagrams Dtls.accepted_output].
    rewrite E5, Hbytes. done.
Qed.

(** A frame on its way to a handle. *)
Lemma client_hears now path bs f m out m' reg :
  client_runs m reg → Wire.decode bs = Ok f → Core.on_datagram now path bs m = (Ok out, m') →
  ∃ b reg', receive_all client now path [bs] reg = ([b], reg') ∧ client_runs m' reg' ∧
    map snd (datagrams b) = map Core.bytes (Core.outbound_datagrams out) ∧
    events b = map (λ e, event_json (client_host_event base64_encode (ClientRuntime.CoreEvent e))) (Core.events out).
Proof.
  intros (h & r & t & Hh & Hk & Ht & He & <-) Hd Hstep.
  destruct (client_takes_frame now path bs r out m' Hstep) as (o & r' & R & Hm & Ho & Hev).
  destruct (client_frame client now path bs reg h r t o r' Hh Hk Ht He (frame_is_not_dtls _ _ Hd) R)
    as (reg' & h' & E & Hh' & Hk' & Ht').
  eexists _, reg'. split; [exact E|]. split; [by exists h', r', t|].
  cbn. rewrite Ho, Hev, !map_map. by split.
Qed.

Lemma server_hears_from now bs f out m' reg h r t s :
  handles reg !! server = Some h → kind h = ServerEngine r → tls h = TlsServer t →
  path_session fs path_s t = Some s → path_established s = true → StoreSpec.store_ok (ServerRuntime.store r) →
  Wire.decode bs = Ok f → Wire.cid f = c →
  Core.on_datagram now path_s bs (ServerRuntime.core (ServerProps.addressed r now c path_s)) = (Ok out, m') →
  Core.state m' ≠ Core.Lost →
  ∃ b reg', receive_all server now path_s [bs] reg = ([b], reg') ∧ server_runs m' reg' ∧
    map snd (datagrams b) = map Core.bytes (Core.outbound_datagrams out) ∧
    ∃ before, events b = map (λ e, event_json (server_host_event e))
      (ServerRuntime.bound_events c path_s before ++ (Core.events out ≫= ServerRuntime.runtime_events base64_encode c)).
Proof.
  intros Hh Hk Ht Hps He Hok Hd Hc Hstep Hst.
  destruct (server_takes_frame now path_s bs f c r out m' Hok Hd Hc Hstep Hst) as (o & r' & R & Hhas & Hb & Hev).
  destruct (server_frame server now path_s bs reg h r t s o r' Hh Hk Ht Hps He (frame_is_not_dtls _ _ Hd) R)
    as (reg' & h' & t' & E & Hh' & Hk' & Ht' & Hps').
  eexists _, reg'. split; [exact E|]. split; [by exists h', r', t', s|]. split; [cbn; by rewrite map_map|].
  eexists. cbn. by rewrite Hev.
Qed.

(** The machines, in two more rounds. *)
Lemma machines_meet t3 u3 t4 u4 hello rc rs :
  is_u64 c → tls_done hello rc rs →
  let '(ds, rc', rs') := rounds [(t3, u3); (t4, u4)] client server path_c path_s [hello] rc rs in
  ds = [] ∧ linked 2 1 1 rc' rs'.
Proof.
  intros Hc (Hd & (h & r & t & Hh & Hk & Ht & He & conf & Hcore) & (k & q & tq & s & Hh' & Hk' & Ht' & Hps & Hest & Hok & Hn)).
  pose proof (addressed_fresh q t3 c path_s Hn) as Hfresh. pose proof Hfresh as (S & _ & St & _). injection S as F1 F2 F3 F4.
  destruct (CoreTransfer.hello_accepted t3 path_s hello (ServerRuntime.core (ServerProps.addressed q t3 c path_s)))
    as (o1 & b1 & R1 & (reply & B1 & V1 & _ & Hd1) & Rb1 & Sb1 & Cb1); [by rewrite F2|done|done|by rewrite F2|]. rewrite F2 in Hd1, Cb1.
  destruct (server_hears_from t3 hello _ o1 b1 rs k q tq s Hh' Hk' Ht' Hps Hest Hok Hd eq_refl R1)
    as (x1 & rs1 & E1 & Hrs1 & D1 & _); [by rewrite Sb1|].
  assert (Hrc : client_runs (ClientRuntime.core r) rc) by by exists h, r, t.
  destruct (CoreTransfer.hello_answered u3 path_c reply (ClientRuntime.core r)) as
    (o2 & a & R2 & (ack & B2 & V2 & _ & Hd2) & _ & Sa & Ca); rewrite ?Hcore; try done. rewrite Hcore in Hrc, R2, Hd2, Ca.
  change (Core.cid (Core.new Core.Client c conf)) with c in Hd2.
  destruct (client_hears u3 path_c reply _ _ o2 a rc Hrc Hd1 R2) as (x2 & rc1 & E2 & Hrc1 & D2 & _).
  destruct (CoreTransfer.hello_acknowledged t4 path_s ack b1) as (o3 & b & R3 & -> & _ & Sb & Cb);
    [done|done|by rewrite Cb1|].
  destruct Hrs1 as (k1 & q1 & tq1 & s1 & Hk1 & Hkk1 & Htq1 & Hps1 & Hest1 & Hhas).
  rewrite <-(addressed_has q1 t4 c path_s b1 Hhas) in R3.
  destruct (server_hears_from t4 ack _ _ b rs1 k1 q1 tq1 s1 Hk1 Hkk1 Htq1 Hps1 Hest1 (proj1 Hhas) Hd2 eq_refl R3)
    as (x3 & rs2 & E3 & Hrs2 & D3 & _); [by rewrite Sb|].
  rewrite (addressed_has q1 t4 c path_s b1 Hhas) in R3.
  cbn [rounds]. unfold deliver. rewrite E1, payloads_one, D1, B1. cbn [map Core.bytes]. rewrite E2, payloads_one, D2, B2.
  cbn [map Core.bytes]. rewrite E3, payloads_one, D3. cbn [map Core.outbound_datagrams Core.CoreOutput_default receive_all].
  split; [done|]. exists a, b. split; [done|]. split; [done|].
  destruct (CoreSession.greeted_synced c conf _ _ _ a b b1 t3 u3 t4 path_c path_s _ _ _ o1 o2 _ Hc
    (CoreEffects.unmoved_refl _) Hfresh Hd R1 V1 Hd1 R2 V2 Hd2 R3 eq_refl Sa Sb) as (Hsync & Hra & Hna & Hnb).
  by split_and!.
Qed.

Lemma hosts_meet t0 t1 u1 t2 u2 t3 u3 t4 u4 rc rs :
  is_u64 c → client_ready rc → server_ready rs →
  (Dtls.require_hostname_verification (Dtls.trust cc) = true → name = default [] (Dtls.expected_server_name cc)) →
  let '(ds, rc', rs') := converse t0 [(t1, u1); (t2, u2); (t3, u3); (t4, u4)] client server path_c path_s rc rs in
  ds = [] ∧ linked 2 1 1 rc' rs'.
Proof.
  intros Hc Hrc Hrs Hname.
  destruct (adapters_meet t0 t1 u1 t2 u2 rc rs Hc Hrc Hrs Hname) as (hello & rc' & rs' & Hdone & ->).
  by apply machines_meet.
Qed.

(** Two hosts that only carry datagrams establish a session through the interface: a client
    configured for TLS and a server that presents the name the client verifies go, whatever the
    times, paths and timer values, through the handshake of their adapters and that of their
    machines in four exchanges, after which nothing is left to carry, both machines are
    established under the client's identifier with nothing left to tell, and the server's session
    is in memory. *)
Theorem hosts_establish_a_session t0 t1 u1 t2 u2 t3 u3 t4 u4 rc rs :
  is_u64 c → client_ready rc → server_ready rs →
  (Dtls.require_hostname_verification (Dtls.trust cc) = true → name = default [] (Dtls.expected_server_name cc)) →
  let '(ds, rc', rs') := converse t0 [(t1, u1); (t2, u2); (t3, u3); (t4, u4)] client server path_c path_s rc rs in
  ds = [] ∧ linked 2 1 1 rc' rs'.
Proof. apply hosts_meet. Qed.

End Conversation.
End Hosts.

(* ------------------------------------------------------------------ *)
(** ** Witnesses *)
(* ------------------------------------------------------------------ *)

#[local] Existing Instance DtlsProps.permissive_openssl.
#[local] Existing Instance sample_texts.

Definition sample_client_cfg : Dtls.HandshakeConfig :=
  Dtls.mkHandshakeConfig Dtls.ServerAuth Dtls.default_cipher_policy (Dtls.mkTrustConfig [lit "PEM"] true) None
    (Some (lit "peer.example")).

Definition sample_server_cfg : Dtls.HandshakeConfig :=
  Dtls.mkHandshakeConfig Dtls.ServerAuth Dtls.default_cipher_policy (Dtls.mkTrustConfig [] false)
    (Some (Dtls.mkClientIdentityRef (lit "/key") [lit "/cert"])) (Some (lit "peer.example")).

Lemma sample_client_ready : client_ready 1 7 sample_client_cfg sample_client.
Proof.
  split; [|by vm_compute|by vm_compute; eexists].
  exists (mkEngineHandle (ClientEngine (ClientRuntime.new 7 (Core.mkCoreConfig 15000 3 180000)))
    (TlsClient (mkClientTlsState Dtls.new_openssl sample_client_cfg false false)) empty_buffer None).
  eexists. split; [vm_compute; reflexivity|]. split; [reflexivity|]. split; [reflexivity|]. by eexists.
Qed.

Lemma sample_server_ready :
  server_ready map_to_list (λ m, reflexivity _) (λ _, true) 1 7 sample_server_cfg
    (lit "peer.example") (lit "/cert") (lit "/key") sample_server.
Proof.
  split; [|by vm_compute|by vm_compute|by vm_compute; eexists].
  exists (mkEngineHandle (ServerEngine (ServerRuntime.new (Core.mkCoreConfig 15000 3 180000) (Store.mkInMemory (replicate 32 ∅))))
    (TlsServer (mkServerTlsState (lit "peer.example") (lit "/cert") (lit "/key") ∅)) empty_buffer None).
  eexists. split; [vm_compute; reflexivity|]. split; [reflexivity|]. split; [reflexivity|]. split; [|reflexivity].
  split; [done|]. intros i m c [-> _]%lookup_replicate [e He]. by rewrite lookup_empty in He.
Qed.

Lemma hosts_establish_a_session_witness :
  let '(ds, rc, rs) := converse (λ _, ""%string) (λ _, 0) map_to_list (λ _, true) 0 [(5, 10); (15, 20); (25, 30); (35, 40)]
    1 1 3 4 sample_client sample_server in
  ds = [] ∧ linked map_to_list (λ m, reflexivity _) (λ _, true) 1 1 4 7 2 1 1 rc rs.
Proof.
  pose proof (hosts_establish_a_session (λ _, ""%string) (λ _, 0) map_to_list (λ m, reflexivity _) (λ _, true) 1 1 3 4 7
    sample_client_cfg sample_server_cfg (lit "peer.example") (lit "/cert") (lit "/key")
    0 5 10 15 20 25 30 35 40 sample_client sample_server ltac:(split; vm_compute; congruence)
    sample_client_ready sample_server_ready (λ _, eq_refl)) as H.
  by destruct (converse _ _ _ _ _ _ _ _ _ _ _ _) as [[ds rc] rs].
Defined.
