(* ===== verification/FfiTransfer.v ===== *)
(** * Two hosts in conversation

    What the application of one host gives to its engine reaches the application of the other
    host as an event: the exchange of the machines carried through the runtimes and the interface,
    for hosts that share a session, in both directions and for any number of messages. *)

From S2P Require Import Prelude Bytes Text Core CoreSpec CoreSession Ffi FfiSession.
From S2P Require Wire Dtls DtlsProps Store StoreProps StoreSpec ClientRuntime ServerRuntime ServerLemmas ServerProps FfiProps.

Section Hosts.
Context `{ossl : !Dtls.Openssl, texts : !Texts}.
Context (base64_encode : list byte → string) (elapsed_us : Z → Z) (iter : gmap Z Store.Entry → list (Z * Store.Entry)).
Context (Hiter : ∀ m, iter m ≡ₚ map_to_list m) (fs : str → bool).
Context (client server path_c path_s c : Z).

#[local] Instance transfer_store : Store.SessionStore Store.InMemorySessionStore := Store.in_memory_store iter.
#[local] Instance transfer_lawful : StoreSpec.LawfulStore Store.InMemorySessionStore := StoreProps.in_memory_lawful iter Hiter.

Abbreviation receive_all := (receive_all base64_encode elapsed_us iter fs).
Abbreviation client_runs := (client_runs client).
Abbreviation server_runs := (server_runs iter Hiter fs server path_s c).
Abbreviation linked := (linked iter Hiter fs client server path_s c).

(* ------------------------------------------------------------------ *)
(** ** Specification *)
(* ------------------------------------------------------------------ *)

(** The client's application hands its host a message, and the hosts carry what that leads to;
    the outputs the two hosts find, in order. *)
Definition client_tells (ts : Z * Z * Z) (msg : list byte) (rc rs : Registry)
    : list OutputBuffer * list OutputBuffer * Registry * Registry :=
  let '(t1, t2, t3) := ts in
  let rc := (v3_ffi_send_message base64_encode client (Some msg) (zlen msg) rc).2 in
  let '(os1, rs) := receive_all server t1 path_s (payloads [found client rc]) rs in
  let '(os2, rc') := receive_all client t2 path_c (payloads os1) rc in
  let '(os3, rs) := receive_all server t3 path_s (payloads os2) rs in
  (found client rc :: os2, os1 ++ os3, rc', rs).

(** The same of the server's application, at a time. *)
Definition server_tells (now : Z) (ts : Z * Z * Z) (msg : list byte) (rc rs : Registry)
    : list OutputBuffer * list OutputBuffer * Registry * Registry :=
  let '(t1, t2, t3) := ts in
  let rs := (v3_ffi_server_send_message base64_encode elapsed_us iter server c (Some msg) (zlen msg) now rs).2 in
  let '(os1, rc) := receive_all client t1 path_c (payloads [found server rs]) rc in
  let '(os2, rs') := receive_all server t2 path_s (payloads os1) rs in
  let '(os3, rc) := receive_all client t3 path_c (payloads os2) rc in
  (os1 ++ os3, found server rs :: os2, rc, rs').

(** One turn after the other. *)
Fixpoint chat (l : list (Z * turn)) (rc rs : Registry) : list OutputBuffer * list OutputBuffer * Registry * Registry :=
  match l with
  | [] => ([], [], rc, rs)
  | (now, u) :: l =>
      let '(os_c, os_s, rc, rs) :=
        match speaker u with
        | Client => client_tells (times u) (said u) rc rs
        | Server => server_tells now (times u) (said u) rc rs
        end in
      let '(os_c', os_s', rc, rs) := chat l rc rs in
      (os_c ++ os_c', os_s ++ os_s', rc, rs)
  end.

(** The texts a host reads, and the messages among the events they print. *)
Definition read (os : list OutputBuffer) : list str := os ≫= events.

Definition client_delivery (e : HostEvent) : option (Z * string) :=
  match e with ClientDeliver id b64 => Some (id, b64) | _ => None end.

Definition server_delivery (e : HostEvent) : option (Z * Z * string) :=
  match e with ServerDeliver cid id b64 => Some (cid, id, b64) | _ => None end.

(** What the hosts are to read for numbered messages. *)
Definition for_client (l : list (Z * list byte)) : list (Z * string) := map (λ q, (q.1, base64_encode q.2)) l.
Definition for_server (l : list (Z * list byte)) : list (Z * Z * string) := map (λ q, (c, q.1, base64_encode q.2)) l.

(** The texts of a client's host announce these messages; those of a server's host. *)
Definition client_reads (os : list OutputBuffer) (l : list (Z * list byte)) : Prop :=
  ∃ es, read os = map event_json es ∧ omap client_delivery es = for_client l.

Definition server_reads (os : list OutputBuffer) (l : list (Z * list byte)) : Prop :=
  ∃ es, read os = map event_json es ∧ omap server_delivery es = for_server l.

Lemma client_reads_app os os' l l' : client_reads os l → client_reads os' l' → client_reads (os ++ os') (l ++ l').
Proof.
  intros (es & H1 & H2) (es' & H1' & H2'). exists (es ++ es'). unfold read, for_client in *.
  by rewrite bind_app, H1, H1', omap_app, H2, H2', !map_app.
Qed.

Lemma server_reads_app os os' l l' : server_reads os l → server_reads os' l' → server_reads (os ++ os') (l ++ l').
Proof.
  intros (es & H1 & H2) (es' & H1' & H2'). exists (es ++ es'). unfold read, for_server in *.
  by rewrite bind_app, H1, H1', omap_app, H2, H2', !map_app.
Qed.

(* ------------------------------------------------------------------ *)
(** ** Events *)
(* ------------------------------------------------------------------ *)

(** The output of a client's call on its machine. *)
Lemma client_reads_events b es :
  events b = map (λ e, event_json (client_host_event base64_encode (ClientRuntime.CoreEvent e))) es →
  client_reads [b] (received es).
Proof.
  intros Hb. exists (map (λ e, client_host_event base64_encode (ClientRuntime.CoreEvent e)) es).
  unfold read. cbn. rewrite app_nil_r, Hb, map_map. split; [done|]. clear Hb.
  induction es as [|e es IH]; [done|]. unfold received in *. rewrite bind_cons. unfold for_client in *. rewrite map_app, <-IH.
  by destruct e.
Qed.

Lemma server_reads_events b es pre :
  omap server_delivery (map server_host_event pre) = [] →
  events b = map (λ e, event_json (server_host_event e)) (pre ++ (es ≫= ServerRuntime.runtime_events base64_encode c)) →
  server_reads [b] (received es).
Proof.
  intros Hpre Hb. eexists. unfold read. cbn. rewrite app_nil_r, Hb, <-(map_map server_host_event event_json). split; [done|].
  rewrite map_app, omap_app, Hpre. clear Hb.
  cbn [app]. induction es as [|e es IH]; [done|]. unfold received in *. rewrite !bind_cons. unfold for_server in *.
  rewrite !map_app, omap_app, IH. by destruct e.
Qed.

Lemma bound_no_delivery path s : omap server_delivery (map server_host_event (ServerRuntime.bound_events c path s)) = [].
Proof. unfold ServerRuntime.bound_events. by repeat case_match. Qed.

(* ------------------------------------------------------------------ *)
(** ** Legs *)
(* ------------------------------------------------------------------ *)

(** Datagrams on their way to the client, and to the server. *)
Lemma client_carries now ds m outs m' :
  smooth c now path_c ds m outs m' → ∀ reg, client_runs m reg →
  ∃ os reg', receive_all client now path_c (map bytes ds) reg = (os, reg') ∧ client_runs m' reg' ∧
    payloads os = map bytes (all_datagrams outs) ∧ client_reads os (received (all_events outs)).
Proof.
  induction 1 as [m|d ds f out outs m m1 m2 Hd _ Hrun _ _ IH]; intros reg Hreg.
  { exists [], reg. split_and!; [done|done|done|]. by exists []. }
  destruct (client_hears base64_encode elapsed_us iter fs client now path_c (bytes d) f m out m1 reg Hreg Hd Hrun)
    as (b & reg1 & E1 & Hreg1 & Hb & Hev).
  destruct (IH reg1 Hreg1) as (os & reg2 & E2 & Hreg2 & Hp & Hread).
  exists ([b] ++ os), reg2. cbn [map]. rewrite receive_cons, E1, E2. split; [done|]. split; [done|].
  split; [unfold all_datagrams in *; by rewrite payloads_app, payloads_one, Hb, Hp, bind_cons, map_app|].
  unfold all_events in *. rewrite bind_cons, CoreEffects.received_app.
  apply client_reads_app; [by apply client_reads_events|done].
Qed.

Lemma server_carries now ds m outs m' :
  smooth c now path_s ds m outs m' → ∀ reg, server_runs m reg →
  ∃ os reg', receive_all server now path_s (map bytes ds) reg = (os, reg') ∧ server_runs m' reg' ∧
    payloads os = map bytes (all_datagrams outs) ∧ server_reads os (received (all_events outs)).
Proof.
  induction 1 as [m|d ds f out outs m m1 m2 Hd Hc Hrun Hst _ IH]; intros reg Hreg.
  { exists [], reg. split_and!; [done|done|done|]. by exists []. }
  destruct Hreg as (h & r & t & s & Hh & Hk & Ht & Hps & He & Hhas).
  rewrite <-(addressed_has iter Hiter r now c path_s m Hhas) in Hrun.
  destruct (server_hears_from base64_encode elapsed_us iter Hiter fs server path_s c now (bytes d) f out m1 reg h r t s
    Hh Hk Ht Hps He (proj1 Hhas) Hd Hc Hrun) as (b & reg1 & E1 & Hreg1 & Hb & before & Hev); [by rewrite Hst|].
  destruct (IH reg1 Hreg1) as (os & reg2 & E2 & Hreg2 & Hp & Hread).
  exists ([b] ++ os), reg2. cbn [map]. rewrite receive_cons, E1, E2. split; [done|]. split; [done|].
  split; [unfold all_datagrams in *; by rewrite payloads_app, payloads_one, Hb, Hp, bind_cons, map_app|].
  unfold all_events in *. rewrite bind_cons, CoreEffects.received_app.
  apply server_reads_app; [eapply server_reads_events; [apply bound_no_delivery|exact Hev]|done].
Qed.

(** An application hands over a message. *)
Lemma client_sends msg m out m' reg :
  client_runs m reg → on_api_send msg m = (Ok out, m') →
  let reg' := (v3_ffi_send_message base64_encode client (Some msg) (zlen msg) reg).2 in
  client_runs m' reg' ∧ payloads [found client reg'] = map bytes (outbound_datagrams out) ∧
  client_reads [found client reg'] (received (Core.events out)).
Proof.
  intros (h & r & t & Hh & Hk & Ht & He & <-) Hrun. unfold v3_ffi_send_message, with_handle. rewrite Hh.
  rewrite (st_bind_ok st_get _ h h h) by done. rewrite Hk, bytes_whole. unfold run_client, ClientRuntime.send_message, ClientRuntime.with_core.
  rewrite Hrun. unfold set_kind, set_output, st_modify, mbind, ST_bind, mret, ST_ret. cbn [ClientRuntime.apply_core_output snd].
  split; [do 3 eexists; split; [apply lookup_insert_eq|by split_and!]|].
  rewrite payloads_one. unfold found. cbn [handles upd]. rewrite lookup_insert_eq. cbn. rewrite !map_map. split; [done|].
  apply client_reads_events. cbn. by rewrite map_map.
Qed.

Lemma server_sends now msg m out m' reg :
  server_runs m reg → on_api_send msg m = (Ok out, m') → state m' ≠ Lost →
  let reg' := (v3_ffi_server_send_message base64_encode elapsed_us iter server c (Some msg) (zlen msg) now reg).2 in
  server_runs m' reg' ∧ payloads [found server reg'] = map bytes (outbound_datagrams out) ∧
  server_reads [found server reg'] (received (Core.events out)).
Proof.
  intros (h & r & t & s & Hh & Hk & Ht & Hps & He & Hok & ss & Hss & <-) Hrun Hst.
  assert (Hcall : ∃ o r', ServerRuntime.send_message base64_encode elapsed_us c msg now r = (Ok o, r') ∧
    server_has iter Hiter c m' r' ∧ map bytes (ServerRuntime.outbound_datagrams o) = map bytes (outbound_datagrams out) ∧
    ServerRuntime.events o = [] ++ (Core.events out ≫= ServerRuntime.runtime_events base64_encode c)).
  { pose proof (ServerProps.serve_session base64_encode elapsed_us (InSend msg) c 0 now r ss Hok Hss) as Hserve.
    cbn [step] in Hserve. rewrite Hrun in Hserve.
    assert (Hw : wp (ServerRuntime.send_message base64_encode elapsed_us c msg now)
      (ServerProps.served base64_encode c 0 now [] r (ss <| ServerRuntime.core := m' |>) (Ok out)) r).
    { unfold ServerRuntime.send_message. apply wp_bind, wp_get. cbn [then_wp]. rewrite bool_decide_eq_true_2 by (by eexists).
      exact Hserve. }
    unfold wp in Hw. destruct (ServerRuntime.send_message _ _ _ _ _ r) as [res r']. cbn [fst snd] in Hw. clear Hserve. rename Hw into Hserve.
    apply (served_kept base64_encode iter Hiter) in Hserve as (Hhas & o & Hres & Hb & Hev); [|done]. cbn in Hres. subst res.
    by exists o, r'. }
  destruct Hcall as (o & r' & R & Hhas & Hb & Hev).
  unfold v3_ffi_server_send_message, with_handle. rewrite Hh.
  rewrite (st_bind_ok st_get _ h h h) by done. rewrite Hk, bytes_whole. unfold run_server, handle_store.
  unfold transfer_store in R. rewrite R.
  unfold set_kind, set_output, st_modify, mbind, ST_bind, mret, ST_ret. cbn [snd].
  split; [do 4 eexists; split; [apply lookup_insert_eq|by split_and!]|].
  rewrite payloads_one. unfold found. cbn [handles upd]. rewrite lookup_insert_eq. cbn. rewrite !map_map.
  split; [by rewrite <-Hb|]. apply (server_reads_events _ _ []); [done|]. cbn. by rewrite Hev.
Qed.

(* ------------------------------------------------------------------ *)
(** ** Turns *)
(* ------------------------------------------------------------------ *)

Lemma client_is_heard ts msg n i j rc rs :
  linked n i j rc rs → n + 2 + frame_count msg < U64_MAX → CoreTransfer.sendable msg →
  ∃ os_c os_s rc' rs', client_tells ts msg rc rs = (os_c, os_s, rc', rs') ∧
    client_reads os_c [] ∧ server_reads os_s [(i, msg)] ∧ linked (n + 1 + frame_count msg) (i + 1) j rc' rs'.
Proof.
  intros (a & b & Ha & Hb & Hs & Hr & Hc & Hi & Hj) Hn Hmsg. destruct ts as [[t1 t2] t3].
  destruct (exchange_legs t1 t2 t3 path_c path_s msg n a b Hs Hn Hmsg) as
    (out & a1 & o1 & b1 & os2 & a2 & os3 & b2 & R1 & V1 & _ & R2 & V2 & R3 & V3 & R4 & D4 & V4 & Na & Nb & Ra & Ca & Hs').
  rewrite Hc in *. destruct (client_sends msg a out a1 rc Ha R1) as (Ha1 & P1 & Q1).
  destruct (server_carries t1 _ b [o1] b1 R2 rs Hb) as (x1 & rs1 & E1 & Hb1 & P2 & Q2).
  destruct (client_carries t2 _ a1 os2 a2 R3 _ Ha1) as (x2 & rc2 & E2 & Ha2 & P3 & Q3).
  destruct (server_carries t3 _ b1 os3 b2 R4 _ Hb1) as (x3 & rs3 & E3 & Hb2 & P4 & Q4).
  rewrite all_datagrams_one in P2. rewrite all_events_one, V2 in Q2. rewrite V1 in Q1. rewrite V3 in Q3. rewrite V4, Hi in Q4.
  unfold client_tells. rewrite P1, E1, P2, E2, P3, E3. do 4 eexists. split; [reflexivity|].
  split; [exact (client_reads_app [_] _ [] [] Q1 Q3)|]. split; [exact (server_reads_app _ _ [] _ Q2 Q4)|].
  exists a2, b2. split_and!; try done; congruence.
Qed.

Lemma server_is_heard now ts msg n i j rc rs :
  linked n i j rc rs → n + 2 + frame_count msg < U64_MAX → CoreTransfer.sendable msg →
  ∃ os_c os_s rc' rs', server_tells now ts msg rc rs = (os_c, os_s, rc', rs') ∧
    client_reads os_c [(j, msg)] ∧ server_reads os_s [] ∧ linked (n + 1 + frame_count msg) i (j + 1) rc' rs'.
Proof.
  intros (a & b & Ha & Hb & Hs & Hr & Hc & Hi & Hj) Hn Hmsg. destruct ts as [[t1 t2] t3].
  destruct (exchange_legs t1 t2 t3 path_s path_c msg n b a (synced_flip _ _ _ Hs) Hn Hmsg) as
    (out & b1 & o1 & a1 & os2 & b2 & os3 & a2 & R1 & V1 & St1 & R2 & V2 & R3 & V3 & R4 & D4 & V4 & Nb & Na & Rb & Cb & Hs').
  apply synced_flip in Hs'. assert (Hcb : cid b = c) by (destruct Hs as [_ Hcid _ _ _]; congruence). rewrite Hcb in *.
  destruct (server_sends now msg b out b1 rs Hb R1) as (Hb1 & P1 & Q1); [by rewrite St1|].
  destruct (client_carries t1 _ a [o1] a1 R2 rc Ha) as (x1 & rc1 & E1 & Ha1 & P2 & Q2).
  destruct (server_carries t2 _ b1 os2 b2 R3 _ Hb1) as (x2 & rs2 & E2 & Hb2 & P3 & Q3).
  destruct (client_carries t3 _ a1 os3 a2 R4 _ Ha1) as (x3 & rc3 & E3 & Ha2 & P4 & Q4).
  rewrite all_datagrams_one in P2. rewrite all_events_one, V2 in Q2. rewrite V1 in Q1. rewrite V3 in Q3. rewrite V4, Hj in Q4.
  unfold server_tells. rewrite P1, E1, P2, E2, P3, E3. do 4 eexists. split; [reflexivity|].
  split; [exact (client_reads_app _ _ [] _ Q2 Q4)|]. split; [exact (server_reads_app [_] _ [] [] Q1 Q3)|].
  destruct Hs as [Hroles _ _ _ _]. destruct Hs' as [Hroles' Hcid' He' Hf' Hb'].
  exists a2, b2. split_and!; try done; try congruence.
  destruct (role a2), (role b2), (role a), (role b); congruence.
Qed.

Lemma chat_heard l : ∀ n i j rc rs,
  linked n i j rc rs → n + cost l.*2 + 1 < U64_MAX → Forall (λ u, CoreTransfer.sendable (said u)) l.*2 →
  let '(os_c, os_s, rc', rs') := chat l rc rs in
  client_reads os_c (numbered j (spoken Server l.*2)) ∧ server_reads os_s (numbered i (spoken Client l.*2)) ∧
  ∃ n' i' j', linked n' i' j' rc' rs'.
Proof.
  induction l as [|[now u] l IH]; intros n i j rc rs Hl Hn Hall.
  { cbn. split; [by exists []|]. split; [by exists []|]. by exists n, i, j. }
  cbn [fmap list_fmap snd] in *. apply Forall_cons in Hall as [Hu Hall].
  assert (Hcu : cost (u :: l.*2) = 1 + frame_count (said u) + cost l.*2) by done. rewrite Hcu in Hn. clear Hcu.
  pose proof (cost_nonneg l.*2) as Hcost. cbn [chat]. unfold spoken. rewrite !filter_cons.
  destruct (speaker u) eqn:Hsp.
  - destruct (client_is_heard (times u) (said u) n i j rc rs Hl ltac:(lia) Hu) as (oc & os & rc1 & rs1 & -> & Qc & Qs & Hl').
    specialize (IH _ _ _ _ _ Hl' ltac:(lia) Hall). destruct (chat l rc1 rs1) as [[[oc' os'] rc'] rs'].
    destruct IH as (Qc' & Qs' & Hend). rewrite decide_False, decide_True, map_cons, numbered_cons by done.
    split; [exact (client_reads_app _ _ [] _ Qc Qc')|]. split; [exact (server_reads_app _ _ [_] _ Qs Qs')|done].
  - destruct (server_is_heard now (times u) (said u) n i j rc rs Hl ltac:(lia) Hu) as (oc & os & rc1 & rs1 & -> & Qc & Qs & Hl').
    specialize (IH _ _ _ _ _ Hl' ltac:(lia) Hall). destruct (chat l rc1 rs1) as [[[oc' os'] rc'] rs'].
    destruct IH as (Qc' & Qs' & Hend). rewrite decide_True, decide_False, map_cons, numbered_cons by done.
    split; [exact (client_reads_app _ _ [_] _ Qc Qc')|]. split; [exact (server_reads_app _ _ [] _ Qs Qs')|done].
Qed.

(** C5. What applications tell each other through the interface arrives: two hosts that set up a TLS
    client and server, let them establish a session, and then only carry datagrams read, in the
    events of their own engine, exactly the messages the application of the other host handed
    over, numbered in order and with their bytes, whoever speaks, whatever the times and paths.
    Both hosts have just configured their engines with TLS that starts, the name of the server is
    the one the client expects (if it verifies it), the server has no session under the
    connection, every message takes at most 65535 fragments (about 64.7 MB), and the conversation
    stays within the [u64] message numbers. *)
Theorem hosts_hear_each_other (cc sc : Dtls.HandshakeConfig) (name cert key : str) t0 t1 u1 t2 u2 t3 u3 t4 u4 l rc rs :
  is_u64 c → client_ready client c cc rc → server_ready iter Hiter fs server c sc name cert key rs →
  (Dtls.require_hostname_verification (Dtls.trust cc) = true → name = default [] (Dtls.expected_server_name cc)) →
  cost l.*2 + 3 < U64_MAX → Forall (λ u, CoreTransfer.sendable (said u)) l.*2 →
  let '(ds, rc1, rs1) := FfiSession.converse base64_encode elapsed_us iter fs t0
    [(t1, u1); (t2, u2); (t3, u3); (t4, u4)] client server path_c path_s rc rs in
  let '(os_c, os_s, _, _) := chat l rc1 rs1 in
  ds = [] ∧ client_reads os_c (numbered 1 (spoken Server l.*2)) ∧ server_reads os_s (numbered 1 (spoken Client l.*2)).
Proof.
  intros Hc Hrc Hrs Hname Hcost Hall.
  pose proof (hosts_meet base64_encode elapsed_us iter Hiter fs client server path_c path_s c cc sc name cert key
    t0 t1 u1 t2 u2 t3 u3 t4 u4 rc rs Hc Hrc Hrs Hname) as Hmeet.
  destruct (FfiSession.converse _ _ _ _ _ _ _ _ _ _ _ _) as [[ds rc1] rs1]. destruct Hmeet as [-> Hl].
  pose proof (chat_heard l 2 1 1 rc1 rs1 Hl ltac:(lia) Hall) as H. destruct (chat l rc1 rs1) as [[[oc os] rc'] rs'].
  destruct H as (H1 & H2 & _). by split_and!.
Qed.

End Hosts.

(* ------------------------------------------------------------------ *)
(** ** Witness *)
(* ------------------------------------------------------------------ *)

#[local] Existing Instance DtlsProps.permissive_openssl.
#[local] Existing Instance FfiProps.sample_texts.

(** A text encoding that only tells the length. *)
Definition sample_base64 (bs : list byte) : string := pretty (length bs).

Definition sample_chat : list (Z * turn) :=
  [(45, mkTurn Client (46, 47, 48) [x68; x69]); (49, mkTurn Server (50, 51, 52) (replicate 1200 x79))].

Lemma hosts_hear_each_other_witness :
  let '(ds, rc, rs) := FfiSession.converse sample_base64 (λ _, 0) map_to_list (λ _, true) 0 [(5, 10); (15, 20); (25, 30); (35, 40)]
    1 1 3 4 FfiProps.sample_client FfiProps.sample_server in
  let '(os_c, os_s, _, _) := chat sample_base64 (λ _, 0) map_to_list (λ _, true) 1 1 3 4 7 sample_chat rc rs in
  client_reads sample_base64 os_c [(1, replicate 1200 x79)] ∧ server_reads sample_base64 7 os_s [(1, [x68; x69])].
Proof.
  pose proof (hosts_hear_each_other sample_base64 (λ _, 0) map_to_list (λ m, reflexivity _) (λ _, true) 1 1 3 4 7
    sample_client_cfg sample_server_cfg (lit "peer.example") (lit "/cert") (lit "/key")
    0 5 10 15 20 25 30 35 40 sample_chat FfiProps.sample_client FfiProps.sample_server ltac:(split; vm_compute; congruence)
    sample_client_ready sample_server_ready (λ _, eq_refl) ltac:(by vm_compute) ltac:(repeat constructor; by vm_compute)) as H.
  destruct (FfiSession.converse _ _ _ _ _ _ _ _ _ _ _ _) as [[ds rc] rs].
  destruct (chat _ _ _ _ _ _ _ _ _ _ _ _) as [[[oc os] rc'] rs']. by destruct H as (_ & ? & ?).
Defined.
